(** * practice-vulkan: the frame loop and its resource protocol

    A shallow embedding of the parts of the Android Vulkan samples that the
    specification talks about:

    - [VkUtil]      : [vkGetMemoryTypeIndex] and [VK_CHECK_ERROR] of
                      move-triangle/app/src/main/cpp/VkUtil.h;
    - [Ieee]        : the binary32 / binary64 arithmetic the uniform update
                      performs, on the [spec_float] model of IEEE 754;
    - [Vk]          : the Vulkan entry points the renderer calls, as events of
                      a small program monad;
    - [Swapchain]   : surface-format and present-mode selection of the
                      constructor;
    - [Renderer]    : [VkRenderer::render] and [VkRenderer::~VkRenderer] of
                      hello-graceful-shutdown/app/src/main/cpp/VkRenderer.cpp;
    - [Sampler]     : [VkRenderer::render] of
                      vulkan-sampler/app/src/main/cpp/VkRenderer.cpp;
    - [Device]      : an abstract device (fences, queue) against which the
                      call sequences are run, interleaved with device progress.

    VkUtil.h gives [VK_CHECK_ERROR] two expansions.  The one selected when
    NDEBUG is defined, [do { vkFunction } while (0)], lacks the semicolon after
    the call and is rejected by the compiler at every use site, so the only
    configuration that builds is the one without NDEBUG: the checking macro,
    and a live [assert].  That configuration is the one embedded here. *)

From Stdlib Require Import ZArith List Bool Lia.
From Stdlib Require Import Floats.SpecFloat.
Import ListNotations.
Local Open Scope Z_scope.

(** ** C++ values *)

Module Cxx.

(** The result of evaluating an expression whose behaviour C++ leaves
    undefined on some operands (a shift by the width of the type, an index
    past the end of an array or vector). *)
Inductive cxx (A : Type) : Type :=
| Defined (a : A)
| Undefined.
Arguments Defined {A} a.
Arguments Undefined {A}.

Definition UINT32_MAX : Z := 4294967295.
Definition UINT64_MAX : Z := 18446744073709551615.

(** Conversion to [uint32_t]. *)
Definition u32 (z : Z) : Z := z mod 4294967296.

(** [v[i]] on a [std::vector] or array, [i] unsigned. *)
Definition at_ {A : Type} (v : list A) (i : Z) : option A :=
  if i <? 0 then None else nth_error v (Z.to_nat i).

End Cxx.
Export Cxx.

(** ** VkUtil.h *)

Module VkUtil.

Definition VkResult := Z.
Definition VK_SUCCESS : VkResult := 0.
Definition VK_NOT_READY : VkResult := 1.
Definition VK_TIMEOUT : VkResult := 2.
Definition VK_SUBOPTIMAL_KHR : VkResult := 1000001003.
Definition VK_ERROR_OUT_OF_HOST_MEMORY : VkResult := -1.
Definition VK_ERROR_OUT_OF_DEVICE_MEMORY : VkResult := -2.
Definition VK_ERROR_DEVICE_LOST : VkResult := -4.
Definition VK_ERROR_UNKNOWN : VkResult := -13.
Definition VK_ERROR_OUT_OF_DATE_KHR : VkResult := -1000001004.

Definition VK_MAX_MEMORY_TYPES : Z := 32.

Definition VkMemoryPropertyFlags := Z.
Definition VK_MEMORY_PROPERTY_DEVICE_LOCAL_BIT : Z := 1.
Definition VK_MEMORY_PROPERTY_HOST_VISIBLE_BIT : Z := 2.
Definition VK_MEMORY_PROPERTY_HOST_COHERENT_BIT : Z := 4.

Record VkMemoryType := {
  propertyFlags : VkMemoryPropertyFlags;
  heapIndex : Z
}.

(** [memoryTypes] is the array [VkMemoryType memoryTypes[VK_MAX_MEMORY_TYPES]]. *)
Record VkPhysicalDeviceMemoryProperties := {
  memoryTypeCount : Z;
  memoryTypes : list VkMemoryType
}.

Record VkMemoryRequirements := {
  size : Z;
  alignment : Z;
  memoryTypeBits : Z
}.

(** The body of the [for] loop of [vkGetMemoryTypeIndex], [n] iterations
    left, at index [i].  [i] is an [int]: [1 << i] is undefined from
    [i = 32] on, and for [i = 31] yields the sign bit, which the conversion
    to [uint32_t] in [memoryTypeBits & (1 << i)] turns into [2^31]. *)
Fixpoint scanMemoryTypes (props : VkPhysicalDeviceMemoryProperties)
    (typeBits : Z) (flags : VkMemoryPropertyFlags) (n : nat) (i : Z)
  : cxx (VkResult * Z) :=
  match n with
  | O => Defined (VK_ERROR_UNKNOWN, UINT32_MAX)
  | S n' =>
      if 32 <=? i then Undefined
      else if negb (Z.land typeBits (Z.shiftl 1 i) =? 0) then
        match at_ (memoryTypes props) i with
        | None => Undefined
        | Some t =>
            if Z.land (propertyFlags t) flags =? flags
            then Defined (VK_SUCCESS, i)
            else scanMemoryTypes props typeBits flags n' (i + 1)
        end
      else scanMemoryTypes props typeBits flags n' (i + 1)
  end.

(** [vkGetMemoryTypeIndex]: the [VkResult] and the value stored through
    [memoryTypeIndex]. *)
Definition vkGetMemoryTypeIndex (props : VkPhysicalDeviceMemoryProperties)
    (memoryRequirements : VkMemoryRequirements)
    (memoryPropertyFlags : VkMemoryPropertyFlags) : cxx (VkResult * Z) :=
  scanMemoryTypes props (memoryTypeBits memoryRequirements) memoryPropertyFlags
    (Z.to_nat (memoryTypeCount props)) 0.

(** A memory-type table as the Vulkan headers type it: the array has
    [VK_MAX_MEMORY_TYPES] entries, of which the first [memoryTypeCount] are
    meaningful. *)
Definition wf_table (props : VkPhysicalDeviceMemoryProperties) : Prop :=
  0 <= memoryTypeCount props <= VK_MAX_MEMORY_TYPES /\
  Z.of_nat (length (memoryTypes props)) = VK_MAX_MEMORY_TYPES.

(** Index [i] of the table is compatible with the requirements and carries
    every desired property. *)
Definition suitable (props : VkPhysicalDeviceMemoryProperties)
    (req : VkMemoryRequirements) (flags : VkMemoryPropertyFlags) (i : Z) : Prop :=
  0 <= i < memoryTypeCount props /\
  Z.testbit (memoryTypeBits req) i = true /\
  exists t, at_ (memoryTypes props) i = Some t /\
    forall b, Z.testbit flags b = true -> Z.testbit (propertyFlags t) b = true.

(** A table with a device-local type at index 0 and a host-visible,
    host-coherent type at index 1. *)
Definition sample_table : VkPhysicalDeviceMemoryProperties :=
  {| memoryTypeCount := 2;
     memoryTypes :=
       {| propertyFlags := VK_MEMORY_PROPERTY_DEVICE_LOCAL_BIT; heapIndex := 0 |} ::
       {| propertyFlags := 6; heapIndex := 1 |} ::
       repeat {| propertyFlags := 0; heapIndex := 0 |} 30 |}.

(** Requirements that admit both types. *)
Definition sample_requirements : VkMemoryRequirements :=
  {| size := 36; alignment := 4; memoryTypeBits := 3 |}.

End VkUtil.
Export VkUtil.

(** ** IEEE 754 arithmetic of the uniform update *)

Module Ieee.

(** [float] is binary32, [double] binary64; both are carried by
    [spec_float], in the canonical form of their own format. *)
Definition float := spec_float.
Definition double := spec_float.

Definition to_double (x : float) : double :=
  match x with
  | S754_finite s m e => binary_round 53 1024 s m e
  | _ => x
  end.

Definition to_float (x : double) : float :=
  match x with
  | S754_finite s m e => binary_round 24 128 s m e
  | _ => x
  end.

(** [static_cast<float>] of an unsigned integer. *)
Definition float_of_Z (z : Z) : float := binary_normalize 24 128 z 0 false.
Definition double_of_Z (z : Z) : double := binary_normalize 53 1024 z 0 false.

(** The [double] nearest to the decimal literal [n / d], and the [float]
    nearest to it (a literal with the [f] suffix). *)
Definition literal (n d : Z) : double :=
  SFdiv 53 1024 (double_of_Z n) (double_of_Z d).

Definition add64 : double -> double -> double := SFadd 53 1024.
Definition lt64 : double -> double -> bool := SFltb.
Definition div32 : float -> float -> float := SFdiv 24 128.

Definition zero : float := S754_zero false.

(** [p += 0.01] on a [float] lvalue: the sum is formed in [double] and
    rounded back on assignment. *)
Definition incremented (p : float) : float :=
  to_float (add64 (to_double p) (literal 1 100)).

(** [p > 1.5], after promotion of [p]. *)
Definition exceeds (p : float) : bool :=
  lt64 (literal 3 2) (to_double p).

(** The value assigned by [p = -1.5]. *)
Definition reset_value : float := to_float (SFopp (literal 3 2)).


End Ieee.
Export Ieee.

(** ** The Vulkan entry points the renderer uses *)

Module Vk.

Definition Handle := Z.
Definition VK_NULL_HANDLE : Handle := 0.

Definition VK_COMMAND_BUFFER_USAGE_ONE_TIME_SUBMIT_BIT : Z := 1.
Definition VK_SUBPASS_CONTENTS_INLINE : Z := 0.
Definition VK_PIPELINE_BIND_POINT_GRAPHICS : Z := 0.

Record VkExtent2D := { width : Z; height : Z }.
Record VkOffset2D := { offset_x : Z; offset_y : Z }.
Record VkRect2D := { offset : VkOffset2D; extent : VkExtent2D }.

Record VkViewport := {
  viewport_x : float;
  viewport_y : float;
  viewport_width : float;
  viewport_height : float;
  minDepth : float;
  maxDepth : float
}.

(** [VkClearValue], as its [color.float32] member. *)
Definition VkClearValue := list float.

Record VkRenderPassBeginInfo := {
  renderPass : Handle;
  framebuffer : Handle;
  renderArea : VkRect2D;
  pClearValues : list VkClearValue
}.

Record VkSubmitInfo := {
  pWaitSemaphores : list Handle;
  pCommandBuffers : list Handle;
  pSignalSemaphores : list Handle
}.

Record VkPresentInfoKHR := {
  present_pWaitSemaphores : list Handle;
  pSwapchains : list Handle;
  pImageIndices : list Z
}.

(** What the program does to the outside: a Vulkan call with the arguments
    that matter, or a store through a pointer into mapped device memory. *)
Inductive action : Type :=
| vkWaitForFences (device : Handle) (pFences : list Handle) (waitAll : bool) (timeout : Z)
| vkResetFences (device : Handle) (pFences : list Handle)
| vkAcquireNextImageKHR (device swapchain : Handle) (timeout : Z) (semaphore fence : Handle)
| vkResetCommandBuffer (commandBuffer : Handle) (flags : Z)
| vkBeginCommandBuffer (commandBuffer : Handle) (flags : Z)
| vkCmdBeginRenderPass (commandBuffer : Handle) (info : VkRenderPassBeginInfo) (contents : Z)
| vkCmdSetViewport (commandBuffer : Handle) (firstViewport : Z) (pViewports : list VkViewport)
| vkCmdSetScissor (commandBuffer : Handle) (firstScissor : Z) (pScissors : list VkRect2D)
| vkCmdBindPipeline (commandBuffer : Handle) (bindPoint : Z) (pipeline : Handle)
| vkCmdBindVertexBuffers (commandBuffer : Handle) (firstBinding : Z)
    (pBuffers : list Handle) (pOffsets : list Z)
| vkCmdBindDescriptorSets (commandBuffer : Handle) (bindPoint : Z) (layout : Handle)
    (firstSet : Z) (pDescriptorSets : list Handle) (pDynamicOffsets : list Z)
| vkCmdDraw (commandBuffer : Handle) (vertexCount instanceCount firstVertex firstInstance : Z)
| vkCmdEndRenderPass (commandBuffer : Handle)
| vkEndCommandBuffer (commandBuffer : Handle)
| vkQueueSubmit (queue : Handle) (pSubmits : list VkSubmitInfo) (fence : Handle)
| vkQueuePresentKHR (queue : Handle) (info : VkPresentInfoKHR)
| vkQueueWaitIdle (queue : Handle)
| vkDeviceWaitIdle (device : Handle)
| vkFreeDescriptorSets (device pool : Handle) (pDescriptorSets : list Handle)
| vkDestroyDescriptorPool (device pool : Handle)
| vkDestroySampler (device sampler : Handle)
| vkDestroyImageView (device view : Handle)
| vkFreeMemory (device memory : Handle)
| vkDestroyImage (device image : Handle)
| vkDestroyTexture (device texture : Handle)
| vkUnmapMemory (device memory : Handle)
| vkDestroyBuffer (device buffer : Handle)
| vkDestroyDescriptorSetLayout (device layout : Handle)
| vkDestroyPipelineLayout (device layout : Handle)
| vkDestroyPipeline (device pipeline : Handle)
| vkDestroyShaderModule (device module : Handle)
| vkDestroyFramebuffer (device framebuffer : Handle)
| vkDestroyRenderPass (device renderPass : Handle)
| vkDestroySemaphore (device semaphore : Handle)
| vkDestroyFence (device fence : Handle)
| vkFreeCommandBuffers (device pool : Handle) (pCommandBuffers : list Handle)
| vkDestroyCommandPool (device pool : Handle)
| vkDestroySwapchainKHR (device swapchain : Handle)
| vkDestroySurfaceKHR (instance surface : Handle)
| vkDestroyDevice (device : Handle)
| vkDestroyInstance (instance : Handle)
| storePosition (uniformData : Z) (i : Z) (value : float)
| storeRatio (uniformData : Z) (value : float).

(** What a call hands back: its [VkResult] (meaningless for a [void] entry
    point and for a store) and, for [vkAcquireNextImageKHR], the value
    written through [pImageIndex]. *)
Record Reply := { result : VkResult; imageIndex : Z }.

(** How the process can die: [VK_CHECK_ERROR] printed
    ["<call> returns <result>."] and called [abort()], or an [assert]
    failed. *)
Inductive Fatal : Type :=
| check_error (c : action) (r : VkResult)
| assertion_failed.

(** Programs: straight-line code over [action]s. *)
Inductive Prog (A : Type) : Type :=
| Ret (a : A)
| Call (c : action) (k : Reply -> Prog A)
| Abort (f : Fatal)
| Undef.
Arguments Ret {A} a.
Arguments Call {A} c k.
Arguments Abort {A} f.
Arguments Undef {A}.

Fixpoint bind {A B : Type} (p : Prog A) (f : A -> Prog B) : Prog B :=
  match p with
  | Ret a => f a
  | Call c k => Call c (fun r => bind (k r) f)
  | Abort e => Abort e
  | Undef => Undef
  end.

Declare Scope prog_scope.
Delimit Scope prog_scope with prog.
Notation "x <- p ;; q" := (bind p (fun x => q))
  (at level 61, p at next level, right associativity) : prog_scope.
Notation "p ;; q" := (bind p (fun _ => q))
  (at level 61, right associativity) : prog_scope.

(** A call whose result the code does not look at. *)
Definition call (c : action) : Prog Reply := Call c (fun r => Ret r).

(** [VK_CHECK_ERROR(c)]. *)
Definition VK_CHECK_ERROR (c : action) : Prog Reply :=
  Call c (fun r =>
    if result r =? VK_SUCCESS then Ret r else Abort (check_error c (result r))).

(** [assert(b)]. *)
Definition assert (b : bool) : Prog unit :=
  if b then Ret tt else Abort assertion_failed.

(** [v[i]]. *)
Definition index {A : Type} (v : list A) (i : Z) : Prog A :=
  match at_ v i with
  | Some x => Ret x
  | None => Undef
  end.

(** [for (auto x : v) body(x);] *)
Fixpoint for_each {A : Type} (v : list A) (body : A -> Prog Reply) : Prog unit :=
  match v with
  | [] => Ret tt
  | x :: v' => bind (body x) (fun _ => for_each v' body)
  end.

(** How a run ends. *)
Inductive Outcome (A : Type) : Type :=
| Returned (a : A)
| Aborted (f : Fatal)
| Faulted.
Arguments Returned {A} a.
Arguments Aborted {A} f.
Arguments Faulted {A}.

(** A trace: the actions performed, in order, each with the reply it got. *)
Definition Trace := list (action * Reply).
Definition calls (t : Trace) : list action := map fst t.

(** Running a program against an outside [env] that answers the [n]-th
    action, [c], with [env n c]: the trace and the outcome. *)
Fixpoint run {A : Type} (p : Prog A) (env : nat -> action -> Reply) (n : nat)
  : Trace * Outcome A :=
  match p with
  | Ret a => ([], Returned a)
  | Call c k =>
      let (t, o) := run (k (env n c)) env (S n) in ((c, env n c) :: t, o)
  | Abort f => ([], Aborted f)
  | Undef => ([], Faulted)
  end.

(** The same as a relation: [p] can perform [t] and end in [o]. *)
Inductive performs {A : Type} : Prog A -> Trace -> Outcome A -> Prop :=
| performs_ret a : performs (Ret a) [] (Returned a)
| performs_abort f : performs (Abort f) [] (Aborted f)
| performs_undef : performs Undef [] Faulted
| performs_call c k r t o :
    performs (k r) t o -> performs (Call c k) ((c, r) :: t) o.

(** The outside that lets every call succeed and hands out image [img]. *)
Definition succeed (img : Z) : nat -> action -> Reply :=
  fun _ _ => {| result := VK_SUCCESS; imageIndex := img |}.

(** The outside that answers [vkResetCommandBuffer] with [res] and lets
    every other call succeed. *)
Definition reset_returns (res : VkResult) (img : Z) : nat -> action -> Reply :=
  fun _ c =>
    match c with
    | vkResetCommandBuffer _ _ => {| result := res; imageIndex := img |}
    | _ => {| result := VK_SUCCESS; imageIndex := img |}
    end.

(** The outside that answers [vkQueueSubmit] with [res] and lets every
    other call succeed. *)
Definition submit_returns (res : VkResult) (img : Z) : nat -> action -> Reply :=
  fun _ c =>
    match c with
    | vkQueueSubmit _ _ _ => {| result := res; imageIndex := img |}
    | _ => {| result := VK_SUCCESS; imageIndex := img |}
    end.

End Vk.
Export Vk.

(** ** Surface format and present mode (constructor, step 6) *)

Module Swapchain.

Definition VK_FORMAT_R8G8B8A8_UNORM : Z := 37.
Definition VK_FORMAT_R8G8B8A8_SRGB : Z := 43.
Definition VK_FORMAT_B8G8R8A8_UNORM : Z := 44.
Definition VK_FORMAT_MAX_ENUM : Z := 2147483647.

Definition VK_PRESENT_MODE_IMMEDIATE_KHR : Z := 0.
Definition VK_PRESENT_MODE_MAILBOX_KHR : Z := 1.
Definition VK_PRESENT_MODE_FIFO_KHR : Z := 2.
Definition VK_PRESENT_MODE_MAX_ENUM_KHR : Z := 2147483647.

Definition INT_MAX : Z := 2147483647.

Record VkSurfaceFormatKHR := { format : Z; colorSpace : Z }.
Definition VkPresentModeKHR := Z.

(** The loop
    [for (auto i = 0; i != surfaceFormatCount; ++i)
       if (surfaceFormats[i].format == VK_FORMAT_R8G8B8A8_UNORM)
         { surfaceFormatIndex = i; break; }]
    from index [i] on, [index] being the value of [surfaceFormatIndex] so far. *)
Fixpoint findSurfaceFormat (surfaceFormats : list VkSurfaceFormatKHR)
    (i : Z) (surfaceFormatIndex : Z) : Z :=
  match surfaceFormats with
  | [] => surfaceFormatIndex
  | f :: rest =>
      if format f =? VK_FORMAT_R8G8B8A8_UNORM then u32 i
      else findSurfaceFormat rest (i + 1) surfaceFormatIndex
  end.

(** The same loop over [presentModes], looking for [VK_PRESENT_MODE_FIFO_KHR]. *)
Fixpoint findPresentMode (presentModes : list VkPresentModeKHR)
    (i : Z) (presentModeIndex : Z) : Z :=
  match presentModes with
  | [] => presentModeIndex
  | m :: rest =>
      if m =? VK_PRESENT_MODE_FIFO_KHR then u32 i
      else findPresentMode rest (i + 1) presentModeIndex
  end.

(** The members of [VkSwapchainCreateInfoKHR] that the two searches decide. *)
Record Negotiated := {
  surfaceFormatIndex : Z;
  presentModeIndex : Z;
  imageFormat : Z;
  imageColorSpace : Z;
  presentMode : VkPresentModeKHR
}.

(** From the enumerated formats and present modes to the swapchain create
    info: search, [assert], search, [assert], then the two vector reads of
    the initializer. *)
Definition negotiate (surfaceFormats : list VkSurfaceFormatKHR)
    (presentModes : list VkPresentModeKHR) : Prog Negotiated :=
  (let fi := findSurfaceFormat surfaceFormats 0 VK_FORMAT_MAX_ENUM in
   assert (negb (fi =? VK_FORMAT_MAX_ENUM)) ;;
   let pi := findPresentMode presentModes 0 VK_PRESENT_MODE_MAX_ENUM_KHR in
   assert (negb (pi =? VK_PRESENT_MODE_MAX_ENUM_KHR)) ;;
   f <- index surfaceFormats fi ;;
   m <- index presentModes pi ;;
   Ret {| surfaceFormatIndex := fi;
          presentModeIndex := pi;
          imageFormat := format f;
          imageColorSpace := colorSpace f;
          presentMode := m |})%prog.

(** [i] is the first position of [l] whose element satisfies [p]. *)
Definition first_at {A : Type} (p : A -> bool) (l : list A) (i : Z) (x : A) : Prop :=
  at_ l i = Some x /\ p x = true /\
  forall j y, 0 <= j < i -> at_ l j = Some y -> p y = false.

Definition is_rgba8_unorm (f : VkSurfaceFormatKHR) : bool :=
  format f =? VK_FORMAT_R8G8B8A8_UNORM.
Definition is_fifo (m : VkPresentModeKHR) : bool :=
  m =? VK_PRESENT_MODE_FIFO_KHR.

End Swapchain.
Export Swapchain.

(** ** The per-frame uniform block *)

Module UniformBlock.

(** [struct Uniform { float position[8]; float ratio; }]. *)
Record Uniform := { position : list float; ratio : float }.

(** A pointer into mapped memory together with what it points to. *)
Record Mapped := { address : Z; pointee : Uniform }.

(** [memset(uniformData, 0, sizeof(Uniform))]. *)
Definition zeroed : Uniform :=
  {| position := repeat zero 8; ratio := zero |}.

Fixpoint update_nth {A : Type} (n : nat) (x : A) (l : list A) : list A :=
  match l, n with
  | [], _ => []
  | _ :: l', O => x :: l'
  | y :: l', S n' => y :: update_nth n' x l'
  end.

(** [uniformData->position[i] = v], as a store the device can observe. *)
Definition store_position (u : Mapped) (i : Z) (v : float) : Prog Mapped :=
  Call (storePosition (address u) i v) (fun _ =>
    Ret {| address := address u;
           pointee := {| position := update_nth (Z.to_nat i) v (position (pointee u));
                         ratio := ratio (pointee u) |} |}).

(** [uniformData->ratio = v]. *)
Definition store_ratio (u : Mapped) (v : float) : Prog Mapped :=
  Call (storeRatio (address u) v) (fun _ =>
    Ret {| address := address u;
           pointee := {| position := position (pointee u); ratio := v |} |}).

(** The body of the update loop at index [i]:
    [position[i] += 0.01; if (position[i] > 1.5) position[i] = -1.5;] *)
Definition bump (u : Mapped) (i : Z) : Prog Mapped :=
  (p <- index (position (pointee u)) i ;;
   u1 <- store_position u i (incremented p) ;;
   p1 <- index (position (pointee u1)) i ;;
   if exceeds p1 then store_position u1 i reset_value else Ret u1)%prog.

(** [for (auto i = 0; i < 8; i += 4) ...], from [i] on; [fuel] bounds the
    number of iterations and is never exhausted when it starts at 8. *)
Fixpoint bump_loop (fuel : nat) (i : Z) (u : Mapped) : Prog Mapped :=
  match fuel with
  | O => Undef
  | S fuel' =>
      if i <? 8 then bind (bump u i) (bump_loop fuel' (i + 4)) else Ret u
  end.

(** Step 2 of [render]: the loop, then the ratio of the swapchain extent.
    [height / static_cast<float>(width)] converts both operands to [float]. *)
Definition update (e : VkExtent2D) (u : Mapped) : Prog Mapped :=
  (u1 <- bump_loop 8 0 u ;;
   store_ratio u1 (div32 (float_of_Z (height e)) (float_of_Z (width e))))%prog.

End UniformBlock.
Export UniformBlock.

(** ** Vocabulary for the statements about the uniform block *)

Module UniformSpec.

(** The value a position holds after one update: incremented, and reset
    when the incremented value exceeds 1.5. *)
Definition updated (p : float) : float :=
  if exceeds (incremented p) then reset_value else incremented p.

(** A store into the block at [a]: element 0 or 4 of [position], or [ratio]. *)
Definition slot_store (a : Z) (c : action) : Prop :=
  match c with
  | storePosition a' i _ => a' = a /\ (i = 0 \/ i = 4)
  | storeRatio a' _ => a' = a
  | _ => False
  end.

(** The stores one pass of the loop body makes for element [i] holding [p]. *)
Definition bump_stores (a : Z) (i : Z) (p : float) : list action :=
  storePosition a i (incremented p) ::
  (if exceeds (incremented p) then [storePosition a i reset_value] else []).

(** The stores of step 2 on block [u], in order. *)
Definition update_stores (e : VkExtent2D) (u : Mapped) : list action :=
  match at_ (position (pointee u)) 0, at_ (position (pointee u)) 4 with
  | Some p0, Some p4 =>
      bump_stores (address u) 0 p0 ++ bump_stores (address u) 4 p4 ++
      [storeRatio (address u) (div32 (float_of_Z (height e)) (float_of_Z (width e)))]
  | _, _ => []
  end.



(** A block whose element 0 holds [p], the other elements zero. *)
Definition block_with (a : Z) (p : float) : Mapped :=
  {| address := a;
     pointee := {| position := p :: repeat zero 7; ratio := zero |} |}.


End UniformSpec.
Export UniformSpec.

(** ** hello-graceful-shutdown: VkRenderer *)

Module Renderer.

(** The members of the class that [render] and the destructor read.  One
    entry per swapchain image in each of the per-slot vectors. *)
Record VkRenderer := {
  mInstance : Handle;
  mDevice : Handle;
  mQueue : Handle;
  mSurface : Handle;
  mSwapchain : Handle;
  mSwapchainImages : list Handle;
  mSwapchainImageExtent : VkExtent2D;
  mSwapchainImageViews : list Handle;
  mCommandPool : Handle;
  mCommandBuffers : list Handle;
  mFencesForSubmit : list Handle;
  mFencesForAcquire : list Handle;
  mSemaphores : list Handle;
  mClearValue : VkClearValue;
  mRenderPass : Handle;
  mFramebuffers : list Handle;
  mVertexShaderModule : Handle;
  mFragmentShaderModule : Handle;
  mDescriptorSetLayout : Handle;
  mPipelineLayout : Handle;
  mPipeline : Handle;
  mVertexBuffer : Handle;
  mVertexMemory : Handle;
  mUniformBuffers : list Handle;
  mUniformMemories : list Handle;
  mUniformData : list Mapped;
  mDescriptorPool : Handle;
  mDescriptorSets : list Handle;
  mTexture : Handle;
  mImage : Handle;
  mMemory : Handle;
  mImageView : Handle;
  mSampler : Handle;
  mFrameIndex : Z
}.

(** The member initializer [mFrameIndex{0}] of the constructor. *)
Definition constructed_frame_index : Z := 0.

(** Modelled from the spec: the class declaration of this sample
    (its VkRenderer.h) is not among the sources, so the type of
    [mFrameIndex] is not visible; the counter is "mod N" in the
    specification and is taken to be a [uint32_t], like the indices and
    counts it is compared with.  [++mFrameIndex] wraps accordingly. *)
Definition pre_increment (frameIndex : Z) : Z := u32 (frameIndex + 1).

(** [this] after a completed [render]: the slot's mapped block holds [u],
    and [mFrameIndex] is [frameIndex]. *)
Definition after_frame (this : VkRenderer) (u : Mapped) (frameIndex : Z) : VkRenderer :=
  {| mInstance := mInstance this;
     mDevice := mDevice this;
     mQueue := mQueue this;
     mSurface := mSurface this;
     mSwapchain := mSwapchain this;
     mSwapchainImages := mSwapchainImages this;
     mSwapchainImageExtent := mSwapchainImageExtent this;
     mSwapchainImageViews := mSwapchainImageViews this;
     mCommandPool := mCommandPool this;
     mCommandBuffers := mCommandBuffers this;
     mFencesForSubmit := mFencesForSubmit this;
     mFencesForAcquire := mFencesForAcquire this;
     mSemaphores := mSemaphores this;
     mClearValue := mClearValue this;
     mRenderPass := mRenderPass this;
     mFramebuffers := mFramebuffers this;
     mVertexShaderModule := mVertexShaderModule this;
     mFragmentShaderModule := mFragmentShaderModule this;
     mDescriptorSetLayout := mDescriptorSetLayout this;
     mPipelineLayout := mPipelineLayout this;
     mPipeline := mPipeline this;
     mVertexBuffer := mVertexBuffer this;
     mVertexMemory := mVertexMemory this;
     mUniformBuffers := mUniformBuffers this;
     mUniformMemories := mUniformMemories this;
     mUniformData := update_nth (Z.to_nat (mFrameIndex this)) u (mUniformData this);
     mDescriptorPool := mDescriptorPool this;
     mDescriptorSets := mDescriptorSets this;
     mTexture := mTexture this;
     mImage := mImage this;
     mMemory := mMemory this;
     mImageView := mImageView this;
     mSampler := mSampler this;
     mFrameIndex := frameIndex |}.

Definition viewport_of (e : VkExtent2D) : VkViewport :=
  {| viewport_x := zero;
     viewport_y := zero;
     viewport_width := float_of_Z (width e);
     viewport_height := float_of_Z (height e);
     minDepth := zero;
     maxDepth := float_of_Z 1 |}.

Definition rect_of (e : VkExtent2D) : VkRect2D :=
  {| offset := {| offset_x := 0; offset_y := 0 |}; extent := e |}.

(** Steps 5 to 15 of [render]: reset the command buffer and record the
    frame into it, against [framebuffer]. *)
Definition record (this : VkRenderer) (commandBuffer framebuffer descriptorSet : Handle)
  : Prog Reply :=
  (call (vkResetCommandBuffer commandBuffer 0) ;;
   VK_CHECK_ERROR (vkBeginCommandBuffer commandBuffer
                     VK_COMMAND_BUFFER_USAGE_ONE_TIME_SUBMIT_BIT) ;;
   call (vkCmdBeginRenderPass commandBuffer
           {| renderPass := mRenderPass this;
              framebuffer := framebuffer;
              renderArea := rect_of (mSwapchainImageExtent this);
              pClearValues := [mClearValue this] |}
           VK_SUBPASS_CONTENTS_INLINE) ;;
   call (vkCmdSetViewport commandBuffer 0 [viewport_of (mSwapchainImageExtent this)]) ;;
   call (vkCmdSetScissor commandBuffer 0 [rect_of (mSwapchainImageExtent this)]) ;;
   call (vkCmdBindPipeline commandBuffer VK_PIPELINE_BIND_POINT_GRAPHICS (mPipeline this)) ;;
   call (vkCmdBindVertexBuffers commandBuffer 0 [mVertexBuffer this] [0]) ;;
   call (vkCmdBindDescriptorSets commandBuffer VK_PIPELINE_BIND_POINT_GRAPHICS
           (mPipelineLayout this) 0 [descriptorSet] []) ;;
   call (vkCmdDraw commandBuffer 3 1 0 0) ;;
   call (vkCmdEndRenderPass commandBuffer) ;;
   VK_CHECK_ERROR (vkEndCommandBuffer commandBuffer))%prog.

(** [VkRenderer::render]. *)
Definition render (this : VkRenderer) : Prog VkRenderer :=
  (fenceForSubmit <- index (mFencesForSubmit this) (mFrameIndex this) ;;
   fenceForAcquire <- index (mFencesForAcquire this) (mFrameIndex this) ;;
   commandBuffer <- index (mCommandBuffers this) (mFrameIndex this) ;;
   uniformData <- index (mUniformData this) (mFrameIndex this) ;;
   descriptorSet <- index (mDescriptorSets this) (mFrameIndex this) ;;
   semaphore <- index (mSemaphores this) (mFrameIndex this) ;;
   (* 1 *)
   VK_CHECK_ERROR (vkWaitForFences (mDevice this) [fenceForSubmit] true UINT64_MAX) ;;
   VK_CHECK_ERROR (vkResetFences (mDevice this) [fenceForSubmit]) ;;
   (* 2 *)
   uniformData' <- update (mSwapchainImageExtent this) uniformData ;;
   (* 3 *)
   acquired <- VK_CHECK_ERROR (vkAcquireNextImageKHR (mDevice this) (mSwapchain this)
                                 UINT64_MAX VK_NULL_HANDLE fenceForAcquire) ;;
   let swapchainImageIndex := imageIndex acquired in
   framebuffer <- index (mFramebuffers this) swapchainImageIndex ;;
   (* 4 *)
   VK_CHECK_ERROR (vkWaitForFences (mDevice this) [fenceForAcquire] true UINT64_MAX) ;;
   VK_CHECK_ERROR (vkResetFences (mDevice this) [fenceForAcquire]) ;;
   (* 5 - 15 *)
   record this commandBuffer framebuffer descriptorSet ;;
   (* 16 *)
   VK_CHECK_ERROR (vkQueueSubmit (mQueue this)
                     [{| pWaitSemaphores := [];
                         pCommandBuffers := [commandBuffer];
                         pSignalSemaphores := [semaphore] |}]
                     fenceForSubmit) ;;
   (* 17 *)
   VK_CHECK_ERROR (vkQueuePresentKHR (mQueue this)
                     {| present_pWaitSemaphores := [semaphore];
                        pSwapchains := [mSwapchain this];
                        pImageIndices := [swapchainImageIndex] |}) ;;
   (* 18: mFrameIndex = ++mFrameIndex % mSwapchainImages.size() *)
   let size := Z.of_nat (length (mSwapchainImages this)) in
   if size =? 0 then Undef
   else Ret (after_frame this uniformData'
               (u32 (pre_increment (mFrameIndex this) mod size))))%prog.

(** The host application calls [render] once per frame; [n] frames. *)
Fixpoint frames (n : nat) (this : VkRenderer) : Prog VkRenderer :=
  match n with
  | O => Ret this
  | S n' => bind (render this) (frames n')
  end.

(** [VkRenderer::~VkRenderer], from its second statement on: the destroy
    and free calls, in the order of the source. *)
Definition teardown (this : VkRenderer) : Prog unit :=
  (let d := mDevice this in
   call (vkFreeDescriptorSets d (mDescriptorPool this) (mDescriptorSets this)) ;;
   call (vkDestroyDescriptorPool d (mDescriptorPool this)) ;;
   call (vkDestroySampler d (mSampler this)) ;;
   call (vkDestroyImageView d (mImageView this)) ;;
   call (vkFreeMemory d (mMemory this)) ;;
   call (vkDestroyImage d (mImage this)) ;;
   call (vkDestroyTexture d (mTexture this)) ;;
   for_each (mUniformMemories this) (fun m => call (vkUnmapMemory d m)) ;;
   for_each (mUniformMemories this) (fun m => call (vkFreeMemory d m)) ;;
   for_each (mUniformBuffers this) (fun b => call (vkDestroyBuffer d b)) ;;
   call (vkFreeMemory d (mVertexMemory this)) ;;
   call (vkDestroyBuffer d (mVertexBuffer this)) ;;
   call (vkDestroyDescriptorSetLayout d (mDescriptorSetLayout this)) ;;
   call (vkDestroyPipelineLayout d (mPipelineLayout this)) ;;
   call (vkDestroyPipeline d (mPipeline this)) ;;
   call (vkDestroyShaderModule d (mVertexShaderModule this)) ;;
   call (vkDestroyShaderModule d (mFragmentShaderModule this)) ;;
   for_each (mFramebuffers this) (fun f => call (vkDestroyFramebuffer d f)) ;;
   call (vkDestroyRenderPass d (mRenderPass this)) ;;
   for_each (mSwapchainImageViews this) (fun v => call (vkDestroyImageView d v)) ;;
   for_each (mSemaphores this) (fun s => call (vkDestroySemaphore d s)) ;;
   for_each (mFencesForAcquire this) (fun f => call (vkDestroyFence d f)) ;;
   for_each (mFencesForSubmit this) (fun f => call (vkDestroyFence d f)) ;;
   call (vkFreeCommandBuffers d (mCommandPool this) (mCommandBuffers this)) ;;
   call (vkDestroyCommandPool d (mCommandPool this)) ;;
   call (vkDestroySwapchainKHR d (mSwapchain this)) ;;
   call (vkDestroySurfaceKHR (mInstance this) (mSurface this)) ;;
   call (vkDestroyDevice d) ;;
   call (vkDestroyInstance (mInstance this)) ;;
   Ret tt)%prog.

(** [VkRenderer::~VkRenderer]. *)
Definition destructor (this : VkRenderer) : Prog unit :=
  (VK_CHECK_ERROR (vkDeviceWaitIdle (mDevice this)) ;;
   teardown this)%prog.

(** The number of swapchain images, [N]. *)
Definition slots (this : VkRenderer) : Z := Z.of_nat (length (mSwapchainImages this)).

(** What the constructor leaves behind: every per-slot vector was resized
    to the swapchain image count, and the frame index addresses a slot. *)
Record wf (this : VkRenderer) : Prop := {
  wf_slots : 1 <= slots this <= UINT32_MAX;
  wf_index : 0 <= mFrameIndex this < slots this;
  wf_commandBuffers : length (mCommandBuffers this) = length (mSwapchainImages this);
  wf_fencesForSubmit : length (mFencesForSubmit this) = length (mSwapchainImages this);
  wf_fencesForAcquire : length (mFencesForAcquire this) = length (mSwapchainImages this);
  wf_semaphores : length (mSemaphores this) = length (mSwapchainImages this);
  wf_framebuffers : length (mFramebuffers this) = length (mSwapchainImages this);
  wf_uniformData : length (mUniformData this) = length (mSwapchainImages this);
  wf_descriptorSets : length (mDescriptorSets this) = length (mSwapchainImages this);
  wf_positions : forall u, In u (mUniformData this) ->
                           length (position (pointee u)) = 8%nat
}.

End Renderer.
Export Renderer.

(** ** vulkan-sampler: VkRenderer::render *)

Module Sampler.

(** The members [render] reads: one command buffer, one fence, one
    semaphore, one mapped uniform block; no frame index. *)
Record VkRenderer := {
  mDevice : Handle;
  mQueue : Handle;
  mSwapchain : Handle;
  mSwapchainImageExtent : VkExtent2D;
  mCommandBuffer : Handle;
  mFence : Handle;
  mSemaphore : Handle;
  mClearValue : VkClearValue;
  mRenderPass : Handle;
  mFramebuffers : list Handle;
  mPipelineLayout : Handle;
  mPipeline : Handle;
  mVertexBuffer : Handle;
  mUniformData : Mapped;
  mDescriptorSet : Handle
}.

Definition after_frame (this : VkRenderer) (u : Mapped) : VkRenderer :=
  {| mDevice := mDevice this;
     mQueue := mQueue this;
     mSwapchain := mSwapchain this;
     mSwapchainImageExtent := mSwapchainImageExtent this;
     mCommandBuffer := mCommandBuffer this;
     mFence := mFence this;
     mSemaphore := mSemaphore this;
     mClearValue := mClearValue this;
     mRenderPass := mRenderPass this;
     mFramebuffers := mFramebuffers this;
     mPipelineLayout := mPipelineLayout this;
     mPipeline := mPipeline this;
     mVertexBuffer := mVertexBuffer this;
     mUniformData := u;
     mDescriptorSet := mDescriptorSet this |}.

Definition render (this : VkRenderer) : Prog VkRenderer :=
  (uniformData' <- update (mSwapchainImageExtent this) (mUniformData this) ;;
   acquired <- VK_CHECK_ERROR (vkAcquireNextImageKHR (mDevice this) (mSwapchain this)
                                 UINT64_MAX VK_NULL_HANDLE (mFence this)) ;;
   let swapchainImageIndex := imageIndex acquired in
   framebuffer <- index (mFramebuffers this) swapchainImageIndex ;;
   VK_CHECK_ERROR (vkWaitForFences (mDevice this) [mFence this] true UINT64_MAX) ;;
   VK_CHECK_ERROR (vkResetFences (mDevice this) [mFence this]) ;;
   call (vkResetCommandBuffer (mCommandBuffer this) 0) ;;
   VK_CHECK_ERROR (vkBeginCommandBuffer (mCommandBuffer this)
                     VK_COMMAND_BUFFER_USAGE_ONE_TIME_SUBMIT_BIT) ;;
   call (vkCmdBeginRenderPass (mCommandBuffer this)
           {| renderPass := mRenderPass this;
              framebuffer := framebuffer;
              renderArea := Renderer.rect_of (mSwapchainImageExtent this);
              pClearValues := [mClearValue this] |}
           VK_SUBPASS_CONTENTS_INLINE) ;;
   call (vkCmdBindPipeline (mCommandBuffer this) VK_PIPELINE_BIND_POINT_GRAPHICS
           (mPipeline this)) ;;
   call (vkCmdBindVertexBuffers (mCommandBuffer this) 0 [mVertexBuffer this] [0]) ;;
   call (vkCmdBindDescriptorSets (mCommandBuffer this) VK_PIPELINE_BIND_POINT_GRAPHICS
           (mPipelineLayout this) 0 [mDescriptorSet this] []) ;;
   call (vkCmdDraw (mCommandBuffer this) 3 1 0 0) ;;
   call (vkCmdEndRenderPass (mCommandBuffer this)) ;;
   VK_CHECK_ERROR (vkEndCommandBuffer (mCommandBuffer this)) ;;
   VK_CHECK_ERROR (vkQueueSubmit (mQueue this)
                     [{| pWaitSemaphores := [];
                         pCommandBuffers := [mCommandBuffer this];
                         pSignalSemaphores := [mSemaphore this] |}]
                     VK_NULL_HANDLE) ;;
   VK_CHECK_ERROR (vkQueuePresentKHR (mQueue this)
                     {| present_pWaitSemaphores := [mSemaphore this];
                        pSwapchains := [mSwapchain this];
                        pImageIndices := [swapchainImageIndex] |}) ;;
   VK_CHECK_ERROR (vkQueueWaitIdle (mQueue this)) ;;
   Ret (after_frame this uniformData'))%prog.

End Sampler.

(** ** An abstract device *)

Module Device.

(** A batch handed to the queue and not yet finished. *)
Record Submission := {
  commandBuffers : list Handle;
  signalFence : Handle
}.

(** What the program can observe of the device: which fences are signaled,
    which submissions the queue still executes, and which fences the
    presentation engine still owes a signal for an acquired image. *)
Record World := {
  signaled : Handle -> bool;
  inflight : list Submission;
  acquiring : list Handle
}.

Definition set_fence (f : Handle) (b : bool) (s : Handle -> bool) : Handle -> bool :=
  fun h => if h =? f then b else s h.

Definition signal (f : Handle) (s : Handle -> bool) : Handle -> bool :=
  if f =? VK_NULL_HANDLE then s else set_fence f true s.

Definition unsignal (fs : list Handle) (s : Handle -> bool) : Handle -> bool :=
  fold_right (fun f s' => set_fence f false s') s fs.

(** Progress the device makes on its own: the queue finishes a submission
    and signals its fence; the presentation engine hands over an acquired
    image and signals the fence of the acquire. *)
Inductive progress : World -> World -> Prop :=
| queue_completes w before s after :
    inflight w = before ++ s :: after ->
    progress w {| signaled := signal (signalFence s) (signaled w);
                  inflight := before ++ after;
                  acquiring := acquiring w |}
| image_acquired w before f after :
    acquiring w = before ++ f :: after ->
    progress w {| signaled := signal f (signaled w);
                  inflight := inflight w;
                  acquiring := before ++ after |}.

Definition submissions_of (pSubmits : list VkSubmitInfo) (fence : Handle) : Submission :=
  {| commandBuffers := flat_map pCommandBuffers pSubmits; signalFence := fence |}.

(** The effect of a call that returns [r], or [None] when the call cannot
    return [r] in this state: a wait with the infinite timeout returns
    [VK_SUCCESS] only once its fences are signaled, and the idle waits only
    once the queue is empty.  Any call may fail, leaving the device as it is. *)
Definition returns (w : World) (c : action) (r : Reply) : option World :=
  if negb (result r =? VK_SUCCESS) then Some w
  else
    match c with
    | vkWaitForFences _ fs _ _ =>
        if forallb (signaled w) fs then Some w else None
    | vkResetFences _ fs =>
        Some {| signaled := unsignal fs (signaled w);
                inflight := inflight w;
                acquiring := acquiring w |}
    | vkAcquireNextImageKHR _ _ _ _ f =>
        Some {| signaled := signaled w;
                inflight := inflight w;
                acquiring := f :: acquiring w |}
    | vkQueueSubmit _ pSubmits f =>
        Some {| signaled := signaled w;
                inflight := submissions_of pSubmits f :: inflight w;
                acquiring := acquiring w |}
    | vkQueueWaitIdle _ | vkDeviceWaitIdle _ =>
        match inflight w with
        | [] => Some w
        | _ :: _ => None
        end
    | _ => Some w
    end.

(** One step of the whole system: the program's next call returns, or the
    device makes progress while the program stands still. *)
Inductive step {A : Type} : World * Prog A -> World * Prog A -> Prop :=
| step_call w c k r w' :
    returns w c r = Some w' -> step (w, Call c k) (w', k r)
| step_device w w' p :
    progress w w' -> step (w, p) (w', p).

Inductive steps {A : Type} : World * Prog A -> World * Prog A -> Prop :=
| steps_refl cfg : steps cfg cfg
| steps_cons cfg mid cfg' : step cfg mid -> steps mid cfg' -> steps cfg cfg'.

(** The command buffer a call resets or records into, if any. *)
Definition recorded (c : action) : option Handle :=
  match c with
  | vkResetCommandBuffer cb _
  | vkBeginCommandBuffer cb _
  | vkCmdBeginRenderPass cb _ _
  | vkCmdSetViewport cb _ _
  | vkCmdSetScissor cb _ _
  | vkCmdBindPipeline cb _ _
  | vkCmdBindVertexBuffers cb _ _ _
  | vkCmdBindDescriptorSets cb _ _ _ _ _
  | vkCmdDraw cb _ _ _ _
  | vkCmdEndRenderPass cb
  | vkEndCommandBuffer cb => Some cb
  | _ => None
  end.

(** Calls that destroy or free an object. *)
Definition releases (c : action) : bool :=
  match c with
  | vkFreeDescriptorSets _ _ _ | vkDestroyDescriptorPool _ _ | vkDestroySampler _ _
  | vkDestroyImageView _ _ | vkFreeMemory _ _ | vkDestroyImage _ _
  | vkDestroyTexture _ _ | vkUnmapMemory _ _ | vkDestroyBuffer _ _
  | vkDestroyDescriptorSetLayout _ _ | vkDestroyPipelineLayout _ _
  | vkDestroyPipeline _ _ | vkDestroyShaderModule _ _ | vkDestroyFramebuffer _ _
  | vkDestroyRenderPass _ _ | vkDestroySemaphore _ _ | vkDestroyFence _ _
  | vkFreeCommandBuffers _ _ _ | vkDestroyCommandPool _ _
  | vkDestroySwapchainKHR _ _ | vkDestroySurfaceKHR _ _
  | vkDestroyDevice _ | vkDestroyInstance _ => true
  | _ => false
  end.

(** The submissions in flight that contain command buffer [cb]. *)
Definition in_flight (w : World) (cb : Handle) : list Submission :=
  filter (fun s => existsb (Z.eqb cb) (commandBuffers s)) (inflight w).

End Device.
Export Device.

(** ** Vocabulary for the statements about a frame *)

Module Frame.

Section On.

Variable this : Renderer.VkRenderer.

(** The resources of the active frame slot, [v[mFrameIndex]]. *)
Definition slot {A : Type} (v : list A) (d : A) : A :=
  nth (Z.to_nat (mFrameIndex this)) v d.

Definition fenceForSubmit : Handle := slot (mFencesForSubmit this) VK_NULL_HANDLE.
Definition fenceForAcquire : Handle := slot (mFencesForAcquire this) VK_NULL_HANDLE.
Definition commandBuffer : Handle := slot (mCommandBuffers this) VK_NULL_HANDLE.
Definition descriptorSet : Handle := slot (mDescriptorSets this) VK_NULL_HANDLE.
Definition semaphore : Handle := slot (mSemaphores this) VK_NULL_HANDLE.
Definition uniformData : Mapped := slot (mUniformData this) (block_with 0 zero).

(** The framebuffer of swapchain image [img]. *)
Definition framebuffer_of (img : Z) : Handle :=
  nth (Z.to_nat img) (mFramebuffers this) VK_NULL_HANDLE.

(** Step 1: wait on the submit-complete fence, reset it. *)
Definition wait_submit : list action :=
  [vkWaitForFences (mDevice this) [fenceForSubmit] true UINT64_MAX;
   vkResetFences (mDevice this) [fenceForSubmit]].

(** Step 3: acquire, signaling the acquire-complete fence. *)
Definition acquire : list action :=
  [vkAcquireNextImageKHR (mDevice this) (mSwapchain this) UINT64_MAX
     VK_NULL_HANDLE fenceForAcquire].

(** Step 4: wait on the acquire-complete fence, reset it. *)
Definition wait_acquire : list action :=
  [vkWaitForFences (mDevice this) [fenceForAcquire] true UINT64_MAX;
   vkResetFences (mDevice this) [fenceForAcquire]].

(** Step 5: reset and re-record the command buffer against the
    framebuffer of image [img]. *)
Definition recording (img : Z) : list action :=
  [vkResetCommandBuffer commandBuffer 0;
   vkBeginCommandBuffer commandBuffer VK_COMMAND_BUFFER_USAGE_ONE_TIME_SUBMIT_BIT;
   vkCmdBeginRenderPass commandBuffer
     {| renderPass := mRenderPass this;
        framebuffer := framebuffer_of img;
        renderArea := rect_of (mSwapchainImageExtent this);
        pClearValues := [Renderer.mClearValue this] |}
     VK_SUBPASS_CONTENTS_INLINE;
   vkCmdSetViewport commandBuffer 0 [viewport_of (mSwapchainImageExtent this)];
   vkCmdSetScissor commandBuffer 0 [rect_of (mSwapchainImageExtent this)];
   vkCmdBindPipeline commandBuffer VK_PIPELINE_BIND_POINT_GRAPHICS (mPipeline this);
   vkCmdBindVertexBuffers commandBuffer 0 [mVertexBuffer this] [0];
   vkCmdBindDescriptorSets commandBuffer VK_PIPELINE_BIND_POINT_GRAPHICS
     (mPipelineLayout this) 0 [descriptorSet] [];
   vkCmdDraw commandBuffer 3 1 0 0;
   vkCmdEndRenderPass commandBuffer;
   vkEndCommandBuffer commandBuffer].

(** Step 6: submit, signaling the semaphore and the submit-complete fence. *)
Definition submit : list action :=
  [vkQueueSubmit (mQueue this)
     [{| pWaitSemaphores := [];
         pCommandBuffers := [commandBuffer];
         pSignalSemaphores := [semaphore] |}]
     fenceForSubmit].

(** Step 7: present image [img], waiting on the semaphore. *)
Definition present (img : Z) : list action :=
  [vkQueuePresentKHR (mQueue this)
     {| present_pWaitSemaphores := [semaphore];
        pSwapchains := [mSwapchain this];
        pImageIndices := [img] |}].

(** Step 2: the stores that update the slot's uniform block. *)
Definition stores : list action :=
  update_stores (mSwapchainImageExtent this) uniformData.

(** The whole frame, [stores] being the stores of step 2. *)
Definition frame (stores : list action) (img : Z) : list action :=
  wait_submit ++ stores ++ acquire ++ wait_acquire ++
  recording img ++ submit ++ present img.

(** Step 8: the next frame index. *)
Definition advanced : Z := (mFrameIndex this + 1) mod slots this.

End On.

(** The calls whose result the code wraps in [VK_CHECK_ERROR]. *)
Definition is_checked (c : action) : bool :=
  match c with
  | vkWaitForFences _ _ _ _ | vkResetFences _ _
  | vkAcquireNextImageKHR _ _ _ _ _
  | vkBeginCommandBuffer _ _ | vkEndCommandBuffer _
  | vkQueueSubmit _ _ _ | vkQueuePresentKHR _ _
  | vkQueueWaitIdle _ | vkDeviceWaitIdle _ => true
  | _ => false
  end.

Definition is_acquire (c : action) : bool :=
  match c with
  | vkAcquireNextImageKHR _ _ _ _ _ => true
  | _ => false
  end.

Definition is_store (c : action) : bool :=
  match c with
  | storePosition _ _ _ | storeRatio _ _ => true
  | _ => false
  end.

(** [l] starts with [p]. *)
Definition prefix {A : Type} (p l : list A) : Prop := exists rest, l = p ++ rest.

(** The command buffers handed to [vkQueueSubmit], in order. *)
Definition submitted_by (c : action) : list Handle :=
  match c with
  | vkQueueSubmit _ pSubmits _ => flat_map pCommandBuffers pSubmits
  | _ => []
  end.
Definition submitted (t : Trace) : list Handle := flat_map submitted_by (calls t).

(** The framebuffers render passes were begun on, in order. *)
Definition pass_framebuffer (c : action) : list Handle :=
  match c with
  | vkCmdBeginRenderPass _ info _ => [framebuffer info]
  | _ => []
  end.
Definition bound_framebuffers (t : Trace) : list Handle :=
  flat_map pass_framebuffer (calls t).

(** The frame indices of [n] consecutive frames, starting with the current one. *)
Definition slot_sequence (this : Renderer.VkRenderer) (n : nat) : list Z :=
  map (fun k => (mFrameIndex this + Z.of_nat k) mod slots this) (seq 0 n).

(** A renderer over two swapchain images, as the constructor leaves it
    (frame index 0, uniform blocks zeroed), with handles numbered apart. *)
Definition two_slots : Renderer.VkRenderer :=
  {| mInstance := 1;
     Renderer.mDevice := 2;
     Renderer.mQueue := 3;
     mSurface := 4;
     Renderer.mSwapchain := 5;
     mSwapchainImages := [10; 11];
     Renderer.mSwapchainImageExtent := {| width := 1080; height := 1920 |};
     mSwapchainImageViews := [12; 13];
     mCommandPool := 6;
     mCommandBuffers := [20; 21];
     mFencesForSubmit := [30; 31];
     mFencesForAcquire := [40; 41];
     mSemaphores := [50; 51];
     Renderer.mClearValue := [zero; zero; zero; float_of_Z 1];
     Renderer.mRenderPass := 7;
     Renderer.mFramebuffers := [60; 61];
     mVertexShaderModule := 8;
     mFragmentShaderModule := 9;
     mDescriptorSetLayout := 14;
     Renderer.mPipelineLayout := 15;
     Renderer.mPipeline := 16;
     Renderer.mVertexBuffer := 17;
     mVertexMemory := 18;
     mUniformBuffers := [70; 71];
     mUniformMemories := [80; 81];
     Renderer.mUniformData :=
       [{| address := 4096; pointee := zeroed |};
        {| address := 8192; pointee := zeroed |}];
     mDescriptorPool := 19;
     mDescriptorSets := [90; 91];
     mTexture := 22;
     mImage := 23;
     mMemory := 24;
     mImageView := 25;
     mSampler := 26;
     mFrameIndex := constructed_frame_index |}.

End Frame.
Export Frame.

(** ** Vocabulary for the statements about program and device together *)

Module Interleaving.

(** [P] survives whatever the device does on its own. *)
Definition stable (P : World -> Prop) : Prop :=
  forall w w', P w -> progress w w' -> P w'.

(** The call the program is about to make, if any, is acceptable in the
    state the device is in. *)
Definition next_ok {A : Type} (ok : World -> action -> Prop) (cfg : World * Prog A) : Prop :=
  match snd cfg with
  | Call c _ => ok (fst cfg) c
  | _ => True
  end.

(** From a state in [P], along every interleaving of [p] with the device:
    [G] holds throughout, every call is acceptable when it is made, and [Q]
    holds when [p] has returned. *)
Definition triple {A : Type} (G : World -> Prop) (ok : World -> action -> Prop)
    (P : World -> Prop) (p : Prog A) (Q : A -> World -> Prop) : Prop :=
  forall w, P w -> forall w' p', steps (w, p) (w', p') ->
    G w' /\ next_ok ok (w', p') /\ forall a, p' = Ret a -> Q a w'.

(** Calls that leave the state of the device as it is, whatever they return. *)
Definition quiet (c : action) : bool :=
  match c with
  | vkWaitForFences _ _ _ _ | vkResetFences _ _
  | vkAcquireNextImageKHR _ _ _ _ _ | vkQueueSubmit _ _ _
  | vkQueueWaitIdle _ | vkDeviceWaitIdle _ => false
  | _ => true
  end.

(** Every call the program can make satisfies [phi]. *)
Inductive all_calls {A : Type} (phi : action -> Prop) : Prog A -> Prop :=
| calls_ret a : all_calls phi (Ret a)
| calls_abort f : all_calls phi (Abort f)
| calls_undef : all_calls phi Undef
| calls_call c k :
    phi c -> (forall r, all_calls phi (k r)) -> all_calls phi (Call c k).

(** The submission [render] makes for the slot with command buffer [cb]
    and submit fence [f]. *)
Definition slot_submission (cb f : Handle) : Submission :=
  {| commandBuffers := [cb]; signalFence := f |}.

Section Handles.

(** The per-slot handles of a renderer: command buffers, submit fences,
    acquire fences. *)
Variables (cbs fs fas : list Handle).

(** Every submission in flight is the submission of some slot, no two
    are of the same slot, the submit fence of each is unsignaled, and
    every pending acquire is on an acquire fence. *)
Record Inv (w : World) : Prop := {
  inv_slots : forall s, In s (inflight w) ->
              exists k cb f, nth_error cbs k = Some cb /\ nth_error fs k = Some f /\
                             s = slot_submission cb f;
  inv_nodup : NoDup (map signalFence (inflight w));
  inv_unsignaled : forall s, In s (inflight w) -> signaled w (signalFence s) = false;
  inv_acquiring : forall f, In f (acquiring w) -> In f fas
}.

(** Nothing in flight signals fence [f]. *)
Definition Free (f : Handle) (w : World) : Prop :=
  Inv w /\ forall s, In s (inflight w) -> signalFence s <> f.

(** ... and [f] is unsignaled. *)
Definition Owned (f : Handle) (w : World) : Prop :=
  Free f w /\ signaled w f = false.

End Handles.

(** At most one submission of any command buffer is in flight. *)
Definition one_in_flight (w : World) : Prop :=
  forall cb, (length (in_flight w cb) <= 1)%nat.

(** A command buffer is reset or recorded into only while no submission of
    it is in flight. *)
Definition records_idle (w : World) (c : action) : Prop :=
  forall cb, recorded c = Some cb -> in_flight w cb = [].

(** An object is destroyed or freed only while the queue is empty. *)
Definition releases_idle (w : World) (c : action) : Prop :=
  releases c = true -> inflight w = [].

(** A schedule: the program's next call returns [r], or the device
    finishes the [k]-th submission in flight, or hands over the image of
    the [k]-th pending acquire. *)
Inductive move : Type :=
| answer (r : Reply)
| complete (k : nat)
| acquired (k : nat).

Definition remove_nth {A : Type} (k : nat) (l : list A) : list A :=
  firstn k l ++ skipn (S k) l.

Fixpoint drive {A : Type} (ms : list move) (w : World) (p : Prog A)
  : option (World * Prog A) :=
  match ms with
  | [] => Some (w, p)
  | answer r :: ms' =>
      match p with
      | Call c k =>
          match returns w c r with
          | Some w' => drive ms' w' (k r)
          | None => None
          end
      | _ => None
      end
  | complete k :: ms' =>
      match nth_error (inflight w) k with
      | Some s =>
          drive ms' {| signaled := signal (signalFence s) (signaled w);
                       inflight := remove_nth k (inflight w);
                       acquiring := acquiring w |} p
      | None => None
      end
  | acquired k :: ms' =>
      match nth_error (acquiring w) k with
      | Some f =>
          drive ms' {| signaled := signal f (signaled w);
                       inflight := inflight w;
                       acquiring := remove_nth k (acquiring w) |} p
      | None => None
      end
  end.

(** The device right after the constructor of the two-image renderer:
    submit fences created signaled, acquire fences unsignaled, the upload
    waited for. *)
Definition fresh_device : World :=
  {| signaled := fun h => (h =? 30) || (h =? 31);
     inflight := [];
     acquiring := [] |}.

Definition yes (img : Z) : move := answer {| result := VK_SUCCESS; imageIndex := img |}.

(** One frame on the two-image renderer in which every call succeeds, the
    image arrives right after the acquire, and nothing completes. *)
Definition frame_moves (img : Z) : list move :=
  repeat (yes img) 6 ++ [acquired 0%nat] ++ repeat (yes img) 15.

(** Two frames on the two-image renderer, the device then finishes the
    submission of slot 0, and the third frame runs up to its
    [vkResetCommandBuffer]. *)
Definition third_frame_moves : list move :=
  frame_moves 0 ++ frame_moves 1 ++ [complete 1%nat] ++
  repeat (yes 0) 6 ++ [acquired 0%nat] ++ repeat (yes 0) 2.

End Interleaving.
Export Interleaving.

From Stdlib Require Strings.String Strings.Ascii.
From Stdlib Require Import Permutation.
Import Strings.String.StringSyntax.
Delimit Scope string_scope with string.

(** ** Text *)

Module Text.

(** [std::string], [std::string_view] and C strings. *)
Definition string := Strings.String.string.

End Text.
Export Text.

(** ** VkUtil.h: the names of result codes *)

Module Diagnostics.

(** The remaining enumerators of [VkResult] that [vkToString] names, with
    their values in vulkan_core.h. *)
Definition VK_EVENT_SET : VkResult := 3.
Definition VK_EVENT_RESET : VkResult := 4.
Definition VK_INCOMPLETE : VkResult := 5.
Definition VK_ERROR_INITIALIZATION_FAILED : VkResult := -3.
Definition VK_ERROR_MEMORY_MAP_FAILED : VkResult := -5.
Definition VK_ERROR_LAYER_NOT_PRESENT : VkResult := -6.
Definition VK_ERROR_EXTENSION_NOT_PRESENT : VkResult := -7.
Definition VK_ERROR_FEATURE_NOT_PRESENT : VkResult := -8.
Definition VK_ERROR_INCOMPATIBLE_DRIVER : VkResult := -9.
Definition VK_ERROR_TOO_MANY_OBJECTS : VkResult := -10.
Definition VK_ERROR_FORMAT_NOT_SUPPORTED : VkResult := -11.
Definition VK_ERROR_FRAGMENTED_POOL : VkResult := -12.
Definition VK_ERROR_OUT_OF_POOL_MEMORY : VkResult := -1000069000.
Definition VK_ERROR_INVALID_EXTERNAL_HANDLE : VkResult := -1000072003.
Definition VK_ERROR_FRAGMENTATION : VkResult := -1000161000.
Definition VK_ERROR_INVALID_OPAQUE_CAPTURE_ADDRESS : VkResult := -1000257000.
Definition VK_PIPELINE_COMPILE_REQUIRED : VkResult := 1000297000.
Definition VK_ERROR_SURFACE_LOST_KHR : VkResult := -1000000000.
Definition VK_ERROR_NATIVE_WINDOW_IN_USE_KHR : VkResult := -1000000001.
Definition VK_ERROR_INCOMPATIBLE_DISPLAY_KHR : VkResult := -1000003001.
Definition VK_ERROR_VALIDATION_FAILED_EXT : VkResult := -1000011001.
Definition VK_ERROR_INVALID_SHADER_NV : VkResult := -1000012000.
Definition VK_ERROR_INVALID_DRM_FORMAT_MODIFIER_PLANE_LAYOUT_EXT : VkResult := -1000158000.
Definition VK_ERROR_NOT_PERMITTED_KHR : VkResult := -1000174001.
Definition VK_ERROR_FULL_SCREEN_EXCLUSIVE_MODE_LOST_EXT : VkResult := -1000255000.
Definition VK_THREAD_IDLE_KHR : VkResult := 1000268000.
Definition VK_THREAD_DONE_KHR : VkResult := 1000268001.
Definition VK_OPERATION_DEFERRED_KHR : VkResult := 1000268002.
Definition VK_OPERATION_NOT_DEFERRED_KHR : VkResult := 1000268003.

(** [switch (v) { case c: return s; ... default: return d; }] *)
Fixpoint switch (cases : list (Z * string)) (default : string) (v : Z) : string :=
  match cases with
  | [] => default
  | (c, s) :: rest => if v =? c then s else switch rest default v
  end.

(** The [case] labels of [vkToString(VkResult)], in the order of the source. *)
Definition result_cases : list (VkResult * string) :=
  [(VK_SUCCESS, "VK_SUCCESS"%string);
   (VK_NOT_READY, "VK_NOT_READY"%string);
   (VK_TIMEOUT, "VK_TIMEOUT"%string);
   (VK_EVENT_SET, "VK_EVENT_SET"%string);
   (VK_EVENT_RESET, "VK_EVENT_RESET"%string);
   (VK_INCOMPLETE, "VK_INCOMPLETE"%string);
   (VK_ERROR_OUT_OF_HOST_MEMORY, "VK_ERROR_OUT_OF_HOST_MEMORY"%string);
   (VK_ERROR_OUT_OF_DEVICE_MEMORY, "VK_ERROR_OUT_OF_DEVICE_MEMORY"%string);
   (VK_ERROR_INITIALIZATION_FAILED, "VK_ERROR_INITIALIZATION_FAILED"%string);
   (VK_ERROR_DEVICE_LOST, "VK_ERROR_DEVICE_LOST"%string);
   (VK_ERROR_MEMORY_MAP_FAILED, "VK_ERROR_MEMORY_MAP_FAILED"%string);
   (VK_ERROR_LAYER_NOT_PRESENT, "VK_ERROR_LAYER_NOT_PRESENT"%string);
   (VK_ERROR_EXTENSION_NOT_PRESENT, "VK_ERROR_EXTENSION_NOT_PRESENT"%string);
   (VK_ERROR_FEATURE_NOT_PRESENT, "VK_ERROR_FEATURE_NOT_PRESENT"%string);
   (VK_ERROR_INCOMPATIBLE_DRIVER, "VK_ERROR_INCOMPATIBLE_DRIVER"%string);
   (VK_ERROR_TOO_MANY_OBJECTS, "VK_ERROR_TOO_MANY_OBJECTS"%string);
   (VK_ERROR_FORMAT_NOT_SUPPORTED, "VK_ERROR_FORMAT_NOT_SUPPORTED"%string);
   (VK_ERROR_FRAGMENTED_POOL, "VK_ERROR_FRAGMENTED_POOL"%string);
   (VK_ERROR_UNKNOWN, "VK_ERROR_UNKNOWN"%string);
   (VK_ERROR_OUT_OF_POOL_MEMORY, "VK_ERROR_OUT_OF_POOL_MEMORY"%string);
   (VK_ERROR_INVALID_EXTERNAL_HANDLE, "VK_ERROR_INVALID_EXTERNAL_HANDLE"%string);
   (VK_ERROR_FRAGMENTATION, "VK_ERROR_FRAGMENTATION"%string);
   (VK_ERROR_INVALID_OPAQUE_CAPTURE_ADDRESS,
      "VK_ERROR_INVALID_OPAQUE_CAPTURE_ADDRESS"%string);
   (VK_PIPELINE_COMPILE_REQUIRED, "VK_PIPELINE_COMPILE_REQUIRED"%string);
   (VK_ERROR_SURFACE_LOST_KHR, "VK_ERROR_SURFACE_LOST_KHR"%string);
   (VK_ERROR_NATIVE_WINDOW_IN_USE_KHR, "VK_ERROR_NATIVE_WINDOW_IN_USE_KHR"%string);
   (VK_SUBOPTIMAL_KHR, "VK_SUBOPTIMAL_KHR"%string);
   (VK_ERROR_OUT_OF_DATE_KHR, "VK_ERROR_OUT_OF_DATE_KHR"%string);
   (VK_ERROR_INCOMPATIBLE_DISPLAY_KHR, "VK_ERROR_INCOMPATIBLE_DISPLAY_KHR"%string);
   (VK_ERROR_VALIDATION_FAILED_EXT, "VK_ERROR_VALIDATION_FAILED_EXT"%string);
   (VK_ERROR_INVALID_SHADER_NV, "VK_ERROR_INVALID_SHADER_NV"%string);
   (VK_ERROR_INVALID_DRM_FORMAT_MODIFIER_PLANE_LAYOUT_EXT,
      "VK_ERROR_INVALID_DRM_FORMAT_MODIFIER_PLANE_LAYOUT_EXT"%string);
   (VK_ERROR_NOT_PERMITTED_KHR, "VK_ERROR_NOT_PERMITTED_KHR"%string);
   (VK_ERROR_FULL_SCREEN_EXCLUSIVE_MODE_LOST_EXT,
      "VK_ERROR_FULL_SCREEN_EXCLUSIVE_MODE_LOST_EXT"%string);
   (VK_THREAD_IDLE_KHR, "VK_THREAD_IDLE_KHR"%string);
   (VK_THREAD_DONE_KHR, "VK_THREAD_DONE_KHR"%string);
   (VK_OPERATION_DEFERRED_KHR, "VK_OPERATION_DEFERRED_KHR"%string);
   (VK_OPERATION_NOT_DEFERRED_KHR, "VK_OPERATION_NOT_DEFERRED_KHR"%string)].

Definition unhandled : string := "Unhandled VkResult"%string.

(** [vkToString(VkResult)]. *)
Definition vkToString (vkResult : VkResult) : string :=
  switch result_cases unhandled vkResult.

(** [VkPhysicalDeviceType], with its values in vulkan_core.h. *)
Definition VK_PHYSICAL_DEVICE_TYPE_OTHER : Z := 0.
Definition VK_PHYSICAL_DEVICE_TYPE_INTEGRATED_GPU : Z := 1.
Definition VK_PHYSICAL_DEVICE_TYPE_DISCRETE_GPU : Z := 2.
Definition VK_PHYSICAL_DEVICE_TYPE_VIRTUAL_GPU : Z := 3.
Definition VK_PHYSICAL_DEVICE_TYPE_CPU : Z := 4.

Definition device_type_cases : list (Z * string) :=
  [(VK_PHYSICAL_DEVICE_TYPE_OTHER, "Other"%string);
   (VK_PHYSICAL_DEVICE_TYPE_INTEGRATED_GPU, "Integrated GPU"%string);
   (VK_PHYSICAL_DEVICE_TYPE_DISCRETE_GPU, "Discrete GPU"%string);
   (VK_PHYSICAL_DEVICE_TYPE_VIRTUAL_GPU, "Virtual GPU"%string);
   (VK_PHYSICAL_DEVICE_TYPE_CPU, "CPU"%string)].

(** [vkToString(VkPhysicalDeviceType)]. *)
Definition vkToString_deviceType (physicalDeviceType : Z) : string :=
  switch device_type_cases "Unknown"%string physicalDeviceType.

(** The line [VK_CHECK_ERROR] writes before [abort()], for a call whose
    source text is [vkFunction]:
    [aout << #vkFunction << " returns " << vkToString(vkResult) << "."]. *)
Definition diagnostic (vkFunction : string) (vkResult : VkResult) : string :=
  Strings.String.append vkFunction
    (Strings.String.append " returns "%string
       (Strings.String.append (vkToString vkResult) "."%string)).

(** No two entries of [l] are equal. *)
Fixpoint distinct (l : list string) : bool :=
  match l with
  | [] => true
  | s :: rest => negb (existsb (Strings.String.eqb s) rest) && distinct rest
  end.

End Diagnostics.

(** ** VkUtil.h: vkCompileShader *)

Module Shader.

(** shaderc.h: [shaderc_vertex_shader], [shaderc_fragment_shader] and
    [shaderc_compilation_status_success]. *)
Definition shaderc_vertex_shader : Z := 0.
Definition shaderc_fragment_shader : Z := 1.
Definition shaderc_compilation_status_success : Z := 0.

Definition VK_SHADER_TYPE_VERTEX : Z := shaderc_vertex_shader.
Definition VK_SHADER_TYPE_FRAGMENT : Z := shaderc_fragment_shader.

(** What [shaderc::Compiler::CompileGlslToSpv] hands back. *)
Record SpvCompilationResult := {
  GetCompilationStatus : Z;
  words : list Z;
  GetErrorMessage : string
}.

(** [std::string tag('a', 4)]: the constructor taking a count and a
    character, called with the count ['a'] (97) and the character of
    code 4. *)
Definition tag_constructed : list Z := repeat 4 (Z.to_nat 97).

(** [tag[i] = c] on a [std::string]. *)
Definition set (tag : list Z) (i : Z) (c : Z) : cxx (list Z) :=
  if (0 <=? i) && (i <? Z.of_nat (length tag))
  then Defined (update_nth (Z.to_nat i) c tag)
  else Undefined.

(** [for (auto i = 0; i < 16; ++i)
       tag[i] = static_cast<char>(distribution(generator));]
    from [i] on, [n] iterations left; [draw k] is the [k]-th value the
    distribution produces. *)
Fixpoint fill (draw : Z -> Z) (n : nat) (i : Z) (tag : list Z) : cxx (list Z) :=
  match n with
  | O => Defined tag
  | S n' =>
      match set tag i (draw i) with
      | Defined tag' => fill draw n' (i + 1) tag'
      | Undefined => Undefined
      end
  end.

(** [tag.c_str()], read as a C string by the callee: the characters
    before the first zero. *)
Fixpoint c_str (tag : list Z) : list Z :=
  match tag with
  | [] => []
  | c :: rest => if c =? 0 then [] else c :: c_str rest
  end.

(** What [vkCompileShader] leaves behind: its result, the contents of
    [*shaderBinary], and the lines written to [aout]. *)
Record Compiled := {
  vkResult : VkResult;
  shaderBinary : list Z;
  logged : list string
}.

Section Outside.

(** The random letters, each in ['a' .. 'z'], and the shader compiler:
    source text, shader kind and input file name to a result. *)
Variable draw : Z -> Z.
Variable CompileGlslToSpv : string -> Z -> list Z -> SpvCompilationResult.

(** Sixteen drawn letters followed by eighty-one characters of code 4. *)
Definition tag_passed : list Z :=
  map (fun k => draw (Z.of_nat k)) (seq 0 16) ++ repeat 4 81.

(** [vkCompileShader]; [shaderBinary0] is what [*shaderBinary] held before. *)
Definition vkCompileShader (shaderCode : string) (shaderType : Z)
    (shaderBinary0 : list Z) : cxx Compiled :=
  match fill draw 16 0 tag_constructed with
  | Undefined => Undefined
  | Defined tag =>
      let result := CompileGlslToSpv shaderCode shaderType (c_str tag) in
      if negb (GetCompilationStatus result =? shaderc_compilation_status_success)
      then Defined {| vkResult := VK_ERROR_UNKNOWN;
                      shaderBinary := shaderBinary0;
                      logged := [GetErrorMessage result] |}
      else Defined {| vkResult := VK_SUCCESS;
                      shaderBinary := words result;
                      logged := [] |}
  end.

End Outside.

End Shader.

(** ** The other selections of the constructor *)

Module Selection.

Definition VK_QUEUE_GRAPHICS_BIT : Z := 1.

Record VkQueueFamilyProperties := { queueFlags : Z; queueCount : Z }.

(** [for (mQueueFamilyIndex = 0;
          mQueueFamilyIndex != queueFamilyPropertiesCount; ++mQueueFamilyIndex)
       if (queueFamilyProperties[mQueueFamilyIndex].queueFlags & VK_QUEUE_GRAPHICS_BIT)
         break;]
    at index [i], [n] indices before the count. *)
Fixpoint scanQueueFamilies (queueFamilyProperties : list VkQueueFamilyProperties)
    (n : nat) (i : Z) : cxx Z :=
  match n with
  | O => Defined i
  | S n' =>
      match at_ queueFamilyProperties i with
      | None => Undefined
      | Some q =>
          if negb (Z.land (queueFlags q) VK_QUEUE_GRAPHICS_BIT =? 0) then Defined i
          else scanQueueFamilies queueFamilyProperties n' (i + 1)
      end
  end.

(** The value of [mQueueFamilyIndex] after the loop. *)
Definition findQueueFamily (queueFamilyProperties : list VkQueueFamilyProperties)
    (queueFamilyPropertiesCount : Z) : cxx Z :=
  scanQueueFamilies queueFamilyProperties (Z.to_nat queueFamilyPropertiesCount) 0.

Definition graphics (q : VkQueueFamilyProperties) : bool :=
  Z.testbit (queueFlags q) 0.

Definition VK_COMPOSITE_ALPHA_FLAG_BITS_MAX_ENUM_KHR : Z := 2147483647.

(** [for (auto i = 0; i <= 4; ++i)
       if (auto flag = 0x1u << i; supportedCompositeAlpha & flag)
         { compositeAlpha = static_cast<VkCompositeAlphaFlagBitsKHR>(flag); break; }]
    at [i], [n] iterations left, [compositeAlpha] being the value so far. *)
Fixpoint scanCompositeAlpha (supportedCompositeAlpha : Z) (n : nat) (i : Z)
    (compositeAlpha : Z) : Z :=
  match n with
  | O => compositeAlpha
  | S n' =>
      let flag := Z.shiftl 1 i in
      if negb (Z.land supportedCompositeAlpha flag =? 0) then flag
      else scanCompositeAlpha supportedCompositeAlpha n' (i + 1) compositeAlpha
  end.

(** The loop and the [assert] after it. *)
Definition findCompositeAlpha (supportedCompositeAlpha : Z) : Prog Z :=
  (let compositeAlpha :=
     scanCompositeAlpha supportedCompositeAlpha 5 0
       VK_COMPOSITE_ALPHA_FLAG_BITS_MAX_ENUM_KHR in
   assert (negb (compositeAlpha =? VK_COMPOSITE_ALPHA_FLAG_BITS_MAX_ENUM_KHR)) ;;
   Ret compositeAlpha)%prog.

(** [properties.extensionName == string("VK_KHR_surface") ||
     properties.extensionName == string("VK_KHR_android_surface")] *)
Definition is_surface_extension (extensionName : string) : bool :=
  Strings.String.eqb extensionName "VK_KHR_surface"%string ||
  Strings.String.eqb extensionName "VK_KHR_android_surface"%string.

(** [properties.extensionName == string("VK_KHR_swapchain")] *)
Definition is_swapchain_extension (extensionName : string) : bool :=
  Strings.String.eqb extensionName "VK_KHR_swapchain"%string.

(** [for (const auto &properties: extensionProperties)
       if (wanted) names.push_back(properties.extensionName);
     assert(names.size() == count);] *)
Definition selectExtensions (wanted : string -> bool) (count : nat)
    (extensionNames : list string) : Prog (list string) :=
  (let names := filter wanted extensionNames in
   assert (Nat.eqb (length names) count) ;;
   Ret names)%prog.

(** The instance extensions the constructor enables (step 1). *)
Definition instanceExtensionNames : list string -> Prog (list string) :=
  selectExtensions is_surface_extension 2.

(** The device extensions the constructor enables (step 4). *)
Definition deviceExtensionNames : list string -> Prog (list string) :=
  selectExtensions is_swapchain_extension 1.

End Selection.

(** ** Copying the texture into the image (constructor, step 48) *)

Module TextureUpload.

(** [memcpy(dst + dstOffset, src + srcOffset, n)] between two distinct
    buffers; undefined when either range leaves its buffer. *)
Definition memcpy (dst : list Z) (dstOffset : Z) (src : list Z) (srcOffset : Z) (n : Z)
  : cxx (list Z) :=
  if (0 <=? dstOffset) && (0 <=? srcOffset) && (0 <=? n) &&
     (dstOffset + n <=? Z.of_nat (length dst)) &&
     (srcOffset + n <=? Z.of_nat (length src))
  then Defined (firstn (Z.to_nat dstOffset) dst ++
                firstn (Z.to_nat n) (skipn (Z.to_nat srcOffset) src) ++
                skipn (Z.to_nat (dstOffset + n)) dst)
  else Undefined.

Definition u64 (z : Z) : Z := z mod 18446744073709551616.

(** [for (auto h = 0; h < extent.height; ++h) {
       const auto dstOffset = h * subresourceLayout.rowPitch;
       const auto srcRowPitch = extent.width * 4;
       const auto srcOffset = h * srcRowPitch;
       memcpy(imageData + dstOffset, pData + srcOffset, srcRowPitch); }]
    from row [h] on, [n] rows left.  [h] is an [int], so [++h] is undefined
    at [INT_MAX]; the products are formed in the unsigned type of the
    other operand. *)
Fixpoint copyRows (width rowPitch : Z) (pData : list Z) (n : nat) (h : Z)
    (imageData : list Z) : cxx (list Z) :=
  match n with
  | O => Defined imageData
  | S n' =>
      let dstOffset := u64 (h * rowPitch) in
      let srcRowPitch := u32 (width * 4) in
      let srcOffset := u32 (h * srcRowPitch) in
      match memcpy imageData dstOffset pData srcOffset srcRowPitch with
      | Defined imageData' =>
          if h =? INT_MAX then Undefined
          else copyRows width rowPitch pData n' (h + 1) imageData'
      | Undefined => Undefined
      end
  end.

(** The loop for a texture of [width] by [height] texels. *)
Definition copyTexture (width height rowPitch : Z) (pData imageData : list Z)
  : cxx (list Z) :=
  copyRows width rowPitch pData (Z.to_nat height) 0 imageData.

End TextureUpload.

(** ** Vocabulary for the statements about progress *)

Module Liveness.

(** The reply of a call that succeeds, [img] being what it writes through
    [pImageIndex]. *)
Definition granted (img : Z) : Reply := {| result := VK_SUCCESS; imageIndex := img |}.

(** The device lets the calls of a trace return what the trace says they
    returned, making progress of its own in between. *)
Inductive feasible : World -> Trace -> World -> Prop :=
| feasible_nil w : feasible w [] w
| feasible_call w c r w1 t w' :
    returns w c r = Some w1 -> feasible w1 t w' -> feasible w ((c, r) :: t) w'
| feasible_device w w1 t w' :
    progress w w1 -> feasible w1 t w' -> feasible w t w'.

(** No image is awaited, and every fence of [fs] is signaled or about to
    be: some submission in flight signals it. *)
Definition Ready (fs : list Handle) (w : World) : Prop :=
  acquiring w = [] /\
  forall f, In f fs ->
    signaled w f = true \/ exists s, In s (inflight w) /\ signalFence s = f.

(** Under replies that report success the program returns. *)
Inductive succeeds {A : Type} : Prog A -> Prop :=
| succeeds_ret a : succeeds (Ret a)
| succeeds_call c k :
    (forall r, result r = VK_SUCCESS -> succeeds (k r)) -> succeeds (Call c k).

(** Some interleaving of [p] with the device, from [w], lets [p] return,
    with a result and in a state that satisfy [Q]. *)
Definition reaches {A : Type} (w : World) (p : Prog A) (Q : A -> World -> Prop) : Prop :=
  exists w' a, steps (w, p) (w', Ret a) /\ Q a w'.

End Liveness.
Export Liveness.

(** ** vulkan-sampler: the frame loop *)

Module SamplerLoop.

(** The host application calls [render] once per frame; [n] frames. *)
Fixpoint frames (n : nat) (this : Sampler.VkRenderer) : Prog Sampler.VkRenderer :=
  match n with
  | O => Ret this
  | S n' => bind (Sampler.render this) (frames n')
  end.

(** The members of the class that the destructor reads and [render] does
    not. *)
Record Members := {
  mInstance : Handle;
  mSurface : Handle;
  mSwapchainImageViews : list Handle;
  mCommandPool : Handle;
  mVertexShaderModule : Handle;
  mFragmentShaderModule : Handle;
  mDescriptorSetLayout : Handle;
  mVertexMemory : Handle;
  mUniformBuffer : Handle;
  mUniformMemory : Handle;
  mDescriptorPool : Handle;
  mTexture : Handle;
  mImage : Handle;
  mMemory : Handle;
  mSampler : Handle
}.

(** [VkRenderer::~VkRenderer] of vulkan-sampler; it does not wait for the
    device. *)
Definition destructor (this : Sampler.VkRenderer) (rest : Members) : Prog unit :=
  (let d := Sampler.mDevice this in
   call (vkFreeDescriptorSets d (mDescriptorPool rest) [Sampler.mDescriptorSet this]) ;;
   call (vkDestroyDescriptorPool d (mDescriptorPool rest)) ;;
   call (vkDestroySampler d (mSampler rest)) ;;
   call (vkFreeMemory d (mMemory rest)) ;;
   call (vkDestroyImage d (mImage rest)) ;;
   call (vkDestroyTexture d (mTexture rest)) ;;
   call (vkUnmapMemory d (mUniformMemory rest)) ;;
   call (vkFreeMemory d (mUniformMemory rest)) ;;
   call (vkDestroyBuffer d (mUniformBuffer rest)) ;;
   call (vkFreeMemory d (mVertexMemory rest)) ;;
   call (vkDestroyBuffer d (Sampler.mVertexBuffer this)) ;;
   call (vkDestroyDescriptorSetLayout d (mDescriptorSetLayout rest)) ;;
   call (vkDestroyPipelineLayout d (Sampler.mPipelineLayout this)) ;;
   call (vkDestroyPipeline d (Sampler.mPipeline this)) ;;
   call (vkDestroyShaderModule d (mVertexShaderModule rest)) ;;
   call (vkDestroyShaderModule d (mFragmentShaderModule rest)) ;;
   for_each (Sampler.mFramebuffers this) (fun f => call (vkDestroyFramebuffer d f)) ;;
   call (vkDestroyRenderPass d (Sampler.mRenderPass this)) ;;
   for_each (mSwapchainImageViews rest) (fun v => call (vkDestroyImageView d v)) ;;
   call (vkDestroySemaphore d (Sampler.mSemaphore this)) ;;
   call (vkDestroyFence d (Sampler.mFence this)) ;;
   call (vkFreeCommandBuffers d (mCommandPool rest) [Sampler.mCommandBuffer this]) ;;
   call (vkDestroyCommandPool d (mCommandPool rest)) ;;
   call (vkDestroySwapchainKHR d (Sampler.mSwapchain this)) ;;
   call (vkDestroySurfaceKHR (mInstance rest) (mSurface rest)) ;;
   call (vkDestroyDevice d) ;;
   call (vkDestroyInstance (mInstance rest)) ;;
   Ret tt)%prog.

(** The life of the renderer after its construction: [n] frames, then
    the destructor. *)
Definition lifetime (n : nat) (this : Sampler.VkRenderer) (rest : Members) : Prog unit :=
  bind (frames n this) (fun this' => destructor this' rest).

(** What [render] needs of the members: the mapped block has its eight
    positions, there is a framebuffer for image [img], and the fence is a
    fence. *)
Definition usable (this : Sampler.VkRenderer) (img : Z) : Prop :=
  length (position (pointee (Sampler.mUniformData this))) = 8%nat /\
  0 <= img < Z.of_nat (length (Sampler.mFramebuffers this)) /\
  Sampler.mFence this <> VK_NULL_HANDLE.

(** A vulkan-sampler renderer over two swapchain images. *)
Definition single_slot : Sampler.VkRenderer :=
  {| Sampler.mDevice := 2;
     Sampler.mQueue := 3;
     Sampler.mSwapchain := 5;
     Sampler.mSwapchainImageExtent := {| width := 1080; height := 1920 |};
     Sampler.mCommandBuffer := 20;
     Sampler.mFence := 30;
     Sampler.mSemaphore := 50;
     Sampler.mClearValue := [zero; zero; zero; float_of_Z 1];
     Sampler.mRenderPass := 7;
     Sampler.mFramebuffers := [60; 61];
     Sampler.mPipelineLayout := 15;
     Sampler.mPipeline := 16;
     Sampler.mVertexBuffer := 17;
     Sampler.mUniformData := {| address := 4096; pointee := zeroed |};
     Sampler.mDescriptorSet := 90 |}.

Definition single_slot_rest : Members :=
  {| mInstance := 1; mSurface := 4; mSwapchainImageViews := [12; 13];
     mCommandPool := 6; mVertexShaderModule := 8; mFragmentShaderModule := 9;
     mDescriptorSetLayout := 14; mVertexMemory := 18; mUniformBuffer := 70;
     mUniformMemory := 80; mDescriptorPool := 19; mTexture := 22; mImage := 23;
     mMemory := 24; mSampler := 26 |}.

(** A device with nothing in flight and nothing awaited. *)
Definition idle_device : World :=
  {| signaled := fun _ => false; inflight := []; acquiring := [] |}.

End SamplerLoop.

(** ** hello-graceful-shutdown: the constructor *)

Module Setup.

(** *** What the constructor asks of the outside *)

Definition VK_FENCE_CREATE_SIGNALED_BIT : Z := 1.
Definition VK_IMAGE_USAGE_TRANSFER_DST_BIT : Z := 2.
Definition VK_IMAGE_USAGE_COLOR_ATTACHMENT_BIT : Z := 16.
Definition VK_WHOLE_SIZE : Z := UINT64_MAX.

Record VkPhysicalDeviceProperties := {
  deviceName : string;
  deviceType : Z;
  deviceID : Z;
  vendorID : Z;
  apiVersion : Z;
  driverVersion : Z
}.

Record VkSurfaceCapabilitiesKHR := {
  minImageCount : Z;
  currentExtent : VkExtent2D;
  currentTransform : Z;
  supportedCompositeAlpha : Z;
  supportedUsageFlags : Z
}.

(** The members of [VkSwapchainCreateInfoKHR] that the constructor
    computes. *)
Record VkSwapchainCreateInfoKHR := {
  info_surface : Handle;
  info_minImageCount : Z;
  info_imageFormat : Z;
  info_imageColorSpace : Z;
  info_imageExtent : VkExtent2D;
  info_imageUsage : Z;
  info_preTransform : Z;
  info_compositeAlpha : Z;
  info_presentMode : Z
}.

(** Modelled from the spec: VkTexture.h, which declares
    [VkTextureProperties], [vkCreateTexture], [vkGetTextureProperties]
    and [vkDestroyTexture], is not among the sources.  The constructor
    reads the three members below; [pData] stands for the decoded
    image, four bytes per texel. *)
Record VkTextureProperties := {
  texture_format : Z;
  texture_extent : VkExtent2D;
  pData : list Z
}.

Record VkSubresourceLayout := { rowPitch : Z }.

(** An entry point called by the constructor, with the arguments that
    carry a value computed at run time (handles, counts, sizes, the
    result of a selection) or that a property below reads; members of
    the create-info structures that are literals of the source are left
    out.  [capacity] is [None] for a call that passes [nullptr] as the
    array and [Some n] for a call that passes an array of [n] elements. *)
Inductive request : Type :=
| vkEnumerateInstanceLayerProperties (capacity : option Z)
| vkEnumerateInstanceExtensionProperties (capacity : option Z)
| vkCreateInstance (ppEnabledLayerNames ppEnabledExtensionNames : list string)
| vkEnumeratePhysicalDevices (instance : Handle) (capacity : option Z)
| vkGetPhysicalDeviceProperties (physicalDevice : Handle)
| vkGetPhysicalDeviceMemoryProperties (physicalDevice : Handle)
| vkGetPhysicalDeviceQueueFamilyProperties (physicalDevice : Handle) (capacity : option Z)
| vkEnumerateDeviceExtensionProperties (physicalDevice : Handle) (capacity : option Z)
| vkCreateDevice (physicalDevice : Handle) (queueFamilyIndex : Z)
    (ppEnabledExtensionNames : list string)
| vkGetDeviceQueue (device : Handle) (queueFamilyIndex queueIndex : Z)
| vkCreateAndroidSurfaceKHR (instance : Handle) (window : Z)
| vkGetPhysicalDeviceSurfaceSupportKHR (physicalDevice : Handle) (queueFamilyIndex : Z)
    (surface : Handle)
| vkGetPhysicalDeviceSurfaceCapabilitiesKHR (physicalDevice surface : Handle)
| vkGetPhysicalDeviceSurfaceFormatsKHR (physicalDevice surface : Handle)
    (capacity : option Z)
| vkGetPhysicalDeviceSurfacePresentModesKHR (physicalDevice surface : Handle)
    (capacity : option Z)
| vkCreateSwapchainKHR (device : Handle) (info : VkSwapchainCreateInfoKHR)
| vkGetSwapchainImagesKHR (device swapchain : Handle) (capacity : option Z)
| vkCreateImageView (device image : Handle) (format : Z)
| vkCreateCommandPool (device : Handle) (queueFamilyIndex : Z)
| vkAllocateCommandBuffers (device commandPool : Handle) (commandBufferCount : Z)
| vkCreateFence (device : Handle) (flags : Z)
| vkCreateSemaphore (device : Handle)
| vkCreateRenderPass (device : Handle) (format : Z)
| vkCreateFramebuffer (device renderPass : Handle) (pAttachments : list Handle)
    (width height : Z)
| vkCreateShaderModule (device : Handle) (codeSize : Z) (pCode : list Z)
| vkCreateDescriptorSetLayout (device : Handle)
| vkCreatePipelineLayout (device : Handle) (pSetLayouts : list Handle)
| vkCreateGraphicsPipelines (device : Handle) (modules : list Handle)
    (layout renderPass : Handle) (extent : VkExtent2D)
| vkCreateBuffer (device : Handle) (size : Z)
| vkGetBufferMemoryRequirements (device buffer : Handle)
| vkAllocateMemory (device : Handle) (allocationSize memoryTypeIndex : Z)
| vkBindBufferMemory (device buffer memory : Handle) (memoryOffset : Z)
| vkMapMemory (device memory : Handle) (offset size : Z)
| vkCmdCopyBuffer (commandBuffer srcBuffer dstBuffer : Handle) (size : Z)
| vkCreateTexture (device : Handle) (assetManager : Z) (pFileName : string)
| vkGetTextureProperties (texture : Handle)
| vkCreateImage (device : Handle) (format : Z) (extent : VkExtent2D)
| vkGetImageMemoryRequirements (device image : Handle)
| vkBindImageMemory (device image memory : Handle) (memoryOffset : Z)
| vkGetImageSubresourceLayout (device image : Handle)
| vkCmdPipelineBarrier (commandBuffer image : Handle)
| vkCreateSampler (device : Handle)
| vkCreateDescriptorPool (device : Handle) (maxSets : Z)
| vkAllocateDescriptorSets (device descriptorPool : Handle) (pSetLayouts : list Handle)
| vkUpdateDescriptorSets (device dstSet buffer : Handle)
    (combinedImageSampler : option (Handle * Handle))
(** stores through a pointer into mapped memory *)
| memcpy_vertices (dst : Z) (size : Z)
| memcpy_rows (dst : Z) (bytes : list Z)
| memset (dst : Z) (value size : Z)
(** lines written to [aout] *)
| aout_deviceInformation (properties : VkPhysicalDeviceProperties) (deviceType : string)
| aout (line : string)
(** an entry point that [render] and the destructor use as well *)
| act (c : action).

(** What a call hands back: the [Reply] of before (its [VkResult], and
    the image index for an acquire) and whatever it writes through its
    other out-parameters.  Each call site reads the members that the
    entry point writes. *)
Record Answer := {
  reply : Reply;
  count : Z;
  handle : Handle;
  handles : list Handle;
  names : list string;
  deviceProperties : VkPhysicalDeviceProperties;
  memoryProperties : VkPhysicalDeviceMemoryProperties;
  queueFamilies : list Selection.VkQueueFamilyProperties;
  supported : Z;
  capabilities : VkSurfaceCapabilitiesKHR;
  surfaceFormats : list VkSurfaceFormatKHR;
  presentModes : list VkPresentModeKHR;
  memoryRequirements : VkMemoryRequirements;
  ppData : Z;
  contents : list Z;
  textureProperties : VkTextureProperties;
  subresourceLayout : VkSubresourceLayout
}.

Definition status (a : Answer) : VkResult := result (reply a).

(** What [VK_CHECK_ERROR] was applied to. *)
Inductive Checked : Type :=
| vulkan (c : request)
| util_vkCompileShader (shaderType : Z)
| util_vkGetMemoryTypeIndex (memoryRequirements : VkMemoryRequirements)
    (memoryPropertyFlags : VkMemoryPropertyFlags).

Inductive Fatal : Type :=
| check_error (what : Checked) (r : VkResult)
| assertion_failed.

Inductive Prog (A : Type) : Type :=
| Ret (a : A)
| Call (c : request) (k : Answer -> Prog A)
| Abort (f : Fatal)
| Undef.
Arguments Ret {A} a.
Arguments Call {A} c k.
Arguments Abort {A} f.
Arguments Undef {A}.

Fixpoint bind {A B : Type} (p : Prog A) (f : A -> Prog B) : Prog B :=
  match p with
  | Ret a => f a
  | Call c k => Call c (fun r => bind (k r) f)
  | Abort e => Abort e
  | Undef => Undef
  end.

Declare Scope setup_scope.
Delimit Scope setup_scope with setup.
Notation "x <- p ;; q" := (bind p (fun x => q))
  (at level 61, p at next level, right associativity) : setup_scope.
Notation "p ;; q" := (bind p (fun _ => q))
  (at level 61, right associativity) : setup_scope.

(** A call whose result, if it has one, the code does not look at. *)
Definition call (c : request) : Prog Answer := Call c (fun a => Ret a).

(** [VK_CHECK_ERROR(r)] for the result [r] of evaluating [what]. *)
Definition check (what : Checked) (r : VkResult) : Prog unit :=
  if r =? VK_SUCCESS then Ret tt else Abort (check_error what r).

(** [VK_CHECK_ERROR(c)]. *)
Definition VK_CHECK_ERROR (c : request) : Prog Answer :=
  Call c (fun a => bind (check (vulkan c) (status a)) (fun _ => Ret a)).

Definition assert (b : bool) : Prog unit :=
  if b then Ret tt else Abort assertion_failed.

Definition index {A : Type} (v : list A) (i : Z) : Prog A :=
  match at_ v i with
  | Some x => Ret x
  | None => Undef
  end.

Definition defined {A : Type} (x : cxx A) : Prog A :=
  match x with
  | Defined a => Ret a
  | Undefined => Undef
  end.

(** [for (auto &x : v) body;] over a vector of [n] elements, collecting
    what the bodies produce. *)
Fixpoint each {X : Type} (n : nat) (body : Prog X) : Prog (list X) :=
  match n with
  | O => Ret []
  | S n' => bind body (fun x => bind (each n' body) (fun xs => Ret (x :: xs)))
  end.

(** [for (auto i = 0; i != count; ++i) body(i);] from [i] on, [n]
    iterations left.  [i] is an [int]: [++i] is undefined at [INT_MAX]. *)
Fixpoint each_index {X : Type} (n : nat) (i : Z) (body : Z -> Prog X) : Prog (list X) :=
  match n with
  | O => Ret []
  | S n' =>
      bind (body i) (fun x =>
        if i =? INT_MAX then Undef
        else bind (each_index n' (i + 1) body) (fun xs => Ret (x :: xs)))
  end.

(** The elements an enumeration writes into an array of [capacity]
    elements, and the array afterwards: what was not written keeps its
    value-initialized state. *)
Definition written {X : Type} (capacity : Z) (available : list X) : list X :=
  firstn (Z.to_nat capacity) available.
Definition filled {X : Type} (capacity : Z) (available : list X) (default : X) : list X :=
  written capacity available ++
  repeat default (Z.to_nat capacity - length (written capacity available)).

(** [uint32_t n; f(&n, nullptr); vector<T> v(n); f(&n, v.data());]
    the count after the second call and the vector.  [ask] is
    [VK_CHECK_ERROR] or [call]. *)
Definition enumerate {X : Type} (ask : request -> Prog Answer)
    (f : option Z -> request) (items : Answer -> list X) (default : X)
  : Prog (Z * list X) :=
  (a1 <- ask (f None) ;;
   let n := u32 (count a1) in
   a2 <- ask (f (Some n)) ;;
   Ret (Z.of_nat (length (written n (items a2))), filled n (items a2) default))%setup.

(** Programs over the entry points of [render] and the destructor, as
    programs of this kind. *)
Definition reply_of (a : Answer) : Reply := reply a.

Definition lift_fatal (f : Vk.Fatal) : Fatal :=
  match f with
  | Vk.check_error c r => check_error (vulkan (act c)) r
  | Vk.assertion_failed => assertion_failed
  end.

Fixpoint lift {A : Type} (p : Vk.Prog A) : Prog A :=
  match p with
  | Vk.Ret a => Ret a
  | Vk.Call c k => Call (act c) (fun a => lift (k (reply a)))
  | Vk.Abort f => Abort (lift_fatal f)
  | Vk.Undef => Undef
  end.

Inductive Outcome (A : Type) : Type :=
| Returned (a : A)
| Aborted (f : Fatal)
| Faulted.
Arguments Returned {A} a.
Arguments Aborted {A} f.
Arguments Faulted {A}.

Definition Trace := list (request * Answer).

Fixpoint run {A : Type} (p : Prog A) (env : nat -> request -> Answer) (n : nat)
  : Trace * Outcome A :=
  match p with
  | Ret a => ([], Returned a)
  | Call c k =>
      let (t, o) := run (k (env n c)) env (S n) in ((c, env n c) :: t, o)
  | Abort f => ([], Aborted f)
  | Undef => ([], Faulted)
  end.

Inductive performs {A : Type} : Prog A -> Trace -> Outcome A -> Prop :=
| performs_ret a : performs (Ret a) [] (Returned a)
| performs_abort f : performs (Abort f) [] (Aborted f)
| performs_undef : performs Undef [] Faulted
| performs_call c k r t o :
    performs (k r) t o -> performs (Call c k) ((c, r) :: t) o.

End Setup.

Module Construction.

Import Setup.
Local Open Scope setup_scope.

(** [sizeof(Vertex)] (three plus three plus two floats), [sizeof(Uniform)]
    (nine floats) and the size of the three vertices. *)
Definition sizeof_Vertex : Z := 32.
Definition sizeof_Uniform : Z := 36.
Definition vertexDataSize : Z := 3 * sizeof_Vertex.

Definition host_visible_coherent : VkMemoryPropertyFlags :=
  Z.lor VK_MEMORY_PROPERTY_HOST_VISIBLE_BIT VK_MEMORY_PROPERTY_HOST_COHERENT_BIT.

(** A creating call: [VK_CHECK_ERROR(vkCreate...(..., &object))]. *)
Definition create (c : request) : Prog Handle :=
  a <- VK_CHECK_ERROR c ;; Ret (handle a).

(** [aout << line << endl] for each line. *)
Fixpoint say (lines : list string) : Prog unit :=
  match lines with
  | [] => Ret tt
  | line :: rest => call (aout line) ;; say rest
  end.

Section Constructor.

(** The arguments of the constructor, the default member initializer of
    [mClearValue] (in VkRenderer.h, which is not among the sources),
    the GLSL text of steps 15 and 16, and, for [vkCompileShader], the
    letters drawn for each of its two calls and the shader compiler. *)
Variables (nativeWindow assetManager : Z).
Variable clearValue : VkClearValue.
Variables (vertexShaderCode fragmentShaderCode : string).
Variables (draw_vertex draw_fragment : Z -> Z).
Variable CompileGlslToSpv : string -> Z -> list Z -> Shader.SpvCompilationResult.

(** [VK_CHECK_ERROR(vkCompileShader(code, type, &binary))] on an empty
    [binary]. *)
Definition compileShader (draw : Z -> Z) (shaderCode : string) (shaderType : Z)
  : Prog (list Z) :=
  compiled <- defined (Shader.vkCompileShader draw CompileGlslToSpv
                         shaderCode shaderType []) ;;
  say (Shader.logged compiled) ;;
  check (util_vkCompileShader shaderType) (Shader.vkResult compiled) ;;
  Ret (Shader.shaderBinary compiled).

(** [VK_CHECK_ERROR(vkGetMemoryTypeIndex(properties, requirements, flags,
    &index))]. *)
Definition memoryTypeIndex (properties : VkPhysicalDeviceMemoryProperties)
    (requirements : VkMemoryRequirements) (flags : VkMemoryPropertyFlags) : Prog Z :=
  r <- defined (vkGetMemoryTypeIndex properties requirements flags) ;;
  check (util_vkGetMemoryTypeIndex requirements flags) (fst r) ;;
  Ret (snd r).

(** A buffer with memory of its own (steps 21 to 25, 27 to 31 and 34
    to 38): create the buffer, ask for its requirements, resolve the
    memory type, allocate, bind. *)
Definition createBuffer (device : Handle) (properties : VkPhysicalDeviceMemoryProperties)
    (size : Z) (flags : VkMemoryPropertyFlags) : Prog (Handle * Handle) :=
  buffer <- create (vkCreateBuffer device size) ;;
  req <- call (vkGetBufferMemoryRequirements device buffer) ;;
  memoryTypeIndex <- memoryTypeIndex properties (memoryRequirements req) flags ;;
  memory <- create (vkAllocateMemory device (VkUtil.size (memoryRequirements req))
                      memoryTypeIndex) ;;
  VK_CHECK_ERROR (vkBindBufferMemory device buffer memory 0) ;;
  Ret (buffer, memory).

(** Step 1. *)
Definition createInstance : Prog Handle :=
  layers <- enumerate VK_CHECK_ERROR vkEnumerateInstanceLayerProperties
              names Strings.String.EmptyString ;;
  let instanceLayerNames := snd layers in
  extensions <- enumerate VK_CHECK_ERROR vkEnumerateInstanceExtensionProperties
                  names Strings.String.EmptyString ;;
  instanceExtensionNames <- lift (Selection.instanceExtensionNames (snd extensions)) ;;
  create (vkCreateInstance instanceLayerNames instanceExtensionNames).

(** Steps 2 and 3. *)
Definition selectPhysicalDevice (mInstance : Handle)
  : Prog (Handle * VkPhysicalDeviceMemoryProperties) :=
  physicalDevices <- enumerate VK_CHECK_ERROR (vkEnumeratePhysicalDevices mInstance)
                       handles VK_NULL_HANDLE ;;
  mPhysicalDevice <- index (snd physicalDevices) 0 ;;
  properties <- call (vkGetPhysicalDeviceProperties mPhysicalDevice) ;;
  call (aout_deviceInformation (deviceProperties properties)
          (Diagnostics.vkToString_deviceType
             (deviceType (deviceProperties properties)))) ;;
  memory <- call (vkGetPhysicalDeviceMemoryProperties mPhysicalDevice) ;;
  Ret (mPhysicalDevice, memoryProperties memory).

(** Step 4: the queue family index, the device and its queue. *)
Definition createDevice (mPhysicalDevice : Handle) : Prog (Z * Handle * Handle) :=
  families <- enumerate call (vkGetPhysicalDeviceQueueFamilyProperties mPhysicalDevice)
                queueFamilies
                {| Selection.queueFlags := 0; Selection.queueCount := 0 |} ;;
  mQueueFamilyIndex <- defined (Selection.findQueueFamily (snd families) (fst families)) ;;
  extensions <- enumerate VK_CHECK_ERROR
                  (vkEnumerateDeviceExtensionProperties mPhysicalDevice)
                  names Strings.String.EmptyString ;;
  deviceExtensionNames <- lift (Selection.deviceExtensionNames (snd extensions)) ;;
  mDevice <- create (vkCreateDevice mPhysicalDevice mQueueFamilyIndex
                       deviceExtensionNames) ;;
  queue <- call (vkGetDeviceQueue mDevice mQueueFamilyIndex 0) ;;
  Ret (mQueueFamilyIndex, mDevice, handle queue).

(** Step 5. *)
Definition createSurface (mInstance mPhysicalDevice : Handle) (mQueueFamilyIndex : Z)
  : Prog Handle :=
  mSurface <- create (vkCreateAndroidSurfaceKHR mInstance nativeWindow) ;;
  support <- VK_CHECK_ERROR (vkGetPhysicalDeviceSurfaceSupportKHR mPhysicalDevice
                               mQueueFamilyIndex mSurface) ;;
  assert (negb (supported support =? 0)) ;;
  Ret mSurface.

(** What step 6 leaves for the later steps. *)
Record Swapchain := {
  mSwapchainImageExtent : VkExtent2D;
  surfaceFormat : Z;
  mSwapchain : Handle;
  swapchainImageCount : Z;
  mSwapchainImages : list Handle
}.

(** Step 6. *)
Definition createSwapchain (mPhysicalDevice mDevice mSurface : Handle) : Prog Swapchain :=
  caps <- VK_CHECK_ERROR (vkGetPhysicalDeviceSurfaceCapabilitiesKHR
                            mPhysicalDevice mSurface) ;;
  let surfaceCapabilities := capabilities caps in
  let extent := currentExtent surfaceCapabilities in
  compositeAlpha <- lift (Selection.findCompositeAlpha
                            (supportedCompositeAlpha surfaceCapabilities)) ;;
  let swapchainImageUsage :=
    Z.lor VK_IMAGE_USAGE_COLOR_ATTACHMENT_BIT VK_IMAGE_USAGE_TRANSFER_DST_BIT in
  assert (negb (Z.land (supportedUsageFlags surfaceCapabilities)
                       VK_IMAGE_USAGE_COLOR_ATTACHMENT_BIT =? 0)) ;;
  formats <- enumerate VK_CHECK_ERROR
               (vkGetPhysicalDeviceSurfaceFormatsKHR mPhysicalDevice mSurface)
               surfaceFormats {| format := 0; colorSpace := 0 |} ;;
  let surfaceFormatIndex :=
    findSurfaceFormat (firstn (Z.to_nat (fst formats)) (snd formats))
      0 VK_FORMAT_MAX_ENUM in
  assert (negb (surfaceFormatIndex =? VK_FORMAT_MAX_ENUM)) ;;
  modes <- enumerate VK_CHECK_ERROR
             (vkGetPhysicalDeviceSurfacePresentModesKHR mPhysicalDevice mSurface)
             presentModes 0 ;;
  let presentModeIndex :=
    findPresentMode (firstn (Z.to_nat (fst modes)) (snd modes))
      0 VK_PRESENT_MODE_MAX_ENUM_KHR in
  assert (negb (presentModeIndex =? VK_PRESENT_MODE_MAX_ENUM_KHR)) ;;
  chosenFormat <- index (snd formats) surfaceFormatIndex ;;
  chosenMode <- index (snd modes) presentModeIndex ;;
  swapchain <- create (vkCreateSwapchainKHR mDevice
                         {| info_surface := mSurface;
                            info_minImageCount := minImageCount surfaceCapabilities;
                            info_imageFormat := format chosenFormat;
                            info_imageColorSpace := colorSpace chosenFormat;
                            info_imageExtent := extent;
                            info_imageUsage := swapchainImageUsage;
                            info_preTransform := currentTransform surfaceCapabilities;
                            info_compositeAlpha := compositeAlpha;
                            info_presentMode := chosenMode |}) ;;
  images <- enumerate VK_CHECK_ERROR (vkGetSwapchainImagesKHR mDevice swapchain)
              handles VK_NULL_HANDLE ;;
  Ret {| mSwapchainImageExtent := extent;
         surfaceFormat := format chosenFormat;
         mSwapchain := swapchain;
         swapchainImageCount := fst images;
         mSwapchainImages := snd images |}.

(** Step 7. *)
Definition createImageViews (mDevice : Handle) (s : Swapchain) : Prog (list Handle) :=
  each_index (Z.to_nat (swapchainImageCount s)) 0 (fun i =>
    image <- index (mSwapchainImages s) i ;;
    create (vkCreateImageView mDevice image (surfaceFormat s))).

(** Steps 8 and 9: the command pool and the command buffers. *)
Definition createCommandBuffers (mDevice : Handle) (mQueueFamilyIndex : Z)
    (swapchainImageCount : Z) : Prog (Handle * list Handle) :=
  mCommandPool <- create (vkCreateCommandPool mDevice mQueueFamilyIndex) ;;
  allocated <- VK_CHECK_ERROR (vkAllocateCommandBuffers mDevice mCommandPool
                                 swapchainImageCount) ;;
  Ret (mCommandPool, filled swapchainImageCount (handles allocated) VK_NULL_HANDLE).

(** Steps 10 to 12: the submit fences, created signaled, the acquire
    fences and the semaphores. *)
Definition createSynchronization (mDevice : Handle) (swapchainImageCount : Z)
  : Prog (list Handle * list Handle * list Handle) :=
  let n := Z.to_nat swapchainImageCount in
  mFencesForSubmit <- each n (create (vkCreateFence mDevice
                                        VK_FENCE_CREATE_SIGNALED_BIT)) ;;
  mFencesForAcquire <- each n (create (vkCreateFence mDevice 0)) ;;
  mSemaphores <- each n (create (vkCreateSemaphore mDevice)) ;;
  Ret (mFencesForSubmit, mFencesForAcquire, mSemaphores).

(** Steps 13 and 14: the render pass and one framebuffer per image view. *)
Definition createFramebuffers (mDevice : Handle) (s : Swapchain)
    (mSwapchainImageViews : list Handle) : Prog (Handle * list Handle) :=
  mRenderPass <- create (vkCreateRenderPass mDevice (surfaceFormat s)) ;;
  mFramebuffers <-
    each_index (Z.to_nat (swapchainImageCount s)) 0 (fun i =>
      view <- index mSwapchainImageViews i ;;
      create (vkCreateFramebuffer mDevice mRenderPass [view]
                (width (mSwapchainImageExtent s))
                (height (mSwapchainImageExtent s)))) ;;
  Ret (mRenderPass, mFramebuffers).

(** What steps 15 to 19 create. *)
Record Pipeline := {
  mVertexShaderModule : Handle;
  mFragmentShaderModule : Handle;
  mDescriptorSetLayout : Handle;
  mPipelineLayout : Handle;
  mPipeline : Handle
}.

(** Steps 15 to 19. *)
Definition createPipeline (mDevice mRenderPass : Handle) (extent : VkExtent2D)
  : Prog Pipeline :=
  vertexShaderBinary <- compileShader draw_vertex vertexShaderCode
                          Shader.VK_SHADER_TYPE_VERTEX ;;
  vertexShaderModule <-
    create (vkCreateShaderModule mDevice
              (Z.of_nat (length vertexShaderBinary) * 4) vertexShaderBinary) ;;
  fragmentShaderBinary <- compileShader draw_fragment fragmentShaderCode
                            Shader.VK_SHADER_TYPE_FRAGMENT ;;
  fragmentShaderModule <-
    create (vkCreateShaderModule mDevice
              (Z.of_nat (length fragmentShaderBinary) * 4) fragmentShaderBinary) ;;
  descriptorSetLayout <- create (vkCreateDescriptorSetLayout mDevice) ;;
  pipelineLayout <- create (vkCreatePipelineLayout mDevice [descriptorSetLayout]) ;;
  pipeline <- create (vkCreateGraphicsPipelines mDevice
                        [vertexShaderModule; fragmentShaderModule]
                        pipelineLayout mRenderPass extent) ;;
  Ret {| mVertexShaderModule := vertexShaderModule;
         mFragmentShaderModule := fragmentShaderModule;
         mDescriptorSetLayout := descriptorSetLayout;
         mPipelineLayout := pipelineLayout;
         mPipeline := pipeline |}.

(** What steps 20 to 33 create: the staging buffer and the vertex
    buffer, each with its memory, and the command buffer in recording
    state. *)
Record Vertices := {
  stagingBuffer : Handle;
  stagingMemory : Handle;
  mVertexBuffer : Handle;
  mVertexMemory : Handle;
  uploadCommandBuffer : Handle
}.

(** Steps 20 to 33. *)
Definition createVertexBuffer (mDevice : Handle)
    (properties : VkPhysicalDeviceMemoryProperties) (mCommandBuffers : list Handle)
  : Prog Vertices :=
  staging <- createBuffer mDevice properties vertexDataSize host_visible_coherent ;;
  stagingData <- VK_CHECK_ERROR (vkMapMemory mDevice (snd staging) 0 vertexDataSize) ;;
  call (memcpy_vertices (ppData stagingData) vertexDataSize) ;;
  call (act (vkUnmapMemory mDevice (snd staging))) ;;
  vertex <- createBuffer mDevice properties vertexDataSize
              VK_MEMORY_PROPERTY_DEVICE_LOCAL_BIT ;;
  commandBuffer <- index mCommandBuffers 0 ;;
  VK_CHECK_ERROR (act (vkBeginCommandBuffer commandBuffer
                         VK_COMMAND_BUFFER_USAGE_ONE_TIME_SUBMIT_BIT)) ;;
  call (vkCmdCopyBuffer commandBuffer (fst staging) (fst vertex) vertexDataSize) ;;
  Ret {| stagingBuffer := fst staging;
         stagingMemory := snd staging;
         mVertexBuffer := fst vertex;
         mVertexMemory := snd vertex;
         uploadCommandBuffer := commandBuffer |}.

(** Steps 34 to 39, for one slot: the uniform buffer, its memory, and
    the mapped block, zeroed. *)
Definition createUniform (mDevice : Handle)
    (properties : VkPhysicalDeviceMemoryProperties) : Prog (Handle * Handle * Mapped) :=
  uniform <- createBuffer mDevice properties sizeof_Uniform host_visible_coherent ;;
  uniformData <- VK_CHECK_ERROR (vkMapMemory mDevice (snd uniform) 0 VK_WHOLE_SIZE) ;;
  call (memset (ppData uniformData) 0 sizeof_Uniform) ;;
  Ret (fst uniform, snd uniform,
       {| address := ppData uniformData; pointee := zeroed |}).

Definition createUniforms (mDevice : Handle)
    (properties : VkPhysicalDeviceMemoryProperties) (swapchainImageCount : Z)
  : Prog (list (Handle * Handle * Mapped)) :=
  each_index (Z.to_nat swapchainImageCount) 0
    (fun _ => createUniform mDevice properties).

(** What steps 40 to 48 create, and the format of the texture. *)
Record Uploaded := {
  uploadedTexture : Handle;
  uploadedImage : Handle;
  uploadedMemory : Handle;
  uploadedFormat : Z
}.

(** Steps 40 to 48: the texture, a linear image for it with memory of
    its own, and the copy of the texels into the mapped memory, row by
    row. *)
Definition uploadTexture (mDevice : Handle)
    (properties : VkPhysicalDeviceMemoryProperties) : Prog Uploaded :=
  texture <- create (vkCreateTexture mDevice assetManager "vulkan.png"%string) ;;
  got <- call (vkGetTextureProperties texture) ;;
  let textureProperties := textureProperties got in
  image <- create (vkCreateImage mDevice (texture_format textureProperties)
                     (texture_extent textureProperties)) ;;
  req <- call (vkGetImageMemoryRequirements mDevice image) ;;
  imageMemoryTypeIndex <- memoryTypeIndex properties (memoryRequirements req)
                            host_visible_coherent ;;
  memory <- create (vkAllocateMemory mDevice (VkUtil.size (memoryRequirements req))
                      imageMemoryTypeIndex) ;;
  VK_CHECK_ERROR (vkBindImageMemory mDevice image memory 0) ;;
  layout <- call (vkGetImageSubresourceLayout mDevice image) ;;
  imageData <- VK_CHECK_ERROR (vkMapMemory mDevice memory 0 VK_WHOLE_SIZE) ;;
  copied <- defined (TextureUpload.copyTexture
                       (width (texture_extent textureProperties))
                       (height (texture_extent textureProperties))
                       (rowPitch (subresourceLayout layout))
                       (pData textureProperties) (contents imageData)) ;;
  call (memcpy_rows (ppData imageData) copied) ;;
  call (act (vkUnmapMemory mDevice memory)) ;;
  Ret {| uploadedTexture := texture; uploadedImage := image;
         uploadedMemory := memory;
         uploadedFormat := texture_format textureProperties |}.

(** What steps 40 to 49 create. *)
Record Texture := {
  mTexture : Handle;
  mImage : Handle;
  mMemory : Handle;
  mImageView : Handle
}.

(** Steps 40 to 49: the texture image and a view of it. *)
Definition createTextureImage (mDevice : Handle)
    (properties : VkPhysicalDeviceMemoryProperties) : Prog Texture :=
  uploaded <- uploadTexture mDevice properties ;;
  imageView <- create (vkCreateImageView mDevice (uploadedImage uploaded)
                         (uploadedFormat uploaded)) ;;
  Ret {| mTexture := uploadedTexture uploaded; mImage := uploadedImage uploaded;
         mMemory := uploadedMemory uploaded; mImageView := imageView |}.

(** Steps 50 to 54: the layout transition, the submission of the
    upload, the wait for it, and the release of the staging buffer. *)
Definition finishUpload (mDevice mQueue : Handle) (v : Vertices) (mImage : Handle)
  : Prog unit :=
  call (vkCmdPipelineBarrier (uploadCommandBuffer v) mImage) ;;
  VK_CHECK_ERROR (act (vkEndCommandBuffer (uploadCommandBuffer v))) ;;
  VK_CHECK_ERROR (act (vkQueueSubmit mQueue
                         [{| pWaitSemaphores := [];
                             pCommandBuffers := [uploadCommandBuffer v];
                             pSignalSemaphores := [] |}]
                         VK_NULL_HANDLE)) ;;
  VK_CHECK_ERROR (act (vkQueueWaitIdle mQueue)) ;;
  call (act (vkFreeMemory mDevice (stagingMemory v))) ;;
  call (act (vkDestroyBuffer mDevice (stagingBuffer v))) ;;
  Ret tt.

(** Steps 55 to 58: the sampler, the descriptor pool, and one
    descriptor set per slot, written with the slot's uniform buffer. *)
Definition createDescriptors (mDevice : Handle) (swapchainImageCount : Z)
    (mDescriptorSetLayout mImageView : Handle) (mUniformBuffers : list Handle)
  : Prog (Handle * Handle * list Handle) :=
  mSampler <- create (vkCreateSampler mDevice) ;;
  mDescriptorPool <- create (vkCreateDescriptorPool mDevice swapchainImageCount) ;;
  mDescriptorSets <-
    each (Z.to_nat swapchainImageCount)
      (create (vkAllocateDescriptorSets mDevice mDescriptorPool
                 [mDescriptorSetLayout])) ;;
  each_index (Z.to_nat swapchainImageCount) 0 (fun i =>
    uniformBuffer <- index mUniformBuffers i ;;
    descriptorSet <- index mDescriptorSets i ;;
    call (vkUpdateDescriptorSets mDevice descriptorSet uniformBuffer
            (Some (mSampler, mImageView)))) ;;
  Ret (mSampler, mDescriptorPool, mDescriptorSets).

(** [VkRenderer::VkRenderer]. *)
Definition constructor : Prog Renderer.VkRenderer :=
  mInstance <- createInstance ;;
  physical <- selectPhysicalDevice mInstance ;;
  let mPhysicalDevice := fst physical in
  let mPhysicalDeviceMemoryProperties := snd physical in
  device <- createDevice mPhysicalDevice ;;
  let mQueueFamilyIndex := fst (fst device) in
  let mDevice := snd (fst device) in
  let mQueue := snd device in
  mSurface <- createSurface mInstance mPhysicalDevice mQueueFamilyIndex ;;
  swapchain <- createSwapchain mPhysicalDevice mDevice mSurface ;;
  mSwapchainImageViews <- createImageViews mDevice swapchain ;;
  commands <- createCommandBuffers mDevice mQueueFamilyIndex
                (swapchainImageCount swapchain) ;;
  sync <- createSynchronization mDevice (swapchainImageCount swapchain) ;;
  framebuffers <- createFramebuffers mDevice swapchain mSwapchainImageViews ;;
  pipeline <- createPipeline mDevice (fst framebuffers)
                (mSwapchainImageExtent swapchain) ;;
  vertices <- createVertexBuffer mDevice mPhysicalDeviceMemoryProperties
                (snd commands) ;;
  uniforms <- createUniforms mDevice mPhysicalDeviceMemoryProperties
                (swapchainImageCount swapchain) ;;
  texture <- createTextureImage mDevice mPhysicalDeviceMemoryProperties ;;
  finishUpload mDevice mQueue vertices (mImage texture) ;;
  descriptors <- createDescriptors mDevice (swapchainImageCount swapchain)
                   (mDescriptorSetLayout pipeline) (mImageView texture)
                   (map (fun u => fst (fst u)) uniforms) ;;
  Ret {| Renderer.mInstance := mInstance;
         Renderer.mDevice := mDevice;
         Renderer.mQueue := mQueue;
         Renderer.mSurface := mSurface;
         Renderer.mSwapchain := mSwapchain swapchain;
         Renderer.mSwapchainImages := mSwapchainImages swapchain;
         Renderer.mSwapchainImageExtent := mSwapchainImageExtent swapchain;
         Renderer.mSwapchainImageViews := mSwapchainImageViews;
         Renderer.mCommandPool := fst commands;
         Renderer.mCommandBuffers := snd commands;
         Renderer.mFencesForSubmit := fst (fst sync);
         Renderer.mFencesForAcquire := snd (fst sync);
         Renderer.mSemaphores := snd sync;
         Renderer.mClearValue := clearValue;
         Renderer.mRenderPass := fst framebuffers;
         Renderer.mFramebuffers := snd framebuffers;
         Renderer.mVertexShaderModule := mVertexShaderModule pipeline;
         Renderer.mFragmentShaderModule := mFragmentShaderModule pipeline;
         Renderer.mDescriptorSetLayout := mDescriptorSetLayout pipeline;
         Renderer.mPipelineLayout := mPipelineLayout pipeline;
         Renderer.mPipeline := mPipeline pipeline;
         Renderer.mVertexBuffer := mVertexBuffer vertices;
         Renderer.mVertexMemory := mVertexMemory vertices;
         Renderer.mUniformBuffers := map (fun u => fst (fst u)) uniforms;
         Renderer.mUniformMemories := map (fun u => snd (fst u)) uniforms;
         Renderer.mUniformData := map snd uniforms;
         Renderer.mDescriptorPool := snd (fst descriptors);
         Renderer.mDescriptorSets := snd descriptors;
         Renderer.mTexture := mTexture texture;
         Renderer.mImage := mImage texture;
         Renderer.mMemory := mMemory texture;
         Renderer.mImageView := mImageView texture;
         Renderer.mSampler := fst (fst descriptors);
         Renderer.mFrameIndex := constructed_frame_index |}.

(** The life of the renderer: construction, [n] frames, destruction. *)
Definition lifetime (n : nat) : Prog unit :=
  this <- constructor ;;
  this' <- lift (frames n this) ;;
  lift (destructor this').

End Constructor.

End Construction.

(** ** Vocabulary for the statements about the constructor *)

Module Lifecycle.

Import Setup.

(** What a handle is a handle of: the object types of Vulkan, a mapping
    of device memory into the address space of the host, and a texture
    of VkTexture.h. *)
Inductive Kind : Type :=
| VK_OBJECT_TYPE_INSTANCE
| VK_OBJECT_TYPE_DEVICE
| VK_OBJECT_TYPE_SURFACE_KHR
| VK_OBJECT_TYPE_SWAPCHAIN_KHR
| VK_OBJECT_TYPE_IMAGE_VIEW
| VK_OBJECT_TYPE_COMMAND_POOL
| VK_OBJECT_TYPE_COMMAND_BUFFER
| VK_OBJECT_TYPE_FENCE
| VK_OBJECT_TYPE_SEMAPHORE
| VK_OBJECT_TYPE_RENDER_PASS
| VK_OBJECT_TYPE_FRAMEBUFFER
| VK_OBJECT_TYPE_SHADER_MODULE
| VK_OBJECT_TYPE_DESCRIPTOR_SET_LAYOUT
| VK_OBJECT_TYPE_PIPELINE_LAYOUT
| VK_OBJECT_TYPE_PIPELINE
| VK_OBJECT_TYPE_BUFFER
| VK_OBJECT_TYPE_DEVICE_MEMORY
| VK_OBJECT_TYPE_IMAGE
| VK_OBJECT_TYPE_SAMPLER
| VK_OBJECT_TYPE_DESCRIPTOR_POOL
| VK_OBJECT_TYPE_DESCRIPTOR_SET
| host_mapping
| texture.

Abbreviation Object := (Kind * Handle)%type.

Definition all (k : Kind) (hs : list Handle) : list Object := map (pair k) hs.

(** The objects that exist once call [c] has returned [a] and did not
    exist before. *)
Definition creates (c : request) (a : Answer) : list Object :=
  if status a =? VK_SUCCESS then
    match c with
    | vkCreateInstance _ _ => [(VK_OBJECT_TYPE_INSTANCE, handle a)]
    | vkCreateDevice _ _ _ => [(VK_OBJECT_TYPE_DEVICE, handle a)]
    | vkCreateAndroidSurfaceKHR _ _ => [(VK_OBJECT_TYPE_SURFACE_KHR, handle a)]
    | vkCreateSwapchainKHR _ _ => [(VK_OBJECT_TYPE_SWAPCHAIN_KHR, handle a)]
    | vkCreateImageView _ _ _ => [(VK_OBJECT_TYPE_IMAGE_VIEW, handle a)]
    | vkCreateCommandPool _ _ => [(VK_OBJECT_TYPE_COMMAND_POOL, handle a)]
    | vkAllocateCommandBuffers _ _ n =>
        all VK_OBJECT_TYPE_COMMAND_BUFFER (written n (handles a))
    | vkCreateFence _ _ => [(VK_OBJECT_TYPE_FENCE, handle a)]
    | vkCreateSemaphore _ => [(VK_OBJECT_TYPE_SEMAPHORE, handle a)]
    | vkCreateRenderPass _ _ => [(VK_OBJECT_TYPE_RENDER_PASS, handle a)]
    | vkCreateFramebuffer _ _ _ _ _ => [(VK_OBJECT_TYPE_FRAMEBUFFER, handle a)]
    | vkCreateShaderModule _ _ _ => [(VK_OBJECT_TYPE_SHADER_MODULE, handle a)]
    | vkCreateDescriptorSetLayout _ =>
        [(VK_OBJECT_TYPE_DESCRIPTOR_SET_LAYOUT, handle a)]
    | vkCreatePipelineLayout _ _ => [(VK_OBJECT_TYPE_PIPELINE_LAYOUT, handle a)]
    | vkCreateGraphicsPipelines _ _ _ _ _ => [(VK_OBJECT_TYPE_PIPELINE, handle a)]
    | vkCreateBuffer _ _ => [(VK_OBJECT_TYPE_BUFFER, handle a)]
    | vkAllocateMemory _ _ _ => [(VK_OBJECT_TYPE_DEVICE_MEMORY, handle a)]
    | vkMapMemory _ memory _ _ => [(host_mapping, memory)]
    | vkCreateTexture _ _ _ => [(texture, handle a)]
    | vkCreateImage _ _ _ => [(VK_OBJECT_TYPE_IMAGE, handle a)]
    | vkCreateSampler _ => [(VK_OBJECT_TYPE_SAMPLER, handle a)]
    | vkCreateDescriptorPool _ _ => [(VK_OBJECT_TYPE_DESCRIPTOR_POOL, handle a)]
    | vkAllocateDescriptorSets _ _ _ => [(VK_OBJECT_TYPE_DESCRIPTOR_SET, handle a)]
    | _ => []
    end
  else [].

(** The objects that call [c] destroys, frees or unmaps. *)
Definition destroys (c : action) : list Object :=
  match c with
  | vkFreeDescriptorSets _ _ sets => all VK_OBJECT_TYPE_DESCRIPTOR_SET sets
  | vkDestroyDescriptorPool _ pool => [(VK_OBJECT_TYPE_DESCRIPTOR_POOL, pool)]
  | vkDestroySampler _ sampler => [(VK_OBJECT_TYPE_SAMPLER, sampler)]
  | vkDestroyImageView _ view => [(VK_OBJECT_TYPE_IMAGE_VIEW, view)]
  | vkFreeMemory _ memory => [(VK_OBJECT_TYPE_DEVICE_MEMORY, memory)]
  | vkDestroyImage _ image => [(VK_OBJECT_TYPE_IMAGE, image)]
  | vkDestroyTexture _ t => [(texture, t)]
  | vkUnmapMemory _ memory => [(host_mapping, memory)]
  | vkDestroyBuffer _ buffer => [(VK_OBJECT_TYPE_BUFFER, buffer)]
  | vkDestroyDescriptorSetLayout _ layout =>
      [(VK_OBJECT_TYPE_DESCRIPTOR_SET_LAYOUT, layout)]
  | vkDestroyPipelineLayout _ layout => [(VK_OBJECT_TYPE_PIPELINE_LAYOUT, layout)]
  | vkDestroyPipeline _ pipeline => [(VK_OBJECT_TYPE_PIPELINE, pipeline)]
  | vkDestroyShaderModule _ module => [(VK_OBJECT_TYPE_SHADER_MODULE, module)]
  | vkDestroyFramebuffer _ framebuffer => [(VK_OBJECT_TYPE_FRAMEBUFFER, framebuffer)]
  | vkDestroyRenderPass _ renderPass => [(VK_OBJECT_TYPE_RENDER_PASS, renderPass)]
  | vkDestroySemaphore _ semaphore => [(VK_OBJECT_TYPE_SEMAPHORE, semaphore)]
  | vkDestroyFence _ fence => [(VK_OBJECT_TYPE_FENCE, fence)]
  | vkFreeCommandBuffers _ _ buffers => all VK_OBJECT_TYPE_COMMAND_BUFFER buffers
  | vkDestroyCommandPool _ pool => [(VK_OBJECT_TYPE_COMMAND_POOL, pool)]
  | vkDestroySwapchainKHR _ swapchain => [(VK_OBJECT_TYPE_SWAPCHAIN_KHR, swapchain)]
  | vkDestroySurfaceKHR _ surface => [(VK_OBJECT_TYPE_SURFACE_KHR, surface)]
  | vkDestroyDevice device => [(VK_OBJECT_TYPE_DEVICE, device)]
  | vkDestroyInstance instance => [(VK_OBJECT_TYPE_INSTANCE, instance)]
  | _ => []
  end.

Definition removes (c : request) : list Object :=
  match c with
  | act c' => destroys c'
  | _ => []
  end.

(** Everything a run created, and everything it destroyed, in order. *)
Definition created (t : Trace) : list Object :=
  flat_map (fun e => creates (fst e) (snd e)) t.
Definition destroyed (t : Trace) : list Object :=
  flat_map (fun e => removes (fst e)) t.

(** What the constructor creates for one uniform slot: the buffer, its
    memory, and the mapping of the memory. *)
Definition slot_objects (u : Handle * Handle * Mapped) : list Object :=
  [(VK_OBJECT_TYPE_BUFFER, fst (fst u));
   (VK_OBJECT_TYPE_DEVICE_MEMORY, snd (fst u));
   (host_mapping, snd (fst u))].

(** The objects the members of a renderer stand for, in the order in
    which the destructor goes through them. *)
Definition owned (this : Renderer.VkRenderer) : list Object :=
  all VK_OBJECT_TYPE_DESCRIPTOR_SET (mDescriptorSets this) ++
  [(VK_OBJECT_TYPE_DESCRIPTOR_POOL, mDescriptorPool this);
   (VK_OBJECT_TYPE_SAMPLER, mSampler this);
   (VK_OBJECT_TYPE_IMAGE_VIEW, mImageView this);
   (VK_OBJECT_TYPE_DEVICE_MEMORY, mMemory this);
   (VK_OBJECT_TYPE_IMAGE, mImage this);
   (texture, mTexture this)] ++
  all host_mapping (mUniformMemories this) ++
  all VK_OBJECT_TYPE_DEVICE_MEMORY (mUniformMemories this) ++
  all VK_OBJECT_TYPE_BUFFER (mUniformBuffers this) ++
  [(VK_OBJECT_TYPE_DEVICE_MEMORY, mVertexMemory this);
   (VK_OBJECT_TYPE_BUFFER, mVertexBuffer this);
   (VK_OBJECT_TYPE_DESCRIPTOR_SET_LAYOUT, mDescriptorSetLayout this);
   (VK_OBJECT_TYPE_PIPELINE_LAYOUT, mPipelineLayout this);
   (VK_OBJECT_TYPE_PIPELINE, mPipeline this);
   (VK_OBJECT_TYPE_SHADER_MODULE, mVertexShaderModule this);
   (VK_OBJECT_TYPE_SHADER_MODULE, mFragmentShaderModule this)] ++
  all VK_OBJECT_TYPE_FRAMEBUFFER (mFramebuffers this) ++
  [(VK_OBJECT_TYPE_RENDER_PASS, mRenderPass this)] ++
  all VK_OBJECT_TYPE_IMAGE_VIEW (mSwapchainImageViews this) ++
  all VK_OBJECT_TYPE_SEMAPHORE (mSemaphores this) ++
  all VK_OBJECT_TYPE_FENCE (mFencesForAcquire this) ++
  all VK_OBJECT_TYPE_FENCE (mFencesForSubmit this) ++
  all VK_OBJECT_TYPE_COMMAND_BUFFER (mCommandBuffers this) ++
  [(VK_OBJECT_TYPE_COMMAND_POOL, mCommandPool this);
   (VK_OBJECT_TYPE_SWAPCHAIN_KHR, mSwapchain this);
   (VK_OBJECT_TYPE_SURFACE_KHR, mSurface this);
   (VK_OBJECT_TYPE_DEVICE, mDevice this);
   (VK_OBJECT_TYPE_INSTANCE, mInstance this)].

(** A call that fills an array of [n] handles for the program fills all
    of it: the driver has the swapchain images it announced, and it
    allocates as many command buffers as were asked for. *)
Definition delivered (e : request * Answer) : Prop :=
  match fst e with
  | vkGetSwapchainImagesKHR _ _ (Some n)
  | vkAllocateCommandBuffers _ _ n => (Z.to_nat n <= length (handles (snd e)))%nat
  | _ => True
  end.

(** Every call the program can make satisfies [phi]. *)
Inductive every {A : Type} (phi : request -> Prop) : Prog A -> Prop :=
| every_ret a : every phi (Ret a)
| every_abort f : every phi (Abort f)
| every_undef : every phi Undef
| every_call c k :
    phi c -> (forall a, every phi (k a)) -> every phi (Call c k).

(** What the rest of the program has to be once call [c] has returned
    [a]; a rule may leave it open. *)
Definition Rule : Type := forall A : Type, request -> Answer -> Prog A -> Prop.

(** The program obeys rule [R] at every call it can make. *)
Inductive obeys {A : Type} (R : Rule) : Prog A -> Prop :=
| obeys_ret a : obeys R (Ret a)
| obeys_abort f : obeys R (Abort f)
| obeys_undef : obeys R Undef
| obeys_call c k :
    (forall a, R A c a (k a)) -> (forall a, obeys R (k a)) -> obeys R (Call c k).

(** The calls whose result the constructor wraps in [VK_CHECK_ERROR]. *)
Definition checked (c : request) : bool :=
  match c with
  | vkGetPhysicalDeviceProperties _
  | vkGetPhysicalDeviceMemoryProperties _
  | vkGetPhysicalDeviceQueueFamilyProperties _ _
  | vkGetDeviceQueue _ _ _
  | vkGetBufferMemoryRequirements _ _
  | vkCmdCopyBuffer _ _ _ _
  | vkGetTextureProperties _
  | vkGetImageMemoryRequirements _ _
  | vkGetImageSubresourceLayout _ _
  | vkCmdPipelineBarrier _ _
  | vkUpdateDescriptorSets _ _ _ _
  | memcpy_vertices _ _ | memcpy_rows _ _ | memset _ _ _
  | aout_deviceInformation _ _ | aout _ => false
  | act c' => is_checked c'
  | _ => true
  end.

(** A checked call that fails is where the process ends. *)
Definition aborts_on_failure : Rule :=
  fun A c a rest =>
    checked c = true -> status a <> VK_SUCCESS ->
    rest = Abort (check_error (vulkan c) (status a)).

(** A successful enumeration into an array of no physical devices is
    followed by undefined behaviour. *)
Definition faults_without_device : Rule :=
  fun A c a rest =>
    match c with
    | vkEnumeratePhysicalDevices _ (Some n) =>
        n = 0 -> status a = VK_SUCCESS -> rest = Undef
    | _ => True
    end.

End Lifecycle.

Module Bringup.

Import Setup.

(** The effect on the device of a call of the constructor that returns
    [a], or [None] when the call cannot return [a] in this state.  A
    fence starts out signaled exactly if it is created with
    [VK_FENCE_CREATE_SIGNALED_BIT]; the entry points [render] and the
    destructor use as well act as they do there; the other calls leave
    fences and queue as they are. *)
Definition answers (w : World) (c : request) (a : Answer) : option World :=
  match c with
  | act c' => returns w c' (reply a)
  | vkCreateFence _ flags =>
      if status a =? VK_SUCCESS
      then Some {| signaled :=
                     set_fence (handle a)
                       (negb (Z.land flags VK_FENCE_CREATE_SIGNALED_BIT =? 0))
                       (signaled w);
                   inflight := inflight w;
                   acquiring := acquiring w |}
      else Some w
  | _ => Some w
  end.

(** The device lets the calls of a trace return what the trace says they
    returned, making progress of its own in between. *)
Inductive possible : World -> Trace -> World -> Prop :=
| possible_nil w : possible w [] w
| possible_call w c a w1 t w' :
    answers w c a = Some w1 -> possible w1 t w' -> possible w ((c, a) :: t) w'
| possible_device w w1 t w' :
    progress w w1 -> possible w1 t w' -> possible w t w'.

(** Calls that neither create nor reset a fence and acquire no image. *)
Definition keeps_fences (c : request) : bool :=
  match c with
  | vkCreateFence _ _
  | act (vkResetFences _ _)
  | act (vkAcquireNextImageKHR _ _ _ _ _) => false
  | _ => true
  end.

(** An event that leaves the fences of [fs] signaled if they are: it
    resets no fence, acquires no image, and if it creates a fence then a
    signaled one or one that is not in [fs]. *)
Definition spares (fs : list Handle) (e : request * Answer) : Prop :=
  match fst e with
  | vkCreateFence _ flags =>
      negb (Z.land flags VK_FENCE_CREATE_SIGNALED_BIT =? 0) = true \/
      ~ In (handle (snd e)) fs
  | c => keeps_fences c = true
  end.

(** The event of a fence creation that succeeded, and the fence. *)
Definition fence_created (device : Handle) (flags : Z) (t : Trace) (fence : Handle) : Prop :=
  exists a, t = [(vkCreateFence device flags, a)] /\
            status a = VK_SUCCESS /\ fence = handle a.

(** Calls that acquire no image. *)
Definition acquires_nothing (c : request) : bool :=
  match c with
  | act (vkAcquireNextImageKHR _ _ _ _ _) => false
  | _ => true
  end.

(** Calls that hand nothing to the queue. *)
Definition submits_nothing (c : request) : bool :=
  match c with
  | act (vkQueueSubmit _ _ _) => false
  | _ => true
  end.

(** Every fence of [fs] is signaled and no image is awaited. *)
Definition signaled_all (fs : list Handle) (w : World) : Prop :=
  acquiring w = [] /\ forall f, In f fs -> signaled w f = true.

(** Calls that free device memory or destroy a buffer. *)
Definition discards (c : request) : bool :=
  match c with
  | act (vkFreeMemory _ _) | act (vkDestroyBuffer _ _) => true
  | _ => false
  end.

(** Memory is freed and buffers are destroyed only while nothing is in
    flight. *)
Definition discards_idle (w : World) (c : request) : Prop :=
  discards c = true -> inflight w = [].

(** In every run of [p] against the device, from any state and with any
    outcome, every call is acceptable in every state in which it can be
    made. *)
Definition safe {A : Type} (ok : World -> request -> Prop) (p : Prog A) : Prop :=
  forall w t o t1 c a t2 w1,
    performs p t o -> t = t1 ++ (c, a) :: t2 -> possible w t1 w1 -> ok w1 c.

(** The queue finishes everything in flight, oldest submission last. *)
Fixpoint drain (s : list Submission) (signaled : Handle -> bool) : Handle -> bool :=
  match s with
  | [] => signaled
  | x :: rest => drain rest (signal (signalFence x) signaled)
  end.

Definition drained (w : World) : World :=
  {| signaled := drain (inflight w) (signaled w);
     inflight := [];
     acquiring := acquiring w |}.

(** A schedule for a trace: the device finishes what is in flight right
    before each wait for idleness and does nothing of its own otherwise. *)
Fixpoint replay (w : World) (t : Trace) : option World :=
  match t with
  | [] => Some w
  | (c, a) :: t' =>
      let w1 := match c with
                | act (vkQueueWaitIdle _) | act (vkDeviceWaitIdle _) => drained w
                | _ => w
                end in
      match answers w1 c a with
      | Some w2 => replay w2 t'
      | None => None
      end
  end.

(** A driver under which the constructor returns: every call succeeds,
    the [n]-th call hands out handle [n + 1] (and [10 (n + 1)],
    [10 (n + 1) + 1] where it fills an array), there are one physical
    device, one queue family, the three extensions the constructor looks
    for, two swapchain images, and a texture of two by two texels. *)
Definition driver (n : nat) (c : request) : Answer :=
  let h := Z.of_nat n + 1 in
  {| reply := granted 0;
     count := match c with
              | vkEnumerateInstanceLayerProperties _ => 0
              | vkEnumerateInstanceExtensionProperties _
              | vkGetSwapchainImagesKHR _ _ _ => 2
              | _ => 1
              end;
     handle := h;
     handles := [10 * h; 10 * h + 1];
     names := match c with
              | vkEnumerateInstanceExtensionProperties _ =>
                  ["VK_KHR_surface"; "VK_KHR_android_surface"]%string
              | vkEnumerateDeviceExtensionProperties _ _ => ["VK_KHR_swapchain"%string]
              | _ => []
              end;
     deviceProperties :=
       {| deviceName := "device"%string; deviceType := 1; deviceID := 1; vendorID := 1;
          apiVersion := 0; driverVersion := 0 |};
     memoryProperties := sample_table;
     queueFamilies :=
       [{| Selection.queueFlags := Selection.VK_QUEUE_GRAPHICS_BIT;
           Selection.queueCount := 1 |}];
     supported := 1;
     capabilities :=
       {| minImageCount := 2;
          currentExtent := {| width := 1080; height := 1920 |};
          currentTransform := 1;
          supportedCompositeAlpha := 1;
          supportedUsageFlags := VK_IMAGE_USAGE_COLOR_ATTACHMENT_BIT |};
     surfaceFormats := [{| format := VK_FORMAT_R8G8B8A8_UNORM; colorSpace := 0 |}];
     presentModes := [VK_PRESENT_MODE_FIFO_KHR];
     memoryRequirements := sample_requirements;
     ppData := 4096 * h;
     contents := repeat 0 16;
     textureProperties :=
       {| texture_format := VK_FORMAT_R8G8B8A8_UNORM;
          texture_extent := {| width := 2; height := 2 |};
          pData := repeat 255 16 |};
     subresourceLayout := {| rowPitch := 8 |} |}.

(** [a] with another result, and with another count. *)
Definition with_result (r : VkResult) (a : Answer) : Answer :=
  {| reply := {| result := r; imageIndex := imageIndex (reply a) |};
     count := count a; handle := handle a; handles := handles a; names := names a;
     deviceProperties := deviceProperties a; memoryProperties := memoryProperties a;
     queueFamilies := queueFamilies a; supported := supported a;
     capabilities := capabilities a; surfaceFormats := surfaceFormats a;
     presentModes := presentModes a; memoryRequirements := memoryRequirements a;
     ppData := ppData a; contents := contents a;
     textureProperties := textureProperties a;
     subresourceLayout := subresourceLayout a |}.

Definition with_count (n : Z) (a : Answer) : Answer :=
  {| reply := reply a;
     count := n; handle := handle a; handles := handles a; names := names a;
     deviceProperties := deviceProperties a; memoryProperties := memoryProperties a;
     queueFamilies := queueFamilies a; supported := supported a;
     capabilities := capabilities a; surfaceFormats := surfaceFormats a;
     presentModes := presentModes a; memoryRequirements := memoryRequirements a;
     ppData := ppData a; contents := contents a;
     textureProperties := textureProperties a;
     subresourceLayout := subresourceLayout a |}.

(** The same driver, except that it cannot create the swapchain. *)
Definition refusing (n : nat) (c : request) : Answer :=
  match c with
  | vkCreateSwapchainKHR _ _ =>
      with_result Diagnostics.VK_ERROR_INITIALIZATION_FAILED (driver n c)
  | _ => driver n c
  end.

(** The same driver, except that it has no physical device. *)
Definition deviceless (n : nat) (c : request) : Answer :=
  match c with
  | vkEnumeratePhysicalDevices _ _ => with_count 0 (driver n c)
  | _ => driver n c
  end.

(** A shader compiler that succeeds, with a one-word binary. *)
Definition compiler (source : string) (kind : Z) (tag : list Z) : Shader.SpvCompilationResult :=
  {| Shader.GetCompilationStatus := Shader.shaderc_compilation_status_success;
     Shader.words := [119734787];
     Shader.GetErrorMessage := Strings.String.EmptyString |}.

(** The run of the constructor under this driver, with a window, an
    asset manager, a clear colour of zeros, shader texts standing for
    those of the source, and 97 for every letter drawn. *)
Definition sample_run : Trace * Outcome Renderer.VkRenderer :=
  run (Construction.constructor 1 2 [zero; zero; zero; zero]
         "vertex"%string "fragment"%string (fun _ => 97) (fun _ => 97) compiler)
      driver 0.

(** Under the same driver: construction, two frames, destruction. *)
Definition sample_lifetime : Trace * Outcome unit :=
  run (Construction.lifetime 1 2 [zero; zero; zero; zero]
         "vertex"%string "fragment"%string (fun _ => 97) (fun _ => 97) compiler 2)
      driver 0.

(** The runs of the constructor under the two other drivers, and the
    last call of a run with its answer. *)
Definition refused_run : Trace * Outcome Renderer.VkRenderer :=
  run (Construction.constructor 1 2 [zero; zero; zero; zero]
         "vertex"%string "fragment"%string (fun _ => 97) (fun _ => 97) compiler)
      refusing 0.

Definition deviceless_run : Trace * Outcome Renderer.VkRenderer :=
  run (Construction.constructor 1 2 [zero; zero; zero; zero]
         "vertex"%string "fragment"%string (fun _ => 97) (fun _ => 97) compiler)
      deviceless 0.

Definition last_call (t : Trace) : request * Answer :=
  last t (aout Strings.String.EmptyString, driver 0 (aout Strings.String.EmptyString)).

(** The [k]-th call of a run with its answer. *)
Definition call_at (k : nat) (t : Trace) : request * Answer :=
  nth k t (aout Strings.String.EmptyString, driver 0 (aout Strings.String.EmptyString)).

(** The state of the device before the [k]-th call of a run on a device
    that starts idle. *)
Definition device_before (k : nat) (t : Trace) : World :=
  match replay SamplerLoop.idle_device (firstn k t) with
  | Some w => w
  | None => SamplerLoop.idle_device
  end.

Definition sample_renderer : Renderer.VkRenderer :=
  match snd sample_run with
  | Returned this => this
  | _ => two_slots
  end.

Definition sample_device : World :=
  match replay SamplerLoop.idle_device (fst sample_run) with
  | Some w => w
  | None => SamplerLoop.idle_device
  end.

End Bringup.

(** ** vulkan-sampler: the constructor *)

Module SamplerConstruction.

Import Setup Construction.
Local Open Scope setup_scope.

(** [sizeof(Vertex)] of this sample (three plus three floats) and the
    size of the three vertices. *)
Definition sizeof_Vertex : Z := 24.
Definition vertexDataSize : Z := 3 * sizeof_Vertex.

Section Constructor.

(** The arguments of the constructor, the default member initializer of
    [mClearValue] (in VkRenderer.h, which is not among the sources),
    the GLSL text of the two shaders, and, for [vkCompileShader], the
    letters drawn for each of its two calls and the shader compiler. *)
Variables (window assetManager : Z).
Variable clearValue : VkClearValue.
Variables (vertexShaderCode fragmentShaderCode : string).
Variables (draw_vertex draw_fragment : Z -> Z).
Variable CompileGlslToSpv : string -> Z -> list Z -> Shader.SpvCompilationResult.

(** What steps 8 to 11 create. *)
Record Commands := {
  mCommandPool : Handle;
  mCommandBuffer : Handle;
  mFence : Handle;
  mSemaphore : Handle
}.

(** Steps 8 to 11: the command pool, the one command buffer (the
    handle the driver writes through [&mCommandBuffer]), the fence,
    created unsignaled, and the semaphore. *)
Definition createCommands (mDevice : Handle) (mQueueFamilyIndex : Z) : Prog Commands :=
  commandPool <- create (vkCreateCommandPool mDevice mQueueFamilyIndex) ;;
  allocated <- VK_CHECK_ERROR (vkAllocateCommandBuffers mDevice commandPool 1) ;;
  fence <- create (vkCreateFence mDevice 0) ;;
  semaphore <- create (vkCreateSemaphore mDevice) ;;
  Ret {| mCommandPool := commandPool;
         mCommandBuffer := hd VK_NULL_HANDLE (written 1 (handles allocated));
         mFence := fence;
         mSemaphore := semaphore |}.

(** The vertex buffer, in memory the host can see, filled through a
    mapping that is undone at once. *)
Definition createVertexBuffer (mDevice : Handle)
    (properties : VkPhysicalDeviceMemoryProperties) : Prog (Handle * Handle) :=
  vertex <- createBuffer mDevice properties vertexDataSize host_visible_coherent ;;
  vertexData <- VK_CHECK_ERROR (vkMapMemory mDevice (snd vertex) 0 vertexDataSize) ;;
  call (memcpy_vertices (ppData vertexData) vertexDataSize) ;;
  call (act (vkUnmapMemory mDevice (snd vertex))) ;;
  Ret vertex.

(** Steps 36 to 39: the sampler, the descriptor pool, the one
    descriptor set, written with the uniform buffer. *)
Definition createDescriptorSet (mDevice mDescriptorSetLayout mUniformBuffer : Handle)
  : Prog (Handle * Handle * Handle) :=
  sampler <- create (vkCreateSampler mDevice) ;;
  descriptorPool <- create (vkCreateDescriptorPool mDevice 1) ;;
  descriptorSet <- create (vkAllocateDescriptorSets mDevice descriptorPool
                             [mDescriptorSetLayout]) ;;
  call (vkUpdateDescriptorSets mDevice descriptorSet mUniformBuffer None) ;;
  Ret (sampler, descriptorPool, descriptorSet).

(** [VkRenderer::VkRenderer] of vulkan-sampler.  Up to the image views
    its text is that of hello-graceful-shutdown, and so is the text of
    the render pass and the framebuffers, of the shaders and the
    pipeline, of the uniform buffer (there, one per slot) and of the
    texture upload. *)
Definition constructor : Prog (Sampler.VkRenderer * SamplerLoop.Members) :=
  mInstance <- createInstance ;;
  physical <- selectPhysicalDevice mInstance ;;
  let mPhysicalDevice := fst physical in
  let mPhysicalDeviceMemoryProperties := snd physical in
  device <- createDevice mPhysicalDevice ;;
  let mQueueFamilyIndex := fst (fst device) in
  let mDevice := snd (fst device) in
  let mQueue := snd device in
  mSurface <- createSurface window mInstance mPhysicalDevice mQueueFamilyIndex ;;
  swapchain <- createSwapchain mPhysicalDevice mDevice mSurface ;;
  mSwapchainImageViews <- createImageViews mDevice swapchain ;;
  commands <- createCommands mDevice mQueueFamilyIndex ;;
  framebuffers <- createFramebuffers mDevice swapchain mSwapchainImageViews ;;
  pipeline <- createPipeline vertexShaderCode fragmentShaderCode draw_vertex
                draw_fragment CompileGlslToSpv mDevice (fst framebuffers)
                (mSwapchainImageExtent swapchain) ;;
  vertex <- createVertexBuffer mDevice mPhysicalDeviceMemoryProperties ;;
  uniform <- createUniform mDevice mPhysicalDeviceMemoryProperties ;;
  texture <- uploadTexture assetManager mDevice mPhysicalDeviceMemoryProperties ;;
  descriptors <- createDescriptorSet mDevice (mDescriptorSetLayout pipeline)
                   (fst (fst uniform)) ;;
  Ret ({| Sampler.mDevice := mDevice;
          Sampler.mQueue := mQueue;
          Sampler.mSwapchain := mSwapchain swapchain;
          Sampler.mSwapchainImageExtent := mSwapchainImageExtent swapchain;
          Sampler.mCommandBuffer := mCommandBuffer commands;
          Sampler.mFence := mFence commands;
          Sampler.mSemaphore := mSemaphore commands;
          Sampler.mClearValue := clearValue;
          Sampler.mRenderPass := fst framebuffers;
          Sampler.mFramebuffers := snd framebuffers;
          Sampler.mPipelineLayout := mPipelineLayout pipeline;
          Sampler.mPipeline := mPipeline pipeline;
          Sampler.mVertexBuffer := fst vertex;
          Sampler.mUniformData := snd uniform;
          Sampler.mDescriptorSet := snd descriptors |},
       {| SamplerLoop.mInstance := mInstance;
          SamplerLoop.mSurface := mSurface;
          SamplerLoop.mSwapchainImageViews := mSwapchainImageViews;
          SamplerLoop.mCommandPool := mCommandPool commands;
          SamplerLoop.mVertexShaderModule := mVertexShaderModule pipeline;
          SamplerLoop.mFragmentShaderModule := mFragmentShaderModule pipeline;
          SamplerLoop.mDescriptorSetLayout := mDescriptorSetLayout pipeline;
          SamplerLoop.mVertexMemory := snd vertex;
          SamplerLoop.mUniformBuffer := fst (fst uniform);
          SamplerLoop.mUniformMemory := snd (fst uniform);
          SamplerLoop.mDescriptorPool := snd (fst descriptors);
          SamplerLoop.mTexture := uploadedTexture texture;
          SamplerLoop.mImage := uploadedImage texture;
          SamplerLoop.mMemory := uploadedMemory texture;
          SamplerLoop.mSampler := fst (fst descriptors) |}).

(** The life of the renderer: construction, [n] frames, destruction. *)
Definition lifetime (n : nat) : Prog unit :=
  made <- constructor ;;
  lift (SamplerLoop.lifetime n (fst made) (snd made)).

End Constructor.

(** The objects the members of a renderer stand for, in the order in
    which the destructor goes through them. *)
Definition owned (this : Sampler.VkRenderer) (rest : SamplerLoop.Members)
  : list Lifecycle.Object :=
  let mine := fun k h => (k, h) in
  [mine Lifecycle.VK_OBJECT_TYPE_DESCRIPTOR_SET (Sampler.mDescriptorSet this);
   mine Lifecycle.VK_OBJECT_TYPE_DESCRIPTOR_POOL (SamplerLoop.mDescriptorPool rest);
   mine Lifecycle.VK_OBJECT_TYPE_SAMPLER (SamplerLoop.mSampler rest);
   mine Lifecycle.VK_OBJECT_TYPE_DEVICE_MEMORY (SamplerLoop.mMemory rest);
   mine Lifecycle.VK_OBJECT_TYPE_IMAGE (SamplerLoop.mImage rest);
   mine Lifecycle.texture (SamplerLoop.mTexture rest);
   mine Lifecycle.host_mapping (SamplerLoop.mUniformMemory rest);
   mine Lifecycle.VK_OBJECT_TYPE_DEVICE_MEMORY (SamplerLoop.mUniformMemory rest);
   mine Lifecycle.VK_OBJECT_TYPE_BUFFER (SamplerLoop.mUniformBuffer rest);
   mine Lifecycle.VK_OBJECT_TYPE_DEVICE_MEMORY (SamplerLoop.mVertexMemory rest);
   mine Lifecycle.VK_OBJECT_TYPE_BUFFER (Sampler.mVertexBuffer this);
   mine Lifecycle.VK_OBJECT_TYPE_DESCRIPTOR_SET_LAYOUT
     (SamplerLoop.mDescriptorSetLayout rest);
   mine Lifecycle.VK_OBJECT_TYPE_PIPELINE_LAYOUT (Sampler.mPipelineLayout this);
   mine Lifecycle.VK_OBJECT_TYPE_PIPELINE (Sampler.mPipeline this);
   mine Lifecycle.VK_OBJECT_TYPE_SHADER_MODULE (SamplerLoop.mVertexShaderModule rest);
   mine Lifecycle.VK_OBJECT_TYPE_SHADER_MODULE (SamplerLoop.mFragmentShaderModule rest)] ++
  Lifecycle.all Lifecycle.VK_OBJECT_TYPE_FRAMEBUFFER (Sampler.mFramebuffers this) ++
  [mine Lifecycle.VK_OBJECT_TYPE_RENDER_PASS (Sampler.mRenderPass this)] ++
  Lifecycle.all Lifecycle.VK_OBJECT_TYPE_IMAGE_VIEW
    (SamplerLoop.mSwapchainImageViews rest) ++
  [mine Lifecycle.VK_OBJECT_TYPE_SEMAPHORE (Sampler.mSemaphore this);
   mine Lifecycle.VK_OBJECT_TYPE_FENCE (Sampler.mFence this);
   mine Lifecycle.VK_OBJECT_TYPE_COMMAND_BUFFER (Sampler.mCommandBuffer this);
   mine Lifecycle.VK_OBJECT_TYPE_COMMAND_POOL (SamplerLoop.mCommandPool rest);
   mine Lifecycle.VK_OBJECT_TYPE_SWAPCHAIN_KHR (Sampler.mSwapchain this);
   mine Lifecycle.VK_OBJECT_TYPE_SURFACE_KHR (SamplerLoop.mSurface rest);
   mine Lifecycle.VK_OBJECT_TYPE_DEVICE (Sampler.mDevice this);
   mine Lifecycle.VK_OBJECT_TYPE_INSTANCE (SamplerLoop.mInstance rest)].

(** The runs of the constructor and of a life of two frames under the
    sample driver. *)
Definition sample_run : Trace * Outcome (Sampler.VkRenderer * SamplerLoop.Members) :=
  run (constructor 1 2 [zero; zero; zero; zero]
         "vertex"%string "fragment"%string (fun _ => 97) (fun _ => 97) Bringup.compiler)
      Bringup.driver 0.

Definition sample_lifetime : Trace * Outcome unit :=
  run (lifetime 1 2 [zero; zero; zero; zero]
         "vertex"%string "fragment"%string (fun _ => 97) (fun _ => 97) Bringup.compiler 2)
      Bringup.driver 0.

(** The run of the constructor under the driver that cannot create the
    swapchain. *)
Definition refused_run : Trace * Outcome (Sampler.VkRenderer * SamplerLoop.Members) :=
  run (constructor 1 2 [zero; zero; zero; zero]
         "vertex"%string "fragment"%string (fun _ => 97) (fun _ => 97) Bringup.compiler)
      Bringup.refusing 0.

(** The renderer of the first run, and the device after it when it was
    idle before. *)
Definition sample_renderer : Sampler.VkRenderer * SamplerLoop.Members :=
  match snd sample_run with
  | Returned made => made
  | _ => (SamplerLoop.single_slot, SamplerLoop.single_slot_rest)
  end.

Definition sample_device : World :=
  match Bringup.replay SamplerLoop.idle_device (fst sample_run) with
  | Some w => w
  | None => SamplerLoop.idle_device
  end.

End SamplerConstruction.
(** * Properties *)

(** ** Programs and their runs *)

Section Runs.

Context {A : Type}.

Lemma run_performs (p : Prog A) : forall env n,
  performs p (fst (run p env n)) (snd (run p env n)).
Proof.
  induction p as [a|c k IH|f|]; intros env n; cbn.
  - constructor.
  - specialize (IH (env n c) env (S n)).
    destruct (run (k (env n c)) env (S n)) as [t o]. cbn in *.
    constructor. exact IH.
  - constructor.
  - constructor.
Qed.

Lemma performs_run (p : Prog A) t o :
  performs p t o ->
  forall env n,
    (forall i c, (i < length t)%nat ->
                 env (n + i)%nat c = nth i (map snd t) (succeed 0 0%nat c)) ->
    run p env n = (t, o).
Proof.
  induction 1 as [a|f| |c k r t o H IH]; intros env n Henv; cbn; try reflexivity.
  assert (Hr : env n c = r).
  { specialize (Henv 0%nat c). cbn in Henv. rewrite Nat.add_0_r in Henv.
    apply Henv. lia. }
  rewrite Hr. rewrite (IH env (S n)); [reflexivity|].
  intros i c' Hi. specialize (Henv (S i) c'). cbn in Henv.
  rewrite <- Henv by lia. f_equal. lia.
Qed.

(** The relation and the function describe the same runs. *)
Lemma performs_iff_run (p : Prog A) t o :
  performs p t o <-> exists env, run p env 0 = (t, o).
Proof.
  split.
  - intros H. exists (fun i c => nth i (map snd t) (succeed 0 0%nat c)).
    apply (performs_run p t o H). intros i c _. reflexivity.
  - intros [env H]. pose proof (run_performs p env 0) as Hp.
    rewrite H in Hp. exact Hp.
Qed.

(** Every reply in the trace of a run is the outside's answer to the
    action it stands next to. *)
Lemma run_replies (p : Prog A) : forall env n c r,
  In (c, r) (fst (run p env n)) -> exists k, r = env k c.
Proof.
  induction p as [a|c0 k IH|f|]; intros env n c r Hin; cbn in Hin;
    try contradiction.
  specialize (IH (env n c0) env (S n) c r).
  destruct (run (k (env n c0)) env (S n)) as [t o]. cbn in *.
  destruct Hin as [E|Hin]; [injection E as <- <-; eauto|auto].
Qed.

Lemma performs_Ret_inv (a : A) t o :
  performs (Ret a) t o -> t = [] /\ o = Returned a.
Proof. inversion 1. auto. Qed.

Lemma performs_Abort_inv (f : Fatal) t (o : Outcome A) :
  performs (Abort f) t o -> t = [] /\ o = Aborted f.
Proof. inversion 1. auto. Qed.

Lemma performs_Undef_inv t (o : Outcome A) :
  performs Undef t o -> t = [] /\ o = Faulted.
Proof. inversion 1. auto. Qed.

Lemma performs_Call_inv c (k : Reply -> Prog A) t o :
  performs (Call c k) t o ->
  exists r t', t = (c, r) :: t' /\ performs (k r) t' o.
Proof. inversion 1; subst. eauto. Qed.

(** A program has exactly one outcome per trace of replies; in particular
    a run is determined by its trace. *)
Lemma performs_deterministic (p : Prog A) t o :
  performs p t o -> forall o', performs p t o' -> o = o'.
Proof.
  induction 1 as [a|f| |c k r t o H IH]; intros o' H'.
  - apply performs_Ret_inv in H'. destruct H'. congruence.
  - apply performs_Abort_inv in H'. destruct H'. congruence.
  - apply performs_Undef_inv in H'. destruct H'. congruence.
  - apply performs_Call_inv in H'. destruct H' as (r' & t' & E & H').
    injection E as <- <-. auto.
Qed.

End Runs.

Section Bind.

Context {A B : Type}.

Lemma performs_bind (p : Prog A) (f : A -> Prog B) t1 a t2 o :
  performs p t1 (Returned a) -> performs (f a) t2 o ->
  performs (bind p f) (t1 ++ t2) o.
Proof.
  intros H. remember (Returned a) as oa eqn:E. revert E.
  induction H as [a'|e| |c k r t o' H IH]; intros E H2; try discriminate.
  - injection E as ->. exact H2.
  - cbn. constructor. auto.
Qed.

Lemma performs_bind_inv (p : Prog A) (f : A -> Prog B) : forall t o,
  performs (bind p f) t o ->
  (exists t1 a t2, t = t1 ++ t2 /\ performs p t1 (Returned a) /\ performs (f a) t2 o) \/
  (exists e, o = Aborted e /\ performs p t (Aborted e)) \/
  (o = Faulted /\ performs p t Faulted).
Proof.
  induction p as [a|c k IH|e|]; intros t o H; cbn in H.
  - left. exists [], a, t. repeat split; [constructor|assumption].
  - apply performs_Call_inv in H. destruct H as (r & t' & -> & H).
    destruct (IH r _ _ H) as [(t1 & a & t2 & -> & H1 & H2)|[(e & -> & H1)|(-> & H1)]].
    + left. exists ((c, r) :: t1), a, t2. repeat split; [constructor|]; assumption.
    + right. left. exists e. split; [reflexivity|constructor; assumption].
    + right. right. split; [reflexivity|constructor; assumption].
  - apply performs_Abort_inv in H. destruct H as [-> ->].
    right. left. exists e. split; [reflexivity|constructor].
  - apply performs_Undef_inv in H. destruct H as [-> ->].
    right. right. split; [reflexivity|constructor].
Qed.

(** The part of a trace a returning prefix of the program accounts for. *)
Lemma performs_bind_returned (p : Prog A) (f : A -> Prog B) t b :
  performs (bind p f) t (Returned b) ->
  exists t1 a t2, t = t1 ++ t2 /\ performs p t1 (Returned a) /\
                  performs (f a) t2 (Returned b).
Proof.
  intros H. apply performs_bind_inv in H.
  destruct H as [H|[(e & E & _)|(E & _)]]; [assumption|discriminate|discriminate].
Qed.

End Bind.
(** ** Memory-type resolution *)

Section MemoryTypeIndex.

Variable props : VkPhysicalDeviceMemoryProperties.
Variable req : VkMemoryRequirements.
Variable flags : VkMemoryPropertyFlags.

Lemma type_bit_test (bits i : Z) :
  0 <= i ->
  negb (Z.land bits (Z.shiftl 1 i) =? 0) = Z.testbit bits i.
Proof.
  intros Hi. rewrite Z.shiftl_1_l.
  destruct (Z.testbit bits i) eqn:Hb.
  - apply negb_true_iff, Z.eqb_neq. intros H0.
    assert (Ht : Z.testbit (Z.land bits (2 ^ i)) i = true).
    { rewrite Z.land_spec, Hb, Z.pow2_bits_true; auto. }
    rewrite H0, Z.bits_0 in Ht. discriminate.
  - apply negb_false_iff, Z.eqb_eq. apply Z.bits_inj'. intros n Hn.
    rewrite Z.land_spec, Z.bits_0.
    destruct (Z.eq_dec i n) as [->|Hne].
    + rewrite Hb. reflexivity.
    + rewrite Z.pow2_bits_false by assumption. apply andb_false_r.
Qed.

Lemma superset_test (have want : Z) :
  (Z.land have want =? want) = true <->
  (forall b, Z.testbit want b = true -> Z.testbit have b = true).
Proof.
  rewrite Z.eqb_eq. split.
  - intros H b Hb. rewrite <- H, Z.land_spec in Hb.
    apply andb_true_iff in Hb. tauto.
  - intros H. apply Z.bits_inj'. intros n _. rewrite Z.land_spec.
    destruct (Z.testbit want n) eqn:Hw.
    + rewrite (H n Hw). reflexivity.
    + apply andb_false_r.
Qed.

(** What one pass of the loop over indices [i .. i + n - 1] delivers. *)
Lemma scanMemoryTypes_spec (n : nat) : forall i,
  0 <= i -> i + Z.of_nat n <= memoryTypeCount props -> wf_table props ->
  (exists k, scanMemoryTypes props (memoryTypeBits req) flags n i = Defined (VK_SUCCESS, k) /\
             i <= k /\ suitable props req flags k /\
             forall j, i <= j < k -> ~ suitable props req flags j) \/
  (scanMemoryTypes props (memoryTypeBits req) flags n i = Defined (VK_ERROR_UNKNOWN, UINT32_MAX) /\
   forall j, i <= j < i + Z.of_nat n -> ~ suitable props req flags j).
Proof.
  induction n as [|n IH]; intros i Hi Hn Hwf.
  - right. split; [reflexivity|]. intros j Hj. lia.
  - destruct Hwf as [Hcount Hlen]. unfold VK_MAX_MEMORY_TYPES in *.
    cbn [scanMemoryTypes].
    assert (Hlt : (32 <=? i) = false) by (apply Z.leb_gt; lia).
    rewrite Hlt, type_bit_test by assumption.
    assert (Hat : exists t, at_ (memoryTypes props) i = Some t).
    { unfold at_. replace (i <? 0) with false by (symmetry; apply Z.ltb_ge; lia).
      destruct (nth_error (memoryTypes props) (Z.to_nat i)) eqn:E; [eauto|].
      apply nth_error_None in E. lia. }
    destruct Hat as [t Ht]. rewrite Ht.
    assert (Hskip : ~ suitable props req flags i ->
        forall r, (exists k, r = Defined (VK_SUCCESS, k) /\ i + 1 <= k /\
                     suitable props req flags k /\
                     forall j, i + 1 <= j < k -> ~ suitable props req flags j) \/
                  (r = Defined (VK_ERROR_UNKNOWN, UINT32_MAX) /\
                     forall j, i + 1 <= j < i + 1 + Z.of_nat n -> ~ suitable props req flags j) ->
                  (exists k, r = Defined (VK_SUCCESS, k) /\ i <= k /\
                     suitable props req flags k /\
                     forall j, i <= j < k -> ~ suitable props req flags j) \/
                  (r = Defined (VK_ERROR_UNKNOWN, UINT32_MAX) /\
                     forall j, i <= j < i + Z.of_nat (S n) -> ~ suitable props req flags j)).
    { intros Hno r [[k (Hr & Hk & Hs & Hmin)]|[Hr Hnone]].
      - left. exists k. split; [assumption|]. split; [lia|]. split; [assumption|].
        intros j Hj. destruct (Z.eq_dec j i) as [->|]; [assumption|apply Hmin; lia].
      - right. split; [assumption|]. intros j Hj.
        destruct (Z.eq_dec j i) as [->|]; [assumption|apply Hnone; lia]. }
    destruct (Z.testbit (memoryTypeBits req) i) eqn:Hbit.
    + destruct (Z.land (propertyFlags t) flags =? flags) eqn:Hsup.
      * left. exists i. split; [reflexivity|]. split; [lia|]. split.
        -- split; [lia|]. split; [assumption|]. exists t. split; [assumption|].
           apply superset_test. assumption.
        -- intros j Hj. lia.
      * apply Hskip.
        -- intros (_ & _ & t' & Ht' & Hsub). rewrite Ht in Ht'. injection Ht' as <-.
           apply superset_test in Hsub. congruence.
        -- apply IH; [lia|lia|split; assumption].
    + apply Hskip.
      * intros (_ & Hb & _). congruence.
      * apply IH; [lia|lia|split; assumption].
Qed.

(** C4.  On a well-formed memory-type table, [vkGetMemoryTypeIndex] returns
    [VK_SUCCESS] with index [i] exactly when [i] is the lowest index below
    [memoryTypeCount] whose bit is set in [memoryTypeBits] and whose
    property flags contain every desired flag; it returns the failure code
    (with [UINT32_MAX] as index) exactly when no index of the table satisfies
    both conditions; and it always returns one of the two. *)
Theorem vkGetMemoryTypeIndex_lowest_match :
  wf_table props ->
  (forall i, vkGetMemoryTypeIndex props req flags = Defined (VK_SUCCESS, i) <->
             suitable props req flags i /\
             forall j, suitable props req flags j -> i <= j) /\
  (vkGetMemoryTypeIndex props req flags = Defined (VK_ERROR_UNKNOWN, UINT32_MAX) <->
     forall i, ~ suitable props req flags i) /\
  ((exists i, vkGetMemoryTypeIndex props req flags = Defined (VK_SUCCESS, i)) \/
   vkGetMemoryTypeIndex props req flags = Defined (VK_ERROR_UNKNOWN, UINT32_MAX)).
Proof.
  intros Hwf. unfold vkGetMemoryTypeIndex.
  assert (Hc : 0 <= memoryTypeCount props) by (destruct Hwf; lia).
  destruct (scanMemoryTypes_spec (Z.to_nat (memoryTypeCount props)) 0)
    as [[k (Hr & Hk & Hs & Hmin)]|[Hr Hnone]]; [lia|lia|assumption| |].
  - rewrite Hr. split; [|split].
    + intros i. split.
      * intros H. injection H as <-. split; [assumption|]. intros j Hj.
        destruct (Z.lt_ge_cases j k) as [Hlt|]; [|lia].
        exfalso. apply (Hmin j); [|assumption]. destruct Hj. lia.
      * intros [Hi Hle]. f_equal. f_equal.
        assert (k <= i).
        { destruct (Z.lt_ge_cases i k); [|lia].
          exfalso. apply (Hmin i); [destruct Hi; lia|assumption]. }
        specialize (Hle k Hs). lia.
    + split; [intros H; discriminate|]. intros H. exfalso. exact (H k Hs).
    + left. exists k. reflexivity.
  - rewrite Hr. split; [|split].
    + intros i. split; [intros H; discriminate|].
      intros [Hi _]. exfalso. apply (Hnone i); [destruct Hi; lia|assumption].
    + split; [|reflexivity]. intros _ i Hi.
      apply (Hnone i); [destruct Hi; lia|assumption].
    + right. reflexivity.
Qed.

End MemoryTypeIndex.

(** A request for host-visible, host-coherent memory on the sample table
    resolves to index 1, the only suitable one. *)
Lemma vkGetMemoryTypeIndex_lowest_match_witness :
  wf_table sample_table /\
  suitable sample_table sample_requirements 6 1 /\
  ~ suitable sample_table sample_requirements 6 0.
Proof.
  assert (Hwf : wf_table sample_table).
  { split; [unfold VK_MAX_MEMORY_TYPES; cbn; lia|reflexivity]. }
  split; [exact Hwf|].
  destruct (proj1 (proj1 (vkGetMemoryTypeIndex_lowest_match sample_table
                            sample_requirements 6 Hwf) 1) eq_refl) as [Hs Hmin].
  split; [exact Hs|]. intros H0. specialize (Hmin 0 H0). lia.
Defined.

(** ** The uniform update *)

Section UniformUpdate.

Lemma at_in_range {A : Type} (l : list A) (i : Z) :
  0 <= i < Z.of_nat (length l) -> exists x, at_ l i = Some x.
Proof.
  intros Hi. unfold at_.
  replace (i <? 0) with false by (symmetry; apply Z.ltb_ge; lia).
  destruct (nth_error l (Z.to_nat i)) eqn:E; [eauto|].
  apply nth_error_None in E. lia.
Qed.

Lemma at_Some_range {A : Type} (l : list A) (i : Z) x :
  at_ l i = Some x -> 0 <= i < Z.of_nat (length l).
Proof.
  unfold at_. destruct (i <? 0) eqn:E; [discriminate|].
  apply Z.ltb_ge in E. intros H.
  assert (nth_error l (Z.to_nat i) <> None) by congruence.
  apply nth_error_Some in H0. lia.
Qed.

Lemma at_In {A : Type} (l : list A) (i : Z) x : at_ l i = Some x -> In x l.
Proof.
  unfold at_. destruct (i <? 0); [discriminate|]. apply nth_error_In.
Qed.

Lemma update_nth_length {A : Type} (x : A) : forall l n,
  length (update_nth n x l) = length l.
Proof.
  induction l as [|y l IH]; intros [|n]; cbn; auto.
Qed.

Lemma nth_error_update_nth {A : Type} (x : A) : forall l n m,
  nth_error (update_nth n x l) m =
  if Nat.eqb m n then (if Nat.ltb n (length l) then Some x else None)
  else nth_error l m.
Proof.
  induction l as [|y l IH]; intros [|n] [|m]; cbn; auto.
  destruct (Nat.eqb m n); reflexivity.
Qed.

Lemma at_update_nth_same {A : Type} (x : A) l i :
  0 <= i < Z.of_nat (length l) ->
  at_ (update_nth (Z.to_nat i) x l) i = Some x.
Proof.
  intros Hi. unfold at_.
  replace (i <? 0) with false by (symmetry; apply Z.ltb_ge; lia).
  rewrite nth_error_update_nth, Nat.eqb_refl.
  replace (Nat.ltb (Z.to_nat i) (length l)) with true; [reflexivity|].
  symmetry. apply Nat.ltb_lt. lia.
Qed.

Lemma at_update_nth_other {A : Type} (x : A) l i j :
  0 <= i -> j <> i ->
  at_ (update_nth (Z.to_nat i) x l) j = at_ l j.
Proof.
  intros Hi Hne. unfold at_. destruct (j <? 0) eqn:E; [reflexivity|].
  apply Z.ltb_ge in E. rewrite nth_error_update_nth.
  replace (Nat.eqb (Z.to_nat j) (Z.to_nat i)) with false; [reflexivity|].
  symmetry. apply Nat.eqb_neq. lia.
Qed.

Lemma performs_index_inv {A : Type} (v : list A) i x t o :
  at_ v i = Some x -> performs (index v i) t o -> t = [] /\ o = Returned x.
Proof.
  intros E H. unfold index in H. rewrite E in H. apply performs_Ret_inv. exact H.
Qed.

(** One pass of the loop body on element [i]: it cannot fail, it stores the
    incremented value and, when that exceeds 1.5, the reset value, and it
    leaves every other element and the ratio alone. *)
Lemma bump_inv (u : Mapped) (i : Z) (p : float) t o :
  at_ (position (pointee u)) i = Some p ->
  performs (bump u i) t o ->
  exists u',
    o = Returned u' /\
    address u' = address u /\
    ratio (pointee u') = ratio (pointee u) /\
    length (position (pointee u')) = length (position (pointee u)) /\
    at_ (position (pointee u')) i = Some (updated p) /\
    (forall j, j <> i -> at_ (position (pointee u')) j = at_ (position (pointee u)) j) /\
    calls t = bump_stores (address u) i p.
Proof.
  intros Hp H. pose proof (at_Some_range _ _ _ Hp) as Hi.
  unfold bump, index in H. rewrite Hp in H. cbn in H.
  apply performs_Call_inv in H. destruct H as (r & t' & -> & H).
  cbn in H. rewrite at_update_nth_same in H by assumption. cbn in H.
  unfold updated. destruct (exceeds (incremented p)) eqn:Hex.
  - apply performs_Call_inv in H. destruct H as (r' & t'' & -> & H).
    apply performs_Ret_inv in H. destruct H as [-> ->].
    eexists. split; [reflexivity|]. cbn.
    rewrite !update_nth_length. unfold bump_stores.
    destruct (exceeds (incremented p)) eqn:E'; [|discriminate].
    repeat split; try reflexivity.
    + apply at_update_nth_same. rewrite update_nth_length. assumption.
    + intros j Hj. rewrite !at_update_nth_other by lia. reflexivity.
  - apply performs_Ret_inv in H. destruct H as [-> ->].
    eexists. split; [reflexivity|]. cbn.
    rewrite !update_nth_length. unfold bump_stores.
    destruct (exceeds (incremented p)) eqn:E'; [discriminate|].
    repeat split; try reflexivity.
    + apply at_update_nth_same. assumption.
    + intros j Hj. rewrite !at_update_nth_other by lia. reflexivity.
Qed.

(** Step 2 of [render] on a block of eight positions. *)
Lemma update_inv (e : VkExtent2D) (u : Mapped) t o :
  length (position (pointee u)) = 8%nat ->
  performs (update e u) t o ->
  exists u' p0 p4,
    o = Returned u' /\
    address u' = address u /\
    at_ (position (pointee u)) 0 = Some p0 /\
    at_ (position (pointee u)) 4 = Some p4 /\
    length (position (pointee u')) = 8%nat /\
    at_ (position (pointee u')) 0 = Some (updated p0) /\
    at_ (position (pointee u')) 4 = Some (updated p4) /\
    (forall j, j <> 0 -> j <> 4 ->
               at_ (position (pointee u')) j = at_ (position (pointee u)) j) /\
    ratio (pointee u') = div32 (float_of_Z (height e)) (float_of_Z (width e)) /\
    Forall (slot_store (address u)) (calls t) /\
    calls t = update_stores e u /\
    t <> [].
Proof.
  intros Hlen H.
  destruct (at_in_range (position (pointee u)) 0) as [p0 Hp0]; [lia|].
  destruct (at_in_range (position (pointee u)) 4) as [p4 Hp4]; [lia|].
  unfold update in H. cbn [bump_loop] in H.
  change (0 <? 8) with true in H. change (0 + 4 <? 8) with true in H.
  change (0 + 4 + 4 <? 8) with false in H. cbv iota in H.
  apply performs_bind_inv in H.
  assert (Hloop : forall t1 o1,
    performs (bind (bump u 0) (fun u1 => bind (bump u1 (0 + 4)) (fun u2 => Ret u2))) t1 o1 ->
    exists u2, o1 = Returned u2 /\ address u2 = address u /\
      ratio (pointee u2) = ratio (pointee u) /\
      length (position (pointee u2)) = 8%nat /\
      at_ (position (pointee u2)) 0 = Some (updated p0) /\
      at_ (position (pointee u2)) 4 = Some (updated p4) /\
      (forall j, j <> 0 -> j <> 4 ->
                 at_ (position (pointee u2)) j = at_ (position (pointee u)) j) /\
      Forall (slot_store (address u)) (calls t1) /\
      calls t1 = bump_stores (address u) 0 p0 ++ bump_stores (address u) 4 p4).
  { intros t1 o1 H1. apply performs_bind_inv in H1.
    destruct H1 as [(ta & u1 & tb & -> & Ha & Hb)|[(x & -> & Ha)|(-> & Ha)]].
    - destruct (bump_inv u 0 p0 _ _ Hp0 Ha) as (u1' & E & Ha1 & Hr1 & Hl1 & Hs1 & Ho1 & Hc1).
      injection E as <-.
      apply performs_bind_inv in Hb.
      assert (Hp4' : at_ (position (pointee u1)) 4 = Some p4).
      { rewrite Ho1 by lia. assumption. }
      destruct Hb as [(tc & u2 & td & -> & Hc & Hd)|[(x & -> & Hc)|(-> & Hc)]].
      + destruct (bump_inv u1 (0 + 4) p4 _ _ Hp4' Hc)
          as (u2' & E & Ha2 & Hr2 & Hl2 & Hs2 & Ho2 & Hc2).
        injection E as <-.
        apply performs_Ret_inv in Hd. destruct Hd as [-> ->].
        exists u2. split; [reflexivity|].
        split; [congruence|]. split; [congruence|]. split; [congruence|].
        split; [rewrite Ho2 by lia; assumption|].
        split; [assumption|].
        split; [intros j H0 H4; rewrite Ho2, Ho1 by (cbn; lia); reflexivity|].
        unfold calls in *. rewrite !map_app, Hc1, Hc2, Ha1. cbn [map].
        rewrite app_nil_r. split; [|reflexivity].
        unfold bump_stores.
        destruct (exceeds (incremented p0)), (exceeds (incremented p4));
          repeat (first [apply Forall_nil | apply Forall_cons]); cbn;
          (split; [reflexivity|]); first [left; reflexivity | right; reflexivity].
      + destruct (bump_inv u1 (0 + 4) p4 _ _ Hp4' Hc) as (? & E & _). discriminate.
      + destruct (bump_inv u1 (0 + 4) p4 _ _ Hp4' Hc) as (? & E & _). discriminate.
    - destruct (bump_inv u 0 p0 _ _ Hp0 Ha) as (? & E & _). discriminate.
    - destruct (bump_inv u 0 p0 _ _ Hp0 Ha) as (? & E & _). discriminate. }
  destruct H as [(t1 & u2 & t2 & -> & H1 & H2)|[(x & -> & H1)|(-> & H1)]].
  - destruct (Hloop _ _ H1) as (u2' & E & Ha & Hr & Hl & H0 & H4 & Ho & Hst & Hcs).
    injection E as <-.
    unfold store_ratio in H2. apply performs_Call_inv in H2.
    destruct H2 as (r & t' & -> & H2). apply performs_Ret_inv in H2. destruct H2 as [-> ->].
    eexists. exists p0, p4. split; [reflexivity|]. cbn.
    repeat split; try assumption.
    + unfold calls in *. rewrite map_app. apply Forall_app. split; [assumption|].
      cbn. constructor; [cbn; assumption|constructor].
    + unfold calls in *. rewrite map_app, Hcs. unfold update_stores.
      rewrite Hp0, Hp4, Ha. cbn. rewrite <- app_assoc. reflexivity.
    + intros E. apply app_eq_nil in E. destruct E. discriminate.
  - destruct (Hloop _ _ H1) as (? & E & _). discriminate.
  - destruct (Hloop _ _ H1) as (? & E & _). discriminate.
Qed.

End UniformUpdate.

(** ** One call of [render] *)

Lemma index_slot {A : Type} (v : list A) (i : Z) (d : A) :
  0 <= i < Z.of_nat (length v) -> index v i = Ret (nth (Z.to_nat i) v d).
Proof.
  intros Hi. unfold index, at_.
  replace (i <? 0) with false by (symmetry; apply Z.ltb_ge; lia).
  destruct (nth_error v (Z.to_nat i)) eqn:E.
  - f_equal. symmetry. apply nth_error_nth. assumption.
  - apply nth_error_None in E. lia.
Qed.

Lemma at_nth {A : Type} (v : list A) (i : Z) (d x : A) :
  at_ v i = Some x -> nth (Z.to_nat i) v d = x.
Proof.
  unfold at_. destruct (i <? 0); [discriminate|]. apply nth_error_nth.
Qed.

Lemma advance_eq (this : VkRenderer) :
  wf this ->
  u32 (pre_increment (mFrameIndex this) mod slots this) = advanced this.
Proof.
  intros [Hs Hi _ _ _ _ _ _ _ _]. unfold pre_increment, u32, advanced, UINT32_MAX in *.
  rewrite (Z.mod_small (mFrameIndex this + 1)) by lia.
  apply Z.mod_small.
  pose proof (Z.mod_pos_bound (mFrameIndex this + 1) (slots this)). lia.
Qed.

Ltac exec H :=
  repeat first
    [ apply performs_Call_inv in H;
      let r := fresh "r" in let t := fresh "t" in
      destruct H as (r & t & -> & H); cbn [bind] in H
    | apply performs_Ret_inv in H; destruct H as [-> ->]
    | apply performs_Abort_inv in H; destruct H as [-> ->]
    | apply performs_Undef_inv in H; destruct H as [-> ->]
    | match type of H with
      | performs (if ?b then _ else _) _ _ => destruct b eqn:?; cbn [bind] in H
      | performs (bind (if ?b then _ else _) _) _ _ => destruct b eqn:?; cbn [bind] in H
      | context [if result ?r =? VK_SUCCESS then _ else _] =>
          destruct (result r =? VK_SUCCESS) eqn:?; cbn [bind] in H
      | performs (bind (match at_ ?v ?i with Some _ => _ | None => _ end) _) _ _ =>
          destruct (at_ v i) eqn:?; cbn [bind] in H
      end ].

Lemma update_total (e : VkExtent2D) (u : Mapped) :
  length (position (pointee u)) = 8%nat ->
  exists ts u', performs (update e u) ts (Returned u').
Proof.
  intros Hlen. pose proof (run_performs (update e u) (succeed 0) 0) as H.
  destruct (update_inv e u _ _ Hlen H) as (u' & _ & _ & E & _).
  rewrite E in H. eauto.
Qed.

Lemma store_unchecked (a : Z) (ts : Trace) c r :
  Forall (slot_store a) (calls ts) -> In (c, r) ts ->
  is_checked c = false /\ is_acquire c = false /\ is_store c = true.
Proof.
  intros HF Hin. rewrite Forall_forall in HF.
  assert (Hs : slot_store a c) by (apply HF; apply (in_map fst) in Hin; exact Hin).
  destruct c; cbn in Hs; try contradiction; auto.
Qed.

Lemma slot_in {A : Type} (this : VkRenderer) (v : list A) (d : A) :
  0 <= mFrameIndex this < Z.of_nat (length v) -> In (slot this v d) v.
Proof. intros H. unfold slot. apply nth_In. lia. Qed.

Ltac name_slots this H :=
  change (nth (Z.to_nat (mFrameIndex this)) (mFencesForSubmit this) VK_NULL_HANDLE)
    with (fenceForSubmit this) in H;
  change (nth (Z.to_nat (mFrameIndex this)) (mFencesForAcquire this) VK_NULL_HANDLE)
    with (fenceForAcquire this) in H;
  change (nth (Z.to_nat (mFrameIndex this)) (mCommandBuffers this) VK_NULL_HANDLE)
    with (commandBuffer this) in H;
  change (nth (Z.to_nat (mFrameIndex this)) (mUniformData this) (block_with 0 zero))
    with (uniformData this) in H;
  change (nth (Z.to_nat (mFrameIndex this)) (mDescriptorSets this) VK_NULL_HANDLE)
    with (descriptorSet this) in H;
  change (nth (Z.to_nat (mFrameIndex this)) (mSemaphores this) VK_NULL_HANDLE)
    with (semaphore this) in H.

(** Membership in a concrete trace around the stores [ts]. *)
Ltac members Hin :=
  repeat first
    [ apply in_app_or in Hin
    | match type of Hin with
      | _ \/ _ => destruct Hin as [Hin|Hin]
      | In _ (_ :: _) => destruct Hin as [Hin|Hin]
      | In _ [] => destruct Hin
      | (_, _) = (_, _) => injection Hin as <- <-
      end ].

Ltac solve_results a HF :=
  let c := fresh "c" in let r := fresh "r" in
  let Hin := fresh "Hin" in let Hc := fresh "Hc" in
  intros c r Hin Hc; members Hin;
  first [ discriminate Hc
        | reflexivity
        | apply Z.eqb_eq; assumption
        | destruct (store_unchecked a _ _ _ HF Hin) as (? & ? & ?); congruence ].

Ltac solve_pass a HF :=
  let cb := fresh "cb" in let info := fresh "info" in let k := fresh "k" in
  let r := fresh "r" in let Hin := fresh "Hin" in
  let c := fresh "c" in let Ec := fresh "Ec" in
  intros cb info k r Hin;
  remember (vkCmdBeginRenderPass cb info k) as c eqn:Ec;
  members Hin; try discriminate Ec;
  [ destruct (store_unchecked a _ _ _ HF Hin) as (? & ? & ?); subst c; discriminate
  | injection Ec as <- <- <-; split; [assumption|];
    match goal with
    | |- context [(vkAcquireNextImageKHR ?d ?s ?to ?sem ?f, ?ra)] =>
        exists (vkAcquireNextImageKHR d s to sem f), ra
    end;
    split; [right; right; apply in_or_app; right; left; reflexivity|];
    split; [reflexivity|]; split; [apply Z.eqb_eq; assumption|reflexivity] ].

Ltac solve_no_pass a HF :=
  let cb := fresh "cb" in let info := fresh "info" in let k := fresh "k" in
  let r := fresh "r" in let Hin := fresh "Hin" in
  let c := fresh "c" in let Ec := fresh "Ec" in
  intros cb info k r Hin;
  remember (vkCmdBeginRenderPass cb info k) as c eqn:Ec;
  members Hin; try discriminate Ec;
  destruct (store_unchecked a _ _ _ HF Hin) as (? & ? & ?); subst c; discriminate.

Ltac solve_prefix :=
  unfold prefix, frame, calls, wait_submit, acquire, wait_acquire, recording, submit, present;
  eexists;
  cbn [map fst]; repeat rewrite map_app; cbn [map fst app];
  repeat rewrite <- app_assoc; cbn [app];
  reflexivity.

Ltac solve_frame :=
  unfold frame, calls, wait_submit, acquire, wait_acquire, recording, submit, present;
  cbn [map fst]; repeat rewrite map_app; cbn [map fst app];
  repeat rewrite <- app_assoc; cbn [app];
  reflexivity.

Ltac solve_snoc :=
  match goal with
  | |- ?a :: ?b :: ?ts ++ ?post = _ =>
      cbn [app]; rewrite <- app_assoc; reflexivity
  | |- _ => reflexivity
  end.

Ltac give_snoc :=
  match goal with
  | |- exists t0 c r, ?a :: ?b :: ?ts ++ ?post = _ /\ _ =>
      let t0 := eval cbn in (removelast post) in
      let x := eval cbn in (last post a) in
      exists (a :: b :: ts ++ t0), (fst x), (snd x)
  | |- exists t0 c r, [?a; ?b] = _ /\ _ => exists [a], (fst b), (snd b)
  | |- exists t0 c r, [?a] = _ /\ _ => exists [], (fst a), (snd a)
  end; cbn [fst snd].

Lemma render_inv (this : VkRenderer) t o :
  wf this -> performs (render this) t o ->
  exists ts u' img,
    performs (update (mSwapchainImageExtent this) (uniformData this)) ts (Returned u') /\
    prefix (calls t) (frame this (calls ts) img) /\
    (forall c r, In (c, r) t -> is_acquire c = true -> imageIndex r = img) /\
    (forall cb info k r, In (vkCmdBeginRenderPass cb info k, r) t ->
       at_ (mFramebuffers this) img = Some (framebuffer info) /\
       exists a ra, In (a, ra) t /\ is_acquire a = true /\
                    result ra = VK_SUCCESS /\ imageIndex ra = img) /\
    match o with
    | Returned this' =>
        calls t = frame this (calls ts) img /\
        this' = after_frame this u' (advanced this) /\
        0 <= img < slots this /\
        (forall c r, In (c, r) t -> is_checked c = true -> result r = VK_SUCCESS)
    | Aborted f =>
        exists t0 c r,
          t = t0 ++ [(c, r)] /\ f = check_error c (result r) /\
          result r <> VK_SUCCESS /\ is_checked c = true /\
          (forall c' r', In (c', r') t0 -> is_checked c' = true -> result r' = VK_SUCCESS)
    | Faulted =>
        ~ 0 <= img < slots this /\
        exists t0 c r,
          t = t0 ++ [(c, r)] /\ is_acquire c = true /\ result r = VK_SUCCESS /\
          imageIndex r = img /\
          (forall c' r', In (c', r') t0 -> is_checked c' = true -> result r' = VK_SUCCESS)
    end.
Proof.
  intros Hwf H. pose proof Hwf as [Hs Hi Hcb Hfs Hfa Hsem Hfb Hud Hds Hpos].
  unfold slots in *.
  assert (Hlen : length (position (pointee (uniformData this))) = 8%nat).
  { apply Hpos. apply slot_in. lia. }
  destruct (update_total (mSwapchainImageExtent this) _ Hlen) as (ts0 & u0 & Hup0).
  pose proof (update_inv _ _ _ _ Hlen Hup0)
    as (? & ? & ? & _ & _ & _ & _ & _ & _ & _ & _ & _ & HF0 & _ & _).
  unfold render in H.
  rewrite (index_slot (mFencesForSubmit this) _ VK_NULL_HANDLE) in H by lia.
  rewrite (index_slot (mFencesForAcquire this) _ VK_NULL_HANDLE) in H by lia.
  rewrite (index_slot (mCommandBuffers this) _ VK_NULL_HANDLE) in H by lia.
  rewrite (index_slot (mUniformData this) _ (block_with 0 zero)) in H by lia.
  rewrite (index_slot (mDescriptorSets this) _ VK_NULL_HANDLE) in H by lia.
  rewrite (index_slot (mSemaphores this) _ VK_NULL_HANDLE) in H by lia.
  cbn [bind] in H. name_slots this H.
  unfold VK_CHECK_ERROR at 1 2 in H. cbn [bind] in H.
  exec H.
  - (* the update, and what follows *)
    apply performs_bind_inv in H.
    destruct H as [(ts & u' & t2 & -> & Hup & H)|[(e & -> & Hup)|(-> & Hup)]];
      [|destruct (update_inv _ _ _ _ Hlen Hup) as (? & ? & ? & ? & _); discriminate ..].
    pose proof (update_inv _ _ _ _ Hlen Hup)
      as (? & ? & ? & _ & _ & _ & _ & _ & _ & _ & _ & _ & HF & _ & _).
    clear ts0 u0 Hup0 HF0.
    unfold VK_CHECK_ERROR, record, call, index in H. cbn [bind] in H.
    exec H.
    all: try match goal with
         | Hat : at_ (mFramebuffers ?th) (imageIndex ?r) = Some ?h |- _ =>
             pose proof (at_Some_range _ _ _ Hat) as Hrange;
             pose proof Hat as Hfbo;
             apply (at_nth _ _ VK_NULL_HANDLE) in Hat;
             change (nth (Z.to_nat (imageIndex r)) (mFramebuffers th) VK_NULL_HANDLE)
               with (framebuffer_of th (imageIndex r)) in Hat;
             subst h
         end.
    all: try match goal with
         | H0 : (Z.of_nat _ =? 0) = true |- _ => apply Z.eqb_eq in H0; lia
         end.
    all: match goal with
         | Hu : performs (update _ _) ?ts (Returned ?u) |- context [(vkAcquireNextImageKHR _ _ _ _ _, ?r)] =>
             exists ts, u, (imageIndex r); split; [exact Hu|]
         end.
    all: split; [solve_prefix|].
    all: match goal with
         | HF : Forall (slot_store ?a) (calls ?ts) |- context [?ts ++ _] =>
             split; [solve_results a HF|]
         end.
    all: match goal with
         | HF : Forall (slot_store ?a) (calls ?ts) |- context [?ts ++ _] =>
             split; [first [solve_pass a HF | solve_no_pass a HF]|]
         end.
    all: match goal with
         | HF : Forall (slot_store ?a) (calls ?ts) |- _ = frame _ _ _ /\ _ =>
             split; [solve_frame|];
             split; [f_equal; exact (advance_eq _ Hwf)|];
             split; [lia|]; solve_results a HF
         | HF : Forall (slot_store ?a) (calls ?ts) |- exists t0 c r, _ =>
             give_snoc; split; [solve_snoc|];
             split; [reflexivity|];
             split; [apply Z.eqb_neq; assumption|];
             split; [reflexivity|]; solve_results a HF
         | HF : Forall (slot_store ?a) (calls ?ts), Hat : at_ _ _ = None |- ~ _ /\ _ =>
             split;
             [ intros Hr; destruct (at_in_range (mFramebuffers this) _ ltac:(rewrite Hfb; exact Hr));
               congruence
             | give_snoc; split; [solve_snoc|];
               split; [reflexivity|];
               split; [apply Z.eqb_eq; assumption|];
               split; [reflexivity|]; solve_results a HF ]
         end.
  - (* vkResetFences on the submit fence fails *)
    exists ts0, u0, 0. split; [exact Hup0|]. split; [solve_prefix|].
    split; [solve_results (address (uniformData this)) HF0|].
    split; [solve_no_pass (address (uniformData this)) HF0|].
    give_snoc; split; [solve_snoc|]. split; [reflexivity|].
    split; [apply Z.eqb_neq; assumption|]. split; [reflexivity|].
    solve_results (address (uniformData this)) HF0.
  - (* vkWaitForFences on the submit fence fails *)
    exists ts0, u0, 0. split; [exact Hup0|]. split; [solve_prefix|].
    split; [solve_results (address (uniformData this)) HF0|].
    split; [solve_no_pass (address (uniformData this)) HF0|].
    give_snoc; split; [solve_snoc|]. split; [reflexivity|].
    split; [apply Z.eqb_neq; assumption|]. split; [reflexivity|].
    solve_results (address (uniformData this)) HF0.
Qed.

Section RenderFacts.

Variable this : VkRenderer.
Hypothesis Hwf : wf this.

Lemma uniformData_length : length (position (pointee (uniformData this))) = 8%nat.
Proof.
  destruct Hwf. apply wf_positions0. apply slot_in. unfold slots in *. lia.
Qed.

(** [render_inv], with the stores of step 2 named and the new block described. *)
Lemma render_frame t o :
  performs (render this) t o ->
  exists u' img,
    (address u' = address (uniformData this) /\
     length (position (pointee u')) = 8%nat /\
     forall j, j <> 0 -> j <> 4 ->
               at_ (position (pointee u')) j = at_ (position (pointee (uniformData this))) j) /\
    prefix (calls t) (frame this (stores this) img) /\
    (forall c r, In (c, r) t -> is_acquire c = true -> imageIndex r = img) /\
    (forall cb info k r, In (vkCmdBeginRenderPass cb info k, r) t ->
       at_ (mFramebuffers this) img = Some (framebuffer info) /\
       exists a ra, In (a, ra) t /\ is_acquire a = true /\
                    result ra = VK_SUCCESS /\ imageIndex ra = img) /\
    match o with
    | Returned this' =>
        calls t = frame this (stores this) img /\
        this' = after_frame this u' (advanced this) /\
        0 <= img < slots this /\
        (forall c r, In (c, r) t -> is_checked c = true -> result r = VK_SUCCESS)
    | Aborted f =>
        exists t0 c r,
          t = t0 ++ [(c, r)] /\ f = check_error c (result r) /\
          result r <> VK_SUCCESS /\ is_checked c = true /\
          (forall c' r', In (c', r') t0 -> is_checked c' = true -> result r' = VK_SUCCESS)
    | Faulted =>
        ~ 0 <= img < slots this /\
        exists t0 c r,
          t = t0 ++ [(c, r)] /\ is_acquire c = true /\ result r = VK_SUCCESS /\
          imageIndex r = img /\
          (forall c' r', In (c', r') t0 -> is_checked c' = true -> result r' = VK_SUCCESS)
    end.
Proof.
  intros H. destruct (render_inv this t o Hwf H) as (ts & u' & img & Hup & Hrest).
  destruct (update_inv _ _ _ _ uniformData_length Hup)
    as (u'' & p0 & p4 & E & Ha & _ & _ & Hl & _ & _ & Ho & _ & _ & Hcalls & _).
  injection E as <-. unfold stores. rewrite <- Hcalls.
  exists u', img. split; [auto|]. exact Hrest.
Qed.

Lemma after_frame_wf (u' : Mapped) (i' : Z) :
  length (position (pointee u')) = 8%nat -> 0 <= i' < slots this ->
  wf (after_frame this u' i').
Proof.
  intros Hl Hi'. destruct Hwf. unfold slots in *.
  constructor; cbn; unfold slots; cbn; try assumption.
  - rewrite update_nth_length. assumption.
  - intros u Hin. apply In_nth_error in Hin. destruct Hin as [n Hn].
    rewrite nth_error_update_nth in Hn.
    destruct (Nat.eqb n (Z.to_nat (mFrameIndex this))).
    + destruct (Nat.ltb _ _); [|discriminate]. injection Hn as <-. assumption.
    + apply wf_positions0. eapply nth_error_In. eassumption.
Qed.

Lemma advanced_range : 0 <= advanced this < slots this.
Proof.
  destruct Hwf. unfold advanced. apply Z.mod_pos_bound. lia.
Qed.

Lemma render_wf t this' :
  performs (render this) t (Returned this') -> wf this' /\ slots this' = slots this.
Proof.
  intros H. destruct (render_frame _ _ H) as (u' & img & (_ & Hl & _) & _ & _ & _ & _ & -> & _).
  split; [apply after_frame_wf; [assumption|apply advanced_range]|reflexivity].
Qed.

(** With an outside whose answers to the checked calls are all
    [VK_SUCCESS] and whose image indices are in range, [render] returns. *)
Lemma render_returns (env : nat -> action -> Reply) (img : Z) :
  (forall k c, is_checked c = true -> result (env k c) = VK_SUCCESS) ->
  (forall k c, imageIndex (env k c) = img) ->
  0 <= img < slots this ->
  exists this', snd (run (render this) env 0) = Returned this' /\
                calls (fst (run (render this) env 0)) = frame this (stores this) img.
Proof.
  intros Hok Himg Hrange.
  pose proof (run_performs (render this) env 0) as H.
  pose proof (run_replies (render this) env 0) as Hrep.
  destruct (run (render this) env 0) as [t o]. cbn [fst snd] in *.
  destruct (render_frame _ _ H) as (u' & img' & _ & _ & Hacq & _ & Ho).
  destruct o as [this'|f|].
  - destruct Ho as (Hc & _ & _ & _). exists this'. split; [reflexivity|].
    rewrite Hc. f_equal.
    assert (Hin : In (vkAcquireNextImageKHR (mDevice this) (mSwapchain this) UINT64_MAX
                        VK_NULL_HANDLE (fenceForAcquire this)) (calls t)).
    { rewrite Hc. unfold frame. apply in_or_app. right. apply in_or_app. right.
      apply in_or_app. left. left. reflexivity. }
    unfold calls in Hin. apply in_map_iff in Hin. destruct Hin as ([c r] & Ec & Hin).
    cbn in Ec. subst c. destruct (Hrep _ _ Hin) as [k ->].
    rewrite <- (Hacq _ _ Hin eq_refl). apply Himg.
  - exfalso. destruct Ho as (t0 & c & r & -> & _ & Hne & Hc & _).
    destruct (Hrep c r) as [k ->]; [apply in_or_app; right; left; reflexivity|].
    apply Hne. apply Hok. assumption.
  - exfalso. destruct Ho as (Hn & t0 & c & r & -> & _ & _ & Hi & _).
    destruct (Hrep c r) as [k ->]; [apply in_or_app; right; left; reflexivity|].
    rewrite Himg in Hi. subst img'. contradiction.
Qed.

End RenderFacts.

(** ** The render call of vulkan-sampler *)

Lemma sampler_render_inv (this : Sampler.VkRenderer) t o :
  length (position (pointee (Sampler.mUniformData this))) = 8%nat ->
  performs (Sampler.render this) t o ->
  forall cb info k r, In (vkCmdBeginRenderPass cb info k, r) t ->
    exists a ra, In (a, ra) t /\ is_acquire a = true /\ result ra = VK_SUCCESS /\
                 at_ (Sampler.mFramebuffers this) (imageIndex ra) = Some (framebuffer info).
Proof.
  intros Hlen H. unfold Sampler.render in H.
  apply performs_bind_inv in H.
  destruct H as [(ts & u' & t2 & -> & Hup & H)|[(e & -> & Hup)|(-> & Hup)]];
    [|destruct (update_inv _ _ _ _ Hlen Hup) as (? & ? & ? & ? & _); discriminate ..].
  pose proof (update_inv _ _ _ _ Hlen Hup)
    as (? & ? & ? & _ & _ & _ & _ & _ & _ & _ & _ & _ & HF & _ & _).
  unfold VK_CHECK_ERROR, call, index in H. cbn [bind] in H.
  exec H.
  all: intros cb info k rp Hin;
       remember (vkCmdBeginRenderPass cb info k) as c eqn:Ec;
       members Hin; try discriminate Ec;
       try (destruct (store_unchecked _ _ _ _ HF Hin) as (? & ? & ?); subst c; discriminate).
  all: injection Ec as <- <- <-;
       match goal with
       | |- context [(vkAcquireNextImageKHR ?d ?s ?to ?sem ?f, ?ra)] =>
           exists (vkAcquireNextImageKHR d s to sem f), ra
       end;
       (split; [apply in_or_app; right; left; reflexivity|]);
       (split; [reflexivity|]); (split; [apply Z.eqb_eq; assumption|assumption]).
Qed.

(** ** Claims about one frame and about the frame loop *)

Lemma two_slots_wf : wf two_slots.
Proof.
  constructor; try reflexivity;
    try (unfold slots, UINT32_MAX, constructed_frame_index; cbn; unfold constructed_frame_index; lia).
  intros u [<-|[<-|[]]]; reflexivity.
Defined.

Lemma stores_slot_stores (this : VkRenderer) :
  wf this ->
  Forall (slot_store (address (uniformData this))) (stores this) /\ stores this <> [].
Proof.
  intros Hwf. pose proof (uniformData_length this Hwf) as Hlen.
  destruct (update_total (mSwapchainImageExtent this) _ Hlen) as (ts & u' & Hup).
  destruct (update_inv _ _ _ _ Hlen Hup)
    as (? & ? & ? & _ & _ & _ & _ & _ & _ & _ & _ & _ & HF & Hc & Hne).
  unfold stores. rewrite <- Hc. split; [assumption|].
  intros E. apply Hne. destruct ts; [reflexivity|discriminate].
Qed.

Lemma flat_map_stores {B : Type} (f : action -> list B) (a : Z) (l : list action) :
  (forall c, is_store c = true -> f c = []) ->
  Forall (slot_store a) l -> flat_map f l = [].
Proof.
  intros Hf. induction 1 as [|c l Hc _ IH]; [reflexivity|].
  cbn. rewrite IH, app_nil_r. apply Hf.
  destruct c; cbn in Hc; try contradiction; reflexivity.
Qed.

Lemma frame_submitted (this : VkRenderer) (img : Z) :
  wf this ->
  flat_map submitted_by (frame this (stores this) img) = [commandBuffer this].
Proof.
  intros Hwf. destruct (stores_slot_stores this Hwf) as [HF _].
  unfold frame. rewrite !flat_map_app.
  rewrite (flat_map_stores submitted_by _ _ ltac:(intros [] E; try discriminate E; reflexivity) HF).
  reflexivity.
Qed.

Lemma frame_bound (this : VkRenderer) (img : Z) :
  wf this ->
  flat_map pass_framebuffer (frame this (stores this) img) = [framebuffer_of this img].
Proof.
  intros Hwf. destruct (stores_slot_stores this Hwf) as [HF _].
  unfold frame. rewrite !flat_map_app.
  rewrite (flat_map_stores pass_framebuffer _ _ ltac:(intros [] E; try discriminate E; reflexivity) HF).
  reflexivity.
Qed.

(** C1.  Every call of [render] performs the steps of the frame in the order
    wait-and-reset the submit fence, update the uniform block, acquire on the
    acquire fence, wait-and-reset the acquire fence, reset and re-record the
    command buffer against the acquired image's framebuffer, submit signaling
    the semaphore and the submit fence, present waiting on the semaphore:
    the calls of any run are an initial segment of that sequence (a run stops
    early only by dying), a run that returns has performed all of it and has
    then advanced the frame index, and such a run exists for every image
    index the acquire can return. *)
Theorem render_steps_in_order (this : VkRenderer) :
  wf this ->
  (forall t o, performs (render this) t o ->
     exists img,
       prefix (calls t) (frame this (stores this) img) /\
       (forall c r, In (c, r) t -> is_acquire c = true -> imageIndex r = img) /\
       (forall this', o = Returned this' ->
          calls t = frame this (stores this) img /\
          mFrameIndex this' = advanced this)) /\
  (forall img, 0 <= img < slots this ->
     exists t this', performs (render this) t (Returned this') /\
                     calls t = frame this (stores this) img) /\
  Forall (slot_store (address (uniformData this))) (stores this) /\
  stores this <> [].
Proof.
  intros Hwf. split; [|split].
  - intros t o H.
    destruct (render_frame this Hwf t o H) as (u' & img & _ & Hpre & Hacq & _ & Ho).
    exists img. split; [assumption|]. split; [assumption|].
    intros this' ->. destruct Ho as (Hc & -> & _). split; [assumption|reflexivity].
  - intros img Himg.
    destruct (render_returns this Hwf (succeed img) img) as (this' & Ho & Hc);
      [reflexivity|reflexivity|assumption|].
    pose proof (run_performs (render this) (succeed img) 0) as H.
    rewrite Ho in H. eauto.
  - apply stores_slot_stores. assumption.
Qed.

Lemma render_steps_in_order_witness :
  exists t this', performs (render two_slots) t (Returned this') /\
                  calls t = frame two_slots (stores two_slots) 1.
Proof.
  apply (proj1 (proj2 (render_steps_in_order two_slots two_slots_wf)) 1).
  unfold slots; cbn; lia.
Defined.

(** With an acquire that returns image [img], for which there is a
    framebuffer, and every checked call succeeding, [render] of
    vulkan-sampler returns, having begun its one render pass on
    [mFramebuffers[img]]. *)
Lemma sampler_render_binds (this : Sampler.VkRenderer) (img : Z) :
  length (position (pointee (Sampler.mUniformData this))) = 8%nat ->
  0 <= img < Z.of_nat (length (Sampler.mFramebuffers this)) ->
  exists t this',
    performs (Sampler.render this) t (Returned this') /\
    (exists a ra, In (a, ra) t /\ is_acquire a = true /\ result ra = VK_SUCCESS /\
                  imageIndex ra = img) /\
    (forall a ra, In (a, ra) t -> is_acquire a = true -> imageIndex ra = img) /\
    bound_framebuffers t =
      [nth (Z.to_nat img) (Sampler.mFramebuffers this) VK_NULL_HANDLE].
Proof.
  intros Hlen Himg.
  destruct (update_total (Sampler.mSwapchainImageExtent this) _ Hlen) as (ts & u' & Hup).
  pose proof (update_inv _ _ _ _ Hlen Hup)
    as (? & ? & ? & _ & _ & _ & _ & _ & _ & _ & _ & _ & HF & _ & _).
  eexists (ts ++ _), _. split; [|split; [|split]].
  - unfold Sampler.render. eapply performs_bind; [exact Hup|]. cbv beta zeta.
    unfold VK_CHECK_ERROR, call. cbn [bind].
    apply (performs_call _ _ (granted img)).
    cbn [result imageIndex granted Z.eqb VK_SUCCESS bind].
    rewrite (index_slot _ _ VK_NULL_HANDLE) by assumption. cbn [bind].
    repeat (apply (performs_call _ _ (granted img));
            cbn [result imageIndex granted Z.eqb VK_SUCCESS bind]).
    apply performs_ret.
  - eexists _, (granted img). split; [apply in_or_app; right; left; reflexivity|].
    repeat split.
  - intros a ra Hin Ha. apply in_app_or in Hin. destruct Hin as [Hin|Hin].
    + destruct (store_unchecked _ _ _ _ HF Hin) as (_ & E & _). congruence.
    + cbn in Hin.
      repeat match goal with
      | H : _ \/ _ |- _ => destruct H as [H|H]
      | H : (_, _) = (_, _) |- _ => injection H as <- <-
      | H : False |- _ => contradiction
      end; try discriminate Ha; reflexivity.
  - unfold bound_framebuffers, calls. rewrite map_app, flat_map_app.
    fold (calls ts).
    rewrite (flat_map_stores pass_framebuffer _ _
               ltac:(intros [] E; try discriminate E; reflexivity) HF).
    reflexivity.
Qed.

(** C3.  In every run of [render], of the frame loop as of the
    single-slot sampler, a render pass is begun only on the framebuffer
    indexed by the image index that the acquire of that run returned.  The two
    indices are independent: whatever image index in range the acquire
    returns, the frame completes on that image's framebuffer and moves the
    frame index to the same next slot; where the two indices differ, the bound
    framebuffer is not the one at the frame index.  The sampler, which has no
    frame index, does the same for every image index for which it has a
    framebuffer: there is a run of its [render] that returns, in which the
    acquire hands out that index and the one render pass begun is on that
    image's framebuffer. *)
Theorem framebuffer_follows_acquired_image :
  (forall this t o, wf this -> performs (render this) t o ->
     forall cb info k r, In (vkCmdBeginRenderPass cb info k, r) t ->
       exists a ra, In (a, ra) t /\ is_acquire a = true /\ result ra = VK_SUCCESS /\
         at_ (mFramebuffers this) (imageIndex ra) = Some (framebuffer info)) /\
  (forall this t o,
     length (position (pointee (Sampler.mUniformData this))) = 8%nat ->
     performs (Sampler.render this) t o ->
     forall cb info k r, In (vkCmdBeginRenderPass cb info k, r) t ->
       exists a ra, In (a, ra) t /\ is_acquire a = true /\ result ra = VK_SUCCESS /\
         at_ (Sampler.mFramebuffers this) (imageIndex ra) = Some (framebuffer info)) /\
  (forall this img, wf this -> 0 <= img < slots this ->
     exists t this', performs (render this) t (Returned this') /\
       bound_framebuffers t = [framebuffer_of this img] /\
       mFrameIndex this' = advanced this) /\
  (forall this img, wf this -> NoDup (mFramebuffers this) ->
     0 <= img < slots this -> img <> mFrameIndex this ->
     framebuffer_of this img <> framebuffer_of this (mFrameIndex this)) /\
  (forall this img,
     length (position (pointee (Sampler.mUniformData this))) = 8%nat ->
     0 <= img < Z.of_nat (length (Sampler.mFramebuffers this)) ->
     exists t this', performs (Sampler.render this) t (Returned this') /\
       (exists a ra, In (a, ra) t /\ is_acquire a = true /\
                     result ra = VK_SUCCESS /\ imageIndex ra = img) /\
       (forall a ra, In (a, ra) t -> is_acquire a = true -> imageIndex ra = img) /\
       bound_framebuffers t =
         [nth (Z.to_nat img) (Sampler.mFramebuffers this) VK_NULL_HANDLE]).
Proof.
  split; [|split; [|split; [|split]]].
  - intros this t o Hwf H cb info k r Hin.
    destruct (render_frame this Hwf t o H) as (u' & img & _ & _ & _ & Hpass & _).
    destruct (Hpass cb info k r Hin) as (Hat & a & ra & Hin' & Ha & Hr & Hi).
    exists a, ra. rewrite Hi. auto.
  - intros this t o Hlen H. apply (sampler_render_inv this t o); assumption.
  - intros this img Hwf Himg.
    destruct (render_returns this Hwf (succeed img) img) as (this' & Ho & Hc);
      [reflexivity|reflexivity|assumption|].
    pose proof (run_performs (render this) (succeed img) 0) as H.
    rewrite Ho in H. exists (fst (run (render this) (succeed img) 0)), this'.
    split; [assumption|]. split.
    + unfold bound_framebuffers. rewrite Hc. apply frame_bound. assumption.
    + destruct (render_frame this Hwf _ _ H) as (u' & img' & _ & _ & _ & _ & _ & -> & _).
      reflexivity.
  - intros this img Hwf Hnd Himg Hne. unfold framebuffer_of. intros E.
    destruct Hwf. unfold slots in *.
    apply (proj1 (NoDup_nth (mFramebuffers this) VK_NULL_HANDLE) Hnd) in E; lia.
  - intros this img Hlen Himg. apply sampler_render_binds; assumption.
Qed.

Lemma framebuffer_follows_acquired_image_witness :
  (exists t this', performs (render two_slots) t (Returned this') /\
     bound_framebuffers t = [61] /\ mFrameIndex this' = 1) /\
  61 <> framebuffer_of two_slots (mFrameIndex two_slots) /\
  (exists t this', performs (Sampler.render SamplerLoop.single_slot) t (Returned this') /\
     (exists a ra, In (a, ra) t /\ is_acquire a = true /\
                   result ra = VK_SUCCESS /\ imageIndex ra = 1) /\
     (forall a ra, In (a, ra) t -> is_acquire a = true -> imageIndex ra = 1) /\
     bound_framebuffers t = [61]).
Proof.
  destruct framebuffer_follows_acquired_image as (_ & _ & Hrun & Hdiff & Hsampler).
  split; [|split].
  - apply (Hrun two_slots 1 two_slots_wf). unfold slots; cbn; lia.
  - apply (Hdiff two_slots 1 two_slots_wf).
    + repeat constructor; cbn; intuition discriminate.
    + unfold slots; cbn; lia.
    + discriminate.
  - apply (Hsampler SamplerLoop.single_slot 1).
    + reflexivity.
    + cbn; lia.
Defined.

(** ** The frame index *)

Lemma frames_returned (n : nat) : forall this t this',
  wf this -> performs (frames n this) t (Returned this') ->
  wf this' /\ slots this' = slots this /\
  mCommandBuffers this' = mCommandBuffers this /\
  mFrameIndex this' = (mFrameIndex this + Z.of_nat n) mod slots this /\
  submitted t = map (fun i => nth (Z.to_nat i) (mCommandBuffers this) VK_NULL_HANDLE)
                    (slot_sequence this n).
Proof.
  induction n as [|n IH]; intros this t this' Hwf H.
  - cbn in H. apply performs_Ret_inv in H. destruct H as [-> E]. injection E as <-.
    split; [assumption|]. split; [reflexivity|]. split; [reflexivity|]. split; [|reflexivity].
    rewrite Z.add_0_r. symmetry. apply Z.mod_small. destruct Hwf. assumption.
  - cbn [frames] in H. apply performs_bind_returned in H.
    destruct H as (t1 & this1 & t2 & -> & H1 & H2).
    destruct (render_wf this Hwf _ _ H1) as [Hwf1 Hs1].
    destruct (render_frame this Hwf _ _ H1) as (u' & img & _ & _ & _ & _ & Hc & E & _).
    destruct (IH this1 t2 this' Hwf1 H2) as (Hwf' & Hs' & Hcb' & Hi' & Hsub').
    assert (Hi1 : mFrameIndex this1 = advanced this) by (rewrite E; reflexivity).
    assert (Hcb1 : mCommandBuffers this1 = mCommandBuffers this) by (rewrite E; reflexivity).
    split; [assumption|]. split; [congruence|]. split; [congruence|]. split.
    + rewrite Hi', Hs1, Hi1. unfold advanced.
      rewrite Zplus_mod_idemp_l. f_equal. lia.
    + unfold submitted, calls in *. rewrite map_app, flat_map_app.
      rewrite Hc, frame_submitted by assumption.
      rewrite Hsub'. unfold slot_sequence. cbn [seq map app].
      rewrite Z.add_0_r, (Z.mod_small (mFrameIndex this)) by (destruct Hwf; assumption).
      f_equal. rewrite Hcb1, <- seq_shift, !map_map. apply map_ext. intros k.
      f_equal. f_equal. rewrite Hs1, Hi1. unfold advanced.
      rewrite Zplus_mod_idemp_l. f_equal. lia.
Qed.

Lemma frame_index_cycles_aux (this : VkRenderer) :
  wf this ->
  (forall t this', performs (render this) t (Returned this') ->
     mFrameIndex this' = (mFrameIndex this + 1) mod slots this /\
     slots this' = slots this /\
     0 <= mFrameIndex this' < slots this' /\
     (exists img, calls t = frame this (stores this) img) /\
     submitted t = [commandBuffer this]) /\
  (forall n t this', performs (frames n this) t (Returned this') ->
     0 <= mFrameIndex this' < slots this /\
     mFrameIndex this' = (mFrameIndex this + Z.of_nat n) mod slots this).
Proof.
  intros Hwf. split.
  - intros t this' H.
    destruct (render_frame this Hwf _ _ H) as (u' & img & _ & _ & _ & _ & Hc & E & _).
    destruct (render_wf this Hwf _ _ H) as [Hwf' Hs'].
    assert (Hi : mFrameIndex this' = advanced this) by (rewrite E; reflexivity).
    split; [exact Hi|]. split; [assumption|]. split.
    + rewrite Hs', Hi. apply advanced_range. assumption.
    + split; [eauto|]. unfold submitted. rewrite Hc. apply frame_submitted. assumption.
  - intros n t this' H.
    destruct (frames_returned n this t this' Hwf H) as (_ & _ & _ & Hi & _).
    split; [|assumption]. rewrite Hi. apply Z.mod_pos_bound. destruct Hwf. lia.
Qed.

(** C6.  The constructor starts the frame index at 0, inside [0 .. N-1].
    A call of [render] that returns leaves the frame index at
    [(frame_index + 1) mod N], inside [0 .. N-1]; all calls of the frame,
    the submission included, address the slot of the old index, so the index
    changes only after the last of them; no other outcome of [render] leaves
    a renderer behind.  After any number of frames the index is inside
    [0 .. N-1], and with two images, from index 0, five consecutive frames
    submit the command buffers of slots 0, 1, 0, 1, 0. *)
Theorem frame_index_cycles (this : VkRenderer) :
  wf this ->
  0 <= constructed_frame_index < slots this /\
  (forall t this', performs (render this) t (Returned this') ->
     mFrameIndex this' = (mFrameIndex this + 1) mod slots this /\
     slots this' = slots this /\
     0 <= mFrameIndex this' < slots this' /\
     (exists img, calls t = frame this (stores this) img) /\
     submitted t = [commandBuffer this]) /\
  (forall n t this', performs (frames n this) t (Returned this') ->
     0 <= mFrameIndex this' < slots this /\
     mFrameIndex this' = (mFrameIndex this + Z.of_nat n) mod slots this) /\
  (slots this = 2 -> mFrameIndex this = 0 ->
   forall t this', performs (frames 5 this) t (Returned this') ->
     slot_sequence this 5 = [0; 1; 0; 1; 0] /\
     submitted t = map (fun i => nth (Z.to_nat i) (mCommandBuffers this) VK_NULL_HANDLE)
                       [0; 1; 0; 1; 0] /\
     mFrameIndex this' = 1).
Proof.
  intros Hwf. destruct (frame_index_cycles_aux this Hwf) as [H1 H2].
  split; [destruct Hwf; unfold constructed_frame_index; lia|].
  split; [exact H1|]. split; [exact H2|].
  - intros HN H0 t this' H.
    destruct (frames_returned 5 this t this' Hwf H) as (_ & _ & _ & Hi & Hsub).
    assert (Hseq : slot_sequence this 5 = [0; 1; 0; 1; 0]).
    { unfold slot_sequence. rewrite HN, H0. reflexivity. }
    split; [assumption|]. split; [rewrite Hsub, Hseq; reflexivity|].
    rewrite Hi, HN, H0. reflexivity.
Qed.

Lemma frame_index_cycles_witness :
  submitted (fst (run (frames 5 two_slots) (succeed 1) 0)) = [20; 21; 20; 21; 20] /\
  (exists this', snd (run (frames 5 two_slots) (succeed 1) 0) = Returned this' /\
                 mFrameIndex this' = 1).
Proof.
  pose proof (run_performs (frames 5 two_slots) (succeed 1) 0) as H.
  assert (E : exists this', snd (run (frames 5 two_slots) (succeed 1) 0) = Returned this').
  { vm_compute. eexists. reflexivity. }
  destruct E as [this' E]. rewrite E in H.
  destruct (proj2 (proj2 (proj2 (frame_index_cycles two_slots two_slots_wf)))
              eq_refl eq_refl _ _ H) as (_ & Hsub & Hi).
  split; [exact Hsub|]. exists this'. split; [exact E|exact Hi].
Defined.

(** ** Checked and unchecked results *)

(** X1.  Every result that [render] passes through [VK_CHECK_ERROR] is looked at
    on the spot: a value other than [VK_SUCCESS] ends the run right there,
    with the call and the value as the diagnostic. *)
Lemma checked_results_abort (this : VkRenderer) t o c r :
  wf this -> performs (render this) t o ->
  In (c, r) t -> is_checked c = true -> result r <> VK_SUCCESS ->
  o = Aborted (check_error c (result r)) /\ exists t0, t = t0 ++ [(c, r)].
Proof.
  intros Hwf H Hin Hc Hne.
  destruct (render_frame this Hwf t o H) as (u' & img & _ & _ & _ & _ & Ho).
  destruct o as [this'|f|].
  - destruct Ho as (_ & _ & _ & Hall). exfalso. apply Hne. apply (Hall c r); assumption.
  - destruct Ho as (t0 & c' & r' & -> & -> & _ & _ & Hall).
    apply in_app_or in Hin. destruct Hin as [Hin|[E|[]]].
    + exfalso. apply Hne. apply (Hall c r); assumption.
    + injection E as <- <-. split; [reflexivity|eauto].
  - destruct Ho as (_ & t0 & c' & r' & -> & Hacq & Hok & _ & Hall).
    exfalso. apply Hne. apply in_app_or in Hin. destruct Hin as [Hin|[E|[]]].
    + apply (Hall c r); assumption.
    + injection E as <- <-. assumption.
Qed.

(** On the two-image renderer, a lost device reported by [vkQueueSubmit]:
    the run ends at that call, with the call and [VK_ERROR_DEVICE_LOST] as
    the diagnostic, and nothing is presented. *)
Lemma checked_results_abort_witness :
  let submit_ :=
    vkQueueSubmit (mQueue two_slots)
      [{| pWaitSemaphores := []; pCommandBuffers := [20]; pSignalSemaphores := [50] |}] 30 in
  let run_ := run (render two_slots) (submit_returns VK_ERROR_DEVICE_LOST 0) 0 in
  snd run_ = Aborted (check_error submit_ VK_ERROR_DEVICE_LOST) /\
  exists t0, fst run_ =
    t0 ++ [(submit_, {| result := VK_ERROR_DEVICE_LOST; imageIndex := 0 |})].
Proof.
  cbv zeta.
  apply (checked_results_abort two_slots _ _
           (vkQueueSubmit (mQueue two_slots)
              [{| pWaitSemaphores := []; pCommandBuffers := [20];
                  pSignalSemaphores := [50] |}] 30)
           {| result := VK_ERROR_DEVICE_LOST; imageIndex := 0 |} two_slots_wf
           (run_performs (render two_slots) (submit_returns VK_ERROR_DEVICE_LOST 0) 0)).
  - vm_compute. tauto.
  - reflexivity.
  - discriminate.
Defined.

(** The result of [vkResetCommandBuffer] is not among them: whatever value
    the call returns, the frame is recorded, submitted and presented, and
    [render] returns. *)
Lemma render_ignores_reset_result (this : VkRenderer) (res : VkResult) (img : Z) :
  wf this -> 0 <= img < slots this ->
  exists this',
    snd (run (render this) (reset_returns res img) 0) = Returned this' /\
    calls (fst (run (render this) (reset_returns res img) 0)) = frame this (stores this) img /\
    In (vkResetCommandBuffer (commandBuffer this) 0, {| result := res; imageIndex := img |})
       (fst (run (render this) (reset_returns res img) 0)).
Proof.
  intros Hwf Himg.
  destruct (render_returns this Hwf (reset_returns res img) img) as (this' & Ho & Hc).
  - intros k c Hc. destruct c; try discriminate Hc; reflexivity.
  - intros k c. destruct c; reflexivity.
  - assumption.
  - exists this'. split; [assumption|]. split; [assumption|].
    pose proof (run_replies (render this) (reset_returns res img) 0) as Hrep.
    assert (Hin : In (vkResetCommandBuffer (commandBuffer this) 0)
                     (calls (fst (run (render this) (reset_returns res img) 0)))).
    { rewrite Hc. unfold frame. do 4 (apply in_or_app; right).
      apply in_or_app. left. left. reflexivity. }
    unfold calls in Hin. apply in_map_iff in Hin. destruct Hin as ([c r] & E & Hin).
    cbn in E. subst c. destruct (Hrep _ _ Hin) as [k Hk]. cbn in Hk. subst r. exact Hin.
Qed.

(** C7.  On the two-image renderer, in a frame in which
    [vkResetCommandBuffer] returns [VK_ERROR_OUT_OF_DEVICE_MEMORY], [render]
    neither logs nor aborts: it records into the command buffer, submits it,
    presents, and returns with the frame index advanced. *)
Theorem render_continues_after_failed_reset :
  let run_ := run (render two_slots) (reset_returns VK_ERROR_OUT_OF_DEVICE_MEMORY 0) 0 in
  In (vkResetCommandBuffer 20 0,
      {| result := VK_ERROR_OUT_OF_DEVICE_MEMORY; imageIndex := 0 |}) (fst run_) /\
  submitted (fst run_) = [20] /\
  calls (fst run_) = frame two_slots (stores two_slots) 0 /\
  exists this', snd run_ = Returned this' /\ mFrameIndex this' = 1.
Proof.
  cbv zeta.
  destruct (render_ignores_reset_result two_slots VK_ERROR_OUT_OF_DEVICE_MEMORY 0 two_slots_wf)
    as (this' & Ho & Hc & Hin); [unfold slots; cbn; lia|].
  split; [exact Hin|]. split.
  - unfold submitted. rewrite Hc. apply (frame_submitted two_slots 0 two_slots_wf).
  - split; [exact Hc|]. exists this'. split; [exact Ho|].
    pose proof (run_performs (render two_slots)
                  (reset_returns VK_ERROR_OUT_OF_DEVICE_MEMORY 0) 0) as H.
    rewrite Ho in H.
    destruct (proj1 (frame_index_cycles_aux two_slots two_slots_wf) _ _ H) as [Hi _].
    exact Hi.
Qed.

(** ** What a frame writes into the uniform block *)

Lemma frame_stores (this : VkRenderer) (img : Z) (c : action) :
  In c (frame this (stores this) img) -> is_store c = true -> In c (stores this).
Proof.
  unfold frame. intros Hin Hs.
  repeat (apply in_app_or in Hin; destruct Hin as [Hin|Hin]); try assumption;
    cbn in Hin;
    repeat (destruct Hin as [<-|Hin]; [discriminate Hs|]); contradiction.
Qed.

Lemma at_repeat {A : Type} (x : A) (n : nat) (j : Z) :
  0 <= j < Z.of_nat n -> at_ (repeat x n) j = Some x.
Proof.
  intros Hj. destruct (at_in_range (repeat x n) j) as [y Hy].
  - rewrite repeat_length. assumption.
  - rewrite Hy. f_equal. apply at_In in Hy. apply repeat_spec in Hy. assumption.
Qed.

Lemma In_at {A : Type} (l : list A) (x : A) : In x l -> exists i, at_ l i = Some x.
Proof.
  intros Hin. apply In_nth_error in Hin. destruct Hin as [n Hn].
  exists (Z.of_nat n). unfold at_.
  replace (Z.of_nat n <? 0) with false by (symmetry; apply Z.ltb_ge; lia).
  rewrite Nat2Z.id. assumption.
Qed.

(** The blocks of a renderer before and after a frame that returned. *)
Lemma render_blocks (this : VkRenderer) t this' :
  wf this -> performs (render this) t (Returned this') ->
  forall s u', at_ (mUniformData this') s = Some u' ->
    exists u, at_ (mUniformData this) s = Some u /\ address u' = address u /\
      forall j, j <> 0 -> j <> 4 ->
                at_ (position (pointee u')) j = at_ (position (pointee u)) j.
Proof.
  intros Hwf H s u' Hs.
  destruct (render_frame this Hwf _ _ H) as (v & img & (Ha & _ & Ho) & _ & _ & _ & _ & E & _).
  subst this'. cbn in Hs. destruct Hwf. unfold slots in *.
  destruct (Z.eq_dec s (mFrameIndex this)) as [->|Hne].
  - rewrite at_update_nth_same in Hs by lia. injection Hs as <-.
    exists (uniformData this). split; [|auto].
    destruct (at_in_range (mUniformData this) (mFrameIndex this)) as [u Hu]; [lia|].
    rewrite Hu. f_equal. symmetry. apply at_nth. assumption.
  - rewrite at_update_nth_other in Hs by lia. exists u'. auto.
Qed.

(** C10.  The stores of a call of [render] go to elements 0 and 4 of the
    active slot's position array and to its ratio, and to nothing else; a
    frame leaves the other six elements of every block as they were; so the
    six elements, zeroed by the [memset] of the constructor, are zero after
    any number of frames. *)
Theorem uniform_writes_confined (this : VkRenderer) :
  wf this ->
  (forall t o c r, performs (render this) t o -> In (c, r) t -> is_store c = true ->
     slot_store (address (uniformData this)) c) /\
  (forall t this', performs (render this) t (Returned this') ->
     forall s u', at_ (mUniformData this') s = Some u' ->
       exists u, at_ (mUniformData this) s = Some u /\ address u' = address u /\
         forall j, j <> 0 -> j <> 4 ->
                   at_ (position (pointee u')) j = at_ (position (pointee u)) j) /\
  (Forall (fun u => pointee u = zeroed) (mUniformData this) ->
   forall n t this', performs (frames n this) t (Returned this') ->
     forall u' j, In u' (mUniformData this') -> 0 <= j < 8 -> j <> 0 -> j <> 4 ->
       at_ (position (pointee u')) j = Some zero).
Proof.
  intros Hwf. split; [|split].
  - intros t o c r H Hin Hs.
    destruct (render_frame this Hwf _ _ H) as (u' & img & _ & [rest Hpre] & _).
    destruct (stores_slot_stores this Hwf) as [HF _]. rewrite Forall_forall in HF.
    apply HF. apply (frame_stores this img); [|assumption].
    rewrite Hpre. apply in_or_app. left. apply (in_map fst) in Hin. exact Hin.
  - intros t this' H. apply (render_blocks this t this' Hwf H).
  - intros Hz n. revert this Hwf Hz.
    assert (Hgen : forall this, wf this ->
      (forall u j, In u (mUniformData this) -> 0 <= j < 8 -> j <> 0 -> j <> 4 ->
                   at_ (position (pointee u)) j = Some zero) ->
      forall t this', performs (frames n this) t (Returned this') ->
        forall u' j, In u' (mUniformData this') -> 0 <= j < 8 -> j <> 0 -> j <> 4 ->
          at_ (position (pointee u')) j = Some zero).
    { induction n as [|n IH]; intros this Hwf Hinv t this' H.
      - cbn in H. apply performs_Ret_inv in H. destruct H as [_ E]. injection E as <-.
        exact Hinv.
      - cbn [frames] in H. apply performs_bind_returned in H.
        destruct H as (t1 & this1 & t2 & -> & H1 & H2).
        destruct (render_wf this Hwf _ _ H1) as [Hwf1 _].
        apply (IH this1 Hwf1) with (t := t2); [|assumption].
        intros u j Hin Hj H0 H4. apply In_at in Hin. destruct Hin as [s Hs].
        destruct (render_blocks this t1 this1 Hwf H1 s u Hs) as (v & Hv & _ & Ho).
        rewrite Ho by assumption. apply Hinv; [|assumption..].
        apply at_In in Hv. assumption. }
    intros this Hwf Hz. apply Hgen; [assumption|].
    intros u j Hin Hj _ _. rewrite Forall_forall in Hz. rewrite (Hz u Hin).
    apply (at_repeat zero 8 j). cbn. lia.
Qed.

Lemma uniform_writes_confined_witness :
  exists this',
    snd (run (frames 3 two_slots) (succeed 0) 0) = Returned this' /\
    Forall (fun u' => Forall (fun j => at_ (position (pointee u')) j = Some zero)
                             [1; 2; 3; 5; 6; 7])
           (mUniformData this').
Proof.
  pose proof (run_performs (frames 3 two_slots) (succeed 0) 0) as H.
  assert (E : exists this', snd (run (frames 3 two_slots) (succeed 0) 0) = Returned this').
  { vm_compute. eexists. reflexivity. }
  destruct E as [this' E]. rewrite E in H. exists this'. split; [exact E|].
  pose proof (proj2 (proj2 (uniform_writes_confined two_slots two_slots_wf))
                ltac:(repeat constructor) 3%nat _ _ H) as Hz.
  apply Forall_forall. intros u' Hin.
  repeat (apply Forall_cons; [apply (Hz u' _ Hin); lia|]). apply Forall_nil.
Defined.

(** ** The wrap of the moving position *)


(** ** Surface format and present mode *)

Section Negotiation.

Lemma find_first {A : Type} (p : A -> bool) (find : list A -> Z -> Z -> Z) (sentinel : Z) :
  (forall l i d, find l i d =
     match l with
     | [] => d
     | x :: rest => if p x then u32 i else find rest (i + 1) d
     end) ->
  forall l i,
    0 <= i -> i + Z.of_nat (length l) <= INT_MAX -> sentinel = INT_MAX ->
    (find l i sentinel = sentinel /\ forall x, In x l -> p x = false) \/
    (exists k x, find l i sentinel = i + k /\ first_at p l k x).
Proof.
  intros Hfind. induction l as [|x l IH]; intros i Hi Hlen Hsent; rewrite Hfind.
  - left. split; [reflexivity|]. intros x [].
  - cbn [length] in Hlen. destruct (p x) eqn:Hp.
    + right. exists 0, x. split.
      * unfold u32. rewrite Z.mod_small; [lia|]. unfold INT_MAX in *. lia.
      * split; [reflexivity|]. split; [assumption|]. intros j y Hj. lia.
    + destruct (IH (i + 1)) as [[E Hall]|(k & y & E & Hat & Hy & Hmin)];
        [lia|lia|assumption| |].
      * left. split; [assumption|]. intros z [<-|Hz]; auto.
      * right. exists (k + 1), y. split; [lia|].
        pose proof (at_Some_range _ _ _ Hat) as Hk.
        split; [|split; [assumption|]].
        -- unfold at_ in *.
           replace (k + 1 <? 0) with false by (symmetry; apply Z.ltb_ge; lia).
           replace (k <? 0) with false in Hat by (symmetry; apply Z.ltb_ge; lia).
           replace (Z.to_nat (k + 1)) with (S (Z.to_nat k)) by lia. exact Hat.
        -- intros j z Hj Hz. destruct (Z.eq_dec j 0) as [->|Hne].
           ++ cbn in Hz. injection Hz as <-. assumption.
           ++ apply (Hmin (j - 1) z); [lia|].
              unfold at_ in *.
              replace (j <? 0) with false in Hz by (symmetry; apply Z.ltb_ge; lia).
              replace (j - 1 <? 0) with false by (symmetry; apply Z.ltb_ge; lia).
              replace (Z.to_nat j) with (S (Z.to_nat (j - 1))) in Hz by lia. exact Hz.
Qed.

Lemma findSurfaceFormat_spec (l : list VkSurfaceFormatKHR) :
  Z.of_nat (length l) <= INT_MAX ->
  (findSurfaceFormat l 0 VK_FORMAT_MAX_ENUM = VK_FORMAT_MAX_ENUM /\
   forall f, In f l -> is_rgba8_unorm f = false) \/
  (exists k f, findSurfaceFormat l 0 VK_FORMAT_MAX_ENUM = k /\ first_at is_rgba8_unorm l k f).
Proof.
  intros Hlen.
  destruct (find_first is_rgba8_unorm findSurfaceFormat VK_FORMAT_MAX_ENUM
              ltac:(intros [|x rest] i d; reflexivity) l 0) as [H|(k & f & E & H)];
    [lia|lia|reflexivity|auto|].
  right. exists k, f. split; [rewrite E; lia|assumption].
Qed.

Lemma findPresentMode_spec (l : list VkPresentModeKHR) :
  Z.of_nat (length l) <= INT_MAX ->
  (findPresentMode l 0 VK_PRESENT_MODE_MAX_ENUM_KHR = VK_PRESENT_MODE_MAX_ENUM_KHR /\
   forall m, In m l -> is_fifo m = false) \/
  (exists k m, findPresentMode l 0 VK_PRESENT_MODE_MAX_ENUM_KHR = k /\ first_at is_fifo l k m).
Proof.
  intros Hlen.
  destruct (find_first is_fifo findPresentMode VK_PRESENT_MODE_MAX_ENUM_KHR
              ltac:(intros [|x rest] i d; reflexivity) l 0) as [H|(k & f & E & H)];
    [lia|lia|reflexivity|auto|].
  right. exists k, f. split; [rewrite E; lia|assumption].
Qed.

(** C8.  Swapchain setup takes the first enumerated surface format whose
    format is [VK_FORMAT_R8G8B8A8_UNORM] (8-bit RGBA, not sRGB), with its
    colour space, and the first enumerated present mode that is
    [VK_PRESENT_MODE_FIFO_KHR]; when the formats hold none, or the present
    modes hold none, the assertion fails and the process dies, whatever
    else was enumerated. *)
Theorem negotiate_first_match (surfaceFormats : list VkSurfaceFormatKHR)
    (presentModes : list VkPresentModeKHR) :
  Z.of_nat (length surfaceFormats) <= INT_MAX ->
  Z.of_nat (length presentModes) <= INT_MAX ->
  ((forall f, In f surfaceFormats -> is_rgba8_unorm f = false) \/
   (forall m, In m presentModes -> is_fifo m = false) ->
   negotiate surfaceFormats presentModes = Abort assertion_failed) /\
  (forall f m, In f surfaceFormats -> is_rgba8_unorm f = true ->
               In m presentModes -> is_fifo m = true ->
     exists n, negotiate surfaceFormats presentModes = Ret n) /\
  (forall n, negotiate surfaceFormats presentModes = Ret n ->
     exists f,
       first_at is_rgba8_unorm surfaceFormats (surfaceFormatIndex n) f /\
       imageFormat n = VK_FORMAT_R8G8B8A8_UNORM /\
       imageFormat n <> VK_FORMAT_R8G8B8A8_SRGB /\
       imageColorSpace n = colorSpace f /\
       first_at is_fifo presentModes (presentModeIndex n) (presentMode n) /\
       presentMode n = VK_PRESENT_MODE_FIFO_KHR) /\
  (negotiate surfaceFormats presentModes = Abort assertion_failed \/
   exists n, negotiate surfaceFormats presentModes = Ret n).
Proof.
  intros Hf Hm. unfold negotiate.
  destruct (findSurfaceFormat_spec surfaceFormats Hf)
    as [[Ef Hnone]|(k & f & Ef & Hat & Hp & Hmin)].
  - (* no RGBA8 UNORM format *)
    rewrite Ef. cbn. split; [reflexivity|]. split; [|split; [discriminate|auto]].
    intros f m Hin Hp. rewrite (Hnone f Hin) in Hp. discriminate.
  - pose proof (at_Some_range _ _ _ Hat) as Hk.
    assert (Hk' : (k =? VK_FORMAT_MAX_ENUM) = false).
    { apply Z.eqb_neq. unfold VK_FORMAT_MAX_ENUM, INT_MAX in *. lia. }
    rewrite Ef, Hk'. cbn [negb assert bind].
    destruct (findPresentMode_spec presentModes Hm)
      as [[Em Hnone]|(j & m & Em & Hatm & Hpm & Hminm)].
    + (* no FIFO present mode *)
      rewrite Em. cbn. split; [reflexivity|]. split; [|split; [discriminate|auto]].
      intros f' m' _ _ Hin Hp'. rewrite (Hnone m' Hin) in Hp'. discriminate.
    + pose proof (at_Some_range _ _ _ Hatm) as Hj.
      assert (Hj' : (j =? VK_PRESENT_MODE_MAX_ENUM_KHR) = false).
      { apply Z.eqb_neq. unfold VK_PRESENT_MODE_MAX_ENUM_KHR, INT_MAX in *. lia. }
      rewrite Em, Hj'. cbn [negb assert bind]. unfold index. rewrite Hat, Hatm.
      cbn [bind].
      assert (Hfmt : format f = VK_FORMAT_R8G8B8A8_UNORM) by (apply Z.eqb_eq; exact Hp).
      assert (Hmode : m = VK_PRESENT_MODE_FIFO_KHR) by (apply Z.eqb_eq; exact Hpm).
      split; [|split; [eauto|split; [|eauto]]].
      * intros [Hnone|Hnone].
        -- rewrite (Hnone f (at_In _ _ _ Hat)) in Hp. discriminate.
        -- rewrite (Hnone m (at_In _ _ _ Hatm)) in Hpm. discriminate.
      * intros n E. injection E as <-. exists f. cbn.
        split; [split; [assumption|split; assumption]|].
        split; [assumption|]. split; [rewrite Hfmt; discriminate|].
        split; [reflexivity|]. split; [split; [assumption|split; assumption]|assumption].
Qed.

End Negotiation.

(** Formats sRGB first, UNORM second; present modes MAILBOX, FIFO. *)
Lemma negotiate_first_match_witness :
  exists n,
    negotiate [{| format := VK_FORMAT_R8G8B8A8_SRGB; colorSpace := 0 |};
               {| format := VK_FORMAT_R8G8B8A8_UNORM; colorSpace := 0 |}]
              [VK_PRESENT_MODE_MAILBOX_KHR; VK_PRESENT_MODE_FIFO_KHR] = Ret n.
Proof.
  assert (H2 : Z.of_nat 2 <= INT_MAX) by (cbn; unfold INT_MAX; lia).
  apply (proj1 (proj2 (negotiate_first_match
           [{| format := VK_FORMAT_R8G8B8A8_SRGB; colorSpace := 0 |};
            {| format := VK_FORMAT_R8G8B8A8_UNORM; colorSpace := 0 |}]
           [VK_PRESENT_MODE_MAILBOX_KHR; VK_PRESENT_MODE_FIFO_KHR] H2 H2))
           {| format := VK_FORMAT_R8G8B8A8_UNORM; colorSpace := 0 |}
           VK_PRESENT_MODE_FIFO_KHR).
  - right. left. reflexivity.
  - reflexivity.
  - right. left. reflexivity.
  - reflexivity.
Defined.

(** ** Program and device together *)

Section Triples.

Variable G : World -> Prop.
Variable ok : World -> action -> Prop.

Lemma steps_trans {A : Type} (c1 c2 c3 : World * Prog A) :
  steps c1 c2 -> steps c2 c3 -> steps c1 c3.
Proof.
  induction 1 as [|c1 mid c2 Hs _ IH]; [auto|].
  intros H. eapply steps_cons; eauto.
Qed.

(** A program that has stopped only watches the device. *)
Lemma steps_stopped {A : Type} (P : World -> Prop) (p : Prog A) :
  stable P -> (forall c k, p <> Call c k) ->
  forall cfg cfg', steps cfg cfg' -> forall w, cfg = (w, p) -> P w ->
    exists w', cfg' = (w', p) /\ P w'.
Proof.
  intros HP Hp. induction 1 as [cfg|cfg mid cfg' Hs _ IH]; intros w E Hw.
  - eauto.
  - subst cfg. inversion Hs; subst.
    + exfalso. eapply Hp. reflexivity.
    + eapply IH; [reflexivity|]. eapply HP; eassumption.
Qed.

Lemma triple_ret {A : Type} (P : World -> Prop) (a : A) (Q : A -> World -> Prop) :
  stable P -> (forall w, P w -> G w /\ Q a w) -> triple G ok P (Ret a) Q.
Proof.
  intros HP HQ w Hw w' p' Hs.
  destruct (steps_stopped P (Ret a) HP ltac:(discriminate) _ _ Hs w eq_refl Hw)
    as (w1 & E & Hw1).
  injection E as -> ->. destruct (HQ _ Hw1). split; [assumption|].
  split; [exact I|]. intros a' E. injection E as <-. assumption.
Qed.

Lemma triple_abort {A : Type} (P : World -> Prop) (f : Fatal) (Q : A -> World -> Prop) :
  stable P -> (forall w, P w -> G w) -> triple G ok P (Abort f) Q.
Proof.
  intros HP HG w Hw w' p' Hs.
  destruct (steps_stopped P (Abort f) HP ltac:(discriminate) _ _ Hs w eq_refl Hw)
    as (w1 & E & Hw1).
  injection E as -> ->. split; [auto|]. split; [exact I|]. discriminate.
Qed.

Lemma triple_undef {A : Type} (P : World -> Prop) (Q : A -> World -> Prop) :
  stable P -> (forall w, P w -> G w) -> triple G ok P Undef Q.
Proof.
  intros HP HG w Hw w' p' Hs.
  destruct (steps_stopped P Undef HP ltac:(discriminate) _ _ Hs w eq_refl Hw)
    as (w1 & E & Hw1).
  injection E as -> ->. split; [auto|]. split; [exact I|]. discriminate.
Qed.

Lemma triple_call {A : Type} (P : World -> Prop) (R : Reply -> World -> Prop)
    (c : action) (k : Reply -> Prog A) (Q : A -> World -> Prop) :
  stable P ->
  (forall w, P w -> G w /\ ok w c) ->
  (forall w r w', P w -> returns w c r = Some w' -> R r w') ->
  (forall r, triple G ok (R r) (k r) Q) ->
  triple G ok P (Call c k) Q.
Proof.
  intros HP HG HR Hk.
  assert (Hgen : forall cfg cfg', steps cfg cfg' -> forall w, cfg = (w, Call c k) -> P w ->
            G (fst cfg') /\ next_ok ok cfg' /\ forall a, snd cfg' = Ret a -> Q a (fst cfg')).
  { induction 1 as [cfg|cfg mid cfg' Hstep Hs IH]; intros w E Hw.
    - subst cfg. cbn. destruct (HG _ Hw).
      split; [assumption|]. split; [assumption|]. discriminate.
    - subst cfg. inversion Hstep; subst.
      + destruct cfg' as [w'' p''].
        apply (Hk r w'); [eapply HR; eassumption|assumption].
      + eapply IH; [reflexivity|]. eapply HP; eassumption. }
  intros w Hw w' p' Hs. exact (Hgen _ _ Hs w eq_refl Hw).
Qed.

(** [VK_CHECK_ERROR(c); rest]: on success the device is in [P'], on failure
    it is as before and the program has died. *)
Lemma triple_checked {A : Type} (P P' : World -> Prop)
    (c : action) (k : Reply -> Prog A) (Q : A -> World -> Prop) :
  stable P ->
  (forall w, P w -> G w /\ ok w c) ->
  (forall w r w', P w -> result r = VK_SUCCESS -> returns w c r = Some w' -> P' w') ->
  (forall r, triple G ok P' (k r) Q) ->
  triple G ok P (bind (VK_CHECK_ERROR c) k) Q.
Proof.
  intros HP HG HR Hk. unfold VK_CHECK_ERROR. cbn [bind].
  apply (triple_call P (fun r w => if result r =? VK_SUCCESS then P' w else P w));
    try assumption.
  - intros w r w' Hw Hret. destruct (result r =? VK_SUCCESS) eqn:E.
    + apply (HR w r w'); [assumption|apply Z.eqb_eq; assumption|assumption].
    + unfold returns in Hret. rewrite E in Hret. cbn in Hret. injection Hret as <-.
      assumption.
  - intros r. destruct (result r =? VK_SUCCESS); cbn [bind].
    + apply Hk.
    + apply triple_abort; [assumption|]. intros w Hw. apply HG. assumption.
Qed.

Lemma steps_bind_inv {A B : Type} (f : A -> Prog B) :
  forall cfg cfg', steps cfg cfg' -> forall w (p : Prog A) w' q,
    cfg = (w, bind p f) -> cfg' = (w', q) ->
    (exists p', q = bind p' f /\ steps (w, p) (w', p')) \/
    (exists a w1, steps (w, p) (w1, Ret a) /\ steps (w1, f a) (w', q)).
Proof.
  induction 1 as [cfg|cfg mid cfg' Hstep Hs IH]; intros w p w' q E E'.
  - subst cfg. injection E' as <- <-. left. exists p. split; [reflexivity|constructor].
  - subst cfg cfg'. destruct p as [a|c k|e|].
    + right. exists a, w. split; [constructor|]. cbn in Hstep.
      eapply steps_cons; eassumption.
    + cbn in Hstep. inversion Hstep; subst.
      * destruct (IH w'0 (k r) w' q eq_refl eq_refl) as [(p' & -> & Hleft)|(a & w1 & Hleft & Hright)].
        -- left. exists p'. split; [reflexivity|].
           eapply steps_cons; [|eassumption]. constructor. assumption.
        -- right. exists a, w1. split; [|assumption].
           eapply steps_cons; [|eassumption]. constructor. assumption.
      * destruct (IH w'0 (Call c k) w' q eq_refl eq_refl)
          as [(p' & -> & Hleft)|(a & w1 & Hleft & Hright)].
        -- left. exists p'. split; [reflexivity|].
           eapply steps_cons; [|eassumption]. apply step_device. assumption.
        -- right. exists a, w1. split; [|assumption].
           eapply steps_cons; [|eassumption]. apply step_device. assumption.
    + cbn in Hstep. inversion Hstep; subst.
      destruct (IH w'0 (Abort e) w' q eq_refl eq_refl)
        as [(p' & -> & Hleft)|(a & w1 & Hleft & Hright)].
      * left. exists p'. split; [reflexivity|].
        eapply steps_cons; [|eassumption]. apply step_device. assumption.
      * right. exists a, w1. split; [|assumption].
        eapply steps_cons; [|eassumption]. apply step_device. assumption.
    + cbn in Hstep. inversion Hstep; subst.
      destruct (IH w'0 Undef w' q eq_refl eq_refl)
        as [(p' & -> & Hleft)|(a & w1 & Hleft & Hright)].
      * left. exists p'. split; [reflexivity|].
        eapply steps_cons; [|eassumption]. apply step_device. assumption.
      * right. exists a, w1. split; [|assumption].
        eapply steps_cons; [|eassumption]. apply step_device. assumption.
Qed.

Lemma triple_bind {A B : Type} (P : World -> Prop) (p : Prog A) (Q : A -> World -> Prop)
    (f : A -> Prog B) (R : B -> World -> Prop) :
  triple G ok P p Q ->
  (forall a, triple G ok (Q a) (f a) R) ->
  triple G ok P (bind p f) R.
Proof.
  intros Hp Hf w Hw w' q Hs.
  destruct (steps_bind_inv f _ _ Hs w p w' q eq_refl eq_refl)
    as [(p' & -> & Hleft)|(a & w1 & Hleft & Hright)].
  - destruct (Hp w Hw _ _ Hleft) as (HG & Hok & HQ).
    destruct p' as [a|c k|e|]; cbn.
    + apply (Hf a w' (HQ a eq_refl)). constructor.
    + split; [assumption|]. split; [exact Hok|]. discriminate.
    + split; [assumption|]. split; [exact I|]. discriminate.
    + split; [assumption|]. split; [exact I|]. discriminate.
  - destruct (Hp w Hw _ _ Hleft) as (_ & _ & HQ).
    apply (Hf a w1 (HQ a eq_refl)). assumption.
Qed.

Lemma triple_strengthen {A : Type} (P P' : World -> Prop) (p : Prog A)
    (Q : A -> World -> Prop) :
  (forall w, P' w -> P w) -> triple G ok P p Q -> triple G ok P' p Q.
Proof. intros HPP H w Hw. apply H. auto. Qed.

Lemma quiet_returns (w : World) (c : action) (r : Reply) :
  quiet c = true -> returns w c r = Some w.
Proof.
  intros Hq. unfold returns. destruct (negb (result r =? VK_SUCCESS)); [reflexivity|].
  destruct c; try discriminate Hq; reflexivity.
Qed.

(** A program of quiet calls leaves a stable assertion in place. *)
Lemma triple_quiet {A : Type} (phi : action -> Prop) (P : World -> Prop) (p : Prog A) :
  stable P -> (forall w, P w -> G w) ->
  (forall c, phi c -> quiet c = true) ->
  (forall w c, P w -> phi c -> ok w c) ->
  all_calls phi p -> triple G ok P p (fun _ => P).
Proof.
  intros HP HG Hq Hok. induction 1 as [a|f| |c k Hc Hk IH].
  - apply triple_ret; auto.
  - apply triple_abort; auto.
  - apply triple_undef; auto.
  - apply (triple_call P (fun _ => P)); auto.
    intros w r w' Hw Hret. rewrite quiet_returns in Hret by auto.
    injection Hret as <-. assumption.
Qed.

Lemma triple_pure {A : Type} (phi : Prop) (P : World -> Prop) (p : Prog A)
    (Q : A -> World -> Prop) :
  (phi -> triple G ok P p Q) -> triple G ok (fun w => P w /\ phi) p Q.
Proof. intros H w [Hw Hphi]. apply (H Hphi w Hw). Qed.

End Triples.

Lemma all_calls_bind {A B : Type} (phi : action -> Prop) (p : Prog A) (f : A -> Prog B) :
  all_calls phi p -> (forall a, all_calls phi (f a)) -> all_calls phi (bind p f).
Proof.
  intros Hp Hf. induction Hp as [a|e| |c k Hq Hk IH]; cbn; try constructor; auto.
Qed.

Lemma all_calls_for_each {A : Type} (phi : action -> Prop) (l : list A)
    (body : A -> Prog Reply) :
  (forall x, all_calls phi (body x)) -> all_calls phi (for_each l body).
Proof.
  intros Hb. induction l as [|x l IH]; cbn; [constructor|].
  apply all_calls_bind; auto.
Qed.

(** Decomposes a program of calls, checked or not, into its calls. *)
Ltac all_calls_tac :=
  repeat first
    [ apply calls_ret | apply calls_abort | apply calls_undef
    | apply calls_call; [|intros ?]
    | apply all_calls_bind; [|intros ?]
    | match goal with
      | |- all_calls _ (if ?b then _ else _) => destruct b
      | |- all_calls _ (match at_ ?v ?i with _ => _ end) => destruct (at_ v i)
      | |- all_calls _ (bind (match at_ ?v ?i with _ => _ end) _) => destruct (at_ v i); cbn [bind]
      end ].


Lemma drive_steps {A : Type} (ms : list move) : forall w (p : Prog A) cfg,
  drive ms w p = Some cfg -> steps (w, p) cfg.
Proof.
  induction ms as [|m ms IH]; intros w p cfg H; cbn in H.
  - injection H as <-. constructor.
  - destruct m as [r|k|k].
    + destruct p as [a|c k|e|]; try discriminate H.
      destruct (returns w c r) as [w'|] eqn:E; [|discriminate H].
      eapply steps_cons; [|apply IH; eassumption]. constructor. assumption.
    + destruct (nth_error (inflight w) k) as [s|] eqn:E; [|discriminate H].
      eapply steps_cons; [|apply IH; eassumption]. apply step_device.
      unfold remove_nth.
      apply (queue_completes w (firstn k (inflight w)) s (skipn (S k) (inflight w))).
      apply nth_error_split in E. destruct E as (l1 & l2 & E & Hlen).
      rewrite E at 1. subst k.
      rewrite E, firstn_app, Nat.sub_diag, firstn_all, app_nil_r. cbn [firstn].
      f_equal. f_equal.
      replace (S (length l1)) with (length (l1 ++ [s])) by (rewrite length_app; cbn; lia).
      replace (l1 ++ s :: l2) with ((l1 ++ [s]) ++ l2) by (rewrite <- app_assoc; reflexivity).
      rewrite skipn_app, skipn_all, Nat.sub_diag. reflexivity.
    + destruct (nth_error (acquiring w) k) as [f|] eqn:E; [|discriminate H].
      eapply steps_cons; [|apply IH; eassumption]. apply step_device.
      unfold remove_nth.
      apply (image_acquired w (firstn k (acquiring w)) f (skipn (S k) (acquiring w))).
      apply nth_error_split in E. destruct E as (l1 & l2 & E & Hlen).
      rewrite E at 1. subst k.
      rewrite E, firstn_app, Nat.sub_diag, firstn_all, app_nil_r. cbn [firstn].
      f_equal. f_equal.
      replace (S (length l1)) with (length (l1 ++ [f])) by (rewrite length_app; cbn; lia).
      replace (l1 ++ f :: l2) with ((l1 ++ [f]) ++ l2) by (rewrite <- app_assoc; reflexivity).
      rewrite skipn_app, skipn_all, Nat.sub_diag. reflexivity.
Qed.

(** ** The submit fence and the command buffer *)

Section FenceDiscipline.

Variables cbs fs fas : list Handle.
Hypothesis cbs_nodup : NoDup cbs.
Hypothesis fences_nodup : NoDup (fs ++ fas).

Local Abbreviation Inv := (Inv cbs fs fas).
Local Abbreviation Free := (Free cbs fs fas).
Local Abbreviation Owned := (Owned cbs fs fas).

Lemma fences_apart f : In f fs -> In f fas -> False.
Proof.
  intros H1 H2. apply in_split in H1. destruct H1 as (l1 & l2 & E).
  rewrite E, <- app_assoc in fences_nodup. cbn in fences_nodup.
  apply NoDup_remove_2 in fences_nodup. apply fences_nodup.
  apply in_or_app. right. apply in_or_app. right. assumption.
Qed.

Lemma inflight_fence w s : Inv w -> In s (inflight w) -> In (signalFence s) fs.
Proof.
  intros HI Hin. destruct (inv_slots _ _ _ _ HI s Hin) as (k & cb & f & _ & Hf & ->).
  cbn. eapply nth_error_In. eassumption.
Qed.

Lemma signal_other f h s : h <> f -> signal f s h = s h.
Proof.
  intros Hne. unfold signal, set_fence. destruct (f =? VK_NULL_HANDLE); [reflexivity|].
  destruct (h =? f) eqn:E; [|reflexivity]. apply Z.eqb_eq in E. contradiction.
Qed.

Lemma inv_stable : stable Inv.
Proof.
  intros w w' HI Hp. destruct HI as [Hs Hnd Hu Ha].
  inversion Hp as [w0 before s after E|w0 before f after E]; subst.
  - rewrite E in *. constructor; cbn.
    + intros s' Hin. apply Hs. apply in_app_or in Hin. apply in_or_app.
      destruct Hin; [left|right; right]; assumption.
    + rewrite map_app in *. cbn in Hnd. apply NoDup_remove_1 in Hnd. assumption.
    + intros s' Hin.
      assert (Hne : signalFence s' <> signalFence s).
      { rewrite map_app in Hnd. cbn in Hnd. apply NoDup_remove_2 in Hnd.
        intros Eq. apply Hnd. rewrite <- Eq. rewrite <- map_app. apply in_map. assumption. }
      rewrite signal_other by assumption. apply Hu.
      apply in_app_or in Hin. apply in_or_app.
      destruct Hin; [left|right; right]; assumption.
    + assumption.
  - rewrite E in *. constructor; cbn.
    + assumption.
    + assumption.
    + intros s' Hin. rewrite signal_other; [auto|].
      intros Eq. apply (fences_apart f).
      * rewrite <- Eq. destruct (Hs s' Hin) as (k & cb & f' & _ & Hf & ->).
        cbn. eapply nth_error_In. eassumption.
      * apply Ha. apply in_or_app. right. left. reflexivity.
    + intros f' Hin. apply Ha. apply in_app_or in Hin. apply in_or_app.
      destruct Hin; [left|right; right]; assumption.
Qed.

Lemma free_stable f : stable (Free f).
Proof.
  intros w w' [HI Hf] Hp. split; [eapply inv_stable; eassumption|].
  inversion Hp as [w0 before s after E|w0 before f' after E]; subst; cbn.
  - intros s' Hin. apply Hf. rewrite E. apply in_app_or in Hin. apply in_or_app.
    destruct Hin; [left|right; right]; assumption.
  - assumption.
Qed.

Lemma owned_stable f : In f fs -> stable (Owned f).
Proof.
  intros Hin w w' [HF Hu] Hp. split; [eapply free_stable; eassumption|].
  destruct HF as [HI Hf].
  inversion Hp as [w0 before s after E|w0 before f' after E]; subst; cbn.
  - rewrite signal_other; [assumption|]. intros Eq. apply (Hf s); [|auto].
    rewrite E. apply in_or_app. right. left. reflexivity.
  - rewrite signal_other; [assumption|]. intros Eq. apply (fences_apart f); [assumption|].
    subst f'. apply (inv_acquiring _ _ _ _ HI). rewrite E.
    apply in_or_app. right. left. reflexivity.
Qed.

(** The filter of [in_flight], on a slot submission. *)
Lemma contains_slot cb cb' f :
  existsb (Z.eqb cb) (commandBuffers (slot_submission cb' f)) = (cb =? cb').
Proof. cbn. apply orb_false_r. Qed.

Lemma nodup_nth_error {A : Type} (l : list A) (i j : nat) (x : A) :
  NoDup l -> nth_error l i = Some x -> nth_error l j = Some x -> i = j.
Proof.
  intros Hnd Hi Hj. apply (proj1 (NoDup_nth_error l) Hnd).
  - apply nth_error_Some. congruence.
  - congruence.
Qed.

Lemma inv_one_in_flight w : Inv w -> one_in_flight w.
Proof.
  intros [Hs Hnd _ _] cb. unfold in_flight.
  induction (inflight w) as [|s l IH]; [cbn; lia|].
  cbn [filter map] in *. apply NoDup_cons_iff in Hnd. destruct Hnd as [Hnot Hnd].
  assert (IH' := IH (fun s' H => Hs s' (or_intror H)) Hnd).
  destruct (existsb (Z.eqb cb) (commandBuffers s)) eqn:E; [|assumption].
  cbn [length].
  assert (Hnone : filter (fun s0 => existsb (Z.eqb cb) (commandBuffers s0)) l = []).
  { destruct (filter _ l) as [|s' l'] eqn:Ef; [reflexivity|]. exfalso.
    assert (Hin : In s' (filter (fun s0 => existsb (Z.eqb cb) (commandBuffers s0)) l))
      by (rewrite Ef; left; reflexivity).
    apply filter_In in Hin. destruct Hin as [Hin Hc].
    destruct (Hs s (or_introl eq_refl)) as (k & c1 & f1 & Hk1 & Hf1 & ->).
    destruct (Hs s' (or_intror Hin)) as (k' & c2 & f2 & Hk2 & Hf2 & ->).
    rewrite contains_slot in E, Hc. apply Z.eqb_eq in E, Hc. subst c1 c2.
    assert (k = k') by (apply (nodup_nth_error cbs k k' cb cbs_nodup); assumption).
    subst k'.
    apply Hnot. cbn. replace f1 with f2 by congruence.
    apply (in_map signalFence) in Hin. exact Hin. }
  rewrite Hnone. cbn. lia.
Qed.

(** With the slot's fence free, nothing in flight contains the slot's
    command buffer. *)
Lemma free_records_idle w k cb f :
  nth_error cbs k = Some cb -> nth_error fs k = Some f ->
  Free f w -> in_flight w cb = [].
Proof.
  intros Hcb Hf [[Hs _ _ _] Hfree]. unfold in_flight.
  destruct (filter _ (inflight w)) as [|s l] eqn:E; [reflexivity|]. exfalso.
  assert (Hin : In s (filter (fun s0 => existsb (Z.eqb cb) (commandBuffers s0)) (inflight w)))
    by (rewrite E; left; reflexivity).
  apply filter_In in Hin. destruct Hin as [Hin Hc].
  destruct (Hs s Hin) as (k' & c' & f' & Hk' & Hf' & ->).
  rewrite contains_slot in Hc. apply Z.eqb_eq in Hc. subst c'.
  assert (k = k') by (apply (nodup_nth_error cbs k k' cb cbs_nodup); assumption).
  subst k'.
  apply (Hfree _ Hin). cbn. congruence.
Qed.

Lemma at_nth_error {A : Type} (v : list A) (i : Z) (x : A) :
  at_ v i = Some x -> nth_error v (Z.to_nat i) = Some x.
Proof. unfold at_. destruct (i <? 0); [discriminate|auto]. Qed.

Lemma unrecorded_idle w c : recorded c = None -> records_idle w c.
Proof. intros E cb H. congruence. Qed.

Lemma update_quiet (e : VkExtent2D) (u : Mapped) :
  all_calls (fun c => quiet c = true /\ recorded c = None) (update e u).
Proof.
  unfold update, store_ratio. apply all_calls_bind.
  - cbn [bump_loop]. change (0 <? 8) with true. change (0 + 4 <? 8) with true.
    change (0 + 4 + 4 <? 8) with false. cbv iota.
    unfold bump, index, store_position. all_calls_tac; auto.
  - intros u1. all_calls_tac; auto.
Qed.

Lemma record_quiet (this : VkRenderer) (cb fb ds : Handle) :
  all_calls (fun c => quiet c = true /\ forall cb', recorded c = Some cb' -> cb' = cb)
            (record this cb fb ds).
Proof.
  unfold record, call, VK_CHECK_ERROR. cbn [bind].
  all_calls_tac; (split; [reflexivity|]); cbn; intros cb' E; congruence.
Qed.

Local Abbreviation same_handles this :=
  (mCommandBuffers this = cbs /\ mFencesForSubmit this = fs /\
   mFencesForAcquire this = fas).

Lemma render_triple (this : VkRenderer) :
  same_handles this ->
  triple one_in_flight records_idle Inv (render this)
         (fun this' w => Inv w /\ same_handles this').
Proof.
  intros (Ecb & Efs & Efas). unfold render, index. rewrite Ecb, Efs, Efas.
  pose proof inv_stable as HIs.
  pose proof inv_one_in_flight as HIg.
  destruct (at_ fs (mFrameIndex this)) as [fS|] eqn:HfS; cbn [bind];
    [|apply triple_undef; assumption].
  destruct (at_ fas (mFrameIndex this)) as [fA|] eqn:HfA; cbn [bind];
    [|apply triple_undef; assumption].
  destruct (at_ cbs (mFrameIndex this)) as [cb|] eqn:Hcb; cbn [bind];
    [|apply triple_undef; assumption].
  destruct (at_ (mUniformData this) (mFrameIndex this)) as [u|] eqn:Hu; cbn [bind];
    [|apply triple_undef; assumption].
  destruct (at_ (mDescriptorSets this) (mFrameIndex this)) as [ds|] eqn:Hds; cbn [bind];
    [|apply triple_undef; assumption].
  destruct (at_ (mSemaphores this) (mFrameIndex this)) as [sem|] eqn:Hsem; cbn [bind];
    [|apply triple_undef; assumption].
  assert (HfSin : In fS fs) by (eapply at_In; eassumption).
  assert (HfAin : In fA fas) by (eapply at_In; eassumption).
  apply at_nth_error in HfS, Hcb.
  pose proof (free_stable fS) as HFs.
  pose proof (owned_stable fS HfSin) as HOs.
  assert (HFg : forall w, Free fS w -> one_in_flight w) by (intros w [H _]; auto).
  assert (HOg : forall w, Owned fS w -> one_in_flight w) by (intros w [[H _] _]; auto).
  (* 1: wait for the submit fence *)
  apply (triple_checked _ _ Inv (Free fS)); [assumption| | |intros _].
  { intros w Hw. split; [auto|apply unrecorded_idle; reflexivity]. }
  { intros w r w' Hw Hr Hret. unfold returns in Hret. rewrite Hr in Hret.
    cbn in Hret. destruct (signaled w fS) eqn:Esig; [|discriminate Hret].
    injection Hret as <-. split; [assumption|].
    intros s Hin Eq. pose proof (inv_unsignaled _ _ _ _ Hw s Hin) as Hun.
    rewrite Eq in Hun. congruence. }
  (* ... and reset it *)
  apply (triple_checked _ _ (Free fS) (Owned fS)); [assumption| | |intros _].
  { intros w Hw. split; [auto|apply unrecorded_idle; reflexivity]. }
  { intros w r w' [Hw Hfree] Hr Hret. unfold returns in Hret. rewrite Hr in Hret.
    cbn in Hret. injection Hret as <-. destruct Hw as [Hs Hnd Hun Hacq].
    split; [split; [constructor; cbn; try assumption|assumption]|].
    - intros s Hin. unfold set_fence. destruct (_ =? _); [reflexivity|auto].
    - cbn. unfold set_fence. rewrite Z.eqb_refl. reflexivity. }
  (* 2: the uniform update *)
  apply (triple_bind _ _ (Owned fS) _ (fun _ => Owned fS)); [|intros u'].
  { apply (triple_quiet _ _ (fun c => quiet c = true /\ recorded c = None));
      [assumption|assumption|intros c [H _]; exact H| |apply update_quiet].
    intros w c _ [_ H]. apply unrecorded_idle. assumption. }
  (* 3: acquire *)
  apply (triple_checked _ _ (Owned fS) (Owned fS)); [assumption| | |intros acquired].
  { intros w Hw. split; [auto|apply unrecorded_idle; reflexivity]. }
  { intros w r w' [[Hw Hfree] Hun] Hr Hret. unfold returns in Hret. rewrite Hr in Hret.
    cbn in Hret. injection Hret as <-. destruct Hw as [Hs Hnd Hu' Hacq].
    split; [split; [constructor; cbn; try assumption|assumption]|assumption].
    intros f [<-|Hin]; auto. }
  destruct (at_ (mFramebuffers this) (imageIndex acquired)) as [fb|]; cbn [bind];
    [|apply triple_undef; assumption].
  (* 4: wait for the acquire fence, reset it *)
  apply (triple_checked _ _ (Owned fS) (Owned fS)); [assumption| | |intros _].
  { intros w Hw. split; [auto|apply unrecorded_idle; reflexivity]. }
  { intros w r w' Hw Hr Hret. unfold returns in Hret. rewrite Hr in Hret.
    cbn in Hret. destruct (signaled w fA); [|discriminate Hret].
    injection Hret as <-. assumption. }
  apply (triple_checked _ _ (Owned fS) (Owned fS)); [assumption| | |intros _].
  { intros w Hw. split; [auto|apply unrecorded_idle; reflexivity]. }
  { intros w r w' [[Hw Hfree] Hun] Hr Hret. unfold returns in Hret. rewrite Hr in Hret.
    cbn in Hret. injection Hret as <-. destruct Hw as [Hs Hnd Hu' Hacq].
    split; [split; [constructor; cbn; try assumption|assumption]|].
    - intros s Hin. unfold set_fence. destruct (_ =? _); [reflexivity|auto].
    - cbn. unfold set_fence. destruct (_ =? _); [reflexivity|assumption]. }
  (* 5: reset and record the command buffer *)
  apply (triple_bind _ _ (Owned fS) _ (fun _ => Owned fS)); [|intros _].
  { apply (triple_quiet _ _ (fun c => quiet c = true /\
                                     forall cb', recorded c = Some cb' -> cb' = cb));
      [assumption|assumption|intros c [H _]; exact H| |apply record_quiet].
    intros w c [Hfree _] [_ Hc] cb' E. rewrite (Hc cb' E).
    eapply free_records_idle; eassumption. }
  (* 6: submit *)
  apply (triple_checked _ _ (Owned fS) Inv); [assumption| | |intros _].
  { intros w Hw. split; [auto|apply unrecorded_idle; reflexivity]. }
  { intros w r w' [[Hw Hfree] Hun] Hr Hret. unfold returns in Hret. rewrite Hr in Hret.
    cbn in Hret. injection Hret as <-. destruct Hw as [Hs Hnd Hu' Hacq].
    constructor; cbn; try assumption.
    - intros s [<-|Hin]; [|auto].
      exists (Z.to_nat (mFrameIndex this)), cb, fS. auto.
    - constructor; [|assumption]. intros Hin. apply in_map_iff in Hin.
      destruct Hin as (s & Eq & Hin). apply (Hfree s Hin Eq).
    - intros s [<-|Hin]; [assumption|auto]. }
  (* 7: present *)
  apply (triple_checked _ _ Inv Inv); [assumption| | |intros _].
  { intros w Hw. split; [auto|apply unrecorded_idle; reflexivity]. }
  { intros w r w' Hw Hr Hret. unfold returns in Hret. rewrite Hr in Hret.
    cbn in Hret. injection Hret as <-. assumption. }
  (* 8: the frame index *)
  destruct (_ =? 0); [apply triple_undef; assumption|].
  apply triple_ret; [assumption|]. intros w Hw. split; [auto|]. split; [assumption|].
  cbn. auto.
Qed.

Lemma frames_triple (n : nat) : forall this,
  same_handles this ->
  triple one_in_flight records_idle Inv (frames n this) (fun _ _ => True).
Proof.
  induction n as [|n IH]; intros this Hh; cbn [frames].
  - apply triple_ret; [apply inv_stable|]. intros w Hw.
    split; [apply inv_one_in_flight; assumption|exact I].
  - eapply triple_bind; [apply render_triple; assumption|].
    intros this'. apply triple_pure. apply IH.
Qed.

End FenceDiscipline.

(** C2.  Run the frame loop against the device, from a state with nothing in
    flight, for any number of frames and any interleaving with the device's
    own progress.  Whenever [render] is about to reset the command buffer of a
    slot or to record into it, no submission of that command buffer is in
    flight: the device has finished the previous submission of the slot and
    signaled its fence.  At no time is more than one submission of a command
    buffer in flight.  Each call of [render] starts with the wait on the
    slot's submit fence, followed at once by its reset. *)
Theorem submit_fence_discipline (this : VkRenderer) (w0 : World) :
  NoDup (mCommandBuffers this) ->
  NoDup (mFencesForSubmit this ++ mFencesForAcquire this) ->
  inflight w0 = [] -> acquiring w0 = [] ->
  (forall n w p, steps (w0, frames n this) (w, p) ->
     one_in_flight w /\ next_ok records_idle (w, p)) /\
  (wf this -> forall t o, performs (render this) t o ->
     exists rest, prefix (calls t) (wait_submit this ++ rest)).
Proof.
  intros Hcb Hf Hin Hacq. split.
  - intros n w p Hs.
    assert (HI : Inv (mCommandBuffers this) (mFencesForSubmit this)
                     (mFencesForAcquire this) w0).
    { constructor; rewrite ?Hin, ?Hacq; cbn; try constructor; intros ? []. }
    destruct (frames_triple _ _ _ Hcb Hf n this (conj eq_refl (conj eq_refl eq_refl))
                w0 HI w p Hs) as (HG & Hok & _).
    split; assumption.
  - intros Hwf t o H.
    destruct (render_frame this Hwf t o H) as (u' & img & _ & Hpre & _).
    unfold frame in Hpre. eauto.
Qed.

Lemma submit_fence_discipline_witness :
  match drive third_frame_moves fresh_device (frames 3 two_slots) with
  | Some (w, p) =>
      one_in_flight w /\ next_ok records_idle (w, p) /\
      map commandBuffers (inflight w) = [[21]] /\
      match p with
      | Call c _ => c = vkResetCommandBuffer 20 0
      | _ => False
      end
  | None => False
  end.
Proof.
  destruct (drive third_frame_moves fresh_device (frames 3 two_slots)) as [[w p]|] eqn:E.
  - pose proof (drive_steps _ _ _ _ E) as Hs.
    destruct (submit_fence_discipline two_slots fresh_device) as [Hsafe _];
      [repeat constructor; cbn; intuition discriminate
      |repeat constructor; cbn; intuition discriminate
      |reflexivity|reflexivity|].
    destruct (Hsafe 3%nat w p Hs) as [H1 H2].
    split; [exact H1|]. split; [exact H2|].
    vm_compute in E. injection E as <- <-. split; reflexivity.
  - vm_compute in E. discriminate E.
Defined.

(** ** Teardown *)

Lemma releases_quiet (c : action) : releases c = true -> quiet c = true.
Proof. destruct c; intros H; try discriminate H; reflexivity. Qed.

Lemma all_calls_performs {A : Type} (phi : action -> Prop) (p : Prog A) :
  all_calls phi p -> forall t o, performs p t o -> forall c r, In (c, r) t -> phi c.
Proof.
  induction 1 as [a|f| |c k Hc Hk IH]; intros t o H c' r' Hin.
  - apply performs_Ret_inv in H. destruct H as [-> _]. contradiction.
  - apply performs_Abort_inv in H. destruct H as [-> _]. contradiction.
  - apply performs_Undef_inv in H. destruct H as [-> _]. contradiction.
  - apply performs_Call_inv in H. destruct H as (r & t' & -> & H).
    destruct Hin as [E|Hin]; [injection E as <- <-; assumption|eauto].
Qed.

Lemma teardown_releases (this : VkRenderer) :
  all_calls (fun c => releases c = true) (teardown this).
Proof.
  unfold teardown. cbv zeta.
  repeat first
    [ apply calls_ret
    | apply all_calls_bind; [|intros ?]
    | apply all_calls_for_each; intros ?
    | unfold call; apply calls_call; [reflexivity|intros ?] ].
Qed.

Lemma idle_stable : stable (fun w => inflight w = []).
Proof.
  intros w w' Hw Hp. inversion Hp as [w0 before s after E|w0 before f after E]; subst; cbn.
  - rewrite Hw in E. destruct before; discriminate E.
  - assumption.
Qed.

(** C9.  The destructor first waits for the device to be idle.  Run against
    the device, with any interleaving, it destroys or frees an object only
    in states in which no submission is in flight; in every run the wait is
    the first call, every later call is a destroy or free and is made only
    after the wait returned [VK_SUCCESS], and a wait that fails ends the
    process before anything is destroyed. *)
Theorem destructor_waits_for_idle (this : VkRenderer) :
  (forall w0 w p, steps (w0, destructor this) (w, p) -> next_ok releases_idle (w, p)) /\
  (forall t o, performs (destructor this) t o ->
     exists r rest,
       t = (vkDeviceWaitIdle (mDevice this), r) :: rest /\
       (forall c r', In (c, r') rest -> releases c = true /\ result r = VK_SUCCESS) /\
       (result r <> VK_SUCCESS ->
          rest = [] /\
          o = Aborted (check_error (vkDeviceWaitIdle (mDevice this)) (result r)))).
Proof.
  split.
  - intros w0 w p Hs.
    assert (HT : triple (fun _ => True) releases_idle (fun _ => True) (destructor this)
                        (fun _ w => inflight w = [])).
    { unfold destructor.
      apply (triple_checked _ _ (fun _ => True) (fun w => inflight w = [])).
      - intros ? ? _ _. exact I.
      - intros w1 _. split; [exact I|]. intros H. discriminate H.
      - intros w1 r w' _ Hr Hret. unfold returns in Hret. rewrite Hr in Hret.
        cbn in Hret. destruct (inflight w1) eqn:E; [|discriminate Hret].
        injection Hret as <-. assumption.
      - intros _.
        apply (triple_quiet _ _ (fun c => releases c = true)).
        + apply idle_stable.
        + intros ? _. exact I.
        + apply releases_quiet.
        + intros w1 c Hw _ _. assumption.
        + apply teardown_releases. }
    destruct (HT w0 I w p Hs) as (_ & Hok & _). exact Hok.
  - intros t o H. unfold destructor, VK_CHECK_ERROR in H. cbn [bind] in H.
    apply performs_Call_inv in H. destruct H as (r & rest & -> & H).
    exists r, rest. split; [reflexivity|].
    destruct (result r =? VK_SUCCESS) eqn:E; cbn [bind] in H.
    + apply Z.eqb_eq in E. split; [|congruence].
      intros c r' Hin. split; [|assumption].
      apply (all_calls_performs _ _ (teardown_releases this) _ _ H c r' Hin).
    + apply performs_Abort_inv in H. destruct H as [-> ->].
      split; [intros c r' []|]. intros _. split; reflexivity.
Qed.

(** While a submission is in flight the wait of the destructor cannot return
    [VK_SUCCESS]; once the device has finished it, the wait returns and the
    teardown runs to its end. *)
Lemma destructor_blocks_until_idle :
  let busy := {| signaled := fun _ => false;
                 inflight := [slot_submission 20 30];
                 acquiring := [] |} in
  drive [yes 0] busy (destructor two_slots) = None /\
  match drive (complete 0%nat :: repeat (yes 0) 38) busy (destructor two_slots) with
  | Some (w, Ret _) => inflight w = [] /\ signaled w 30 = true
  | _ => False
  end.
Proof. cbv zeta. split; [reflexivity|]. vm_compute. split; reflexivity. Qed.

(** ** The names of result codes *)

Section Switch.

Import Diagnostics.

Lemma switch_in (cases : list (Z * string)) (d : string) (v : Z) (s : string) :
  switch cases d v = s -> s <> d -> In (v, s) cases.
Proof.
  induction cases as [|[c s'] rest IH]; cbn [switch]; intros E Hne.
  - congruence.
  - destruct (Z.eqb_spec v c) as [->|_].
    + left. congruence.
    + right. auto.
Qed.

Lemma switch_value (cases : list (Z * string)) (d : string) (v : Z) :
  In v (map fst cases) -> In (switch cases d v) (map snd cases).
Proof.
  induction cases as [|[c s'] rest IH]; cbn [switch map fst snd]; intros H.
  - destruct H.
  - destruct (Z.eqb_spec v c) as [->|Hne].
    + left. reflexivity.
    + right. apply IH. destruct H; [congruence|assumption].
Qed.

Lemma switch_default (cases : list (Z * string)) (d : string) (v : Z) :
  ~ In v (map fst cases) -> switch cases d v = d.
Proof.
  induction cases as [|[c s'] rest IH]; cbn [switch map fst]; intros H.
  - reflexivity.
  - destruct (Z.eqb_spec v c) as [->|Hne].
    + exfalso. apply H. left. reflexivity.
    + apply IH. intros Hin. apply H. right. assumption.
Qed.

Lemma distinct_NoDup (l : list string) : distinct l = true -> NoDup l.
Proof.
  induction l as [|s rest IH]; cbn [distinct]; intros H.
  - constructor.
  - apply andb_true_iff in H. destruct H as [Hs Hrest]. constructor; [|auto].
    intros Hin. apply negb_true_iff in Hs.
    assert (Ht : existsb (Strings.String.eqb s) rest = true).
    { apply existsb_exists. exists s. split; [assumption|].
      apply Strings.String.eqb_refl. }
    congruence.
Qed.

Lemma same_name_same_code (cases : list (Z * string)) (a b : Z) (s : string) :
  NoDup (map snd cases) -> In (a, s) cases -> In (b, s) cases -> a = b.
Proof.
  induction cases as [|[c s'] rest IH]; cbn [map snd]; intros Hnd Ha Hb.
  - destruct Ha.
  - inversion Hnd as [|? ? Hnot Hnd']; subst.
    destruct Ha as [Ha|Ha], Hb as [Hb|Hb].
    + congruence.
    + injection Ha as -> ->. exfalso. apply Hnot.
      apply (in_map snd) in Hb. exact Hb.
    + injection Hb as -> ->. exfalso. apply Hnot.
      apply (in_map snd) in Ha. exact Ha.
    + auto.
Qed.

(** A [switch] whose names are pairwise distinct and differ from the
    default name maps different labelled values to different names. *)
Lemma switch_injective (cases : list (Z * string)) (d : string) :
  distinct (d :: map snd cases) = true ->
  (forall a b, switch cases d a = switch cases d b -> switch cases d a <> d -> a = b) /\
  (forall v, switch cases d v = d <-> ~ In v (map fst cases)).
Proof.
  intros Hd. apply distinct_NoDup in Hd.
  inversion Hd as [|? ? Hnot Hnd]; subst. split.
  - intros a b E Hne.
    apply (same_name_same_code cases a b (switch cases d a) Hnd).
    + apply (switch_in cases d); [reflexivity|assumption].
    + apply (switch_in cases d); [congruence|assumption].
  - intros v. split.
    + intros E Hin. apply Hnot. rewrite <- E. apply switch_value. assumption.
    + apply switch_default.
Qed.

End Switch.

(** X2.  [vkToString(VkResult)] gives every result code it has a [case] for
    a name of its own: two codes with the same name are the same code unless
    the name is ["Unhandled VkResult"], which is returned exactly for the
    codes without a [case]; in particular only [VK_SUCCESS] is ever named
    ["VK_SUCCESS"]. *)
Theorem vkToString_identifies_result :
  (forall a b, Diagnostics.vkToString a = Diagnostics.vkToString b ->
               Diagnostics.vkToString a <> Diagnostics.unhandled -> a = b) /\
  (forall r, Diagnostics.vkToString r = Diagnostics.unhandled <->
             ~ In r (map fst Diagnostics.result_cases)) /\
  (forall r, Diagnostics.vkToString r = "VK_SUCCESS"%string <-> r = VK_SUCCESS) /\
  length Diagnostics.result_cases = 38%nat.
Proof.
  destruct (switch_injective Diagnostics.result_cases Diagnostics.unhandled eq_refl)
    as [Hinj Hdef].
  split; [exact Hinj|]. split; [exact Hdef|]. split; [|reflexivity].
  intros r. split.
  - intros E. apply Hinj; fold (Diagnostics.vkToString r); rewrite E;
      [reflexivity|discriminate].
  - intros ->. reflexivity.
Qed.

(** X3.  [vkToString(VkPhysicalDeviceType)] in the same way: the five device
    types it knows have names of their own, every other value is
    ["Unknown"]. *)
Theorem vkToString_deviceType_identifies_type :
  (forall a b, Diagnostics.vkToString_deviceType a = Diagnostics.vkToString_deviceType b ->
               Diagnostics.vkToString_deviceType a <> "Unknown"%string -> a = b) /\
  (forall v, Diagnostics.vkToString_deviceType v = "Unknown"%string <-> ~ (0 <= v <= 4)).
Proof.
  destruct (switch_injective Diagnostics.device_type_cases "Unknown"%string eq_refl)
    as [Hinj Hdef].
  split; [exact Hinj|]. intros v.
  unfold Diagnostics.vkToString_deviceType. rewrite Hdef. cbn.
  unfold Diagnostics.VK_PHYSICAL_DEVICE_TYPE_OTHER,
    Diagnostics.VK_PHYSICAL_DEVICE_TYPE_INTEGRATED_GPU,
    Diagnostics.VK_PHYSICAL_DEVICE_TYPE_DISCRETE_GPU,
    Diagnostics.VK_PHYSICAL_DEVICE_TYPE_VIRTUAL_GPU,
    Diagnostics.VK_PHYSICAL_DEVICE_TYPE_CPU.
  split; intros H; lia.
Qed.

(** ** Memory-type resolution: asking for less *)

(** X4.  Asking [vkGetMemoryTypeIndex] for fewer properties, or with more
    memory types allowed, never turns a success into a failure and never
    moves the answer to a later index. *)
Theorem vkGetMemoryTypeIndex_relaxed (props : VkPhysicalDeviceMemoryProperties)
    (req req' : VkMemoryRequirements) (flags flags' : VkMemoryPropertyFlags) (i : Z) :
  wf_table props ->
  (forall b, Z.testbit flags' b = true -> Z.testbit flags b = true) ->
  (forall b, Z.testbit (memoryTypeBits req) b = true ->
             Z.testbit (memoryTypeBits req') b = true) ->
  vkGetMemoryTypeIndex props req flags = Defined (VK_SUCCESS, i) ->
  exists j, vkGetMemoryTypeIndex props req' flags' = Defined (VK_SUCCESS, j) /\ 0 <= j <= i.
Proof.
  intros Hwf Hflags Hbits E.
  assert (Hc : 0 <= memoryTypeCount props) by (destruct Hwf; lia).
  unfold vkGetMemoryTypeIndex in *.
  assert (Hi : suitable props req flags i).
  { destruct (scanMemoryTypes_spec props req flags (Z.to_nat (memoryTypeCount props)) 0)
      as [[k (Hr & _ & Hs & _)]|[Hr _]]; [lia|lia|assumption| |].
    - rewrite Hr in E. injection E as <-. assumption.
    - rewrite Hr in E. discriminate. }
  assert (Hi' : suitable props req' flags' i).
  { destruct Hi as (Hrange & Hbit & t & Ht & Hsub).
    split; [assumption|]. split; [auto|]. exists t. split; [assumption|]. auto. }
  destruct (scanMemoryTypes_spec props req' flags' (Z.to_nat (memoryTypeCount props)) 0)
    as [[k (Hr & Hk & Hs & Hmin)]|[Hr Hnone]]; [lia|lia|assumption| |].
  - exists k. split; [assumption|]. split; [lia|].
    destruct (Z.lt_ge_cases i k) as [Hlt|]; [|lia].
    exfalso. apply (Hmin i); [destruct Hi'; lia|assumption].
  - exfalso. apply (Hnone i); [destruct Hi'; lia|assumption].
Qed.

(** On the sample table, device-local memory is found at index 0; asked
    for no property at all, the lookup still answers, at an index that is
    not later. *)
Lemma vkGetMemoryTypeIndex_relaxed_witness :
  exists j, vkGetMemoryTypeIndex sample_table sample_requirements 0 = Defined (VK_SUCCESS, j) /\
            0 <= j <= 0.
Proof.
  apply (vkGetMemoryTypeIndex_relaxed sample_table sample_requirements sample_requirements
           VK_MEMORY_PROPERTY_DEVICE_LOCAL_BIT 0 0).
  - split; [unfold VK_MAX_MEMORY_TYPES; cbn; lia|reflexivity].
  - intros b Hb. rewrite Z.bits_0 in Hb. discriminate.
  - intros b Hb. exact Hb.
  - reflexivity.
Defined.

(** ** vkCompileShader *)

Section CompileShader.

Import Shader.

Variable draw : Z -> Z.
Variable CompileGlslToSpv : string -> Z -> list Z -> SpvCompilationResult.

Lemma update_nth_app_r {A : Type} (l1 : list A) : forall (n : nat) (x y : A) (l2 : list A),
  n = length l1 -> update_nth n x (l1 ++ y :: l2) = l1 ++ x :: l2.
Proof.
  induction l1 as [|a l1 IH]; intros n x y l2 ->; cbn.
  - reflexivity.
  - f_equal. apply IH. reflexivity.
Qed.

(** The loop overwrites the first [n] characters that follow [done]. *)
Lemma fill_spec (n : nat) : forall (done rest : list Z),
  (n <= length rest)%nat ->
  fill draw n (Z.of_nat (length done)) (done ++ rest) =
  Defined (done ++ map (fun k => draw (Z.of_nat (length done + k))) (seq 0 n) ++ skipn n rest).
Proof.
  induction n as [|n IH]; intros done rest Hn.
  - reflexivity.
  - destruct rest as [|c rest]; [cbn in Hn; lia|]. cbn [length] in Hn.
    cbn [fill]. unfold set.
    replace (0 <=? Z.of_nat (length done)) with true by (symmetry; apply Z.leb_le; lia).
    replace (Z.of_nat (length done) <? Z.of_nat (length (done ++ c :: rest))) with true
      by (symmetry; apply Z.ltb_lt; rewrite length_app; cbn [length]; lia).
    cbn [andb]. rewrite Nat2Z.id.
    rewrite (update_nth_app_r done _ _ c rest eq_refl).
    replace (done ++ draw (Z.of_nat (length done)) :: rest)
      with ((done ++ [draw (Z.of_nat (length done))]) ++ rest)
      by (rewrite <- app_assoc; reflexivity).
    replace (Z.of_nat (length done) + 1)
      with (Z.of_nat (length (done ++ [draw (Z.of_nat (length done))])))
      by (rewrite length_app; cbn [length]; lia).
    rewrite IH by lia. f_equal. rewrite <- app_assoc. f_equal.
    cbn [seq map skipn app]. rewrite Nat.add_0_r. f_equal. f_equal.
    rewrite <- seq_shift, map_map. apply map_ext. intros k.
    rewrite length_app. cbn [length]. f_equal. lia.
Qed.

Lemma c_str_nonzero (l : list Z) : Forall (fun c => c <> 0) l -> c_str l = l.
Proof.
  induction 1 as [|c l Hc _ IH]; cbn [c_str]; [reflexivity|].
  destruct (Z.eqb_spec c 0); [contradiction|]. f_equal. exact IH.
Qed.

(** X5.  [vkCompileShader] never writes outside its tag string: the
    string is built as 97 characters of code 4, the loop replaces the first
    sixteen by the drawn letters, and the compiler is given all 97
    characters as the file name.  The result is [VK_SUCCESS] with the
    compiled words stored in [*shaderBinary] when compilation succeeds,
    and otherwise [VK_ERROR_UNKNOWN] with [*shaderBinary] as it was and
    the compiler's message written to the log. *)
Theorem vkCompileShader_spec (shaderCode : string) (shaderType : Z) (shaderBinary0 : list Z) :
  (forall k, 0 <= k < 16 -> 97 <= draw k <= 122) ->
  let result := CompileGlslToSpv shaderCode shaderType (tag_passed draw) in
  length (tag_passed draw) = 97%nat /\
  vkCompileShader draw CompileGlslToSpv shaderCode shaderType shaderBinary0 =
    Defined
      (if GetCompilationStatus result =? shaderc_compilation_status_success
       then {| vkResult := VK_SUCCESS; shaderBinary := words result; logged := [] |}
       else {| vkResult := VK_ERROR_UNKNOWN; shaderBinary := shaderBinary0;
               logged := [GetErrorMessage result] |}).
Proof.
  intros Hdraw result. split; [reflexivity|].
  unfold vkCompileShader.
  pose proof (fill_spec 16 [] tag_constructed) as Hfill.
  cbn [length app Nat.add] in Hfill. change (Z.of_nat 0) with 0 in Hfill.
  rewrite Hfill by (unfold tag_constructed; rewrite repeat_length; lia). clear Hfill.
  change (skipn 16 tag_constructed) with (repeat 4 81).
  fold (tag_passed draw).
  rewrite c_str_nonzero.
  - fold result.
    destruct (GetCompilationStatus result =? shaderc_compilation_status_success);
      reflexivity.
  - unfold tag_passed. apply Forall_app. split.
    + apply Forall_forall. intros c Hin. apply in_map_iff in Hin.
      destruct Hin as (k & <- & Hk). apply in_seq in Hk.
      specialize (Hdraw (Z.of_nat k)). lia.
    + apply Forall_forall. intros c Hin. apply repeat_spec in Hin. lia.
Qed.

End CompileShader.

(** With every draw the letter q and a compiler that rejects its input,
    the shader binary is left alone and the compiler's message is logged. *)
Lemma vkCompileShader_spec_witness :
  Shader.vkCompileShader (fun _ => 113)
    (fun _ _ _ => {| Shader.GetCompilationStatus := 2; Shader.words := [];
                     Shader.GetErrorMessage := "syntax error"%string |})
    "void main() {"%string Shader.VK_SHADER_TYPE_VERTEX [7; 8] =
  Defined {| Shader.vkResult := VK_ERROR_UNKNOWN; Shader.shaderBinary := [7; 8];
             Shader.logged := ["syntax error"%string] |}.
Proof.
  apply (vkCompileShader_spec (fun _ => 113)
           (fun _ _ _ => {| Shader.GetCompilationStatus := 2; Shader.words := [];
                            Shader.GetErrorMessage := "syntax error"%string |})
           "void main() {"%string Shader.VK_SHADER_TYPE_VERTEX [7; 8]).
  intros k Hk. lia.
Defined.

(** ** Queue family, composite alpha and extensions *)

Section Selections.

Import Selection.

Lemma graphics_test (q : VkQueueFamilyProperties) :
  negb (Z.land (queueFlags q) VK_QUEUE_GRAPHICS_BIT =? 0) = graphics q.
Proof. apply (type_bit_test (queueFlags q) 0). lia. Qed.

Lemma scanQueueFamilies_spec (v : list VkQueueFamilyProperties) (n : nat) : forall i,
  0 <= i -> i + Z.of_nat n <= Z.of_nat (length v) ->
  exists k, scanQueueFamilies v n i = Defined k /\ i <= k <= i + Z.of_nat n /\
    (forall j q, i <= j < k -> at_ v j = Some q -> graphics q = false) /\
    (k < i + Z.of_nat n -> exists q, at_ v k = Some q /\ graphics q = true).
Proof.
  induction n as [|n IH]; intros i Hi Hn.
  - exists i. split; [reflexivity|]. split; [lia|]. split; intros; lia.
  - cbn [scanQueueFamilies].
    assert (Hat : exists q, at_ v i = Some q).
    { unfold at_. replace (i <? 0) with false by (symmetry; apply Z.ltb_ge; lia).
      destruct (nth_error v (Z.to_nat i)) eqn:E; [eauto|].
      apply nth_error_None in E. lia. }
    destruct Hat as [q Hq]. rewrite Hq, graphics_test.
    destruct (graphics q) eqn:Hg.
    + exists i. split; [reflexivity|]. split; [lia|]. split.
      * intros; lia.
      * intros _. exists q. auto.
    + destruct (IH (i + 1)) as (k & E & Hk & Hbefore & Hat); [lia|lia|].
      exists k. split; [assumption|]. split; [lia|]. split.
      * intros j q' Hj Hq'. destruct (Z.eq_dec j i) as [->|Hne].
        -- congruence.
        -- apply (Hbefore j); [lia|assumption].
      * intros Hlt. apply Hat. lia.
Qed.

Lemma composite_test (supported i : Z) :
  0 <= i -> negb (Z.land supported (Z.shiftl 1 i) =? 0) = Z.testbit supported i.
Proof. apply type_bit_test. Qed.

Lemma filter_eqb_length (s : string) (l : list string) :
  NoDup l ->
  length (filter (fun n => Strings.String.eqb n s) l) = if in_dec Strings.String.string_dec s l then 1%nat else 0%nat.
Proof.
  induction 1 as [|x l Hx Hnd IH]; cbn [filter].
  - reflexivity.
  - destruct (Strings.String.eqb_spec x s) as [->|Hne].
    + cbn [length]. rewrite IH.
      destruct (in_dec Strings.String.string_dec s l) as [Hin|_]; [contradiction|].
      destruct (in_dec Strings.String.string_dec s (s :: l)) as [_|Hout]; [reflexivity|].
      exfalso. apply Hout. left. reflexivity.
    + rewrite IH.
      destruct (in_dec Strings.String.string_dec s l) as [Hin|Hout];
        destruct (in_dec Strings.String.string_dec s (x :: l)) as [Hin'|Hout'];
        try reflexivity.
      * exfalso. apply Hout'. right. assumption.
      * exfalso. destruct Hin' as [E|Hin']; [congruence|contradiction].
Qed.

Lemma filter_or_length (p q : string -> bool) (l : list string) :
  (forall n, p n = true -> q n = false) ->
  length (filter (fun n => p n || q n) l) =
  (length (filter p l) + length (filter q l))%nat.
Proof.
  intros Hpq. induction l as [|x l IH]; cbn [filter]; [reflexivity|].
  destruct (p x) eqn:Hp.
  - rewrite (Hpq x Hp). cbn [orb length]. rewrite IH. reflexivity.
  - cbn [orb]. destruct (q x); cbn [length]; rewrite IH; lia.
Qed.

End Selections.

(** X6.  The queue family the constructor settles on is the lowest index
    whose family has the graphics bit; when no family below the count has
    it, the loop ends with the index equal to the count, which names no
    family. *)
Theorem findQueueFamily_lowest_graphics
    (queueFamilyProperties : list Selection.VkQueueFamilyProperties) (count : Z) :
  0 <= count <= Z.of_nat (length queueFamilyProperties) ->
  exists i, Selection.findQueueFamily queueFamilyProperties count = Defined i /\
    0 <= i <= count /\
    (forall j q, 0 <= j < i -> at_ queueFamilyProperties j = Some q ->
                 Selection.graphics q = false) /\
    (i < count -> exists q, at_ queueFamilyProperties i = Some q /\
                            Selection.graphics q = true) /\
    (i = count <-> forall j q, 0 <= j < count -> at_ queueFamilyProperties j = Some q ->
                               Selection.graphics q = false).
Proof.
  intros Hc. unfold Selection.findQueueFamily.
  destruct (scanQueueFamilies_spec queueFamilyProperties (Z.to_nat count) 0)
    as (k & E & Hk & Hbefore & Hat); [lia|lia|].
  exists k. split; [assumption|]. split; [lia|]. split; [assumption|].
  split; [intros Hlt; apply Hat; lia|]. split.
  - intros ->. assumption.
  - intros Hnone. destruct (Z.eq_dec k count) as [|Hne]; [assumption|].
    destruct Hat as (q & Hq & Hg); [lia|].
    rewrite (Hnone k q) in Hg; [discriminate|lia|assumption].
Qed.

(** A transfer-only family at index 0 and a graphics family at index 1. *)
Lemma findQueueFamily_lowest_graphics_witness :
  exists i,
    Selection.findQueueFamily
      [{| Selection.queueFlags := 4; Selection.queueCount := 1 |};
       {| Selection.queueFlags := 7; Selection.queueCount := 1 |}] 2 = Defined i /\
    i = 1.
Proof.
  destruct (findQueueFamily_lowest_graphics
              [{| Selection.queueFlags := 4; Selection.queueCount := 1 |};
               {| Selection.queueFlags := 7; Selection.queueCount := 1 |}] 2)
    as (i & E & _); [cbn; lia|].
  exists i. split; [exact E|]. vm_compute in E. congruence.
Defined.

(** X7.  The composite-alpha mode of the swapchain is the lowest bit among
    bits 0 to 4 that the surface supports; when the surface supports none
    of the five, the assertion after the loop fails. *)
Theorem findCompositeAlpha_lowest_bit (supportedCompositeAlpha : Z) :
  (forall i, 0 <= i <= 4 ->
     Z.testbit supportedCompositeAlpha i = true ->
     (forall j, 0 <= j < i -> Z.testbit supportedCompositeAlpha j = false) ->
     Selection.findCompositeAlpha supportedCompositeAlpha = Ret (2 ^ i)) /\
  ((forall i, 0 <= i <= 4 -> Z.testbit supportedCompositeAlpha i = false) ->
   Selection.findCompositeAlpha supportedCompositeAlpha = Abort assertion_failed) /\
  ((exists i, 0 <= i <= 4 /\ Selection.findCompositeAlpha supportedCompositeAlpha = Ret (2 ^ i)) \/
   Selection.findCompositeAlpha supportedCompositeAlpha = Abort assertion_failed).
Proof.
  unfold Selection.findCompositeAlpha. cbn [Selection.scanCompositeAlpha].
  rewrite !composite_test by lia. cbn [Z.add Pos.add Pos.succ].
  destruct (Z.testbit supportedCompositeAlpha 0) eqn:H0;
  [|destruct (Z.testbit supportedCompositeAlpha 1) eqn:H1;
    [|destruct (Z.testbit supportedCompositeAlpha 2) eqn:H2;
      [|destruct (Z.testbit supportedCompositeAlpha 3) eqn:H3;
        [|destruct (Z.testbit supportedCompositeAlpha 4) eqn:H4]]]].
  all: repeat split.
  all: try (intros i Hi Hbit Hlow;
            assert (Hcases : i = 0 \/ i = 1 \/ i = 2 \/ i = 3 \/ i = 4) by lia;
            destruct Hcases as [->|[->|[->|[->| ->]]]];
            try congruence;
            try reflexivity;
            try (rewrite (Hlow 0) in H0 by lia; discriminate);
            try (rewrite (Hlow 1) in H1 by lia; discriminate);
            try (rewrite (Hlow 2) in H2 by lia; discriminate);
            try (rewrite (Hlow 3) in H3 by lia; discriminate)).
  all: try (intros Hnone;
            first [rewrite (Hnone 0) in H0 by lia; discriminate
                  |rewrite (Hnone 1) in H1 by lia; discriminate
                  |rewrite (Hnone 2) in H2 by lia; discriminate
                  |rewrite (Hnone 3) in H3 by lia; discriminate
                  |rewrite (Hnone 4) in H4 by lia; discriminate
                  |reflexivity]).
  - left. exists 0. split; [lia|reflexivity].
  - left. exists 1. split; [lia|reflexivity].
  - left. exists 2. split; [lia|reflexivity].
  - left. exists 3. split; [lia|reflexivity].
  - left. exists 4. split; [lia|reflexivity].
  - right. reflexivity.
Qed.

(** X8.  Among extension names that are pairwise different, the
    constructor enables exactly VK_KHR_surface and VK_KHR_android_surface
    for the instance, and exactly VK_KHR_swapchain for the device; when one
    of them is not offered, the assertion on the number of names fails. *)
Theorem extensions_selected (extensionNames : list string) :
  NoDup extensionNames ->
  let surface := "VK_KHR_surface"%string in
  let android := "VK_KHR_android_surface"%string in
  let swapchain := "VK_KHR_swapchain"%string in
  (In surface extensionNames /\ In android extensionNames ->
   exists names, Selection.instanceExtensionNames extensionNames = Ret names /\
     length names = 2%nat /\
     forall n, In n names <-> (n = surface \/ n = android)) /\
  (~ (In surface extensionNames /\ In android extensionNames) ->
   Selection.instanceExtensionNames extensionNames = Abort assertion_failed) /\
  (In swapchain extensionNames ->
   Selection.deviceExtensionNames extensionNames = Ret [swapchain]) /\
  (~ In swapchain extensionNames ->
   Selection.deviceExtensionNames extensionNames = Abort assertion_failed).
Proof.
  intros Hnd surface android swapchain.
  unfold Selection.instanceExtensionNames, Selection.deviceExtensionNames,
    Selection.selectExtensions.
  assert (Hlen2 : length (filter Selection.is_surface_extension extensionNames) =
                  ((if in_dec Strings.String.string_dec surface extensionNames then 1 else 0) +
                   (if in_dec Strings.String.string_dec android extensionNames then 1 else 0))%nat).
  { unfold Selection.is_surface_extension.
    rewrite (filter_or_length (fun n => Strings.String.eqb n surface)
                              (fun n => Strings.String.eqb n android)).
    - rewrite !filter_eqb_length by assumption. reflexivity.
    - intros n Hn. apply Strings.String.eqb_eq in Hn. subst n. reflexivity. }
  assert (Hlen1 : length (filter Selection.is_swapchain_extension extensionNames) =
                  if in_dec Strings.String.string_dec swapchain extensionNames
                  then 1%nat else 0%nat).
  { apply filter_eqb_length. assumption. }
  assert (Hmem : forall n, In n (filter Selection.is_surface_extension extensionNames) ->
                           n = surface \/ n = android).
  { intros n Hin. apply filter_In in Hin. destruct Hin as [_ Hp].
    unfold Selection.is_surface_extension in Hp. apply orb_true_iff in Hp.
    destruct Hp as [Hp|Hp]; apply Strings.String.eqb_eq in Hp; auto. }
  split; [|split; [|split]].
  - intros [Hs Ha]. rewrite Hlen2.
    destruct (in_dec Strings.String.string_dec surface extensionNames); [|contradiction].
    destruct (in_dec Strings.String.string_dec android extensionNames); [|contradiction].
    cbn [Nat.add Nat.eqb assert bind]. eexists. split; [reflexivity|].
    split.
    + rewrite Hlen2.
      destruct (in_dec Strings.String.string_dec surface extensionNames); [|contradiction].
      destruct (in_dec Strings.String.string_dec android extensionNames); [|contradiction].
      reflexivity.
    + intros n. split; [apply Hmem|].
      intros [->| ->]; apply filter_In; split; try assumption; reflexivity.
  - intros Hnot. rewrite Hlen2.
    destruct (in_dec Strings.String.string_dec surface extensionNames);
      destruct (in_dec Strings.String.string_dec android extensionNames);
      try reflexivity.
    exfalso. apply Hnot. split; assumption.
  - intros Hin. rewrite Hlen1.
    destruct (in_dec Strings.String.string_dec swapchain extensionNames); [|contradiction].
    cbn [Nat.eqb assert bind]. f_equal.
    destruct (filter Selection.is_swapchain_extension extensionNames) as [|x [|y rest]] eqn:E.
    + discriminate Hlen1.
    + f_equal. assert (Hx : In x (filter Selection.is_swapchain_extension extensionNames)).
      { rewrite E. left. reflexivity. }
      apply filter_In in Hx. destruct Hx as [_ Hx].
      apply Strings.String.eqb_eq in Hx. exact Hx.
    + discriminate Hlen1.
  - intros Hout. rewrite Hlen1.
    destruct (in_dec Strings.String.string_dec swapchain extensionNames); [contradiction|].
    reflexivity.
Qed.

(** What an Android device typically offers. *)
Lemma extensions_selected_witness :
  Selection.instanceExtensionNames
    ["VK_KHR_surface"%string; "VK_KHR_android_surface"%string;
     "VK_EXT_debug_report"%string] <> Abort assertion_failed /\
  Selection.deviceExtensionNames
    ["VK_KHR_surface"%string; "VK_KHR_android_surface"%string;
     "VK_EXT_debug_report"%string] = Abort assertion_failed.
Proof.
  pose proof (extensions_selected
                ["VK_KHR_surface"%string; "VK_KHR_android_surface"%string;
                 "VK_EXT_debug_report"%string]) as H.
  destruct H as (Hboth & _ & _ & Hnone).
  - repeat constructor; cbn; intuition discriminate.
  - split.
    + destruct Hboth as (names & E & _); [cbn; auto|]. rewrite E. discriminate.
    + apply Hnone. cbn. intuition discriminate.
Defined.

(** ** Copying the texture into the image *)

Section TextureRows.

Import TextureUpload.

Lemma at_as_nth_error {A : Type} (l : list A) (p : Z) :
  0 <= p -> at_ l p = nth_error l (Z.to_nat p).
Proof.
  intros Hp. unfold at_.
  replace (p <? 0) with false by (symmetry; apply Z.ltb_ge; lia). reflexivity.
Qed.

Lemma at_negative {A : Type} (l : list A) (p : Z) : p < 0 -> at_ l p = None.
Proof.
  intros Hp. unfold at_.
  replace (p <? 0) with true by (symmetry; apply Z.ltb_lt; lia). reflexivity.
Qed.

(** What one [memcpy] does to the destination. *)
Lemma memcpy_spec (dst src : list Z) (d s n : Z) :
  0 <= d -> 0 <= s -> 0 <= n ->
  d + n <= Z.of_nat (length dst) -> s + n <= Z.of_nat (length src) ->
  exists out, memcpy dst d src s n = Defined out /\
    length out = length dst /\
    forall p, at_ out p =
              if (d <=? p) && (p <? d + n) then at_ src (s + (p - d)) else at_ dst p.
Proof.
  intros Hd Hs Hn Hdst Hsrc. unfold memcpy.
  replace (0 <=? d) with true by (symmetry; apply Z.leb_le; lia).
  replace (0 <=? s) with true by (symmetry; apply Z.leb_le; lia).
  replace (0 <=? n) with true by (symmetry; apply Z.leb_le; lia).
  replace (d + n <=? Z.of_nat (length dst)) with true by (symmetry; apply Z.leb_le; lia).
  replace (s + n <=? Z.of_nat (length src)) with true by (symmetry; apply Z.leb_le; lia).
  cbn [andb]. eexists. split; [reflexivity|].
  assert (L1 : length (firstn (Z.to_nat d) dst) = Z.to_nat d).
  { rewrite length_firstn. lia. }
  assert (L2 : length (firstn (Z.to_nat n) (skipn (Z.to_nat s) src)) = Z.to_nat n).
  { rewrite length_firstn, length_skipn. lia. }
  split.
  - rewrite !length_app, L1, L2, length_skipn. lia.
  - intros p. destruct (Z.lt_ge_cases p 0) as [Hneg|Hp].
    + replace (d <=? p) with false by (symmetry; apply Z.leb_gt; lia). cbn [andb].
      rewrite (at_negative dst p Hneg). apply at_negative. assumption.
    + rewrite at_as_nth_error by assumption.
      destruct (Z.leb_spec d p) as [Hdp|Hdp]; cbn [andb].
      * rewrite nth_error_app2 by lia. rewrite L1.
        destruct (Z.ltb_spec p (d + n)) as [Hpn|Hpn].
        -- rewrite nth_error_app1 by lia.
           rewrite nth_error_firstn.
           replace (Z.to_nat p - Z.to_nat d <? Z.to_nat n)%nat with true
             by (symmetry; apply Nat.ltb_lt; lia).
           rewrite nth_error_skipn, at_as_nth_error by lia. f_equal. lia.
        -- rewrite nth_error_app2 by lia. rewrite L2, nth_error_skipn.
           rewrite at_as_nth_error by lia. f_equal. lia.
      * rewrite nth_error_app1 by lia. rewrite nth_error_firstn.
        replace (Z.to_nat p <? Z.to_nat d)%nat with true
          by (symmetry; apply Nat.ltb_lt; lia).
        rewrite at_as_nth_error by lia. reflexivity.
Qed.

Variables (width height rowPitch : Z) (pData : list Z) (size : nat).

Hypothesis width_range : 0 <= width.
Hypothesis height_range : 0 <= height <= INT_MAX.
Hypothesis pitch : width * 4 <= rowPitch.
Hypothesis source : width * 4 * height <= Z.of_nat (length pData).
Hypothesis source_u32 : width * 4 * height <= UINT32_MAX.
Hypothesis destination : rowPitch * height <= Z.of_nat size.
Hypothesis destination_u64 : Z.of_nat size <= UINT64_MAX.

Lemma copyRows_spec (n : nat) : forall (h : Z) (imageData : list Z),
  0 <= h -> h + Z.of_nat n <= height -> length imageData = size ->
  exists out, copyRows width rowPitch pData n h imageData = Defined out /\
    length out = size /\
    (forall h' x, h <= h' < h + Z.of_nat n -> 0 <= x < width * 4 ->
       at_ out (h' * rowPitch + x) = at_ pData (h' * (width * 4) + x)) /\
    (forall p, (forall h', h <= h' < h + Z.of_nat n ->
                  ~ (h' * rowPitch <= p < h' * rowPitch + width * 4)) ->
       at_ out p = at_ imageData p).
Proof.
  induction n as [|n IH]; intros h imageData Hh Hn Hlen.
  - exists imageData. split; [reflexivity|]. split; [assumption|].
    split; [intros; lia|reflexivity].
  - cbn [copyRows].
    assert (Hw4 : 0 <= width * 4 <= UINT32_MAX) by (unfold UINT32_MAX in *; nia).
    assert (Hsrc : 0 <= h * (width * 4) /\ h * (width * 4) + width * 4 <= width * 4 * height)
      by nia.
    assert (Hdst : 0 <= h * rowPitch /\ h * rowPitch + rowPitch <= rowPitch * height)
      by nia.
    assert (E1 : u32 (width * 4) = width * 4).
    { unfold u32. apply Z.mod_small. unfold UINT32_MAX in *. lia. }
    assert (E2 : u32 (h * (width * 4)) = h * (width * 4)).
    { unfold u32. apply Z.mod_small. unfold UINT32_MAX in *. lia. }
    assert (E3 : u64 (h * rowPitch) = h * rowPitch).
    { unfold u64. apply Z.mod_small. unfold UINT64_MAX in *. lia. }
    rewrite E1, E2, E3.
    destruct (memcpy_spec imageData pData (h * rowPitch) (h * (width * 4)) (width * 4))
      as (img1 & Em & Hlen1 & Hat1); [lia|lia|lia|lia|lia|].
    rewrite Em.
    replace (h =? INT_MAX) with false
      by (symmetry; apply Z.eqb_neq; unfold INT_MAX in *; lia).
    destruct (IH (h + 1) img1) as (out & Eo & Hleno & Hrows & Hrest);
      [lia|lia|congruence|].
    exists out. split; [assumption|]. split; [assumption|]. split.
    + intros h' x Hh' Hx. destruct (Z.eq_dec h' h) as [->|Hne].
      * rewrite Hrest.
        -- rewrite Hat1.
           replace (h * rowPitch <=? h * rowPitch + x) with true
             by (symmetry; apply Z.leb_le; lia).
           replace (h * rowPitch + x <? h * rowPitch + width * 4) with true
             by (symmetry; apply Z.ltb_lt; lia).
           cbn [andb]. f_equal. lia.
        -- intros h'' Hh'' [Hlo Hhi]. nia.
      * apply Hrows; lia.
    + intros p Hout. rewrite Hrest.
      * rewrite Hat1.
        destruct (Z.leb_spec (h * rowPitch) p) as [Hlo|Hlo]; cbn [andb]; [|reflexivity].
        destruct (Z.ltb_spec p (h * rowPitch + width * 4)) as [Hhi|Hhi]; [|reflexivity].
        exfalso. apply (Hout h); [lia|]. split; assumption.
      * intros h' Hh'. apply Hout. lia.
Qed.

End TextureRows.

(** X9.  When the rows of the image are at least as long as the rows of
    the texture and both buffers hold [height] rows, the upload loop stays
    inside both buffers and copies texel row [h] of the texture to offset
    [h * rowPitch] of the image, leaving every byte of the image outside
    those rows as it was. *)
Theorem copyTexture_rows (width height rowPitch : Z) (pData imageData : list Z) :
  0 <= width -> 0 <= height <= INT_MAX ->
  width * 4 <= rowPitch ->
  width * 4 * height <= Z.of_nat (length pData) ->
  width * 4 * height <= UINT32_MAX ->
  rowPitch * height <= Z.of_nat (length imageData) ->
  Z.of_nat (length imageData) <= UINT64_MAX ->
  exists out,
    TextureUpload.copyTexture width height rowPitch pData imageData = Defined out /\
    length out = length imageData /\
    (forall h x, 0 <= h < height -> 0 <= x < width * 4 ->
       at_ out (h * rowPitch + x) = at_ pData (h * (width * 4) + x)) /\
    (forall p, (forall h, 0 <= h < height ->
                  ~ (h * rowPitch <= p < h * rowPitch + width * 4)) ->
       at_ out p = at_ imageData p).
Proof.
  intros Hw Hh Hpitch Hsrc Hsrc32 Hdst Hdst64.
  unfold TextureUpload.copyTexture.
  destruct (copyRows_spec width height rowPitch pData (length imageData)
              Hw Hh Hpitch Hsrc Hsrc32 Hdst Hdst64 (Z.to_nat height) 0 imageData)
    as (out & E & Hlen & Hrows & Hrest); [lia|lia|reflexivity|].
  exists out. split; [assumption|]. split; [assumption|]. split.
  - intros h x Hhr Hx. apply Hrows; lia.
  - intros p Hout. apply Hrest. intros h' Hh'. apply Hout. lia.
Qed.

(** A texture of one texel by two rows, into an image whose rows are six
    bytes long. *)
Lemma copyTexture_rows_witness :
  exists out,
    TextureUpload.copyTexture 1 2 6 [1; 2; 3; 4; 5; 6; 7; 8] (repeat 0 12) = Defined out /\
    out = [1; 2; 3; 4; 0; 0; 5; 6; 7; 8; 0; 0].
Proof.
  destruct (copyTexture_rows 1 2 6 [1; 2; 3; 4; 5; 6; 7; 8] (repeat 0 12))
    as (out & E & _); try (unfold INT_MAX, UINT32_MAX, UINT64_MAX; cbn; lia).
  exists out. split; [exact E|]. vm_compute in E. congruence.
Defined.

(** ** Progress of the frame loop *)

Section Progress.

Lemma steps_bind {A B : Type} (f : A -> Prog B) :
  forall cfg cfg', steps cfg cfg' ->
    steps (fst cfg, bind (snd cfg) f) (fst cfg', bind (snd cfg') f).
Proof.
  induction 1 as [cfg|cfg mid cfg' Hstep _ IH]; [constructor|].
  eapply steps_cons; [|exact IH].
  inversion Hstep as [w c k r w' Hret|w w' p Hp]; subst; cbn [fst snd bind].
  - apply (step_call w c (fun r0 => bind (k r0) f) r w'). assumption.
  - apply step_device. assumption.
Qed.

(** Running [p] to its result and then [f] on it. *)
Lemma steps_then {A B : Type} (p : Prog A) (f : A -> Prog B) w w1 a cfg :
  steps (w, p) (w1, Ret a) -> steps (w1, f a) cfg -> steps (w, bind p f) cfg.
Proof.
  intros Hp Hf. apply (steps_bind f) in Hp. cbn [fst snd bind] in Hp.
  eapply steps_trans; eassumption.
Qed.

(** A run whose trace the device lets happen is an interleaving. *)
Lemma feasible_steps {A : Type} (a : A) w t w' :
  feasible w t w' ->
  forall p : Prog A, performs p t (Returned a) -> steps (w, p) (w', Ret a).
Proof.
  induction 1 as [w|w c r w1 t w' Hret _ IH|w w1 t w' Hp _ IH]; intros p H.
  - inversion H; subst. constructor.
  - inversion H; subst.
    eapply steps_cons; [constructor; eassumption|]. apply IH. assumption.
  - eapply steps_cons; [apply step_device; eassumption|]. apply IH. assumption.
Qed.

Lemma feasible_app w t1 w1 t2 w2 :
  feasible w t1 w1 -> feasible w1 t2 w2 -> feasible w (t1 ++ t2) w2.
Proof.
  induction 1 as [w|w c r w0 t w' Hret _ IH|w w0 t w' Hp _ IH]; intros H2; cbn.
  - assumption.
  - eapply feasible_call; eauto.
  - eapply feasible_device; eauto.
Qed.

Lemma feasible_quiet (r : Reply) (cs : list action) w :
  Forall (fun c => quiet c = true) cs -> feasible w (map (fun c => (c, r)) cs) w.
Proof.
  induction 1 as [|c cs Hc _ IH]; cbn; [constructor|].
  eapply feasible_call; [apply quiet_returns; assumption|exact IH].
Qed.

(** Against the outside that lets every call succeed, every reply of the
    trace is the granting one. *)
Lemma run_succeed_trace {A : Type} (img : Z) (p : Prog A) : forall n,
  fst (run p (succeed img) n) =
  map (fun c => (c, granted img)) (calls (fst (run p (succeed img) n))).
Proof.
  induction p as [a|c k IH|f|]; intros n; cbn; try reflexivity.
  specialize (IH (succeed img n c) (S n)).
  destruct (run (k (succeed img n c)) (succeed img) (S n)) as [t o]. cbn in *.
  f_equal. exact IH.
Qed.

Lemma slot_store_quiet (a : Z) (cs : list action) :
  Forall (slot_store a) cs -> Forall (fun c => quiet c = true) cs.
Proof.
  intros H. eapply Forall_impl; [|exact H].
  intros c Hc. destruct c; try contradiction; reflexivity.
Qed.

Lemma set_fence_same f b s : set_fence f b s f = b.
Proof. unfold set_fence. rewrite Z.eqb_refl. reflexivity. Qed.

Lemma set_fence_other f b s h : h <> f -> set_fence f b s h = s h.
Proof.
  intros Hne. unfold set_fence. destruct (Z.eqb_spec h f); [contradiction|reflexivity].
Qed.

Lemma signal_same f s : f <> VK_NULL_HANDLE -> signal f s f = true.
Proof.
  intros Hne. unfold signal. destruct (Z.eqb_spec f VK_NULL_HANDLE); [contradiction|].
  apply set_fence_same.
Qed.

Lemma signal_keeps f s h : s h = true -> signal f s h = true.
Proof.
  intros H. unfold signal, set_fence. destruct (f =? VK_NULL_HANDLE); [assumption|].
  destruct (h =? f); [reflexivity|assumption].
Qed.

(** The device can bring a fence that is about to be signaled to its
    signaled state. *)
Lemma ready_signaled (fs : list Handle) (f : Handle) (w : World) :
  Ready fs w -> In f fs -> f <> VK_NULL_HANDLE ->
  exists w1, (w1 = w \/ progress w w1) /\ signaled w1 f = true /\ Ready fs w1.
Proof.
  intros [Hacq Hfs] Hin Hne. destruct (Hfs f Hin) as [Hsig|(s & Hs & Ef)].
  - exists w.
    split; [left; reflexivity|]. split; [assumption|]. split; assumption.
  - apply in_split in Hs. destruct Hs as (before & after & E).
    eexists. split; [right; apply (queue_completes w before s after E)|].
    cbn. rewrite Ef. split; [apply signal_same; assumption|]. split; [assumption|].
    cbn. intros g Hg. destruct (Hfs g Hg) as [Hsig|(s' & Hs' & Eg)].
    + left. apply signal_keeps. assumption.
    + rewrite E in Hs'. apply in_app_or in Hs'. destruct Hs' as [Hs'|[<-|Hs']].
      * right. exists s'. split; [apply in_or_app; left; assumption|assumption].
      * left. rewrite <- Eg, Ef. rewrite Ef in Eg. subst g.
        apply signal_same. assumption.
      * right. exists s'. split; [apply in_or_app; right; assumption|assumption].
Qed.

End Progress.

Section FrameProgress.

Variable this : VkRenderer.
Hypothesis Hwf : wf this.
Hypothesis fences_nodup : NoDup (mFencesForSubmit this ++ mFencesForAcquire this).
Hypothesis fences_set :
  ~ In VK_NULL_HANDLE (mFencesForSubmit this ++ mFencesForAcquire this).

Lemma submit_fence_in : In (fenceForSubmit this) (mFencesForSubmit this).
Proof. destruct Hwf. apply slot_in. unfold slots in *. lia. Qed.

Lemma acquire_fence_in : In (fenceForAcquire this) (mFencesForAcquire this).
Proof. destruct Hwf. apply slot_in. unfold slots in *. lia. Qed.

Lemma recording_quiet (img : Z) :
  Forall (fun c => quiet c = true) (recording this img).
Proof. unfold recording. repeat constructor. Qed.

(** One frame: the device can let every call of it succeed, and is then
    ready for the next. *)
Lemma frame_feasible (img : Z) (w : World) :
  Ready (mFencesForSubmit this) w ->
  exists w',
    feasible w (map (fun c => (c, granted img)) (frame this (stores this) img)) w' /\
    Ready (mFencesForSubmit this) w'.
Proof.
  intros Hready.
  pose proof submit_fence_in as HfS. pose proof acquire_fence_in as HfA.
  assert (HnS : fenceForSubmit this <> VK_NULL_HANDLE).
  { intros E. apply fences_set. apply in_or_app. left. rewrite <- E. assumption. }
  assert (HnA : fenceForAcquire this <> VK_NULL_HANDLE).
  { intros E. apply fences_set. apply in_or_app. right. rewrite <- E. assumption. }
  assert (Hapart : forall g, In g (mFencesForSubmit this) -> g <> fenceForAcquire this).
  { intros g Hg E. apply (fences_apart _ _ fences_nodup g); [assumption|].
    rewrite E. assumption. }
  destruct (ready_signaled _ _ _ Hready HfS HnS) as (w1 & Hstep & Hsig & [Hacq Hfs]).
  destruct (stores_slot_stores this Hwf) as [Hstores _].
  apply slot_store_quiet in Hstores.
  eexists. split.
  - assert (Hfrom : forall t w', feasible w1 t w' -> feasible w t w').
    { intros t w' H. destruct Hstep as [->|Hp]; [assumption|].
      eapply feasible_device; eassumption. }
    apply Hfrom. unfold frame. rewrite !map_app.
    (* 1 *)
    cbn [wait_submit map app].
    eapply feasible_call.
    { unfold returns, granted. cbn. rewrite Hsig. reflexivity. }
    eapply feasible_call; [reflexivity|].
    (* 2 *)
    eapply feasible_app; [apply feasible_quiet; assumption|].
    (* 3 *)
    cbn [acquire map app].
    eapply feasible_call; [reflexivity|].
    eapply feasible_device.
    { cbn. apply (image_acquired _ [] (fenceForAcquire this) []). cbn. rewrite Hacq.
      reflexivity. }
    (* 4 *)
    cbn [wait_acquire map app].
    eapply feasible_call.
    { unfold returns, granted. cbn. rewrite signal_same by assumption. reflexivity. }
    eapply feasible_call; [reflexivity|].
    (* 5 *)
    eapply feasible_app; [apply feasible_quiet; apply recording_quiet|].
    (* 6, 7 *)
    cbn [submit present map app].
    eapply feasible_call; [reflexivity|].
    eapply feasible_call; [reflexivity|].
    apply feasible_nil.
  - split; [reflexivity|]. cbn. intros g Hg.
    destruct (Z.eq_dec g (fenceForSubmit this)) as [->|Hne].
    + right. eexists. split; [left; reflexivity|reflexivity].
    + pose proof (Hapart g Hg) as HneA.
      destruct (Hfs g Hg) as [Hs|(s & Hs & Eg)].
      * left. rewrite set_fence_other by assumption.
        rewrite signal_other by assumption.
        rewrite set_fence_other by assumption. assumption.
      * right. exists s. split; [right; assumption|assumption].
Qed.

End FrameProgress.

Section FramesProgress.

Lemma render_completes (this : VkRenderer) (w : World) :
  wf this ->
  NoDup (mFencesForSubmit this ++ mFencesForAcquire this) ->
  ~ In VK_NULL_HANDLE (mFencesForSubmit this ++ mFencesForAcquire this) ->
  Ready (mFencesForSubmit this) w ->
  exists w' this',
    steps (w, render this) (w', Ret this') /\
    Ready (mFencesForSubmit this) w' /\
    wf this' /\ slots this' = slots this /\
    mFencesForSubmit this' = mFencesForSubmit this /\
    mFencesForAcquire this' = mFencesForAcquire this /\
    mFrameIndex this' = advanced this.
Proof.
  intros Hwf Hnd Hset Hready.
  assert (Hrange : 0 <= 0 < slots this) by (destruct Hwf; lia).
  destruct (render_returns this Hwf (succeed 0) 0) as (this' & Ho & Hc);
    [reflexivity|reflexivity|assumption|].
  pose proof (run_performs (render this) (succeed 0) 0) as Hp.
  pose proof (run_succeed_trace 0 (render this) 0) as Ht.
  rewrite Ho in Hp. rewrite Hc in Ht.
  destruct (frame_feasible this Hwf Hnd Hset 0 w Hready) as (w' & Hfeas & Hready').
  rewrite <- Ht in Hfeas.
  exists w', this'. split; [apply (feasible_steps _ _ _ _ Hfeas _ Hp)|].
  split; [assumption|].
  destruct (render_wf this Hwf _ _ Hp) as [Hwf' Hslots].
  destruct (render_frame this Hwf _ _ Hp) as (u' & img & _ & _ & _ & _ & _ & -> & _).
  split; [assumption|]. split; [assumption|].
  split; [reflexivity|]. split; reflexivity.
Qed.

End FramesProgress.

(** X10.  The frame loop never gets stuck on its own fences.  From a state
    of the device in which no image is awaited and every submit-complete
    fence is signaled or will be signaled by a submission in flight (the
    state the constructor leaves: those fences are created signaled), any
    number of frames can run to completion, and the state they leave is
    again such a state. *)
Theorem frames_complete (n : nat) : forall (this : VkRenderer) (w0 : World),
  wf this ->
  NoDup (mFencesForSubmit this ++ mFencesForAcquire this) ->
  ~ In VK_NULL_HANDLE (mFencesForSubmit this ++ mFencesForAcquire this) ->
  Ready (mFencesForSubmit this) w0 ->
  exists w this',
    steps (w0, frames n this) (w, Ret this') /\
    Ready (mFencesForSubmit this) w /\
    mFrameIndex this' = (mFrameIndex this + Z.of_nat n) mod slots this.
Proof.
  induction n as [|n IH]; intros this w0 Hwf Hnd Hset Hready.
  - exists w0, this. split; [constructor|]. split; [assumption|].
    destruct Hwf. rewrite Z.add_0_r, Z.mod_small by lia. reflexivity.
  - destruct (render_completes this w0 Hwf Hnd Hset Hready)
      as (w1 & this1 & Hs1 & Hready1 & Hwf1 & Hslots1 & EfS & EfA & Ei).
    destruct (IH this1 w1) as (w & this' & Hs & Hready' & Ei');
      [assumption|rewrite EfS, EfA; assumption|rewrite EfS, EfA; assumption
      |rewrite EfS; assumption|].
    exists w, this'. split; [|split].
    + cbn [frames]. eapply steps_then; eassumption.
    + rewrite <- EfS. assumption.
    + rewrite Ei', Ei, Hslots1. unfold advanced.
      rewrite Z.add_mod_idemp_l by (destruct Hwf; lia). f_equal. lia.
Qed.

(** On the two-image renderer, from the state in which the two submit
    fences are signaled, three frames run to completion and leave frame
    index 1. *)
Lemma frames_complete_witness :
  exists w this',
    steps (fresh_device, frames 3 two_slots) (w, Ret this') /\
    Ready [30; 31] w /\ mFrameIndex this' = 1.
Proof.
  apply (frames_complete 3 two_slots fresh_device two_slots_wf).
  - repeat constructor; cbn; intuition discriminate.
  - cbn. intuition discriminate.
  - split; [reflexivity|]. cbn. intros f [<-|[<-|[]]]; left; reflexivity.
Defined.

(** X11.  The wait at the head of [render] is what holds a frame back: when
    the submit-complete fence of the slot is unsignaled and the device has
    nothing left that would signal it, no interleaving gets [render] past
    that wait; the only way on is for the wait to fail, which ends the
    process. *)
Theorem unsignaled_submit_fence_blocks (this : VkRenderer) (w0 : World) :
  wf this -> inflight w0 = [] -> acquiring w0 = [] ->
  signaled w0 (fenceForSubmit this) = false ->
  forall w p, steps (w0, render this) (w, p) ->
    signaled w (fenceForSubmit this) = false /\
    (p = render this \/
     exists r, result r <> VK_SUCCESS /\
       p = Abort (check_error
                    (vkWaitForFences (mDevice this) [fenceForSubmit this] true UINT64_MAX)
                    (result r))).
Proof.
  intros Hwf Hin Hacq Hsig.
  set (P := fun w : World => inflight w = [] /\ acquiring w = [] /\
                             signaled w (fenceForSubmit this) = false).
  assert (HP : stable P).
  { intros w w' (H1 & H2 & _) Hp. exfalso.
    inversion Hp as [w1 before s after E|w1 before f after E]; subst.
    - rewrite H1 in E. destruct before; discriminate.
    - rewrite H2 in E. destruct before; discriminate. }
  assert (Hshape : exists k, render this =
            Call (vkWaitForFences (mDevice this) [fenceForSubmit this] true UINT64_MAX) k /\
            forall r, result r <> VK_SUCCESS ->
              k r = Abort (check_error
                     (vkWaitForFences (mDevice this) [fenceForSubmit this] true UINT64_MAX)
                     (result r))).
  { destruct Hwf. unfold slots in *. unfold render.
    rewrite (index_slot (mFencesForSubmit this) _ VK_NULL_HANDLE) by lia.
    rewrite (index_slot (mFencesForAcquire this) _ VK_NULL_HANDLE) by lia.
    rewrite (index_slot (mCommandBuffers this) _ VK_NULL_HANDLE) by lia.
    rewrite (index_slot (mUniformData this) _ (block_with 0 zero)) by lia.
    rewrite (index_slot (mDescriptorSets this) _ VK_NULL_HANDLE) by lia.
    rewrite (index_slot (mSemaphores this) _ VK_NULL_HANDLE) by lia.
    cbn [bind VK_CHECK_ERROR]. eexists. split; [reflexivity|].
    intros r Hr. cbn beta. destruct (Z.eqb_spec (result r) VK_SUCCESS); [contradiction|].
    reflexivity. }
  destruct Hshape as (k & Erender & Hk).
  assert (Hgen : forall cfg cfg', steps cfg cfg' -> forall w, cfg = (w, render this) -> P w ->
            P (fst cfg') /\
            (snd cfg' = render this \/
             exists r, result r <> VK_SUCCESS /\
               snd cfg' = Abort (check_error
                   (vkWaitForFences (mDevice this) [fenceForSubmit this] true UINT64_MAX)
                   (result r)))).
  { induction 1 as [cfg|cfg mid cfg' Hstep Hs IH]; intros w E Hw.
    - subst cfg. cbn. auto.
    - subst cfg. rewrite Erender in Hstep.
      inversion Hstep as [w1 c1 k1 r w1' H1|w1 w1' p1 Hprog]; subst.
      + unfold returns in H1. destruct (result r =? VK_SUCCESS) eqn:Er.
        * cbn in H1. destruct Hw as (_ & _ & Hu). rewrite Hu in H1. discriminate.
        * apply Z.eqb_neq in Er.
          cbn in H1. injection H1 as <-. rewrite Hk in Hs by assumption.
          assert (Hstop : forall c k0,
                    Abort (check_error
                      (vkWaitForFences (mDevice this) [fenceForSubmit this] true UINT64_MAX)
                      (result r)) <> Call c k0 :> Prog VkRenderer) by discriminate.
          destruct (steps_stopped P _ HP Hstop _ _ Hs w eq_refl Hw)
            as (w' & -> & Hw').
          split; [exact Hw'|]. right. exists r. auto.
      + rewrite <- Erender in Hs. apply (IH w1'); [rewrite Erender; reflexivity|].
        eapply HP; eassumption. }
  intros w p Hs.
  destruct (Hgen _ _ Hs w0 eq_refl (conj Hin (conj Hacq Hsig))) as [(_ & _ & Hu) Hp].
  split; assumption.
Qed.

(** The two-image renderer on a device whose fences are all unsignaled:
    even after the wait has been asked once, and failed, nothing but the
    wait has happened. *)
Lemma unsignaled_submit_fence_blocks_witness :
  let stale := {| signaled := fun _ => false; inflight := []; acquiring := [] |} in
  drive [yes 0] stale (render two_slots) = None /\
  signaled stale (fenceForSubmit two_slots) = false.
Proof.
  cbv zeta. split; [reflexivity|].
  apply (unsignaled_submit_fence_blocks two_slots
           {| signaled := fun _ => false; inflight := []; acquiring := [] |}
           two_slots_wf eq_refl eq_refl eq_refl _ (render two_slots)).
  constructor.
Defined.

(** ** Running to completion *)

Section Reaches.

Context {A : Type}.

Lemma reaches_ret (w : World) (a : A) (Q : A -> World -> Prop) :
  Q a w -> reaches w (Ret a) Q.
Proof. intros H. exists w, a. split; [constructor|assumption]. Qed.

Lemma reaches_call (w w1 : World) (c : action) (r : Reply) (k : Reply -> Prog A)
    (Q : A -> World -> Prop) :
  returns w c r = Some w1 -> reaches w1 (k r) Q -> reaches w (Call c k) Q.
Proof.
  intros Hret (w' & a & Hs & HQ). exists w', a. split; [|assumption].
  eapply steps_cons; [constructor; eassumption|assumption].
Qed.

Lemma reaches_device (w w1 : World) (p : Prog A) (Q : A -> World -> Prop) :
  progress w w1 -> reaches w1 p Q -> reaches w p Q.
Proof.
  intros Hp (w' & a & Hs & HQ). exists w', a. split; [|assumption].
  eapply steps_cons; [apply step_device; eassumption|assumption].
Qed.

(** [VK_CHECK_ERROR(c); rest], the call succeeding. *)
Lemma reaches_checked (w w1 : World) (c : action) (img : Z) (k : Reply -> Prog A)
    (Q : A -> World -> Prop) :
  returns w c (granted img) = Some w1 -> reaches w1 (k (granted img)) Q ->
  reaches w (bind (VK_CHECK_ERROR c) k) Q.
Proof.
  intros Hret H. unfold VK_CHECK_ERROR. cbn [bind].
  eapply reaches_call; [eassumption|]. cbn. assumption.
Qed.

(** The queue can always be left to finish what it has. *)
Lemma reaches_drained (p : Prog A) (Q : A -> World -> Prop) : forall w,
  (forall w1, inflight w1 = [] -> acquiring w1 = acquiring w -> reaches w1 p Q) ->
  reaches w p Q.
Proof.
  intros w. remember (length (inflight w)) as n eqn:En. revert w En.
  induction n as [|n IH]; intros w En H.
  - apply H; [|reflexivity]. destruct (inflight w); [reflexivity|discriminate].
  - destruct (inflight w) as [|s rest] eqn:E; [discriminate|].
    eapply reaches_device; [apply (queue_completes w [] s rest E)|].
    apply IH; [cbn in *; lia|]. intros w1 Hidle Hacq. apply H; assumption.
Qed.

Lemma reaches_quiet (p : Prog A) (t : Trace) (a : A) (Q : A -> World -> Prop) (w : World) :
  all_calls (fun c => quiet c = true) p -> performs p t (Returned a) -> Q a w ->
  reaches w p Q.
Proof.
  intros Hq Hp HQ. revert t Hp.
  induction Hq as [a'|f| |c k Hc Hk IH]; intros t Hp.
  - apply performs_Ret_inv in Hp. destruct Hp as [_ E]. injection E as ->.
    apply reaches_ret. assumption.
  - apply performs_Abort_inv in Hp. destruct Hp as [_ E]. discriminate.
  - apply performs_Undef_inv in Hp. destruct Hp as [_ E]. discriminate.
  - apply performs_Call_inv in Hp. destruct Hp as (r & t' & -> & Hp).
    eapply reaches_call; [apply quiet_returns; assumption|]. eapply IH. eassumption.
Qed.

Lemma succeeds_performs (p : Prog A) :
  succeeds p -> exists t a, performs p t (Returned a).
Proof.
  induction 1 as [a|c k _ IH].
  - exists [], a. constructor.
  - destruct (IH (granted 0) eq_refl) as (t & a & H).
    exists ((c, granted 0) :: t), a. constructor. assumption.
Qed.

End Reaches.

Lemma reaches_bind {A B : Type} (w : World) (p : Prog A) (f : A -> Prog B)
    (Q : B -> World -> Prop) :
  reaches w p (fun a w1 => reaches w1 (f a) Q) -> reaches w (bind p f) Q.
Proof.
  intros (w1 & a & Hs & w' & b & Hs' & HQ). exists w', b. split; [|assumption].
  eapply steps_then; eassumption.
Qed.

Lemma reaches_weaken {A : Type} (w : World) (p : Prog A) (Q Q' : A -> World -> Prop) :
  (forall a w', Q a w' -> Q' a w') -> reaches w p Q -> reaches w p Q'.
Proof. intros HQ (w' & a & Hs & H). exists w', a. auto. Qed.

Lemma succeeds_bind {A B : Type} (p : Prog A) (f : A -> Prog B) :
  succeeds p -> (forall a, succeeds (f a)) -> succeeds (bind p f).
Proof.
  intros Hp Hf. induction Hp as [a|c k _ IH]; cbn; [apply Hf|].
  constructor. assumption.
Qed.

Lemma succeeds_call (c : action) : succeeds (call c).
Proof. constructor. intros r _. constructor. Qed.

Lemma succeeds_for_each {X : Type} (l : list X) (body : X -> Prog Reply) :
  (forall x, succeeds (body x)) -> succeeds (for_each l body).
Proof.
  intros Hb. induction l as [|x l IH]; cbn; [constructor|].
  apply succeeds_bind; auto.
Qed.

Ltac succeeds_tac :=
  repeat first
    [ apply succeeds_ret
    | apply succeeds_call
    | apply succeeds_bind; [|intros ?]
    | apply succeeds_for_each; intros ? ].

Lemma releases_all_quiet {A : Type} (p : Prog A) :
  all_calls (fun c => releases c = true) p -> all_calls (fun c => quiet c = true) p.
Proof.
  induction 1; constructor; auto using releases_quiet.
Qed.

(** X12.  The destructor always gets to its end: from any state of the
    device, once the device has finished what was submitted, the wait
    returns and every destroy and free call follows, with nothing in flight. *)
Theorem destructor_completes (this : VkRenderer) (w0 : World) :
  reaches w0 (destructor this) (fun _ w => inflight w = []).
Proof.
  unfold destructor. apply reaches_drained. intros w1 Hidle _.
  apply (reaches_checked w1 w1 _ 0).
  { unfold returns. cbn. rewrite Hidle. reflexivity. }
  assert (Hs : succeeds (teardown this)).
  { unfold teardown. cbv zeta. succeeds_tac. }
  destruct (succeeds_performs _ Hs) as (t & [] & Hp).
  apply (reaches_quiet _ t tt); [|assumption|assumption].
  apply releases_all_quiet. apply teardown_releases.
Qed.

(** ** vulkan-sampler: one command buffer, one queue *)

Section SamplerSafety.

Local Abbreviation Idle := (fun w : World => inflight w = []).
Local Abbreviation AtMostOne := (fun w : World => (length (inflight w) <= 1)%nat).
Local Abbreviation both :=
  (fun (w : World) (c : action) => records_idle w c /\ releases_idle w c).

Lemma at_most_one_stable : stable AtMostOne.
Proof.
  intros w w' Hw Hp. inversion Hp as [w0 before s after E|w0 before f after E]; subst; cbn.
  - rewrite E in Hw. rewrite length_app in *. cbn in Hw. lia.
  - assumption.
Qed.

Lemma idle_both (w : World) (c : action) : inflight w = [] -> both w c.
Proof.
  intros Hw. split.
  - intros cb _. unfold in_flight. rewrite Hw. reflexivity.
  - intros _. assumption.
Qed.

Lemma idle_at_most_one (w : World) : inflight w = [] -> AtMostOne w.
Proof. intros Hw. cbn beta. rewrite Hw. cbn. lia. Qed.

(** [c; rest] for a call that leaves the device alone. *)
Lemma triple_quiet_call {A : Type} (G : World -> Prop) (ok : World -> action -> Prop)
    (P : World -> Prop) (c : action) (k : Reply -> Prog A) (Q : A -> World -> Prop) :
  stable P -> (forall w, P w -> G w /\ ok w c) -> quiet c = true ->
  (forall r, triple G ok P (k r) Q) ->
  triple G ok P (bind (call c) k) Q.
Proof.
  intros HP HG Hq Hk. unfold call. cbn [bind].
  apply (triple_call G ok P (fun _ => P)); try assumption.
  intros w r w' Hw Hret. rewrite quiet_returns in Hret by assumption.
  injection Hret as <-. assumption.
Qed.

(** [VK_CHECK_ERROR(c); rest] for such a call. *)
Lemma triple_quiet_checked {A : Type} (G : World -> Prop) (ok : World -> action -> Prop)
    (P : World -> Prop) (c : action) (k : Reply -> Prog A) (Q : A -> World -> Prop) :
  stable P -> (forall w, P w -> G w /\ ok w c) -> quiet c = true ->
  (forall r, triple G ok P (k r) Q) ->
  triple G ok P (bind (VK_CHECK_ERROR c) k) Q.
Proof.
  intros HP HG Hq Hk. apply (triple_checked G ok P P); try assumption.
  intros w r w' Hw _ Hret. rewrite quiet_returns in Hret by assumption.
  injection Hret as <-. assumption.
Qed.

Lemma sampler_render_triple (this : Sampler.VkRenderer) :
  triple AtMostOne both Idle (Sampler.render this) (fun _ => Idle).
Proof.
  pose proof idle_stable as HIs. pose proof at_most_one_stable as HOs.
  assert (HI : forall c w, inflight w = [] -> AtMostOne w /\ both w c).
  { intros c w Hw. split; [apply idle_at_most_one|apply idle_both]; assumption. }
  unfold Sampler.render.
  (* the uniform update *)
  apply (triple_bind _ _ _ _ (fun _ => Idle)); [|intros u'].
  { apply (triple_quiet _ _ (fun c => quiet c = true /\ recorded c = None));
      [assumption|apply idle_at_most_one|intros c [H _]; exact H| |apply update_quiet].
    intros w c Hw _. apply idle_both. assumption. }
  (* acquire *)
  apply (triple_checked _ _ Idle Idle); [assumption|apply HI| |intros acquired].
  { intros w r w' Hw Hr Hret. unfold returns in Hret. rewrite Hr in Hret.
    cbn in Hret. injection Hret as <-. assumption. }
  unfold index.
  destruct (at_ (Sampler.mFramebuffers this) (imageIndex acquired)) as [fb|]; cbn [bind];
    [|apply triple_undef; [assumption|apply idle_at_most_one]].
  (* wait for the fence, reset it *)
  apply (triple_checked _ _ Idle Idle); [assumption|apply HI| |intros _].
  { intros w r w' Hw Hr Hret. unfold returns in Hret. rewrite Hr in Hret.
    cbn in Hret. destruct (signaled w (Sampler.mFence this)); [|discriminate Hret].
    injection Hret as <-. assumption. }
  apply (triple_checked _ _ Idle Idle); [assumption|apply HI| |intros _].
  { intros w r w' Hw Hr Hret. unfold returns in Hret. rewrite Hr in Hret.
    cbn in Hret. injection Hret as <-. assumption. }
  (* reset and record the command buffer *)
  apply triple_quiet_call; [assumption|apply HI|reflexivity|intros _].
  apply triple_quiet_checked; [assumption|apply HI|reflexivity|intros _].
  do 6 (apply triple_quiet_call; [assumption|apply HI|reflexivity|intros _]).
  apply triple_quiet_checked; [assumption|apply HI|reflexivity|intros _].
  (* submit *)
  apply (triple_checked _ _ Idle AtMostOne); [assumption|apply HI| |intros _].
  { intros w r w' Hw Hr Hret. unfold returns in Hret. rewrite Hr in Hret.
    cbn in Hret. injection Hret as <-. cbn. rewrite Hw. cbn. lia. }
  (* present *)
  apply (triple_checked _ _ AtMostOne AtMostOne); [assumption| | |intros _].
  { intros w Hw. split; [assumption|]. split.
    - apply unrecorded_idle. reflexivity.
    - intros H. discriminate H. }
  { intros w r w' Hw Hr Hret. unfold returns in Hret. rewrite Hr in Hret.
    cbn in Hret. injection Hret as <-. assumption. }
  (* wait for the queue *)
  apply (triple_checked _ _ AtMostOne Idle); [assumption| | |intros _].
  { intros w Hw. split; [assumption|]. split.
    - apply unrecorded_idle. reflexivity.
    - intros H. discriminate H. }
  { intros w r w' Hw Hr Hret. unfold returns in Hret. rewrite Hr in Hret.
    cbn in Hret. destruct (inflight w) eqn:E; [|discriminate Hret].
    injection Hret as <-. assumption. }
  apply triple_ret; [assumption|]. intros w Hw. split; [apply idle_at_most_one|]; assumption.
Qed.

Lemma sampler_frames_triple (n : nat) : forall this,
  triple AtMostOne both Idle (SamplerLoop.frames n this) (fun _ => Idle).
Proof.
  induction n as [|n IH]; intros this; cbn [SamplerLoop.frames].
  - apply triple_ret; [apply idle_stable|]. intros w Hw.
    split; [apply idle_at_most_one|]; assumption.
  - eapply triple_bind; [apply sampler_render_triple|]. intros this'. apply IH.
Qed.

Lemma sampler_destructor_releases (this : Sampler.VkRenderer) (rest : SamplerLoop.Members) :
  all_calls (fun c => releases c = true) (SamplerLoop.destructor this rest).
Proof.
  unfold SamplerLoop.destructor. cbv zeta.
  repeat first
    [ apply calls_ret
    | apply all_calls_bind; [|intros ?]
    | apply all_calls_for_each; intros ?
    | unfold call; apply calls_call; [reflexivity|intros ?] ].
Qed.

Lemma sampler_lifetime_triple (n : nat) (this : Sampler.VkRenderer)
    (rest : SamplerLoop.Members) :
  triple AtMostOne both Idle (SamplerLoop.lifetime n this rest) (fun _ => Idle).
Proof.
  unfold SamplerLoop.lifetime.
  eapply triple_bind; [apply sampler_frames_triple|]. intros this'.
  apply (triple_quiet _ _ (fun c => releases c = true)).
  - apply idle_stable.
  - apply idle_at_most_one.
  - apply releases_quiet.
  - intros w c Hw _. apply idle_both. assumption.
  - apply sampler_destructor_releases.
Qed.

End SamplerSafety.

(** X13.  vulkan-sampler has one command buffer and ends every [render]
    with a wait for the queue.  Started with nothing in flight, and whatever
    the interleaving with the device, any number of frames followed by the
    destructor never has more than one submission in flight, resets or
    records the command buffer only while no submission of it is in flight,
    and destroys or frees an object only while the queue is empty, although
    this destructor does not wait for the device itself. *)
Theorem sampler_queue_discipline (this : Sampler.VkRenderer) (rest : SamplerLoop.Members)
    (n : nat) (w0 : World) :
  inflight w0 = [] ->
  forall w p, steps (w0, SamplerLoop.lifetime n this rest) (w, p) ->
    (length (inflight w) <= 1)%nat /\
    next_ok records_idle (w, p) /\ next_ok releases_idle (w, p).
Proof.
  intros Hidle w p Hs.
  destruct (sampler_lifetime_triple n this rest w0 Hidle w p Hs) as (HG & Hok & _).
  split; [assumption|]. unfold next_ok in *. cbn [fst snd] in *.
  destruct p; try (split; exact I). destruct Hok. split; assumption.
Qed.

(** One frame of the two-image renderer up to its [vkQueuePresentKHR]: the
    submission of the frame is the only one in flight. *)
Lemma sampler_queue_discipline_witness :
  match drive (repeat (yes 0) 4 ++ [acquired 0%nat] ++ repeat (yes 0) 12)
          SamplerLoop.idle_device
          (SamplerLoop.lifetime 1 SamplerLoop.single_slot SamplerLoop.single_slot_rest) with
  | Some (w, p) =>
      (length (inflight w) <= 1)%nat /\
      next_ok records_idle (w, p) /\ next_ok releases_idle (w, p) /\
      map commandBuffers (inflight w) = [[20]]
  | None => False
  end.
Proof.
  destruct (drive (repeat (yes 0) 4 ++ [acquired 0%nat] ++ repeat (yes 0) 12)
              SamplerLoop.idle_device
              (SamplerLoop.lifetime 1 SamplerLoop.single_slot SamplerLoop.single_slot_rest))
    as [[w p]|] eqn:E.
  - pose proof (drive_steps _ _ _ _ E) as Hs.
    destruct (sampler_queue_discipline SamplerLoop.single_slot SamplerLoop.single_slot_rest
                1 SamplerLoop.idle_device eq_refl w p Hs) as (H1 & H2 & H3).
    split; [exact H1|]. split; [exact H2|]. split; [exact H3|].
    vm_compute in E. injection E as <- <-. reflexivity.
  - vm_compute in E. discriminate E.
Defined.

Section SamplerProgress.

Lemma all_calls_impl {A : Type} (phi psi : action -> Prop) (p : Prog A) :
  (forall c, phi c -> psi c) -> all_calls phi p -> all_calls psi p.
Proof. intros H. induction 1; constructor; auto. Qed.

Lemma sampler_render_completes (this : Sampler.VkRenderer) (img : Z) (w : World) :
  SamplerLoop.usable this img -> inflight w = [] -> acquiring w = [] ->
  reaches w (Sampler.render this)
    (fun this' w' => SamplerLoop.usable this' img /\
                     inflight w' = [] /\ acquiring w' = []).
Proof.
  intros (Hlen & Himg & Hfence) Hidle Hacq.
  destruct (update_total (Sampler.mSwapchainImageExtent this) _ Hlen) as (ts & u' & Hup).
  pose proof (update_inv _ _ _ _ Hlen Hup)
    as (u'' & ? & ? & E & _ & _ & _ & Hlen' & _).
  injection E as <-.
  unfold Sampler.render.
  apply reaches_bind.
  apply (reaches_quiet _ ts u');
    [eapply all_calls_impl; [|apply update_quiet]; intros c [H _]; exact H
    |assumption|].
  eapply (reaches_checked _ _ _ img); [reflexivity|].
  cbn [imageIndex granted].
  rewrite (index_slot _ _ VK_NULL_HANDLE) by assumption. cbn [bind].
  eapply reaches_device.
  { apply (image_acquired _ [] (Sampler.mFence this) []). cbn. rewrite Hacq. reflexivity. }
  eapply (reaches_checked _ _ _ 0).
  { unfold returns. cbn. rewrite signal_same by assumption. reflexivity. }
  eapply (reaches_checked _ _ _ 0); [reflexivity|].
  unfold call at 1. cbn [bind].
  eapply (reaches_call _ _ _ (granted 0)); [reflexivity|].
  eapply (reaches_checked _ _ _ 0); [reflexivity|].
  do 6 (unfold call at 1; cbn [bind];
        eapply (reaches_call _ _ _ (granted 0)); [reflexivity|]).
  eapply (reaches_checked _ _ _ 0); [reflexivity|].
  eapply (reaches_checked _ _ _ 0); [reflexivity|].
  eapply (reaches_checked _ _ _ 0); [reflexivity|].
  apply reaches_drained. intros w1 Hidle1 Hacq1.
  eapply (reaches_checked _ _ _ 0).
  { unfold returns. cbn. rewrite Hidle1. reflexivity. }
  apply reaches_ret. split; [|split; assumption].
  split; [assumption|]. split; assumption.
Qed.

Lemma sampler_frames_complete (img : Z) (n : nat) : forall this w,
  SamplerLoop.usable this img -> inflight w = [] -> acquiring w = [] ->
  reaches w (SamplerLoop.frames n this)
    (fun this' w' => SamplerLoop.usable this' img /\
                     inflight w' = [] /\ acquiring w' = []).
Proof.
  induction n as [|n IH]; intros this w Hu Hidle Hacq; cbn [SamplerLoop.frames].
  - apply reaches_ret. auto.
  - apply reaches_bind.
    eapply reaches_weaken; [|apply sampler_render_completes; eassumption].
    intros this' w' (Hu' & Hidle' & Hacq'). apply IH; assumption.
Qed.

End SamplerProgress.

(** X14.  vulkan-sampler runs to its end: with a mapped uniform block of
    eight positions, a framebuffer for the image the swapchain hands out
    and a fence that is not the null handle, any number of frames followed
    by the destructor can run to completion from a device with nothing in
    flight, and leave nothing in flight. *)
Theorem sampler_lifetime_completes (this : Sampler.VkRenderer) (rest : SamplerLoop.Members)
    (img : Z) (n : nat) (w0 : World) :
  SamplerLoop.usable this img -> inflight w0 = [] -> acquiring w0 = [] ->
  reaches w0 (SamplerLoop.lifetime n this rest) (fun _ w => inflight w = []).
Proof.
  intros Hu Hidle Hacq. unfold SamplerLoop.lifetime. apply reaches_bind.
  eapply reaches_weaken; [|apply (sampler_frames_complete img n); assumption].
  intros this' w' (_ & Hidle' & _).
  assert (Hs : succeeds (SamplerLoop.destructor this' rest)).
  { unfold SamplerLoop.destructor. cbv zeta. succeeds_tac. }
  destruct (succeeds_performs _ Hs) as (t & [] & Hp).
  apply (reaches_quiet _ t tt); [|assumption|assumption].
  apply releases_all_quiet. apply sampler_destructor_releases.
Qed.

Lemma sampler_lifetime_completes_witness :
  reaches SamplerLoop.idle_device
    (SamplerLoop.lifetime 2 SamplerLoop.single_slot SamplerLoop.single_slot_rest)
    (fun _ w => inflight w = []).
Proof.
  apply (sampler_lifetime_completes SamplerLoop.single_slot SamplerLoop.single_slot_rest
           1 2 SamplerLoop.idle_device).
  - split; [reflexivity|]. split; [cbn; lia|discriminate].
  - reflexivity.
  - reflexivity.
Defined.

(** ** The constructor: programs and their runs *)

Section SetupRuns.

Import Setup.
Context {A : Type}.

Lemma setup_run_performs (p : Prog A) : forall env n,
  performs p (fst (run p env n)) (snd (run p env n)).
Proof.
  induction p as [a|c k IH|f|]; intros env n; cbn.
  - constructor.
  - specialize (IH (env n c) env (S n)).
    destruct (run (k (env n c)) env (S n)) as [t o]. cbn in *.
    constructor. exact IH.
  - constructor.
  - constructor.
Qed.

Lemma setup_ret_inv (a : A) t o :
  performs (Ret a) t o -> t = [] /\ o = Returned a.
Proof. inversion 1. auto. Qed.

Lemma setup_abort_inv (f : Fatal) t (o : Outcome A) :
  performs (Abort f) t o -> t = [] /\ o = Aborted f.
Proof. inversion 1. auto. Qed.

Lemma setup_undef_inv t (o : Outcome A) :
  performs Undef t o -> t = [] /\ o = Faulted.
Proof. inversion 1. auto. Qed.

Lemma setup_call_inv c (k : Answer -> Prog A) t o :
  performs (Call c k) t o ->
  exists a t', t = (c, a) :: t' /\ performs (k a) t' o.
Proof. inversion 1; subst. eauto. Qed.

End SetupRuns.

Section SetupBind.

Import Setup.
Context {A B : Type}.

Lemma setup_bind_inv (p : Prog A) (f : A -> Prog B) : forall t o,
  performs (bind p f) t o ->
  (exists t1 a t2, t = t1 ++ t2 /\ performs p t1 (Returned a) /\ performs (f a) t2 o) \/
  (exists e, o = Aborted e /\ performs p t (Aborted e)) \/
  (o = Faulted /\ performs p t Faulted).
Proof.
  induction p as [a|c k IH|e|]; intros t o H; cbn in H.
  - left. exists [], a, t. repeat split; [constructor|assumption].
  - apply setup_call_inv in H. destruct H as (r & t' & -> & H).
    destruct (IH r _ _ H) as [(t1 & a & t2 & -> & H1 & H2)|[(e & -> & H1)|(-> & H1)]].
    + left. exists ((c, r) :: t1), a, t2. repeat split; [constructor|]; assumption.
    + right. left. exists e. split; [reflexivity|constructor; assumption].
    + right. right. split; [reflexivity|constructor; assumption].
  - apply setup_abort_inv in H. destruct H as [-> ->].
    right. left. exists e. split; [reflexivity|constructor].
  - apply setup_undef_inv in H. destruct H as [-> ->].
    right. right. split; [reflexivity|constructor].
Qed.

Lemma setup_bind_returned (p : Prog A) (f : A -> Prog B) t b :
  performs (bind p f) t (Returned b) ->
  exists t1 a t2, t = t1 ++ t2 /\ performs p t1 (Returned a) /\
                  performs (f a) t2 (Returned b).
Proof.
  intros H. apply setup_bind_inv in H.
  destruct H as [H|[(e & E & _)|(E & _)]]; [assumption|discriminate|discriminate].
Qed.

End SetupBind.

Section SetupSteps.

Import Setup Construction.

Lemma call_returned c t a : performs (call c) t (Returned a) -> t = [(c, a)].
Proof.
  unfold call. intros H. apply setup_call_inv in H. destruct H as (a' & t' & -> & H).
  apply setup_ret_inv in H. destruct H as [-> E]. injection E as <-. reflexivity.
Qed.

Lemma check_returned what r t u :
  performs (check what r) t (Returned u) -> t = [] /\ r = VK_SUCCESS.
Proof.
  unfold check. destruct (Z.eqb_spec r VK_SUCCESS) as [E|E]; intros H.
  - apply setup_ret_inv in H. tauto.
  - apply setup_abort_inv in H. destruct H as [_ H]. discriminate.
Qed.

Lemma checked_returned c t a :
  performs (VK_CHECK_ERROR c) t (Returned a) -> t = [(c, a)] /\ status a = VK_SUCCESS.
Proof.
  unfold VK_CHECK_ERROR. intros H.
  apply setup_call_inv in H. destruct H as (a' & t' & -> & H).
  apply setup_bind_returned in H. destruct H as (t1 & [] & t2 & -> & H1 & H2).
  apply check_returned in H1. destruct H1 as [-> E].
  apply setup_ret_inv in H2. destruct H2 as [-> E']. injection E' as <-. auto.
Qed.

Lemma create_returned c t h :
  performs (create c) t (Returned h) ->
  exists a, t = [(c, a)] /\ status a = VK_SUCCESS /\ h = handle a.
Proof.
  unfold create. intros H.
  apply setup_bind_returned in H. destruct H as (t1 & a & t2 & -> & H1 & H2).
  apply checked_returned in H1. destruct H1 as [-> E].
  apply setup_ret_inv in H2. destruct H2 as [-> E']. injection E' as E'.
  exists a. auto.
Qed.

Lemma assert_returned b t u :
  performs (assert b) t (Returned u) -> t = [] /\ b = true.
Proof.
  destruct b; cbn; intros H.
  - apply setup_ret_inv in H. tauto.
  - apply setup_abort_inv in H. destruct H as [_ H]. discriminate.
Qed.

Lemma index_returned {X : Type} (v : list X) i t x :
  performs (index v i) t (Returned x) -> t = [] /\ at_ v i = Some x.
Proof.
  unfold index. destruct (at_ v i) as [y|]; intros H.
  - apply setup_ret_inv in H. destruct H as [-> E]. injection E as <-. auto.
  - apply setup_undef_inv in H. destruct H as [_ H]. discriminate.
Qed.

Lemma defined_returned {X : Type} (x : cxx X) t a :
  performs (defined x) t (Returned a) -> t = [] /\ x = Defined a.
Proof.
  destruct x as [y|]; cbn; intros H.
  - apply setup_ret_inv in H. destruct H as [-> E]. injection E as <-. auto.
  - apply setup_undef_inv in H. destruct H as [_ H]. discriminate.
Qed.

(** What a returning run of a lifted program did is what the program
    does over the entry points of [render] and the destructor. *)
Lemma lift_returned {X : Type} (p : Vk.Prog X) : forall t x,
  performs (lift p) t (Returned x) ->
  exists t0, Vk.performs p t0 (Vk.Returned x) /\
             map (fun e => (fst e, reply (snd e))) t =
             map (fun e => (act (fst e), snd e)) t0.
Proof.
  induction p as [a|c k IH|f|]; intros t x H; cbn in H.
  - apply setup_ret_inv in H. destruct H as [-> E]. injection E as <-.
    exists []. split; [constructor|reflexivity].
  - apply setup_call_inv in H. destruct H as (a & t' & -> & H).
    destruct (IH _ _ _ H) as (t0 & H0 & E).
    exists ((c, reply a) :: t0). split; [constructor; assumption|].
    cbn. rewrite E. reflexivity.
  - apply setup_abort_inv in H. destruct H as [_ H]. discriminate.
  - apply setup_undef_inv in H. destruct H as [_ H]. discriminate.
Qed.

(** The elements of the vector that an enumeration or an allocation
    leaves behind. *)
Lemma filled_length {X : Type} (n : Z) (l : list X) (d : X) :
  length (filled n l d) = Z.to_nat n.
Proof.
  unfold filled, written. rewrite length_app, repeat_length, length_firstn. lia.
Qed.

Lemma written_all {X : Type} (n : Z) (l : list X) :
  (Z.to_nat n <= length l)%nat -> length (written n l) = Z.to_nat n.
Proof. unfold written. rewrite length_firstn. lia. Qed.

Lemma filled_all {X : Type} (n : Z) (l : list X) (d : X) :
  (Z.to_nat n <= length l)%nat -> filled n l d = written n l.
Proof.
  intros H. unfold filled. rewrite written_all by assumption.
  rewrite Nat.sub_diag. cbn. apply app_nil_r.
Qed.

(** A loop over [n] elements: the trace is the traces of the bodies, one
    after the other, and [n] results come back. *)
Lemma each_returned {X : Type} (Q : Trace -> X -> Prop) (body : Prog X) :
  (forall t x, performs body t (Returned x) -> Q t x) ->
  forall n t xs, performs (each n body) t (Returned xs) ->
    exists ts, t = concat ts /\ Forall2 Q ts xs /\ length xs = n.
Proof.
  intros Hbody. induction n as [|n IH]; intros t xs H; cbn in H.
  - apply setup_ret_inv in H. destruct H as [-> E]. injection E as ->.
    exists []. auto.
  - apply setup_bind_returned in H. destruct H as (t1 & x & t2 & -> & H1 & H2).
    apply setup_bind_returned in H2. destruct H2 as (t3 & xs' & t4 & -> & H3 & H4).
    apply setup_ret_inv in H4. destruct H4 as [-> E]. injection E as ->.
    destruct (IH _ _ H3) as (ts & -> & HF & Hl).
    exists (t1 :: ts). cbn. rewrite app_nil_r. repeat split; auto.
Qed.

Lemma each_index_returned {X : Type} (Q : Trace -> X -> Prop) (body : Z -> Prog X) :
  (forall i t x, performs (body i) t (Returned x) -> Q t x) ->
  forall n i t xs, performs (each_index n i body) t (Returned xs) ->
    exists ts, t = concat ts /\ Forall2 Q ts xs /\ length xs = n.
Proof.
  intros Hbody. induction n as [|n IH]; intros i t xs H; cbn in H.
  - apply setup_ret_inv in H. destruct H as [-> E]. injection E as ->.
    exists []. auto.
  - apply setup_bind_returned in H. destruct H as (t1 & x & t2 & -> & H1 & H2).
    destruct (i =? INT_MAX).
    + apply setup_undef_inv in H2. destruct H2 as [_ H2]. discriminate.
    + apply setup_bind_returned in H2. destruct H2 as (t3 & xs' & t4 & -> & H3 & H4).
      apply setup_ret_inv in H4. destruct H4 as [-> E]. injection E as ->.
      destruct (IH _ _ _ H3) as (ts & -> & HF & Hl).
      exists (t1 :: ts). cbn. rewrite app_nil_r. repeat split; eauto.
Qed.

End SetupSteps.

(** Splits the run of a sequence of statements into the runs of the
    statements. *)
Ltac chop :=
  repeat (cbn beta in *;
    match goal with
    | H : Setup.performs (Setup.bind _ _) _ (Setup.Returned _) |- _ =>
        apply setup_bind_returned in H;
        let t1 := fresh "t" in let a := fresh "a" in let t2 := fresh "t" in
        let H2 := fresh "H" in
        destruct H as (t1 & a & t2 & -> & H & H2)
    | H : Setup.performs (Setup.Ret _) _ (Setup.Returned _) |- _ =>
        apply setup_ret_inv in H;
        let E := fresh "E" in destruct H as [-> E]; injection E as E; subst
    | H : Setup.performs (Construction.create _) _ (Setup.Returned _) |- _ =>
        apply create_returned in H;
        let a := fresh "a" in let E := fresh "Hok" in
        destruct H as (a & -> & E & ->)
    | H : Setup.performs (Setup.VK_CHECK_ERROR _) _ (Setup.Returned _) |- _ =>
        apply checked_returned in H;
        let E := fresh "Hok" in destruct H as [-> E]
    | H : Setup.performs (Setup.call _) _ (Setup.Returned _) |- _ =>
        apply call_returned in H; subst
    | H : Setup.performs (Setup.check _ _) _ (Setup.Returned _) |- _ =>
        apply check_returned in H;
        let E := fresh "Hok" in destruct H as [-> E]
    | H : Setup.performs (Setup.assert _) _ (Setup.Returned _) |- _ =>
        apply assert_returned in H;
        let E := fresh "Hassert" in destruct H as [-> E]
    | H : Setup.performs (Setup.index _ _) _ (Setup.Returned _) |- _ =>
        apply index_returned in H;
        let E := fresh "Hat" in destruct H as [-> E]
    | H : Setup.performs (Setup.defined _) _ (Setup.Returned _) |- _ =>
        apply defined_returned in H;
        let E := fresh "Hdef" in destruct H as [-> E]
    end).

(** ** The constructor: what it creates and what it destroys *)

Section Ledger.

Import Setup Construction Lifecycle.

Lemma created_nil : created [] = [].
Proof. reflexivity. Qed.

Lemma created_cons c a t : created ((c, a) :: t) = creates c a ++ created t.
Proof. reflexivity. Qed.

Lemma created_app t1 t2 : created (t1 ++ t2) = created t1 ++ created t2.
Proof. apply flat_map_app. Qed.

Lemma destroyed_nil : destroyed [] = [].
Proof. reflexivity. Qed.

Lemma destroyed_cons c a t : destroyed ((c, a) :: t) = removes c ++ destroyed t.
Proof. reflexivity. Qed.

Lemma destroyed_app t1 t2 : destroyed (t1 ++ t2) = destroyed t1 ++ destroyed t2.
Proof. apply flat_map_app. Qed.

Lemma all_flat_map {X : Type} (k : Kind) (f : X -> Handle) (xs : list X) :
  flat_map (fun x => [(k, f x)]) xs = all k (map f xs).
Proof.
  unfold all. induction xs as [|x xs IH]; cbn; [reflexivity|]. rewrite IH. reflexivity.
Qed.

Lemma flat_map_none {X Y : Type} (xs : list X) :
  flat_map (fun _ : X => @nil Y) xs = [].
Proof. induction xs; cbn; auto. Qed.

(** The ledger of a loop whose bodies destroy nothing. *)
Lemma ledger_concat {X : Type} (g : X -> list Object) ts xs :
  Forall2 (fun t x => created t = g x /\ destroyed t = []) ts xs ->
  created (concat ts) = flat_map g xs /\ destroyed (concat ts) = [].
Proof.
  induction 1 as [|t x ts xs [Hc Hd] _ [IHc IHd]]; cbn; [auto|].
  rewrite created_app, destroyed_app, Hc, Hd, IHc, IHd. auto.
Qed.

Lemma delivered_app t1 t2 :
  Forall delivered (t1 ++ t2) <-> Forall delivered t1 /\ Forall delivered t2.
Proof. apply Forall_app. Qed.

(** The selections of the constructor make no calls. *)
Lemma lift_selectExtensions wanted n l t x :
  performs (lift (Selection.selectExtensions wanted n l)) t (Returned x) -> t = [].
Proof.
  unfold Selection.selectExtensions. cbv zeta.
  destruct (Nat.eqb (length (filter wanted l)) n); cbn; intros H.
  - apply setup_ret_inv in H. tauto.
  - apply setup_abort_inv in H. destruct H as [_ H]. discriminate.
Qed.

Lemma lift_findCompositeAlpha s t x :
  performs (lift (Selection.findCompositeAlpha s)) t (Returned x) -> t = [].
Proof.
  unfold Selection.findCompositeAlpha. cbv zeta.
  destruct (negb _); cbn; intros H.
  - apply setup_ret_inv in H. tauto.
  - apply setup_abort_inv in H. destruct H as [_ H]. discriminate.
Qed.

Lemma say_returned lines : forall t u,
  performs (say lines) t (Returned u) ->
  created t = [] /\ destroyed t = [] /\ Forall delivered t.
Proof.
  induction lines as [|l lines IH]; intros t u H; cbn in H.
  - apply setup_ret_inv in H. destruct H as [-> _]. repeat split; constructor.
  - apply setup_call_inv in H. destruct H as (a & t' & -> & H). cbn in H.
    destruct (IH _ _ H) as (Hc & Hd & Hdel).
    rewrite created_cons, destroyed_cons, Hc, Hd. unfold creates.
    destruct (status a =? VK_SUCCESS); repeat split; try reflexivity;
      (constructor; [exact I|assumption]).
Qed.

End Ledger.

Create Rewrite HintDb ledger.
#[local] Hint Rewrite created_nil created_cons created_app
  destroyed_nil destroyed_cons destroyed_app app_nil_r app_nil_l : ledger.

(** Evaluates the ledger of a trace whose calls are known. *)
Ltac ledger :=
  autorewrite with ledger; unfold Lifecycle.creates;
  cbn [Lifecycle.removes Lifecycle.destroys];
  repeat match goal with
  | H : Setup.status ?a = VK_SUCCESS |- context [Setup.status ?a =? VK_SUCCESS] =>
      rewrite H; change (VK_SUCCESS =? VK_SUCCESS) with true; cbv iota
  | |- context [if Setup.status ?a =? VK_SUCCESS then _ else _] =>
      destruct (Setup.status a =? VK_SUCCESS)
  end;
  cbn [app].

(** Finds an element in a list that is written out. *)
Ltac in_list := repeat first [left; reflexivity | right].

(** [chop], through the selections and the log lines as well. *)
Ltac chop_all :=
  chop;
  repeat match goal with
  | H : Setup.performs (Setup.lift (Selection.selectExtensions _ _ _)) _ _ |- _ =>
      apply lift_selectExtensions in H; subst
  | H : Setup.performs (Setup.lift (Selection.instanceExtensionNames _)) _ _ |- _ =>
      apply lift_selectExtensions in H; subst
  | H : Setup.performs (Setup.lift (Selection.deviceExtensionNames _)) _ _ |- _ =>
      apply lift_selectExtensions in H; subst
  | H : Setup.performs (Setup.lift (Selection.findCompositeAlpha _)) _ _ |- _ =>
      apply lift_findCompositeAlpha in H; subst
  | H : Setup.performs (Construction.say _) _ _ |- _ =>
      apply say_returned in H;
      let Hc := fresh "Hc" in let Hd := fresh "Hd" in let Hv := fresh "Hv" in
      destruct H as (Hc & Hd & Hv)
  end.

Section Blocks.

Import Setup Construction Lifecycle.

Variables (nativeWindow assetManager : Z).
Variable clearValue : VkClearValue.
Variables (vertexShaderCode fragmentShaderCode : string).
Variables (draw_vertex draw_fragment : Z -> Z).
Variable CompileGlslToSpv : string -> Z -> list Z -> Shader.SpvCompilationResult.

Lemma createBuffer_ledger d props size flags t x :
  performs (createBuffer d props size flags) t (Returned x) ->
  created t = [(VK_OBJECT_TYPE_BUFFER, fst x); (VK_OBJECT_TYPE_DEVICE_MEMORY, snd x)] /\
  destroyed t = [].
Proof.
  unfold createBuffer, memoryTypeIndex. intros H. chop. ledger; auto.
Qed.

Lemma createInstance_ledger t x :
  performs createInstance t (Returned x) ->
  created t = [(VK_OBJECT_TYPE_INSTANCE, x)] /\ destroyed t = [].
Proof.
  unfold createInstance, enumerate. intros H. chop_all. ledger; auto.
Qed.

Lemma selectPhysicalDevice_ledger i t x :
  performs (selectPhysicalDevice i) t (Returned x) ->
  created t = [] /\ destroyed t = [].
Proof.
  unfold selectPhysicalDevice, enumerate. intros H. chop_all. ledger; auto.
Qed.

Lemma createDevice_ledger pd t x :
  performs (createDevice pd) t (Returned x) ->
  created t = [(VK_OBJECT_TYPE_DEVICE, snd (fst x))] /\ destroyed t = [].
Proof.
  unfold createDevice, enumerate. intros H. chop_all. ledger; auto.
Qed.

Lemma createSurface_ledger i pd q t x :
  performs (createSurface nativeWindow i pd q) t (Returned x) ->
  created t = [(VK_OBJECT_TYPE_SURFACE_KHR, x)] /\ destroyed t = [].
Proof.
  unfold createSurface. intros H. chop_all. ledger; auto.
Qed.

Lemma createSwapchain_ledger pd d s t x :
  performs (createSwapchain pd d s) t (Returned x) ->
  created t = [(VK_OBJECT_TYPE_SWAPCHAIN_KHR, mSwapchain x)] /\ destroyed t = [].
Proof.
  unfold createSwapchain, enumerate. cbv zeta. intros H. chop_all. ledger; auto.
Qed.

(** The vector of swapchain images has as many elements as the first
    query announced, a number a [uint32_t] holds; if the driver has
    that many images, the count after the second query is that number. *)
Lemma createSwapchain_images pd d s t x :
  performs (createSwapchain pd d s) t (Returned x) ->
  (length (mSwapchainImages x) <= Z.to_nat UINT32_MAX)%nat /\
  0 <= swapchainImageCount x /\
  (Z.to_nat (swapchainImageCount x) <= length (mSwapchainImages x))%nat /\
  (Forall delivered t ->
   Z.to_nat (swapchainImageCount x) = length (mSwapchainImages x)).
Proof.
  unfold createSwapchain, enumerate. cbv zeta. intros H. chop_all. cbn.
  rewrite filled_length, Nat2Z.id.
  match goal with
  | |- context [Z.to_nat (u32 ?z)] =>
      assert (Hu : 0 <= u32 z <= UINT32_MAX)
        by (unfold u32, UINT32_MAX; pose proof (Z.mod_pos_bound z 4294967296); lia)
  end.
  unfold UINT32_MAX in *.
  split; [lia|]. split; [lia|]. split.
  - unfold written. rewrite length_firstn. lia.
  - intros Hdel. rewrite Forall_forall in Hdel.
    match goal with
    | |- length (written ?n (handles ?a)) = _ =>
        apply written_all;
        match type of Hdel with
        | context [(?c, a)] => apply (Hdel (c, a))
        end
    end.
    repeat first [left; reflexivity | right].
Qed.

Lemma createImageViews_ledger d s t x :
  performs (createImageViews d s) t (Returned x) ->
  created t = all VK_OBJECT_TYPE_IMAGE_VIEW x /\ destroyed t = [] /\
  length x = Z.to_nat (swapchainImageCount s).
Proof.
  unfold createImageViews. intros H.
  apply (each_index_returned
           (fun t v => created t = [(VK_OBJECT_TYPE_IMAGE_VIEW, v)] /\ destroyed t = []))
    in H.
  - destruct H as (ts & -> & HF & Hl). apply ledger_concat in HF. destruct HF as [Hc Hd].
    rewrite Hc, Hd, (all_flat_map VK_OBJECT_TYPE_IMAGE_VIEW (fun v => v)), map_id. auto.
  - intros i t0 v Hb. chop. ledger; auto.
Qed.

Lemma createCommandBuffers_ledger d q n t x :
  performs (createCommandBuffers d q n) t (Returned x) ->
  length (snd x) = Z.to_nat n /\ destroyed t = [] /\
  (Forall delivered t ->
   created t = (VK_OBJECT_TYPE_COMMAND_POOL, fst x) ::
               all VK_OBJECT_TYPE_COMMAND_BUFFER (snd x)).
Proof.
  unfold createCommandBuffers. intros H. chop. cbn [fst snd].
  split; [apply filled_length|]. split; [ledger; auto|].
  intros Hdel. rewrite Forall_forall in Hdel.
  match goal with
  | |- context [filled ?n (handles ?a) _] =>
      match type of Hdel with
      | context [(?c, a)] =>
          rewrite (filled_all n (handles a)) by (apply (Hdel (c, a)); in_list)
      end
  end.
  ledger; auto.
Qed.

Lemma createSynchronization_ledger d n t x :
  performs (createSynchronization d n) t (Returned x) ->
  created t = all VK_OBJECT_TYPE_FENCE (fst (fst x)) ++
              all VK_OBJECT_TYPE_FENCE (snd (fst x)) ++
              all VK_OBJECT_TYPE_SEMAPHORE (snd x) /\
  destroyed t = [] /\
  length (fst (fst x)) = Z.to_nat n /\ length (snd (fst x)) = Z.to_nat n /\
  length (snd x) = Z.to_nat n.
Proof.
  unfold createSynchronization. cbv zeta. intros H. chop.
  repeat match goal with
  | H : performs (each _ (create (vkCreateFence _ _))) _ _ |- _ =>
      apply (each_returned
               (fun t v => created t = [(VK_OBJECT_TYPE_FENCE, v)] /\ destroyed t = []))
        in H; [|intros ? ? Hb; chop; ledger; auto];
      let ts := fresh "ts" in let HF := fresh "HF" in
      destruct H as (ts & -> & HF & ?); apply ledger_concat in HF; destruct HF as [? ?]
  | H : performs (each _ (create (vkCreateSemaphore _))) _ _ |- _ =>
      apply (each_returned
               (fun t v => created t = [(VK_OBJECT_TYPE_SEMAPHORE, v)] /\ destroyed t = []))
        in H; [|intros ? ? Hb; chop; ledger; auto];
      let ts := fresh "ts" in let HF := fresh "HF" in
      destruct H as (ts & -> & HF & ?); apply ledger_concat in HF; destruct HF as [? ?]
  end.
  cbn [fst snd]. autorewrite with ledger.
  repeat match goal with H : created _ = _ |- _ => rewrite H; clear H end.
  repeat match goal with H : destroyed _ = _ |- _ => rewrite H; clear H end.
  rewrite (all_flat_map VK_OBJECT_TYPE_FENCE (fun v => v)),
          (all_flat_map VK_OBJECT_TYPE_SEMAPHORE (fun v => v)), !map_id.
  auto.
Qed.

Lemma createFramebuffers_ledger d s views t x :
  performs (createFramebuffers d s views) t (Returned x) ->
  created t = (VK_OBJECT_TYPE_RENDER_PASS, fst x) ::
              all VK_OBJECT_TYPE_FRAMEBUFFER (snd x) /\
  destroyed t = [] /\
  length (snd x) = Z.to_nat (swapchainImageCount s).
Proof.
  unfold createFramebuffers. intros H. chop.
  match goal with
  | H : performs (each_index _ _ _) _ _ |- _ =>
      apply (each_index_returned
               (fun t v => created t = [(VK_OBJECT_TYPE_FRAMEBUFFER, v)] /\
                           destroyed t = []))
        in H; [|intros ? ? ? Hb; chop; ledger; auto];
      destruct H as (ts & -> & HF & ?); apply ledger_concat in HF; destruct HF as [Hc Hd]
  end.
  cbn [fst snd]. ledger; rewrite Hc, Hd,
    (all_flat_map VK_OBJECT_TYPE_FRAMEBUFFER (fun v => v)), map_id; auto.
Qed.

Lemma createPipeline_ledger d rp e t x :
  performs (createPipeline vertexShaderCode fragmentShaderCode draw_vertex draw_fragment
              CompileGlslToSpv d rp e) t (Returned x) ->
  created t = [(VK_OBJECT_TYPE_SHADER_MODULE, mVertexShaderModule x);
               (VK_OBJECT_TYPE_SHADER_MODULE, mFragmentShaderModule x);
               (VK_OBJECT_TYPE_DESCRIPTOR_SET_LAYOUT, mDescriptorSetLayout x);
               (VK_OBJECT_TYPE_PIPELINE_LAYOUT, mPipelineLayout x);
               (VK_OBJECT_TYPE_PIPELINE, mPipeline x)] /\
  destroyed t = [].
Proof.
  unfold createPipeline, compileShader. intros H. chop_all.
  autorewrite with ledger.
  repeat match goal with H : created _ = _ |- _ => rewrite H; clear H end.
  repeat match goal with H : destroyed _ = _ |- _ => rewrite H; clear H end.
  ledger; auto.
Qed.

Lemma createVertexBuffer_ledger d props cbs t x :
  performs (createVertexBuffer d props cbs) t (Returned x) ->
  created t = [(VK_OBJECT_TYPE_BUFFER, stagingBuffer x);
               (VK_OBJECT_TYPE_DEVICE_MEMORY, stagingMemory x);
               (host_mapping, stagingMemory x);
               (VK_OBJECT_TYPE_BUFFER, mVertexBuffer x);
               (VK_OBJECT_TYPE_DEVICE_MEMORY, mVertexMemory x)] /\
  destroyed t = [(host_mapping, stagingMemory x)] /\
  at_ cbs 0 = Some (uploadCommandBuffer x).
Proof.
  unfold createVertexBuffer, createBuffer, memoryTypeIndex. intros H. chop.
  cbn [fst snd stagingBuffer stagingMemory mVertexBuffer mVertexMemory
       uploadCommandBuffer].
  ledger; auto.
Qed.

Lemma createUniforms_ledger d props n t x :
  performs (createUniforms d props n) t (Returned x) ->
  created t = flat_map slot_objects x /\ destroyed t = [] /\
  length x = Z.to_nat n /\
  Forall (fun u => pointee (snd u) = zeroed) x.
Proof.
  unfold createUniforms. intros H.
  apply (each_index_returned
           (fun t u => (created t = slot_objects u /\ destroyed t = []) /\
                       pointee (snd u) = zeroed)) in H.
  - destruct H as (ts & -> & HF & Hl).
    assert (HF1 : Forall2 (fun t u => created t = slot_objects u /\ destroyed t = []) ts x).
    { clear Hl. induction HF as [|? ? ? ? [? ?]]; constructor; auto. }
    assert (HF2 : Forall (fun u => pointee (snd u) = zeroed) x).
    { clear Hl HF1. induction HF as [|? ? ? ? [? ?]]; constructor; auto. }
    apply ledger_concat in HF1. destruct HF1 as [Hc Hd]. auto.
  - intros i t0 u Hb. unfold createUniform, createBuffer, memoryTypeIndex in Hb. chop.
    unfold slot_objects. cbn [fst snd pointee]. split; [|reflexivity]. ledger; auto.
Qed.

Lemma createTextureImage_ledger d props t x :
  performs (createTextureImage assetManager d props) t (Returned x) ->
  created t = [(texture, mTexture x);
               (VK_OBJECT_TYPE_IMAGE, mImage x);
               (VK_OBJECT_TYPE_DEVICE_MEMORY, mMemory x);
               (host_mapping, mMemory x);
               (VK_OBJECT_TYPE_IMAGE_VIEW, mImageView x)] /\
  destroyed t = [(host_mapping, mMemory x)].
Proof.
  unfold createTextureImage, uploadTexture, memoryTypeIndex. cbv zeta. intros H. chop.
  cbn [mTexture mImage mMemory mImageView]. ledger; auto.
Qed.

Lemma finishUpload_ledger d q v i t x :
  performs (finishUpload d q v i) t (Returned x) ->
  created t = [] /\
  destroyed t = [(VK_OBJECT_TYPE_DEVICE_MEMORY, stagingMemory v);
                 (VK_OBJECT_TYPE_BUFFER, stagingBuffer v)].
Proof.
  unfold finishUpload. intros H. chop. ledger; auto.
Qed.

Lemma createDescriptors_ledger d n layout view buffers t x :
  performs (createDescriptors d n layout view buffers) t (Returned x) ->
  created t = (VK_OBJECT_TYPE_SAMPLER, fst (fst x)) ::
              (VK_OBJECT_TYPE_DESCRIPTOR_POOL, snd (fst x)) ::
              all VK_OBJECT_TYPE_DESCRIPTOR_SET (snd x) /\
  destroyed t = [] /\
  length (snd x) = Z.to_nat n.
Proof.
  unfold createDescriptors. intros H. chop.
  match goal with
  | H : performs (each _ _) _ _ |- _ =>
      apply (each_returned
               (fun t v => created t = [(VK_OBJECT_TYPE_DESCRIPTOR_SET, v)] /\
                           destroyed t = []))
        in H; [|intros ? ? Hb; chop; ledger; auto];
      let HF := fresh "HF" in
      destruct H as (ts & -> & HF & ?); apply ledger_concat in HF;
      destruct HF as [Hc Hd]
  end.
  match goal with
  | H : performs (each_index _ _ _) _ _ |- _ =>
      apply (each_index_returned
               (fun t (v : Answer) => created t = [] /\ destroyed t = []))
        in H; [|intros ? ? ? Hb; chop; ledger; auto];
      let HF := fresh "HF" in
      destruct H as (ts' & -> & HF & ?); apply ledger_concat in HF;
      destruct HF as [Hc' Hd']
  end.
  cbn [fst snd]. ledger;
    rewrite ?Hc, ?Hd, ?Hc', ?Hd', ?flat_map_none,
      ?(all_flat_map VK_OBJECT_TYPE_DESCRIPTOR_SET (fun v => v)), ?map_id,
      ?app_nil_r; auto.
Qed.

End Blocks.

(** ** The constructor: the renderer it leaves behind *)

Lemma Object_eq_dec (x y : Lifecycle.Object) : {x = y} + {x <> y}.
Proof.
  decide equality; [apply Z.eq_dec|].
  decide equality.
Qed.

Lemma count_occ_first (a : Lifecycle.Object) l x :
  count_occ Object_eq_dec (a :: l) x =
  (count_occ Object_eq_dec [a] x + count_occ Object_eq_dec l x)%nat.
Proof. apply (count_occ_app Object_eq_dec [a] l x). Qed.

Lemma count_occ_first2 (a b : Lifecycle.Object) l x :
  count_occ Object_eq_dec (a :: b :: l) x =
  (count_occ Object_eq_dec [a] x + count_occ Object_eq_dec (b :: l) x)%nat.
Proof. apply count_occ_first. Qed.

Lemma count_occ_first_map {X : Type} (a : Lifecycle.Object) (f : X -> Lifecycle.Object) l x :
  count_occ Object_eq_dec (a :: map f l) x =
  (count_occ Object_eq_dec [a] x + count_occ Object_eq_dec (map f l) x)%nat.
Proof. apply count_occ_first. Qed.

Lemma count_occ_first_all (a : Lifecycle.Object) k l x :
  count_occ Object_eq_dec (a :: Lifecycle.all k l) x =
  (count_occ Object_eq_dec [a] x + count_occ Object_eq_dec (Lifecycle.all k l) x)%nat.
Proof. apply count_occ_first. Qed.

Lemma count_occ_first_app (a : Lifecycle.Object) l1 l2 x :
  count_occ Object_eq_dec (a :: l1 ++ l2) x =
  (count_occ Object_eq_dec [a] x + count_occ Object_eq_dec (l1 ++ l2) x)%nat.
Proof. apply count_occ_first. Qed.

(** Counts the occurrences of an object list by list. *)
Ltac count_objects :=
  repeat rewrite count_occ_app;
  cbn [app];
  repeat first
    [ rewrite count_occ_app
    | rewrite count_occ_first2
    | rewrite count_occ_first_map
    | rewrite count_occ_first_all
    | rewrite count_occ_first_app ].

Section Constructed.

Import Setup Construction Lifecycle.

Variables (nativeWindow assetManager : Z).
Variable clearValue : VkClearValue.
Variables (vertexShaderCode fragmentShaderCode : string).
Variables (draw_vertex draw_fragment : Z -> Z).
Variable CompileGlslToSpv : string -> Z -> list Z -> Shader.SpvCompilationResult.

Lemma count_slot_objects x (us : list (Handle * Handle * Mapped)) :
  count_occ Object_eq_dec (flat_map slot_objects us) x =
  (count_occ Object_eq_dec (all VK_OBJECT_TYPE_BUFFER (map (fun u => fst (fst u)) us)) x +
   count_occ Object_eq_dec
     (all VK_OBJECT_TYPE_DEVICE_MEMORY (map (fun u => snd (fst u)) us)) x +
   count_occ Object_eq_dec (all host_mapping (map (fun u => snd (fst u)) us)) x)%nat.
Proof.
  unfold all. induction us as [|u us IH]; [reflexivity|].
  cbn [flat_map map]. unfold slot_objects at 1.
  count_objects. rewrite IH. lia.
Qed.

Lemma constructor_returned t this :
  performs (constructor nativeWindow assetManager clearValue vertexShaderCode
              fragmentShaderCode draw_vertex draw_fragment CompileGlslToSpv)
           t (Returned this) ->
  Forall delivered t ->
  wf this /\
  mFrameIndex this = 0 /\
  Forall (fun u => pointee u = zeroed) (mUniformData this) /\
  Permutation (created t) (destroyed t ++ owned this).
Proof.
  unfold constructor. cbv zeta. intros H Hdel. chop.
  rewrite !Forall_app in Hdel.
  repeat match goal with H : _ /\ _ |- _ => destruct H end.
  repeat match goal with
  | H : performs createInstance _ _ |- _ =>
      apply createInstance_ledger in H; destruct H as [? ?]
  | H : performs (selectPhysicalDevice _) _ _ |- _ =>
      apply selectPhysicalDevice_ledger in H; destruct H as [? ?]
  | H : performs (createDevice _) _ _ |- _ =>
      apply createDevice_ledger in H; destruct H as [? ?]
  | H : performs (createSurface _ _ _ _) _ _ |- _ =>
      apply createSurface_ledger in H; destruct H as [? ?]
  | H : performs (createSwapchain _ _ _) _ _ |- _ =>
      let Hi := fresh "Himages" in
      pose proof (createSwapchain_images _ _ _ _ _ H) as Hi;
      destruct Hi as (Hmax & Hpos & Hle & Hcount);
      apply createSwapchain_ledger in H; destruct H as [? ?]
  | H : performs (createImageViews _ _) _ _ |- _ =>
      apply createImageViews_ledger in H; destruct H as (? & ? & Hviews)
  | H : performs (createCommandBuffers _ _ _) _ _ |- _ =>
      apply createCommandBuffers_ledger in H; destruct H as (Hcbs & ? & Hpool)
  | H : performs (createSynchronization _ _) _ _ |- _ =>
      apply createSynchronization_ledger in H;
      destruct H as (? & ? & Hfs & Hfa & Hsem)
  | H : performs (createFramebuffers _ _ _) _ _ |- _ =>
      apply createFramebuffers_ledger in H; destruct H as (? & ? & Hfb)
  | H : performs (createPipeline _ _ _ _ _ _ _ _) _ _ |- _ =>
      apply createPipeline_ledger in H; destruct H as [? ?]
  | H : performs (createVertexBuffer _ _ _) _ _ |- _ =>
      apply createVertexBuffer_ledger in H; destruct H as (? & ? & Hfirst)
  | H : performs (createUniforms _ _ _) _ _ |- _ =>
      apply createUniforms_ledger in H; destruct H as (? & ? & Hus & Hzero)
  | H : performs (createTextureImage _ _ _) _ _ |- _ =>
      apply createTextureImage_ledger in H; destruct H as [? ?]
  | H : performs (finishUpload _ _ _ _) _ _ |- _ =>
      apply finishUpload_ledger in H; destruct H as [? ?]
  | H : performs (createDescriptors _ _ _ _ _) _ _ |- _ =>
      apply createDescriptors_ledger in H; destruct H as (? & ? & Hds)
  end.
  specialize (Hcount ltac:(assumption)). specialize (Hpool ltac:(assumption)).
  apply at_Some_range in Hfirst.
  split; [|split; [reflexivity|split]].
  - constructor; unfold slots; cbn [Renderer.mSwapchainImages Renderer.mFrameIndex
      Renderer.mCommandBuffers Renderer.mFencesForSubmit Renderer.mFencesForAcquire
      Renderer.mSemaphores Renderer.mFramebuffers Renderer.mUniformData
      Renderer.mDescriptorSets]; rewrite ?length_map; unfold constructed_frame_index;
      unfold UINT32_MAX in *; try lia.
    intros u Hin. apply in_map_iff in Hin. destruct Hin as (x & <- & Hin).
    rewrite Forall_forall in Hzero. rewrite (Hzero x Hin). reflexivity.
  - cbn [Renderer.mUniformData]. rewrite Forall_map. exact Hzero.
  - autorewrite with ledger.
    repeat match goal with H : created _ = _ |- _ => rewrite H; clear H end.
    repeat match goal with H : destroyed _ = _ |- _ => rewrite H; clear H end.
    unfold owned.
    cbn [Renderer.mInstance Renderer.mDevice Renderer.mQueue Renderer.mSurface
         Renderer.mSwapchain Renderer.mSwapchainImageViews Renderer.mCommandPool
         Renderer.mCommandBuffers Renderer.mFencesForSubmit Renderer.mFencesForAcquire
         Renderer.mSemaphores Renderer.mRenderPass Renderer.mFramebuffers
         Renderer.mVertexShaderModule Renderer.mFragmentShaderModule
         Renderer.mDescriptorSetLayout Renderer.mPipelineLayout Renderer.mPipeline
         Renderer.mVertexBuffer Renderer.mVertexMemory Renderer.mUniformBuffers
         Renderer.mUniformMemories Renderer.mDescriptorPool Renderer.mDescriptorSets
         Renderer.mTexture Renderer.mImage Renderer.mMemory Renderer.mImageView
         Renderer.mSampler].
    apply (Permutation_count_occ Object_eq_dec). intros x.
    count_objects. rewrite count_slot_objects.
    change (count_occ Object_eq_dec [] x) with 0%nat. lia.
Qed.

End Constructed.

(** ** The life of a renderer *)

Section Destruction.

Import Lifecycle.

Lemma vk_call_returned c t r : performs (call c) t (Returned r) -> t = [(c, r)].
Proof.
  unfold call. intros H. apply performs_Call_inv in H. destruct H as (r' & t' & -> & H).
  apply performs_Ret_inv in H. destruct H as [-> E]. injection E as <-. reflexivity.
Qed.

Lemma vk_checked_returned c t r :
  performs (VK_CHECK_ERROR c) t (Returned r) -> t = [(c, r)].
Proof.
  unfold VK_CHECK_ERROR. intros H.
  apply performs_Call_inv in H. destruct H as (r' & t' & -> & H).
  destruct (result r' =? VK_SUCCESS).
  - apply performs_Ret_inv in H. destruct H as [-> E]. injection E as <-. reflexivity.
  - apply performs_Abort_inv in H. destruct H as [_ H]. discriminate.
Qed.

Lemma for_each_destroys {X : Type} (f : X -> action) (l : list X) : forall t u,
  performs (for_each l (fun x => call (f x))) t (Returned u) ->
  flat_map (fun e => destroys (fst e)) t = flat_map (fun x => destroys (f x)) l.
Proof.
  induction l as [|x l IH]; intros t u H; cbn [for_each] in H.
  - apply performs_Ret_inv in H. destruct H as [-> _]. reflexivity.
  - apply performs_bind_returned in H. destruct H as (t1 & r & t2 & -> & H1 & H2).
    apply vk_call_returned in H1. subst t1. cbn. rewrite (IH _ _ H2). reflexivity.
Qed.

(** A destructor that returns has destroyed what the members stand for. *)
Lemma destructor_ledger (this : VkRenderer) t :
  performs (destructor this) t (Returned tt) ->
  flat_map (fun e => destroys (fst e)) t = owned this.
Proof.
  unfold destructor, teardown. cbv zeta. intros H.
  repeat match goal with
  | H : performs (bind _ _) _ (Returned _) |- _ =>
      apply performs_bind_returned in H;
      let t1 := fresh "t" in let a := fresh "a" in let t2 := fresh "t" in
      let H2 := fresh "H" in
      destruct H as (t1 & a & t2 & -> & H & H2); cbn beta in *
  | H : performs (call _) _ (Returned _) |- _ => apply vk_call_returned in H; subst
  | H : performs (VK_CHECK_ERROR _) _ (Returned _) |- _ =>
      apply vk_checked_returned in H; subst
  | H : performs (Ret _) _ (Returned _) |- _ =>
      apply performs_Ret_inv in H; destruct H as [-> _]
  | H : performs (for_each _ _) _ (Returned _) |- _ =>
      apply for_each_destroys in H
  end.
  rewrite !flat_map_app.
  repeat match goal with
  | H : flat_map _ _ = _ |- _ => rewrite H; clear H
  end.
  cbn [flat_map fst destroys app]. rewrite !app_nil_r.
  rewrite !(all_flat_map _ (fun v => v)), !map_id.
  unfold owned. cbn [app]. reflexivity.
Qed.

Lemma update_destroys_nothing (e : VkExtent2D) (u : Mapped) :
  all_calls (fun c => destroys c = []) (update e u).
Proof.
  unfold update, store_ratio. apply all_calls_bind.
  - cbn [bump_loop]. change (0 <? 8) with true. change (0 + 4 <? 8) with true.
    change (0 + 4 + 4 <? 8) with false. cbv iota.
    unfold bump, index, store_position. all_calls_tac; auto.
  - intros u1. all_calls_tac; auto.
Qed.

Lemma render_destroys_nothing (this : VkRenderer) :
  all_calls (fun c => destroys c = []) (render this).
Proof.
  unfold render, record, index.
  repeat first
    [ apply update_destroys_nothing
    | apply calls_ret | apply calls_abort | apply calls_undef
    | apply calls_call; [reflexivity|intros ?]
    | apply all_calls_bind; [|intros ?]
    | match goal with
      | |- all_calls _ (if ?b then _ else _) => destruct b
      | |- all_calls _ (match at_ ?v ?i with _ => _ end) => destruct (at_ v i)
      | |- all_calls _ (VK_CHECK_ERROR _) => unfold VK_CHECK_ERROR
      | |- all_calls _ (call _) => unfold call
      | |- all_calls _ (let _ := _ in _) => cbv zeta
      end ].
Qed.

(** Rendering creates and destroys nothing and leaves the handles of the
    renderer as they are. *)
Lemma frames_ledger (n : nat) : forall this t this',
  wf this -> performs (frames n this) t (Returned this') ->
  flat_map (fun e => destroys (fst e)) t = [] /\
  owned this' = owned this /\ destructor this' = destructor this.
Proof.
  induction n as [|n IH]; intros this t this' Hwf H.
  - cbn in H. apply performs_Ret_inv in H. destruct H as [-> E]. injection E as <-.
    auto.
  - cbn [frames] in H. apply performs_bind_returned in H.
    destruct H as (t1 & this1 & t2 & -> & H1 & H2).
    destruct (render_wf this Hwf _ _ H1) as [Hwf1 _].
    destruct (render_frame this Hwf _ _ H1) as (u' & img & _ & _ & _ & _ & _ & E & _).
    destruct (IH this1 t2 this' Hwf1 H2) as (Hd & Ho & Hdes).
    rewrite flat_map_app, Hd, app_nil_r, Ho, Hdes, E.
    split; [|split; reflexivity].
    pose proof (all_calls_performs _ _ (render_destroys_nothing this) _ _ H1) as Hall.
    clear - Hall. induction t1 as [|[c r] t1 IHt]; [reflexivity|].
    cbn. rewrite (Hall c r) by (left; reflexivity). apply IHt.
    intros c' r' Hin. apply (Hall c' r'). right. assumption.
Qed.

End Destruction.

Section Lifetime.

Import Setup Construction Lifecycle.

(** A run of a program over the entry points of [render] and the
    destructor creates nothing, and destroys what its calls destroy. *)
Lemma lifted_ledger {X : Type} (p : Vk.Prog X) t x :
  performs (lift p) t (Returned x) ->
  exists t0, Vk.performs p t0 (Vk.Returned x) /\
             created t = [] /\
             destroyed t = flat_map (fun e => destroys (fst e)) t0 /\
             Forall delivered t.
Proof.
  intros H. destruct (lift_returned p t x H) as (t0 & H0 & E).
  exists t0. split; [assumption|]. clear H H0. revert t0 E.
  induction t as [|[c a] t IH]; intros [|[c0 r0] t0] E; try discriminate E.
  - repeat split; constructor.
  - cbn in E. injection E as -> _ E. destruct (IH _ E) as (Hc & Hd & Hdel).
    rewrite created_cons, destroyed_cons, Hc, Hd.
    repeat split; [|constructor; [exact I|assumption]].
    unfold creates. destruct (status a =? VK_SUCCESS); reflexivity.
Qed.

End Lifetime.

(** ** The constructor and the device *)

Section SetupCalls.

Import Setup Construction Lifecycle.

Lemma every_performs {A : Type} (phi : request -> Prop) (p : Prog A) :
  every phi p -> forall t o, performs p t o -> Forall (fun e => phi (fst e)) t.
Proof.
  induction 1 as [a|f| |c k Hc Hk IH]; intros t o H.
  - apply setup_ret_inv in H. destruct H as [-> _]. constructor.
  - apply setup_abort_inv in H. destruct H as [-> _]. constructor.
  - apply setup_undef_inv in H. destruct H as [-> _]. constructor.
  - apply setup_call_inv in H. destruct H as (a & t' & -> & H).
    constructor; [assumption|eauto].
Qed.

Lemma every_bind {A B : Type} (phi : request -> Prop) (p : Prog A) (f : A -> Prog B) :
  every phi p -> (forall a, every phi (f a)) -> every phi (bind p f).
Proof.
  intros Hp Hf. induction Hp as [a|e| |c k Hc Hk IH]; cbn; try constructor; auto.
Qed.

Lemma every_each {X : Type} (phi : request -> Prop) (body : Prog X) :
  every phi body -> forall n, every phi (each n body).
Proof.
  intros Hb. induction n as [|n IH]; cbn; [constructor|].
  apply every_bind; [assumption|]. intros x.
  apply every_bind; [assumption|]. intros xs. constructor.
Qed.

Lemma every_each_index {X : Type} (phi : request -> Prop) (body : Z -> Prog X) :
  (forall i, every phi (body i)) -> forall n i, every phi (each_index n i body).
Proof.
  intros Hb. induction n as [|n IH]; intros i; cbn; [constructor|].
  apply every_bind; [apply Hb|]. intros x.
  destruct (i =? INT_MAX); [constructor|].
  apply every_bind; [apply IH|]. intros xs. constructor.
Qed.

Lemma every_say (phi : request -> Prop) (lines : list string) :
  (forall l, phi (aout l)) -> every phi (say lines).
Proof.
  intros H. induction lines as [|l lines IH]; cbn; [constructor|].
  constructor; [apply H|]. intros a. cbn. assumption.
Qed.

Lemma every_lift {X : Type} (phi : request -> Prop) (psi : action -> Prop) (p : Vk.Prog X) :
  all_calls psi p -> (forall c, psi c -> phi (act c)) -> every phi (lift p).
Proof.
  intros Hp Himp. induction Hp as [a|f| |c k Hc Hk IH]; cbn; constructor; auto.
Qed.

Lemma selectExtensions_calls wanted n l :
  all_calls (fun _ => False) (Selection.selectExtensions wanted n l).
Proof.
  unfold Selection.selectExtensions. cbv zeta.
  destruct (Nat.eqb _ _); cbn; constructor.
Qed.

Lemma findCompositeAlpha_calls s :
  all_calls (fun _ => False) (Selection.findCompositeAlpha s).
Proof.
  unfold Selection.findCompositeAlpha. cbv zeta.
  destruct (negb _); cbn; constructor.
Qed.

End SetupCalls.

(** Goes through a program of the constructor call by call. *)
Ltac every_tac :=
  repeat first
    [ apply Lifecycle.every_ret | apply Lifecycle.every_abort | apply Lifecycle.every_undef
    | apply Lifecycle.every_call; [reflexivity|intros ?]
    | apply every_each
    | apply every_each_index; intros ?
    | apply every_say; intros ?; reflexivity
    | eapply every_lift; [apply selectExtensions_calls|intros ? []]
    | eapply every_lift; [apply findCompositeAlpha_calls|intros ? []]
    | apply every_bind; [|intros ?]
    | match goal with
      | |- Lifecycle.every _ (Setup.call _) => unfold Setup.call
      | |- Lifecycle.every _ (Setup.VK_CHECK_ERROR _) => unfold Setup.VK_CHECK_ERROR
      | |- Lifecycle.every _ (Construction.create _) => unfold Construction.create
      | |- Lifecycle.every _ (Setup.check _ _) => unfold Setup.check
      | |- Lifecycle.every _ (Setup.assert ?b) => destruct b; cbn [Setup.assert]
      | |- Lifecycle.every _ (Setup.index ?v ?i) => unfold Setup.index; destruct (at_ v i)
      | |- Lifecycle.every _ (Setup.defined ?x) => destruct x; cbn [Setup.defined]
      | |- Lifecycle.every _ (Setup.enumerate _ _ _ _) => unfold Setup.enumerate
      | |- Lifecycle.every _ (if ?b then _ else _) => destruct b
      | |- Lifecycle.every _ (let _ := _ in _) => cbv zeta
      end ].

Section Calm.

Import Setup Construction Lifecycle Bringup.

Variables (nativeWindow assetManager : Z).
Variables (vertexShaderCode fragmentShaderCode : string).
Variables (draw_vertex draw_fragment : Z -> Z).
Variable CompileGlslToSpv : string -> Z -> list Z -> Shader.SpvCompilationResult.

Local Abbreviation calm := (every (fun c => keeps_fences c = true)).

Lemma createInstance_calm : calm createInstance.
Proof. unfold createInstance, Selection.instanceExtensionNames. every_tac. Qed.

Lemma selectPhysicalDevice_calm i : calm (selectPhysicalDevice i).
Proof. unfold selectPhysicalDevice. every_tac. Qed.

Lemma createDevice_calm pd : calm (createDevice pd).
Proof. unfold createDevice, Selection.deviceExtensionNames. every_tac. Qed.

Lemma createSurface_calm i pd q : calm (createSurface nativeWindow i pd q).
Proof. unfold createSurface. every_tac. Qed.

Lemma createSwapchain_calm pd d s : calm (createSwapchain pd d s).
Proof. unfold createSwapchain. every_tac. Qed.

Lemma createImageViews_calm d s : calm (createImageViews d s).
Proof. unfold createImageViews. every_tac. Qed.

Lemma createCommandBuffers_calm d q n : calm (createCommandBuffers d q n).
Proof. unfold createCommandBuffers. every_tac. Qed.

Lemma createFramebuffers_calm d s v : calm (createFramebuffers d s v).
Proof. unfold createFramebuffers. every_tac. Qed.

Lemma createPipeline_calm d rp e :
  calm (createPipeline vertexShaderCode fragmentShaderCode draw_vertex draw_fragment
          CompileGlslToSpv d rp e).
Proof. unfold createPipeline, compileShader. every_tac. Qed.

Lemma createVertexBuffer_calm d props cbs : calm (createVertexBuffer d props cbs).
Proof. unfold createVertexBuffer, createBuffer, memoryTypeIndex. every_tac. Qed.

Lemma createUniforms_calm d props n : calm (createUniforms d props n).
Proof.
  unfold createUniforms, createUniform, createBuffer, memoryTypeIndex. every_tac.
Qed.

Lemma createTextureImage_calm d props : calm (createTextureImage assetManager d props).
Proof. unfold createTextureImage, uploadTexture, memoryTypeIndex. every_tac. Qed.

Lemma finishUpload_calm d q v i : calm (finishUpload d q v i).
Proof. unfold finishUpload. every_tac. Qed.

Lemma createDescriptors_calm d n l v bs : calm (createDescriptors d n l v bs).
Proof. unfold createDescriptors. every_tac. Qed.

Lemma createDescriptors_submits_nothing d n l v bs :
  every (fun c => submits_nothing c = true) (createDescriptors d n l v bs).
Proof. unfold createDescriptors. every_tac. Qed.

End Calm.

Section Device.

Import Setup Construction Lifecycle Bringup.

Lemma possible_app_inv t1 t2 w w' :
  possible w (t1 ++ t2) w' -> exists wm, possible w t1 wm /\ possible wm t2 w'.
Proof.
  intros H. remember (t1 ++ t2) as t eqn:E. revert t1 t2 E.
  induction H as [w|w c a w1 t w' Ha H IH|w w1 t w' Hp H IH]; intros t1 t2 E.
  - symmetry in E. apply app_eq_nil in E. destruct E as [-> ->].
    exists w. split; constructor.
  - destruct t1 as [|e t1].
    + cbn in E. subst t2. exists w. split; [constructor|].
      eapply possible_call; eassumption.
    + cbn in E. injection E as <- ->. destruct (IH _ _ eq_refl) as (wm & H1 & H2).
      exists wm. split; [eapply possible_call; eassumption|assumption].
  - destruct (IH _ _ E) as (wm & H1 & H2).
    exists wm. split; [eapply possible_device; eassumption|assumption].
Qed.

Lemma possible_cons_inv c a t w w' :
  possible w ((c, a) :: t) w' ->
  exists w1 w2, possible w [] w1 /\ answers w1 c a = Some w2 /\ possible w2 t w'.
Proof.
  intros H. remember ((c, a) :: t) as t0 eqn:E. revert E.
  induction H as [w|w c0 a0 w1 t1 w' Ha H IH|w w1 t1 w' Hp H IH]; intros E.
  - discriminate E.
  - injection E as -> -> ->. exists w, w1. split; [constructor|auto].
  - destruct (IH E) as (w2 & w3 & H1 & H2 & H3).
    exists w2, w3. split; [eapply possible_device; eassumption|auto].
Qed.

(** What holds before a run, survives the device, and survives every
    event of the run, holds after it. *)
Lemma possible_invariant (I : World -> Prop) (phi : request * Answer -> Prop) :
  (forall w w', I w -> progress w w' -> I w') ->
  (forall w c a w', phi (c, a) -> I w -> answers w c a = Some w' -> I w') ->
  forall w t w', possible w t w' -> Forall phi t -> I w -> I w'.
Proof.
  intros Hdev Hcall w t w' H.
  induction H as [w|w c a w1 t w' Ha H IH|w w1 t w' Hp H IH]; intros HF HI.
  - assumption.
  - inversion HF as [|? ? He HF']; subst. apply IH; [assumption|]. eauto.
  - apply IH; [assumption|]. eauto.
Qed.

Lemma signaled_all_stable fs w w' :
  signaled_all fs w -> progress w w' -> signaled_all fs w'.
Proof.
  intros [Hacq Hfs] Hp.
  inversion Hp as [w0 before s after E|w0 before f after E]; subst; cbn.
  - split; [assumption|]. intros f Hin. apply signal_keeps. auto.
  - rewrite Hacq in E. destruct before; discriminate E.
Qed.

Lemma signaled_all_spared fs w c a w' :
  spares fs (c, a) -> signaled_all fs w -> answers w c a = Some w' ->
  signaled_all fs w'.
Proof.
  intros Hs [Hacq Hfs] Ha. unfold spares in Hs. cbn [fst snd] in Hs.
  destruct c; cbn in Ha;
    try (injection Ha as <-; split; assumption).
  - (* vkCreateFence *)
    destruct (status a =? VK_SUCCESS); injection Ha as <-; [|split; assumption].
    split; [assumption|]. cbn. intros f Hin. unfold set_fence.
    destruct (Z.eqb_spec f (handle a)) as [->|Hne]; [|auto].
    destruct Hs as [Hs|Hs]; [assumption|contradiction].
  - (* the entry points of render and the destructor *)
    unfold returns in Ha.
    destruct (negb (result (reply a) =? VK_SUCCESS));
      [injection Ha as <-; split; assumption|].
    destruct c; try discriminate Hs;
      try (injection Ha as <-; split; assumption).
    + destruct (forallb _ _); [injection Ha as <-; split; assumption|discriminate].
    + destruct (inflight w); [injection Ha as <-; split; assumption|discriminate].
    + destruct (inflight w); [injection Ha as <-; split; assumption|discriminate].
Qed.

Lemma calm_spares fs t :
  Forall (fun e => keeps_fences (fst e) = true) t -> Forall (spares fs) t.
Proof.
  apply Forall_impl. intros [c a] H. unfold spares. cbn [fst snd] in *.
  destruct c; try assumption. discriminate H.
Qed.

Lemma calm_signaled_all fs t w w' :
  Forall (fun e => keeps_fences (fst e) = true) t ->
  possible w t w' -> signaled_all fs w -> signaled_all fs w'.
Proof.
  intros HF Hp.
  apply (possible_invariant (signaled_all fs) (spares fs)
           (signaled_all_stable fs) (signaled_all_spared fs) w t w' Hp).
  apply calm_spares. assumption.
Qed.

(** The fences a loop creates signaled are signaled after it. *)
Lemma signaled_fences_created d ts fs :
  Forall2 (fence_created d VK_FENCE_CREATE_SIGNALED_BIT) ts fs ->
  forall seen w w', possible w (concat ts) w' ->
    signaled_all seen w -> signaled_all (seen ++ fs) w'.
Proof.
  induction 1 as [|t f ts fs (a & -> & Hok & ->) _ IH]; intros seen w w' Hp Hw.
  - cbn in Hp. rewrite app_nil_r.
    apply (calm_signaled_all seen [] w w'); [constructor|assumption|assumption].
  - cbn [concat app] in Hp. apply possible_cons_inv in Hp.
    destruct Hp as (w1 & w2 & H1 & Ha & H2).
    assert (Hw1 : signaled_all seen w1).
    { apply (calm_signaled_all seen [] w w1); [constructor|assumption|assumption]. }
    cbn in Ha. rewrite Hok in Ha. cbn in Ha. injection Ha as <-.
    replace (seen ++ handle a :: fs) with ((seen ++ [handle a]) ++ fs)
      by (rewrite <- app_assoc; reflexivity).
    apply (IH _ _ _ H2). destruct Hw1 as [Hacq Hfs]. split; [assumption|].
    cbn. intros f Hin. unfold set_fence.
    destruct (Z.eqb_spec f (handle a)) as [->|Hne]; [reflexivity|].
    apply in_app_or in Hin. destruct Hin as [Hin|[E|[]]]; [auto|congruence].
Qed.

(** Fences created unsignaled leave other fences as they are. *)
Lemma other_fences_created d flags ts fa fs :
  Forall2 (fence_created d flags) ts fa ->
  (forall f, In f fa -> ~ In f fs) ->
  Forall (spares fs) (concat ts).
Proof.
  induction 1 as [|t f ts fa (a & -> & Hok & ->) _ IH]; intros Hdis; cbn.
  - constructor.
  - constructor.
    + unfold spares. cbn [fst snd]. right. apply Hdis. left. reflexivity.
    + apply IH. intros f Hin. apply Hdis. right. assumption.
Qed.

Lemma idle_kept w c a w' :
  submits_nothing c = true -> inflight w = [] -> answers w c a = Some w' ->
  inflight w' = [].
Proof.
  intros Hs Hw Ha.
  destruct c; cbn in Ha; try (injection Ha as <-; assumption).
  - destruct (status a =? VK_SUCCESS); injection Ha as <-; assumption.
  - unfold returns in Ha.
    destruct (negb (result (reply a) =? VK_SUCCESS)); [injection Ha as <-; assumption|].
    destruct c; try discriminate Hs; try (injection Ha as <-; assumption).
    + destruct (forallb _ _); [injection Ha as <-; assumption|discriminate].
    + destruct (inflight w) eqn:E; [injection Ha as <-; assumption|discriminate].
    + destruct (inflight w) eqn:E; [injection Ha as <-; assumption|discriminate].
Qed.

Lemma idle_possible t w w' :
  Forall (fun e => submits_nothing (fst e) = true) t ->
  possible w t w' -> inflight w = [] -> inflight w' = [].
Proof.
  intros HF Hp.
  apply (possible_invariant (fun w => inflight w = [])
           (fun e => submits_nothing (fst e) = true) idle_stable
           (fun w1 c a w2 Hc H1 Ha => idle_kept w1 c a w2 Hc H1 Ha) w t w' Hp HF).
Qed.

End Device.

Section Ready.

Import Setup Construction Lifecycle Bringup.

Variables (nativeWindow assetManager : Z).
Variable clearValue : VkClearValue.
Variables (vertexShaderCode fragmentShaderCode : string).
Variables (draw_vertex draw_fragment : Z -> Z).
Variable CompileGlslToSpv : string -> Z -> list Z -> Shader.SpvCompilationResult.

Lemma NoDup_app_apart {X : Type} (l1 l2 : list X) :
  NoDup (l1 ++ l2) -> forall x, In x l2 -> ~ In x l1.
Proof.
  induction l1 as [|y l1 IH]; intros H x H2 H1; [contradiction|].
  cbn in H. inversion H as [|? ? Hy Hnd]; subst.
  destruct H1 as [->|H1]; [|exact (IH Hnd x H2 H1)].
  apply Hy. apply in_or_app. right. assumption.
Qed.

Lemma createSynchronization_shape d n t x :
  performs (createSynchronization d n) t (Returned x) ->
  exists ts1 ts2 t3,
    t = concat ts1 ++ concat ts2 ++ t3 /\
    Forall2 (fence_created d VK_FENCE_CREATE_SIGNALED_BIT) ts1 (fst (fst x)) /\
    Forall2 (fence_created d 0) ts2 (snd (fst x)) /\
    Forall (fun e => keeps_fences (fst e) = true) t3.
Proof.
  unfold createSynchronization. cbv zeta. intros H. chop.
  repeat match goal with
  | H : performs (each _ (create (vkCreateFence _ ?flags))) _ _ |- _ =>
      apply (each_returned (fence_created d flags)) in H;
        [|intros ? ? Hb; chop; eexists; eauto];
      let ts := fresh "ts" in let HF := fresh "HF" in
      destruct H as (ts & -> & HF & _)
  | H : performs (each _ (create (vkCreateSemaphore _))) _ _ |- _ =>
      apply (every_performs (fun c => keeps_fences c = true)) in H; [|every_tac]
  end.
  cbn [fst snd]. rewrite app_nil_r. eauto 10.
Qed.

Lemma finishUpload_idle d q v i t x w w' :
  performs (finishUpload d q v i) t (Returned x) -> possible w t w' ->
  inflight w' = [].
Proof.
  unfold finishUpload. intros H Hp. chop. cbn [app] in Hp.
  do 4 (apply possible_cons_inv in Hp;
        let w1 := fresh "w" in let w2 := fresh "w" in
        let H1 := fresh "H" in let Ha := fresh "Ha" in
        destruct Hp as (w1 & w2 & H1 & Ha & Hp)).
  match goal with
  | Ha : answers ?w1 (act (vkQueueWaitIdle _)) ?a = Some ?w2,
    Hok : status ?a = VK_SUCCESS |- _ =>
      assert (Hidle : inflight w2 = [])
        by (cbn in Ha; unfold returns in Ha; unfold status in Hok; rewrite Hok in Ha;
            cbn in Ha; destruct (inflight w1) eqn:E; [injection Ha as <-; assumption
                                                      |discriminate Ha])
  end.
  eapply idle_possible; [|exact Hp|exact Hidle]. repeat constructor.
Qed.

(** The device after the constructor: the submit fences signaled (they
    were created signaled and nothing reset them), nothing awaited, and
    nothing in flight (the upload was waited for). *)
Lemma constructor_ready t this w0 w :
  performs (constructor nativeWindow assetManager clearValue vertexShaderCode
              fragmentShaderCode draw_vertex draw_fragment CompileGlslToSpv)
           t (Returned this) ->
  possible w0 t w ->
  acquiring w0 = [] ->
  (forall f, In f (mFencesForAcquire this) -> ~ In f (mFencesForSubmit this)) ->
  signaled_all (mFencesForSubmit this) w /\ inflight w = [].
Proof.
  unfold constructor. cbv zeta. intros H Hp Hacq Hapart. chop.
  cbn [Renderer.mFencesForSubmit Renderer.mFencesForAcquire] in *.
  repeat (apply possible_app_inv in Hp;
          let wm := fresh "w" in let H1 := fresh "Hp" in
          destruct Hp as (wm & H1 & Hp)).
  assert (S : signaled_all [] w0) by (split; [assumption|intros ? []]).
  (* up to the fences *)
  repeat match goal with
  | S : signaled_all [] ?w, Hp : possible ?w ?t ?w', H : performs _ ?t _ |- _ =>
      lazymatch type of H with
      | performs (createSynchronization _ _) _ _ => fail
      | _ =>
          let S' := fresh "S" in
          assert (S' : signaled_all [] w')
            by (eapply calm_signaled_all;
                [eapply (every_performs (fun c => keeps_fences c = true)); [|exact H]
                |exact Hp|exact S];
                first [ apply createInstance_calm | apply selectPhysicalDevice_calm
                      | apply createDevice_calm | apply createSurface_calm
                      | apply createSwapchain_calm | apply createImageViews_calm
                      | apply createCommandBuffers_calm ]);
          clear S Hp H
      end
  end.
  (* the fences *)
  lazymatch goal with
  | H : performs (createSynchronization _ _) ?t _, Hp : possible ?w ?t _,
    S : signaled_all [] ?w |- _ =>
      apply createSynchronization_shape in H;
      destruct H as (ts1 & ts2 & tsem & -> & HF1 & HF2 & HF3);
      apply possible_app_inv in Hp; destruct Hp as (wa & Hpa & Hp);
      apply possible_app_inv in Hp; destruct Hp as (wb & Hpb & Hpc);
      pose proof (signaled_fences_created _ _ _ HF1 [] _ _ Hpa S) as Sa;
      cbn [app] in Sa;
      pose proof (possible_invariant _ _ (signaled_all_stable _)
                    (signaled_all_spared _) _ _ _ Hpb
                    (other_fences_created _ _ _ _ _ HF2 Hapart) Sa) as Sb;
      pose proof (calm_signaled_all _ _ _ _ HF3 Hpc Sb) as Sc;
      clear S Sa Sb Hpa Hpb Hpc HF1 HF2 HF3
  end.
  (* the upload has been waited for *)
  assert (Hidle : inflight w = []).
  { match goal with
    | H : performs (finishUpload _ _ _ _) ?t _, Hp : possible _ ?t ?w' |- _ =>
        pose proof (finishUpload_idle _ _ _ _ _ _ _ _ H Hp) as Hi
    end.
    match goal with
    | H : performs (createDescriptors _ _ _ _ _) ?t _, Hp : possible _ ?t ?w' |- _ =>
        pose proof (idle_possible _ _ _
                      (every_performs (fun c => submits_nothing c = true) _
                         (createDescriptors_submits_nothing _ _ _ _ _) _ _ H)
                      Hp Hi) as Hi'
    end.
    apply (idle_possible [] _ _ ltac:(constructor) Hp Hi'). }
  split; [|assumption].
  (* after the fences *)
  repeat match goal with
  | S : signaled_all ?F ?w, Hp : possible ?w ?t ?w', H : performs _ ?t _ |- _ =>
      let S' := fresh "S" in
      assert (S' : signaled_all F w')
        by (eapply calm_signaled_all;
            [eapply (every_performs (fun c => keeps_fences c = true)); [|exact H]
                |exact Hp|exact S];
            first [ apply createFramebuffers_calm | apply createPipeline_calm
                  | apply createVertexBuffer_calm | apply createUniforms_calm
                  | apply createTextureImage_calm | apply finishUpload_calm
                  | apply createDescriptors_calm ]);
      clear S Hp H
  end.
  match goal with
  | S : signaled_all ?F ?w |- _ =>
      apply (calm_signaled_all F [] w _ ltac:(constructor) Hp S)
  end.
Qed.

Lemma frames_reach (n : nat) : forall (this : VkRenderer) (w0 : World),
  wf this ->
  NoDup (mFencesForSubmit this ++ mFencesForAcquire this) ->
  ~ In VK_NULL_HANDLE (mFencesForSubmit this ++ mFencesForAcquire this) ->
  Ready (mFencesForSubmit this) w0 ->
  exists w this',
    steps (w0, frames n this) (w, Vk.Ret this') /\
    Ready (mFencesForSubmit this) w /\
    mFrameIndex this' = (mFrameIndex this + Z.of_nat n) mod slots this.
Proof.
  induction n as [|n IH]; intros this w0 Hwf Hnd Hset Hready.
  - exists w0, this. split; [constructor|]. split; [assumption|].
    destruct Hwf. rewrite Z.add_0_r, Z.mod_small by lia. reflexivity.
  - destruct (render_completes this w0 Hwf Hnd Hset Hready)
      as (w1 & this1 & Hs1 & Hready1 & Hwf1 & Hslots1 & EfS & EfA & Ei).
    destruct (IH this1 w1) as (w & this' & Hs & Hready' & Ei');
      [assumption|rewrite EfS, EfA; assumption|rewrite EfS, EfA; assumption
      |rewrite EfS; assumption|].
    exists w, this'. split; [|split].
    + cbn [frames]. eapply steps_then; eassumption.
    + rewrite <- EfS. assumption.
    + rewrite Ei', Ei, Hslots1. unfold advanced.
      rewrite Z.add_mod_idemp_l by (destruct Hwf; lia). f_equal. lia.
Qed.

End Ready.

Section Replay.

Import Setup Bringup.

Lemma drained_possible : forall l w,
  inflight w = l -> possible w [] (drained w).
Proof.
  induction l as [|s l IH]; intros w E.
  - unfold drained. rewrite E. cbn. rewrite <- E. destruct w. constructor.
  - apply (possible_device w
             {| signaled := signal (signalFence s) (signaled w);
                inflight := l; acquiring := acquiring w |}).
    + apply (queue_completes w [] s l). assumption.
    + replace (drained w)
        with (drained {| signaled := signal (signalFence s) (signaled w);
                         inflight := l; acquiring := acquiring w |})
        by (unfold drained; rewrite E; reflexivity).
      apply IH. reflexivity.
Qed.

Lemma possible_then w t1 wm t2 w' :
  possible w t1 wm -> possible wm t2 w' -> possible w (t1 ++ t2) w'.
Proof.
  induction 1 as [w|w c a w1 t wm Ha H IH|w w1 t wm Hp H IH]; intros H2.
  - assumption.
  - cbn. eapply possible_call; eauto.
  - eapply possible_device; eauto.
Qed.

Lemma replay_possible t : forall w w', replay w t = Some w' -> possible w t w'.
Proof.
  induction t as [|[c a] t IH]; intros w w' H; cbn in H.
  - injection H as <-. constructor.
  - match type of H with
    | match answers ?w1 c a with _ => _ end = _ =>
        assert (H1 : possible w [] w1)
          by (destruct c; try apply possible_nil;
              match goal with
              | |- possible _ _ (match ?c' with _ => _ end) => destruct c'
              end;
              try apply possible_nil; apply (drained_possible _ _ eq_refl));
        destruct (answers w1 c a) as [w2|] eqn:Ha; [|discriminate H];
        apply (possible_then w [] w1 ((c, a) :: t) w' H1);
        eapply possible_call; [exact Ha|apply IH; exact H]
    end.
Qed.

Lemma sample_run_returns : snd sample_run = Returned sample_renderer.
Proof. vm_compute. reflexivity. Qed.

Lemma sample_run_delivered : Forall Lifecycle.delivered (fst sample_run).
Proof.
  vm_compute.
  repeat (apply Forall_cons; [first [exact I | cbn; lia]|]). apply Forall_nil.
Qed.

Lemma sample_run_possible :
  possible SamplerLoop.idle_device (fst sample_run) sample_device.
Proof.
  apply replay_possible. unfold sample_device.
  destruct (replay SamplerLoop.idle_device (fst sample_run)) eqn:E; [reflexivity|].
  vm_compute in E. discriminate E.
Qed.

Lemma sample_lifetime_returns : snd sample_lifetime = Returned tt.
Proof. vm_compute. reflexivity. Qed.

Lemma sample_lifetime_delivered : Forall Lifecycle.delivered (fst sample_lifetime).
Proof.
  vm_compute.
  repeat (apply Forall_cons; [first [exact I | cbn; lia]|]). apply Forall_nil.
Qed.

End Replay.

Section ConstructorTheorems.

Import Setup Construction Lifecycle Bringup.

Variables (nativeWindow assetManager : Z).
Variable clearValue : VkClearValue.
Variables (vertexShaderCode fragmentShaderCode : string).
Variables (draw_vertex draw_fragment : Z -> Z).
Variable CompileGlslToSpv : string -> Z -> list Z -> Shader.SpvCompilationResult.

Local Abbreviation constructor_ :=
  (constructor nativeWindow assetManager clearValue vertexShaderCode
     fragmentShaderCode draw_vertex draw_fragment CompileGlslToSpv).

(** X15.  The renderer a returning constructor leaves behind is well
    formed: if the driver has the swapchain images it announced, there is
    at least one image and at most [UINT32_MAX], the vectors of command
    buffers, fences, semaphores, framebuffers, mapped uniform blocks and
    descriptor sets all have one element per image, the frame index is 0,
    and every uniform block is zeroed. *)
Theorem constructor_establishes_wf (t : Trace) (this : VkRenderer) :
  performs constructor_ t (Returned this) ->
  Forall delivered t ->
  wf this /\ mFrameIndex this = 0 /\
  Forall (fun u => pointee u = zeroed) (mUniformData this).
Proof.
  intros H Hdel.
  destruct (constructor_returned _ _ _ _ _ _ _ _ t this H Hdel) as (Hwf & Hi & Hz & _).
  auto.
Qed.

(** X16.  After the constructor the frame loop can run.  In every state
    of the device that a returning constructor can leave, starting where
    no image is awaited and with a driver that hands out distinct
    non-null fences, nothing is in flight (the upload was waited for),
    every submit fence is signaled (it was created signaled and nothing
    reset it), and [n] frames can run to completion from there. *)
Theorem constructed_renderer_renders (t : Trace) (this : VkRenderer)
    (w0 w : World) (n : nat) :
  performs constructor_ t (Returned this) ->
  possible w0 t w ->
  acquiring w0 = [] ->
  Forall delivered t ->
  NoDup (mFencesForSubmit this ++ mFencesForAcquire this) ->
  ~ In VK_NULL_HANDLE (mFencesForSubmit this ++ mFencesForAcquire this) ->
  inflight w = [] /\
  (forall f, In f (mFencesForSubmit this) -> signaled w f = true) /\
  exists w' this',
    steps (w, frames n this) (w', Vk.Ret this') /\
    mFrameIndex this' = Z.of_nat n mod slots this.
Proof.
  intros H Hp Hacq Hdel Hnd Hnull.
  destruct (constructor_returned _ _ _ _ _ _ _ _ t this H Hdel) as (Hwf & Hi & _ & _).
  destruct (constructor_ready _ _ _ _ _ _ _ _ t this w0 w H Hp Hacq
              (NoDup_app_apart _ _ Hnd)) as [[Hacq' Hsig] Hidle].
  split; [assumption|]. split; [assumption|].
  destruct (frames_reach n this w Hwf Hnd Hnull) as (w' & this' & Hs & _ & Hidx).
  - split; [assumption|]. intros f Hin. left. auto.
  - exists w', this'. split; [assumption|]. rewrite Hidx, Hi. reflexivity.
Qed.

(** X17.  Nothing leaks and nothing is destroyed twice.  Over a life of
    the renderer that runs to its end (construction, any number of
    frames, destruction), with a driver that fills the arrays it is asked
    to fill, the objects created (instance, device, surface, swapchain,
    views, pools, command buffers, fences, semaphores, render pass,
    framebuffers, shader modules, layouts, pipeline, buffers, memory,
    mappings, texture, image, sampler, descriptor sets) are, counted with
    multiplicity, exactly the objects destroyed, freed or unmapped. *)
Theorem lifetime_balanced (n : nat) (t : Trace) :
  performs (lifetime nativeWindow assetManager clearValue vertexShaderCode
              fragmentShaderCode draw_vertex draw_fragment CompileGlslToSpv n)
           t (Returned tt) ->
  Forall delivered t ->
  Permutation (created t) (destroyed t).
Proof.
  unfold lifetime. intros H Hdel. chop.
  rewrite !Forall_app in Hdel. destruct Hdel as (Hd0 & Hd1 & Hd2).
  match goal with
  | Hc : performs (constructor _ _ _ _ _ _ _ _) ?t0 (Returned ?this),
    Hf : performs (lift (frames n ?this)) ?t1 (Returned ?this'),
    Hx : performs (lift (destructor ?this')) ?t2 (Returned tt) |- _ =>
      destruct (constructor_returned _ _ _ _ _ _ _ _ t0 this Hc Hd0)
        as (Hwf & _ & _ & Hperm);
      destruct (lifted_ledger _ _ _ Hf) as (tf & Hf0 & Hfc & Hfd & _);
      destruct (lifted_ledger _ _ _ Hx) as (tx & Hx0 & Hxc & Hxd & _);
      destruct (frames_ledger n this tf this' Hwf Hf0) as (Hfn & Ho & Hdes);
      rewrite Hdes in Hx0; apply destructor_ledger in Hx0
  end.
  autorewrite with ledger.
  rewrite Hfc, Hxc, Hfd, Hxd, Hfn, Hx0, !app_nil_r. cbn [app]. exact Hperm.
Qed.

End ConstructorTheorems.

(** Under the sample driver the constructor returns, and the renderer it
    returns is well formed. *)
Lemma constructor_establishes_wf_witness :
  wf Bringup.sample_renderer /\ mFrameIndex Bringup.sample_renderer = 0 /\
  Forall (fun u => pointee u = zeroed) (mUniformData Bringup.sample_renderer).
Proof.
  apply (constructor_establishes_wf 1 2 [zero; zero; zero; zero]
           "vertex"%string "fragment"%string (fun _ => 97) (fun _ => 97)
           Bringup.compiler (fst Bringup.sample_run) Bringup.sample_renderer).
  - rewrite <- sample_run_returns. apply setup_run_performs.
  - exact sample_run_delivered.
Defined.

(** Under the sample driver, on a device that starts idle: after the
    constructor nothing is in flight, the two submit fences are signaled,
    and three frames run, leaving frame index 1. *)
Lemma constructed_renderer_renders_witness :
  inflight Bringup.sample_device = [] /\
  (forall f, In f (mFencesForSubmit Bringup.sample_renderer) ->
             signaled Bringup.sample_device f = true) /\
  exists w' this',
    steps (Bringup.sample_device, frames 3 Bringup.sample_renderer) (w', Vk.Ret this') /\
    mFrameIndex this' = Z.of_nat 3 mod slots Bringup.sample_renderer.
Proof.
  apply (constructed_renderer_renders 1 2 [zero; zero; zero; zero]
           "vertex"%string "fragment"%string (fun _ => 97) (fun _ => 97)
           Bringup.compiler (fst Bringup.sample_run) Bringup.sample_renderer
           SamplerLoop.idle_device Bringup.sample_device 3).
  - rewrite <- sample_run_returns. apply setup_run_performs.
  - exact sample_run_possible.
  - reflexivity.
  - exact sample_run_delivered.
  - vm_compute. repeat constructor; cbn; intuition discriminate.
  - vm_compute. intuition discriminate.
Defined.

(** Under the sample driver, a life of two frames runs to its end, and
    what it created is what it destroyed. *)
Lemma lifetime_balanced_witness :
  Permutation (Lifecycle.created (fst Bringup.sample_lifetime))
              (Lifecycle.destroyed (fst Bringup.sample_lifetime)).
Proof.
  apply (lifetime_balanced 1 2 [zero; zero; zero; zero]
           "vertex"%string "fragment"%string (fun _ => 97) (fun _ => 97)
           Bringup.compiler 2 (fst Bringup.sample_lifetime)).
  - rewrite <- sample_lifetime_returns. apply setup_run_performs.
  - exact sample_lifetime_delivered.
Defined.

(** ** The constructor: what follows a call *)

Section Rules.

Import Setup Construction Lifecycle.

(** Where a call stands in a run, the rest of the run is a run of what
    the rule says follows the call. *)
Lemma obeys_performs {A : Type} (R : Rule) (p : Prog A) :
  obeys R p -> forall t o, performs p t o ->
  forall t1 c a t2, t = t1 ++ (c, a) :: t2 ->
  exists rest : Prog A, R A c a rest /\ performs rest t2 o.
Proof.
  induction 1 as [x|f| |c0 k HR Hk IH]; intros t o H t1 c a t2 E.
  - apply setup_ret_inv in H. destruct H as [-> _]. destruct t1; discriminate E.
  - apply setup_abort_inv in H. destruct H as [-> _]. destruct t1; discriminate E.
  - apply setup_undef_inv in H. destruct H as [-> _]. destruct t1; discriminate E.
  - apply setup_call_inv in H. destruct H as (a0 & t' & -> & H).
    destruct t1 as [|e t1]; cbn in E.
    + injection E as -> -> ->. exists (k a). auto.
    + injection E as <- ->. eapply IH; [eassumption|reflexivity].
Qed.

Section Closed.

Variable R : Rule.
Hypothesis closed : forall (A B : Type) c a (q : Prog A) (f : A -> Prog B),
  R A c a q -> R B c a (bind q f).

Lemma obeys_bind {A B : Type} (p : Prog A) (f : A -> Prog B) :
  obeys R p -> (forall x, obeys R (f x)) -> obeys R (bind p f).
Proof.
  intros Hp Hf. induction Hp as [x|e| |c k HR Hk IH]; cbn; try constructor; auto.
Qed.

Lemma obeys_each {X : Type} (body : Prog X) :
  obeys R body -> forall n, obeys R (each n body).
Proof.
  intros Hb. induction n as [|n IH]; cbn; [constructor|].
  apply obeys_bind; [assumption|]. intros x.
  apply obeys_bind; [assumption|]. intros xs. constructor.
Qed.

Lemma obeys_each_index {X : Type} (body : Z -> Prog X) :
  (forall i, obeys R (body i)) -> forall n i, obeys R (each_index n i body).
Proof.
  intros Hb. induction n as [|n IH]; intros i; cbn; [constructor|].
  apply obeys_bind; [apply Hb|]. intros x.
  destruct (i =? INT_MAX); [constructor|].
  apply obeys_bind; [apply IH|]. intros xs. constructor.
Qed.

Lemma obeys_say (lines : list string) :
  (forall l a (rest : Prog unit), R unit (aout l) a rest) -> obeys R (say lines).
Proof.
  intros H. induction lines as [|l lines IH]; cbn; [constructor|].
  constructor; [intros a; apply H|]. intros a. cbn. assumption.
Qed.

Lemma obeys_pure {X : Type} (p : Vk.Prog X) :
  all_calls (fun _ => False) p -> obeys R (lift p).
Proof.
  intros Hp.
  induction Hp as [a|f| |c k Hc Hk IH]; cbn;
    [constructor|constructor|constructor|contradiction].
Qed.

End Closed.

Lemma aborts_on_failure_closed (A B : Type) c a (q : Prog A) (f : A -> Prog B) :
  aborts_on_failure A c a q -> aborts_on_failure B c a (bind q f).
Proof. intros H Hc Hne. rewrite (H Hc Hne). reflexivity. Qed.

Lemma faults_without_device_closed (A B : Type) c a (q : Prog A) (f : A -> Prog B) :
  faults_without_device A c a q -> faults_without_device B c a (bind q f).
Proof.
  unfold faults_without_device. destruct c; try (intros; exact I).
  destruct capacity; [|intros; exact I].
  intros H Hn Hok. rewrite (H Hn Hok). reflexivity.
Qed.

End Rules.

(** Goes through a program of the constructor call by call, for a rule
    that [closed] shows to be kept by what follows; [leaf] shows the rule
    at a call. *)
Ltac obeys_tac closed leaf :=
  repeat first
    [ apply Lifecycle.obeys_ret | apply Lifecycle.obeys_abort | apply Lifecycle.obeys_undef
    | apply Lifecycle.obeys_call; [intros ?; leaf|intros ?]
    | apply (obeys_each _ closed)
    | apply (obeys_each_index _ closed); intros ?
    | apply (obeys_say _); intros ? ? ?; leaf
    | apply (obeys_pure _); first [apply selectExtensions_calls|apply findCompositeAlpha_calls]
    | apply (obeys_bind _ closed); [|intros ?]
    | match goal with
      | |- Lifecycle.obeys _ (Setup.call _) => unfold Setup.call
      | |- Lifecycle.obeys _ (Setup.VK_CHECK_ERROR _) => unfold Setup.VK_CHECK_ERROR
      | |- Lifecycle.obeys _ (Construction.create _) => unfold Construction.create
      | |- Lifecycle.obeys _ (Setup.check _ _) => unfold Setup.check
      | |- Lifecycle.obeys _ (Setup.assert ?b) => destruct b; cbn [Setup.assert]
      | |- Lifecycle.obeys _ (Setup.index ?v ?i) => unfold Setup.index; destruct (at_ v i)
      | |- Lifecycle.obeys _ (Setup.defined ?x) => destruct x; cbn [Setup.defined]
      | |- Lifecycle.obeys _ (Setup.enumerate _ _ _ _) => unfold Setup.enumerate
      | |- Lifecycle.obeys _ (if ?b then _ else _) => destruct b
      | |- Lifecycle.obeys _ (let _ := _ in _) => cbv zeta
      end ].

(** A call is checked, and then the check is what follows it, or it is not. *)
Ltac checked_leaf :=
  let Hc := fresh "Hc" in let Hne := fresh "Hne" in
  intros Hc Hne;
  first
    [ discriminate Hc
    | unfold Setup.check;
      match goal with
      | |- context [Setup.status ?a =? VK_SUCCESS] =>
          destruct (Z.eqb_spec (Setup.status a) VK_SUCCESS); [contradiction|reflexivity]
      end ].

Section Checked.

Import Setup Construction Lifecycle.

Variables (nativeWindow assetManager : Z).
Variable clearValue : VkClearValue.
Variables (vertexShaderCode fragmentShaderCode : string).
Variables (draw_vertex draw_fragment : Z -> Z).
Variable CompileGlslToSpv : string -> Z -> list Z -> Shader.SpvCompilationResult.

Lemma constructor_aborts_on_failure :
  obeys aborts_on_failure
    (constructor nativeWindow assetManager clearValue vertexShaderCode
       fragmentShaderCode draw_vertex draw_fragment CompileGlslToSpv).
Proof.
  unfold constructor, createInstance, selectPhysicalDevice, createDevice, createSurface,
    createSwapchain, createImageViews, createCommandBuffers, createSynchronization,
    createFramebuffers, createPipeline, compileShader, createVertexBuffer,
    createUniforms, createUniform, createBuffer, memoryTypeIndex, createTextureImage, uploadTexture,
    finishUpload, createDescriptors, Selection.instanceExtensionNames,
    Selection.deviceExtensionNames.
  cbv zeta.
  obeys_tac aborts_on_failure_closed ltac:(unfold aborts_on_failure; checked_leaf).
Qed.

Lemma selectPhysicalDevice_faults i :
  obeys faults_without_device (selectPhysicalDevice i).
Proof.
  unfold selectPhysicalDevice, enumerate, VK_CHECK_ERROR. cbn [bind].
  apply obeys_call; [intros a; exact I|intros a1].
  unfold check at 1. destruct (status a1 =? VK_SUCCESS); cbn [bind]; [|constructor].
  apply obeys_call.
  - intros a Hn Hok. unfold check. rewrite Hok. cbn [bind Z.eqb VK_SUCCESS].
    rewrite Hn. reflexivity.
  - intros a.
    obeys_tac faults_without_device_closed ltac:(exact I).
Qed.

Lemma constructor_faults_without_device :
  obeys faults_without_device
    (constructor nativeWindow assetManager clearValue vertexShaderCode
       fragmentShaderCode draw_vertex draw_fragment CompileGlslToSpv).
Proof.
  unfold constructor, createInstance, createDevice, createSurface,
    createSwapchain, createImageViews, createCommandBuffers, createSynchronization,
    createFramebuffers, createPipeline, compileShader, createVertexBuffer,
    createUniforms, createUniform, createBuffer, memoryTypeIndex, createTextureImage, uploadTexture,
    finishUpload, createDescriptors, Selection.instanceExtensionNames,
    Selection.deviceExtensionNames.
  cbv zeta.
  apply (obeys_bind _ faults_without_device_closed);
    [obeys_tac faults_without_device_closed ltac:(exact I)|intros ?].
  apply (obeys_bind _ faults_without_device_closed);
    [apply selectPhysicalDevice_faults|intros ?].
  obeys_tac faults_without_device_closed ltac:(exact I).
Qed.

Local Abbreviation constructor_ :=
  (constructor nativeWindow assetManager clearValue vertexShaderCode
     fragmentShaderCode draw_vertex draw_fragment CompileGlslToSpv).

(** X18.  The constructor looks at every result it passes through
    [VK_CHECK_ERROR] on the spot: when an enumeration, a creation, an
    allocation, a binding, a mapping, a query of the surface, the
    recording of the upload or its submission returns anything other
    than [VK_SUCCESS], the run ends at that very call, with the call
    and the value as the diagnostic. *)
Theorem constructor_checks_results (t : Trace) (o : Outcome VkRenderer)
    (c : request) (a : Answer) :
  performs constructor_ t o ->
  In (c, a) t -> checked c = true -> status a <> VK_SUCCESS ->
  o = Aborted (check_error (vulkan c) (status a)) /\ exists t0, t = t0 ++ [(c, a)].
Proof.
  intros H Hin Hc Hne. apply in_split in Hin. destruct Hin as (t1 & t2 & ->).
  destruct (obeys_performs _ _ constructor_aborts_on_failure _ _ H t1 c a t2 eq_refl)
    as (rest & HR & Hrest).
  rewrite (HR Hc Hne) in Hrest. apply setup_abort_inv in Hrest.
  destruct Hrest as [-> ->]. split; [reflexivity|]. exists t1. reflexivity.
Qed.

(** X19.  The constructor takes [physicalDevices[0]] without looking at
    the count: when the driver reports no physical device, the vector is
    empty and the very next thing after the second
    [vkEnumeratePhysicalDevices] is the read of its first element, which
    is undefined; no check and no assertion stands in between. *)
Theorem constructor_needs_a_physical_device (t : Trace) (o : Outcome VkRenderer)
    (instance : Handle) (a : Answer) :
  performs constructor_ t o ->
  In (vkEnumeratePhysicalDevices instance (Some 0), a) t ->
  status a = VK_SUCCESS ->
  o = Faulted /\
  exists t0, t = t0 ++ [(vkEnumeratePhysicalDevices instance (Some 0), a)].
Proof.
  intros H Hin Hok. apply in_split in Hin. destruct Hin as (t1 & t2 & ->).
  destruct (obeys_performs _ _ constructor_faults_without_device _ _ H t1 _ a t2 eq_refl)
    as (rest & HR & Hrest).
  cbn in HR. rewrite (HR eq_refl Hok) in Hrest. apply setup_undef_inv in Hrest.
  destruct Hrest as [-> ->]. split; [reflexivity|]. exists t1. reflexivity.
Qed.

End Checked.

(** Under the driver that cannot create the swapchain, the run of the
    constructor ends at [vkCreateSwapchainKHR], with that call and
    [VK_ERROR_INITIALIZATION_FAILED] as the diagnostic. *)
Lemma constructor_checks_results_witness :
  snd Bringup.refused_run =
    Setup.Aborted
      (Setup.check_error (Setup.vulkan (fst (Bringup.last_call (fst Bringup.refused_run))))
         Diagnostics.VK_ERROR_INITIALIZATION_FAILED) /\
  exists t0, fst Bringup.refused_run =
             t0 ++ [(fst (Bringup.last_call (fst Bringup.refused_run)),
                     snd (Bringup.last_call (fst Bringup.refused_run)))].
Proof.
  apply (constructor_checks_results 1 2 [zero; zero; zero; zero]
           "vertex"%string "fragment"%string (fun _ => 97) (fun _ => 97)
           Bringup.compiler (fst Bringup.refused_run) (snd Bringup.refused_run)
           (fst (Bringup.last_call (fst Bringup.refused_run)))
           (snd (Bringup.last_call (fst Bringup.refused_run)))).
  - apply setup_run_performs.
  - vm_compute. in_list.
  - vm_compute. reflexivity.
  - vm_compute. discriminate.
Defined.

(** Under the driver without a physical device, the run of the
    constructor ends in undefined behaviour right after the second
    [vkEnumeratePhysicalDevices]. *)
Lemma constructor_needs_a_physical_device_witness :
  snd Bringup.deviceless_run = Setup.Faulted /\
  exists t0, fst Bringup.deviceless_run =
             t0 ++ [(Setup.vkEnumeratePhysicalDevices 5 (Some 0),
                     snd (Bringup.last_call (fst Bringup.deviceless_run)))].
Proof.
  apply (constructor_needs_a_physical_device 1 2 [zero; zero; zero; zero]
           "vertex"%string "fragment"%string (fun _ => 97) (fun _ => 97)
           Bringup.compiler (fst Bringup.deviceless_run) (snd Bringup.deviceless_run)
           5 (snd (Bringup.last_call (fst Bringup.deviceless_run)))).
  - apply setup_run_performs.
  - vm_compute. in_list.
  - vm_compute. reflexivity.
Defined.

(** ** The constructor: when the staging buffer goes *)

Section Safe.

Import Setup Construction Lifecycle Bringup.

Lemma split_in_app {X : Type} (ta tb : list X) : forall t1 e t2,
  ta ++ tb = t1 ++ e :: t2 ->
  (exists t2', ta = t1 ++ e :: t2' /\ t2 = t2' ++ tb) \/
  (exists t1', t1 = ta ++ t1' /\ tb = t1' ++ e :: t2).
Proof.
  induction ta as [|x ta IH]; intros t1 e t2 E.
  - right. exists t1. auto.
  - destruct t1 as [|y t1]; cbn in E.
    + injection E as <- <-. left. exists ta. auto.
    + injection E as <- E. destruct (IH _ _ _ E) as [(t2' & -> & ->)|(t1' & -> & ->)].
      * left. exists t2'. auto.
      * right. exists t1'. auto.
Qed.

Lemma safe_bind {A B : Type} (ok : World -> request -> Prop)
    (p : Prog A) (f : A -> Prog B) :
  safe ok p -> (forall x, safe ok (f x)) -> safe ok (bind p f).
Proof.
  intros Hp Hf w t o t1 c a t2 w1 H E Hposs.
  apply setup_bind_inv in H.
  destruct H as [(ta & x & tb & -> & Ha & Hb)|[(e & -> & H)|(-> & H)]].
  - apply split_in_app in E. destruct E as [(t2' & -> & ->)|(t1' & -> & ->)].
    + apply (Hp w _ _ t1 c a t2' w1 Ha eq_refl Hposs).
    + apply possible_app_inv in Hposs. destruct Hposs as (wm & H1 & H2).
      apply (Hf x wm _ _ t1' c a t2 w1 Hb eq_refl H2).
  - apply (Hp w _ _ t1 c a t2 w1 H E Hposs).
  - apply (Hp w _ _ t1 c a t2 w1 H E Hposs).
Qed.

(** A program none of whose calls frees memory or destroys a buffer. *)
Lemma safe_keeping {A : Type} (p : Prog A) :
  every (fun c => discards c = false) p -> safe discards_idle p.
Proof.
  intros Hp w t o t1 c a t2 w1 H E _ Hd.
  pose proof (every_performs _ _ Hp _ _ H) as HF. rewrite Forall_forall in HF.
  specialize (HF (c, a)). cbn in HF. rewrite HF in Hd; [discriminate Hd|].
  rewrite E. apply in_or_app. right. left. reflexivity.
Qed.

(** Once the wait for the queue has returned [VK_SUCCESS], nothing is in
    flight until something is submitted. *)
Lemma waited_idle t1 q a rest w w1 :
  possible w (t1 ++ (act (vkQueueWaitIdle q), a) :: rest) w1 ->
  status a = VK_SUCCESS ->
  Forall (fun e => submits_nothing (fst e) = true) rest ->
  inflight w1 = [].
Proof.
  intros Hp Hok HF. apply possible_app_inv in Hp. destruct Hp as (wm & _ & Hp).
  apply possible_cons_inv in Hp. destruct Hp as (wa & wb & _ & Ha & Hp).
  apply (idle_possible rest wb w1 HF Hp).
  cbn in Ha. unfold returns in Ha. unfold status in Hok. rewrite Hok in Ha. cbn in Ha.
  destruct (inflight wa) eqn:E; [injection Ha as <-; assumption|discriminate Ha].
Qed.

Lemma finishUpload_safe d q v i : safe discards_idle (finishUpload d q v i).
Proof.
  intros w t o t1 c a t2 w1 H E Hposs Hd.
  unfold finishUpload, call, VK_CHECK_ERROR, check in H. cbn [bind] in H.
  repeat match goal with
  | H : performs (Call _ _) _ _ |- _ =>
      apply setup_call_inv in H;
      let a := fresh "r" in let t' := fresh "t" in
      destruct H as (a & t' & -> & H); cbn [bind] in H
  | H : performs (bind (bind (if ?b then _ else _) _) _) _ _ |- _ =>
      let Eb := fresh "Eb" in destruct b eqn:Eb; cbn [bind] in H
  | H : performs (Abort _) _ _ |- _ => apply setup_abort_inv in H; destruct H as [-> ->]
  | H : performs (Ret _) _ _ |- _ => apply setup_ret_inv in H; destruct H as [-> ->]
  end;
  repeat (destruct t1 as [|? t1]; cbn in E;
          [injection E as <- <- ?; try discriminate Hd
          |injection E as <- E]);
  try (destruct t1; discriminate E);
  subst;
  match goal with
  | Eb : (status ?r =? VK_SUCCESS) = true,
    Hposs : possible _ (?e0 :: ?e1 :: ?e2 :: (act (vkQueueWaitIdle _), ?r) :: ?rest) _
    |- _ =>
      apply (waited_idle [e0; e1; e2] _ r rest _ _ Hposs);
        [apply Z.eqb_eq; exact Eb|repeat constructor]
  end.
Qed.

Variables (nativeWindow assetManager : Z).
Variable clearValue : VkClearValue.
Variables (vertexShaderCode fragmentShaderCode : string).
Variables (draw_vertex draw_fragment : Z -> Z).
Variable CompileGlslToSpv : string -> Z -> list Z -> Shader.SpvCompilationResult.

Local Abbreviation constructor_ :=
  (constructor nativeWindow assetManager clearValue vertexShaderCode
     fragmentShaderCode draw_vertex draw_fragment CompileGlslToSpv).

Lemma constructor_safe : safe discards_idle constructor_.
Proof.
  unfold constructor. cbv zeta.
  repeat match goal with
  | |- safe _ (finishUpload _ _ _ _) => apply finishUpload_safe
  | |- safe _ (bind _ _) => apply safe_bind; [|intros ?]
  | |- safe _ _ =>
      apply safe_keeping;
      cbv beta delta [createInstance selectPhysicalDevice createDevice createSurface
        createSwapchain createImageViews createCommandBuffers
        createSynchronization createFramebuffers createPipeline compileShader
        createVertexBuffer createUniforms createUniform createBuffer
        memoryTypeIndex createTextureImage uploadTexture createDescriptors
        Selection.instanceExtensionNames Selection.deviceExtensionNames];
      every_tac
  end.
Qed.

(** X20.  The staging buffer and its memory go only once the upload is
    done.  In every run of the constructor against the device, from any
    state and whatever the outcome, whenever the constructor calls
    [vkFreeMemory] or [vkDestroyBuffer], nothing is in flight: the copy
    that reads the staging buffer was submitted, and [vkQueueWaitIdle]
    has returned [VK_SUCCESS] since. *)
Theorem constructor_discards_when_idle (t t1 t2 : Trace) (o : Outcome VkRenderer)
    (c : request) (a : Answer) (w0 w1 : World) :
  performs constructor_ t o ->
  t = t1 ++ (c, a) :: t2 ->
  discards c = true ->
  possible w0 t1 w1 ->
  inflight w1 = [].
Proof.
  intros H E Hd Hposs.
  apply (constructor_safe w0 t o t1 c a t2 w1 H E Hposs Hd).
Qed.

End Safe.

(** Under the sample driver, call 84 of the constructor is the
    [vkFreeMemory] of the staging memory, and nothing is in flight when it
    is made. *)
Lemma constructor_discards_when_idle_witness :
  inflight (Bringup.device_before 84 (fst Bringup.sample_run)) = [].
Proof.
  apply (constructor_discards_when_idle 1 2 [zero; zero; zero; zero]
           "vertex"%string "fragment"%string (fun _ => 97) (fun _ => 97)
           Bringup.compiler (fst Bringup.sample_run)
           (firstn 84 (fst Bringup.sample_run)) (skipn 85 (fst Bringup.sample_run))
           (snd Bringup.sample_run)
           (fst (Bringup.call_at 84 (fst Bringup.sample_run)))
           (snd (Bringup.call_at 84 (fst Bringup.sample_run)))
           SamplerLoop.idle_device).
  - apply setup_run_performs.
  - vm_compute. reflexivity.
  - vm_compute. reflexivity.
  - apply replay_possible. unfold Bringup.device_before.
    destruct (Bringup.replay SamplerLoop.idle_device
                (firstn 84 (fst Bringup.sample_run))) eqn:E; [reflexivity|].
    vm_compute in E. discriminate E.
Defined.

(** ** vulkan-sampler: the constructor *)

Section SamplerBlocks.

Import Setup Construction Lifecycle Bringup.

Variables (window assetManager : Z).
Variable clearValue : VkClearValue.
Variables (vertexShaderCode fragmentShaderCode : string).
Variables (draw_vertex draw_fragment : Z -> Z).
Variable CompileGlslToSpv : string -> Z -> list Z -> Shader.SpvCompilationResult.

Lemma createCommands_ledger d q t x :
  performs (SamplerConstruction.createCommands d q) t (Returned x) ->
  destroyed t = [] /\
  (Forall delivered t ->
   created t = [(VK_OBJECT_TYPE_COMMAND_POOL, SamplerConstruction.mCommandPool x);
                (VK_OBJECT_TYPE_COMMAND_BUFFER, SamplerConstruction.mCommandBuffer x);
                (VK_OBJECT_TYPE_FENCE, SamplerConstruction.mFence x);
                (VK_OBJECT_TYPE_SEMAPHORE, SamplerConstruction.mSemaphore x)]).
Proof.
  unfold SamplerConstruction.createCommands. intros H. chop.
  split; [ledger; auto|].
  intros Hdel. rewrite Forall_forall in Hdel.
  cbn [SamplerConstruction.mCommandPool SamplerConstruction.mCommandBuffer
       SamplerConstruction.mFence SamplerConstruction.mSemaphore].
  match goal with
  | |- context [written 1 (handles ?a)] =>
      match type of Hdel with
      | context [(?c, a)] =>
          assert (Hone : (Z.to_nat 1 <= length (handles a))%nat)
            by (apply (Hdel (c, a)); in_list)
      end;
      destruct (handles a) as [|h hs] eqn:Ea; [cbn in Hone; lia|]
  end.
  ledger. rewrite Ea. reflexivity.
Qed.

Lemma sampler_createVertexBuffer_ledger d props t x :
  performs (SamplerConstruction.createVertexBuffer d props) t (Returned x) ->
  created t = [(VK_OBJECT_TYPE_BUFFER, fst x);
               (VK_OBJECT_TYPE_DEVICE_MEMORY, snd x);
               (host_mapping, snd x)] /\
  destroyed t = [(host_mapping, snd x)].
Proof.
  unfold SamplerConstruction.createVertexBuffer, createBuffer, memoryTypeIndex.
  intros H. chop. cbn [fst snd]. ledger; auto.
Qed.

Lemma createUniform_ledger d props t u :
  performs (createUniform d props) t (Returned u) ->
  created t = slot_objects u /\ destroyed t = [] /\ pointee (snd u) = zeroed.
Proof.
  unfold createUniform, createBuffer, memoryTypeIndex. intros H. chop.
  unfold slot_objects. cbn [fst snd pointee]. ledger; auto.
Qed.

Lemma uploadTexture_ledger d props t x :
  performs (uploadTexture assetManager d props) t (Returned x) ->
  created t = [(texture, uploadedTexture x);
               (VK_OBJECT_TYPE_IMAGE, uploadedImage x);
               (VK_OBJECT_TYPE_DEVICE_MEMORY, uploadedMemory x);
               (host_mapping, uploadedMemory x)] /\
  destroyed t = [(host_mapping, uploadedMemory x)].
Proof.
  unfold uploadTexture, memoryTypeIndex. cbv zeta. intros H. chop.
  cbn [uploadedTexture uploadedImage uploadedMemory]. ledger; auto.
Qed.

Lemma createDescriptorSet_ledger d l b t x :
  performs (SamplerConstruction.createDescriptorSet d l b) t (Returned x) ->
  created t = [(VK_OBJECT_TYPE_SAMPLER, fst (fst x));
               (VK_OBJECT_TYPE_DESCRIPTOR_POOL, snd (fst x));
               (VK_OBJECT_TYPE_DESCRIPTOR_SET, snd x)] /\
  destroyed t = [].
Proof.
  unfold SamplerConstruction.createDescriptorSet. intros H. chop.
  cbn [fst snd]. ledger; auto.
Qed.

Local Abbreviation constructor_ :=
  (SamplerConstruction.constructor window assetManager clearValue vertexShaderCode
     fragmentShaderCode draw_vertex draw_fragment CompileGlslToSpv).

Lemma sampler_constructor_returned t this rest :
  performs constructor_ t (Returned (this, rest)) ->
  Forall delivered t ->
  pointee (Sampler.mUniformData this) = zeroed /\
  Permutation (created t) (destroyed t ++ SamplerConstruction.owned this rest).
Proof.
  unfold SamplerConstruction.constructor. cbv zeta. intros H Hdel. chop.
  rewrite !Forall_app in Hdel.
  repeat match goal with H : _ /\ _ |- _ => destruct H end.
  repeat match goal with
  | H : performs createInstance _ _ |- _ =>
      apply createInstance_ledger in H; destruct H as [? ?]
  | H : performs (selectPhysicalDevice _) _ _ |- _ =>
      apply selectPhysicalDevice_ledger in H; destruct H as [? ?]
  | H : performs (createDevice _) _ _ |- _ =>
      apply createDevice_ledger in H; destruct H as [? ?]
  | H : performs (createSurface _ _ _ _) _ _ |- _ =>
      apply createSurface_ledger in H; destruct H as [? ?]
  | H : performs (createSwapchain _ _ _) _ _ |- _ =>
      apply createSwapchain_ledger in H; destruct H as [? ?]
  | H : performs (createImageViews _ _) _ _ |- _ =>
      apply createImageViews_ledger in H; destruct H as (? & ? & _)
  | H : performs (SamplerConstruction.createCommands _ _) _ _ |- _ =>
      apply createCommands_ledger in H; destruct H as (? & Hpool)
  | H : performs (createFramebuffers _ _ _) _ _ |- _ =>
      apply createFramebuffers_ledger in H; destruct H as (? & ? & _)
  | H : performs (createPipeline _ _ _ _ _ _ _ _) _ _ |- _ =>
      apply createPipeline_ledger in H; destruct H as [? ?]
  | H : performs (SamplerConstruction.createVertexBuffer _ _) _ _ |- _ =>
      apply sampler_createVertexBuffer_ledger in H; destruct H as [? ?]
  | H : performs (createUniform _ _) _ _ |- _ =>
      apply createUniform_ledger in H; destruct H as (? & ? & Hzero)
  | H : performs (uploadTexture _ _ _) _ _ |- _ =>
      apply uploadTexture_ledger in H; destruct H as [? ?]
  | H : performs (SamplerConstruction.createDescriptorSet _ _ _) _ _ |- _ =>
      apply createDescriptorSet_ledger in H; destruct H as [? ?]
  end.
  specialize (Hpool ltac:(assumption)).
  split; [exact Hzero|].
  autorewrite with ledger.
  repeat match goal with H : created _ = _ |- _ => rewrite H; clear H end.
  repeat match goal with H : destroyed _ = _ |- _ => rewrite H; clear H end.
  unfold SamplerConstruction.owned, slot_objects. cbv zeta.
  cbn [Sampler.mDevice Sampler.mSwapchain Sampler.mCommandBuffer Sampler.mFence
       Sampler.mSemaphore Sampler.mRenderPass Sampler.mFramebuffers
       Sampler.mPipelineLayout Sampler.mPipeline Sampler.mVertexBuffer
       Sampler.mDescriptorSet SamplerLoop.mInstance SamplerLoop.mSurface
       SamplerLoop.mSwapchainImageViews SamplerLoop.mCommandPool
       SamplerLoop.mVertexShaderModule SamplerLoop.mFragmentShaderModule
       SamplerLoop.mDescriptorSetLayout SamplerLoop.mVertexMemory
       SamplerLoop.mUniformBuffer SamplerLoop.mUniformMemory
       SamplerLoop.mDescriptorPool SamplerLoop.mTexture SamplerLoop.mImage
       SamplerLoop.mMemory SamplerLoop.mSampler].
  apply (Permutation_count_occ Object_eq_dec). intros x.
  count_objects.
  change (count_occ Object_eq_dec [] x) with 0%nat. lia.
Qed.

End SamplerBlocks.

(** ** vulkan-sampler: the life of a renderer *)

Section SamplerLedger.

Import Lifecycle.

Lemma sampler_render_destroys_nothing (this : Sampler.VkRenderer) :
  all_calls (fun c => destroys c = []) (Sampler.render this).
Proof.
  unfold Sampler.render, index.
  repeat first
    [ apply update_destroys_nothing
    | apply calls_ret | apply calls_abort | apply calls_undef
    | apply calls_call; [reflexivity|intros ?]
    | apply all_calls_bind; [|intros ?]
    | match goal with
      | |- all_calls _ (if ?b then _ else _) => destruct b
      | |- all_calls _ (match at_ ?v ?i with _ => _ end) => destruct (at_ v i)
      | |- all_calls _ (VK_CHECK_ERROR _) => unfold VK_CHECK_ERROR
      | |- all_calls _ (call _) => unfold call
      | |- all_calls _ (let _ := _ in _) => cbv zeta
      end ].
Qed.

(** A frame changes the mapped uniform block and nothing else. *)
Lemma sampler_render_members (this this' : Sampler.VkRenderer) t :
  performs (Sampler.render this) t (Returned this') ->
  exists u, this' = Sampler.after_frame this u.
Proof.
  unfold Sampler.render. cbv zeta. intros H.
  repeat match goal with
  | H : performs (bind _ _) _ (Returned _) |- _ =>
      apply performs_bind_returned in H;
      let t1 := fresh "t" in let a := fresh "a" in let t2 := fresh "t" in
      let H2 := fresh "H" in
      destruct H as (t1 & a & t2 & -> & _ & H); cbn beta in H
  end.
  apply performs_Ret_inv in H. destruct H as [_ E]. injection E as E.
  eexists. exact E.
Qed.

Lemma sampler_frames_ledger (rest : SamplerLoop.Members) (n : nat) : forall this t this',
  performs (SamplerLoop.frames n this) t (Returned this') ->
  flat_map (fun e => destroys (fst e)) t = [] /\
  SamplerConstruction.owned this' rest = SamplerConstruction.owned this rest /\
  SamplerLoop.destructor this' rest = SamplerLoop.destructor this rest.
Proof.
  induction n as [|n IH]; intros this t this' H.
  - cbn in H. apply performs_Ret_inv in H. destruct H as [-> E]. injection E as <-.
    auto.
  - cbn [SamplerLoop.frames] in H. apply performs_bind_returned in H.
    destruct H as (t1 & this1 & t2 & -> & H1 & H2).
    destruct (sampler_render_members _ _ _ H1) as [u E].
    destruct (IH this1 t2 this' H2) as (Hd & Ho & Hdes).
    rewrite flat_map_app, Hd, app_nil_r, Ho, Hdes, E.
    split; [|split; reflexivity].
    pose proof (all_calls_performs _ _ (sampler_render_destroys_nothing this) _ _ H1)
      as Hall.
    clear - Hall. induction t1 as [|[c r] t1 IHt]; [reflexivity|].
    cbn. rewrite (Hall c r) by (left; reflexivity). apply IHt.
    intros c' r' Hin. apply (Hall c' r'). right. assumption.
Qed.

(** A destructor that returns has destroyed what the members stand for. *)
Lemma sampler_destructor_ledger (this : Sampler.VkRenderer) (rest : SamplerLoop.Members) t :
  performs (SamplerLoop.destructor this rest) t (Returned tt) ->
  flat_map (fun e => destroys (fst e)) t = SamplerConstruction.owned this rest.
Proof.
  unfold SamplerLoop.destructor. cbv zeta. intros H.
  repeat match goal with
  | H : performs (bind _ _) _ (Returned _) |- _ =>
      apply performs_bind_returned in H;
      let t1 := fresh "t" in let a := fresh "a" in let t2 := fresh "t" in
      let H2 := fresh "H" in
      destruct H as (t1 & a & t2 & -> & H & H2); cbn beta in *
  | H : performs (call _) _ (Returned _) |- _ => apply vk_call_returned in H; subst
  | H : performs (Ret _) _ (Returned _) |- _ =>
      apply performs_Ret_inv in H; destruct H as [-> _]
  | H : performs (for_each _ _) _ (Returned _) |- _ =>
      apply for_each_destroys in H
  end.
  rewrite !flat_map_app.
  repeat match goal with
  | H : flat_map _ _ = _ |- _ => rewrite H; clear H
  end.
  cbn [flat_map fst destroys app all map]. rewrite ?app_nil_r.
  rewrite !(all_flat_map _ (fun v => v)), !map_id.
  unfold SamplerConstruction.owned. cbn [app]. reflexivity.
Qed.

End SamplerLedger.

Section SamplerTheorems.

Import Setup Construction Lifecycle Bringup.

Variables (window assetManager : Z).
Variable clearValue : VkClearValue.
Variables (vertexShaderCode fragmentShaderCode : string).
Variables (draw_vertex draw_fragment : Z -> Z).
Variable CompileGlslToSpv : string -> Z -> list Z -> Shader.SpvCompilationResult.

(** X21.  vulkan-sampler leaks nothing and destroys nothing twice.  Over
    a life of its renderer that runs to its end (construction, any number
    of frames, destruction), with a driver that fills the arrays it is
    asked to fill, the objects created are, counted with multiplicity,
    exactly the objects destroyed, freed or unmapped. *)
Theorem sampler_lifetime_balanced (n : nat) (t : Trace) :
  performs (SamplerConstruction.lifetime window assetManager clearValue
              vertexShaderCode fragmentShaderCode draw_vertex draw_fragment
              CompileGlslToSpv n)
           t (Returned tt) ->
  Forall delivered t ->
  Permutation (created t) (destroyed t).
Proof.
  unfold SamplerConstruction.lifetime, SamplerLoop.lifetime. intros H Hdel.
  apply setup_bind_returned in H. destruct H as (t0 & [this rest] & t1 & -> & Hc & Hl).
  cbn [fst snd] in Hl.
  rewrite Forall_app in Hdel. destruct Hdel as (Hd0 & _).
  destruct (sampler_constructor_returned _ _ _ _ _ _ _ _ t0 this rest Hc Hd0)
    as (_ & Hperm).
  destruct (lifted_ledger _ _ _ Hl) as (tl & Hl0 & Hlc & Hld & _).
  apply performs_bind_returned in Hl0.
  destruct Hl0 as (tf & this' & tx & -> & Hf & Hx).
  destruct (sampler_frames_ledger rest n this tf this' Hf) as (Hfn & Ho & Hdes).
  rewrite Hdes in Hx. apply sampler_destructor_ledger in Hx.
  autorewrite with ledger.
  rewrite Hlc, Hld, flat_map_app, Hfn, Hx, !app_nil_r. cbn [app]. exact Hperm.
Qed.

End SamplerTheorems.

Lemma sampler_sample_lifetime_returns :
  snd SamplerConstruction.sample_lifetime = Setup.Returned tt.
Proof. vm_compute. reflexivity. Qed.

Lemma sampler_sample_lifetime_delivered :
  Forall Lifecycle.delivered (fst SamplerConstruction.sample_lifetime).
Proof.
  vm_compute.
  repeat (apply Forall_cons; [first [exact I | cbn; lia]|]). apply Forall_nil.
Qed.

(** Under the sample driver a life of two frames is balanced. *)
Lemma sampler_lifetime_balanced_witness :
  Permutation (Lifecycle.created (fst SamplerConstruction.sample_lifetime))
              (Lifecycle.destroyed (fst SamplerConstruction.sample_lifetime)).
Proof.
  apply (sampler_lifetime_balanced 1 2 [zero; zero; zero; zero]
           "vertex"%string "fragment"%string (fun _ => 97) (fun _ => 97)
           Bringup.compiler 2 (fst SamplerConstruction.sample_lifetime)).
  - rewrite <- sampler_sample_lifetime_returns. apply setup_run_performs.
  - exact sampler_sample_lifetime_delivered.
Defined.

(** ** vulkan-sampler: the device after the constructor *)

Section SamplerReady.

Import Setup Construction Lifecycle Bringup.

Variables (window assetManager : Z).
Variable clearValue : VkClearValue.
Variables (vertexShaderCode fragmentShaderCode : string).
Variables (draw_vertex draw_fragment : Z -> Z).
Variable CompileGlslToSpv : string -> Z -> list Z -> Shader.SpvCompilationResult.

Lemma unawaited_stable w w' : acquiring w = [] -> progress w w' -> acquiring w' = [].
Proof.
  intros Hacq Hp.
  inversion Hp as [w0 before s after E|w0 before f after E]; subst; cbn.
  - assumption.
  - rewrite Hacq in E. destruct before; discriminate E.
Qed.

Lemma unawaited_kept w c a w' :
  acquires_nothing c = true -> acquiring w = [] -> answers w c a = Some w' ->
  acquiring w' = [].
Proof.
  intros Hs Hw Ha.
  destruct c; cbn in Ha; try (injection Ha as <-; assumption).
  - destruct (status a =? VK_SUCCESS); injection Ha as <-; assumption.
  - unfold returns in Ha.
    destruct (negb (result (reply a) =? VK_SUCCESS)); [injection Ha as <-; assumption|].
    destruct c; try discriminate Hs; try (injection Ha as <-; assumption).
    + destruct (forallb _ _); [injection Ha as <-; assumption|discriminate].
    + destruct (inflight w) eqn:E; [injection Ha as <-; assumption|discriminate].
    + destruct (inflight w) eqn:E; [injection Ha as <-; assumption|discriminate].
Qed.

Lemma unawaited_possible t w w' :
  Forall (fun e => acquires_nothing (fst e) = true) t ->
  possible w t w' -> acquiring w = [] -> acquiring w' = [].
Proof.
  intros HF Hp.
  apply (possible_invariant (fun w => acquiring w = [])
           (fun e => acquires_nothing (fst e) = true) unawaited_stable
           (fun w1 c a w2 Hc H1 Ha => unawaited_kept w1 c a w2 Hc H1 Ha) w t w' Hp HF).
Qed.

Local Abbreviation constructor_ :=
  (SamplerConstruction.constructor window assetManager clearValue vertexShaderCode
     fragmentShaderCode draw_vertex draw_fragment CompileGlslToSpv).

Ltac unfold_constructor :=
  unfold SamplerConstruction.constructor, createInstance, selectPhysicalDevice,
    createDevice, createSurface, createSwapchain, createImageViews,
    SamplerConstruction.createCommands, createFramebuffers, createPipeline,
    compileShader, SamplerConstruction.createVertexBuffer, createUniform, createBuffer,
    uploadTexture, memoryTypeIndex, SamplerConstruction.createDescriptorSet,
    Selection.instanceExtensionNames, Selection.deviceExtensionNames.

(** The constructor of vulkan-sampler submits nothing and acquires no
    image. *)
Lemma sampler_constructor_submits_nothing :
  every (fun c => submits_nothing c = true) constructor_.
Proof. unfold_constructor. every_tac. Qed.

Lemma sampler_constructor_acquires_nothing :
  every (fun c => acquires_nothing c = true) constructor_.
Proof. unfold_constructor. every_tac. Qed.

(** X22.  After its constructor vulkan-sampler can run to its end.  The
    constructor leaves the device as idle as it found it, with the
    uniform block mapped and zeroed; if the fence it created is not the
    null handle and there is a framebuffer for the image the swapchain
    hands out, any number of frames followed by the destructor can run
    to completion from there and leave nothing in flight. *)
Theorem sampler_constructed_renderer_runs (t : Trace) (this : Sampler.VkRenderer)
    (rest : SamplerLoop.Members) (w0 w : World) (img : Z) (n : nat) :
  performs constructor_ t (Returned (this, rest)) ->
  possible w0 t w ->
  inflight w0 = [] -> acquiring w0 = [] ->
  Forall delivered t ->
  Sampler.mFence this <> VK_NULL_HANDLE ->
  0 <= img < Z.of_nat (length (Sampler.mFramebuffers this)) ->
  inflight w = [] /\ acquiring w = [] /\
  reaches w (SamplerLoop.lifetime n this rest) (fun _ w' => inflight w' = []).
Proof.
  intros H Hp Hidle Hacq Hdel Hfence Himg.
  assert (Hidle' : inflight w = []).
  { apply (idle_possible t w0 w); [|assumption|assumption].
    apply (every_performs (fun c => submits_nothing c = true) _
             sampler_constructor_submits_nothing _ _ H). }
  assert (Hacq' : acquiring w = []).
  { apply (unawaited_possible t w0 w); [|assumption|assumption].
    apply (every_performs (fun c => acquires_nothing c = true) _
             sampler_constructor_acquires_nothing _ _ H). }
  split; [assumption|]. split; [assumption|].
  destruct (sampler_constructor_returned _ _ _ _ _ _ _ _ t this rest H Hdel)
    as (Hzero & _).
  assert (Hu : SamplerLoop.usable this img).
  { split; [rewrite Hzero; reflexivity|]. split; assumption. }
  unfold SamplerLoop.lifetime. apply reaches_bind.
  eapply reaches_weaken; [|apply (sampler_frames_complete img n); assumption].
  intros this' w' (_ & Hidle'' & _).
  assert (Hs : succeeds (SamplerLoop.destructor this' rest)).
  { unfold SamplerLoop.destructor. cbv zeta. succeeds_tac. }
  destruct (succeeds_performs _ Hs) as (tx & [] & Hx).
  apply (reaches_quiet _ tx tt); [|assumption|assumption].
  apply releases_all_quiet. apply sampler_destructor_releases.
Qed.

End SamplerReady.

Lemma sampler_sample_run_returns :
  snd SamplerConstruction.sample_run =
  Setup.Returned (fst SamplerConstruction.sample_renderer,
                  snd SamplerConstruction.sample_renderer).
Proof. vm_compute. reflexivity. Qed.

Lemma sampler_sample_run_delivered :
  Forall Lifecycle.delivered (fst SamplerConstruction.sample_run).
Proof.
  vm_compute.
  repeat (apply Forall_cons; [first [exact I | cbn; lia]|]). apply Forall_nil.
Qed.

Lemma sampler_sample_run_possible :
  Bringup.possible SamplerLoop.idle_device (fst SamplerConstruction.sample_run)
    SamplerConstruction.sample_device.
Proof.
  apply replay_possible. unfold SamplerConstruction.sample_device.
  destruct (Bringup.replay SamplerLoop.idle_device (fst SamplerConstruction.sample_run))
    eqn:E; [reflexivity|].
  vm_compute in E. discriminate E.
Qed.

(** Under the sample driver the constructed renderer runs three frames and
    its destructor. *)
Lemma sampler_constructed_renderer_runs_witness :
  inflight SamplerConstruction.sample_device = [] /\
  acquiring SamplerConstruction.sample_device = [] /\
  reaches SamplerConstruction.sample_device
    (SamplerLoop.lifetime 3 (fst SamplerConstruction.sample_renderer)
       (snd SamplerConstruction.sample_renderer))
    (fun _ w' => inflight w' = []).
Proof.
  apply (sampler_constructed_renderer_runs 1 2 [zero; zero; zero; zero]
           "vertex"%string "fragment"%string (fun _ => 97) (fun _ => 97)
           Bringup.compiler (fst SamplerConstruction.sample_run)
           (fst SamplerConstruction.sample_renderer)
           (snd SamplerConstruction.sample_renderer)
           SamplerLoop.idle_device SamplerConstruction.sample_device 1 3).
  - rewrite <- sampler_sample_run_returns. apply setup_run_performs.
  - exact sampler_sample_run_possible.
  - reflexivity.
  - reflexivity.
  - exact sampler_sample_run_delivered.
  - vm_compute. discriminate.
  - vm_compute. split; [discriminate|reflexivity].
Defined.

(** ** vulkan-sampler: the checks of the constructor *)

Section SamplerChecked.

Import Setup Construction Lifecycle.

Variables (window assetManager : Z).
Variable clearValue : VkClearValue.
Variables (vertexShaderCode fragmentShaderCode : string).
Variables (draw_vertex draw_fragment : Z -> Z).
Variable CompileGlslToSpv : string -> Z -> list Z -> Shader.SpvCompilationResult.

Local Abbreviation constructor_ :=
  (SamplerConstruction.constructor window assetManager clearValue vertexShaderCode
     fragmentShaderCode draw_vertex draw_fragment CompileGlslToSpv).

Lemma sampler_constructor_aborts_on_failure : obeys aborts_on_failure constructor_.
Proof.
  unfold SamplerConstruction.constructor, createInstance, selectPhysicalDevice,
    createDevice, createSurface, createSwapchain, createImageViews,
    SamplerConstruction.createCommands, createFramebuffers, createPipeline,
    compileShader, SamplerConstruction.createVertexBuffer, createUniform, createBuffer,
    uploadTexture, memoryTypeIndex, SamplerConstruction.createDescriptorSet,
    Selection.instanceExtensionNames, Selection.deviceExtensionNames.
  cbv zeta.
  obeys_tac aborts_on_failure_closed ltac:(unfold aborts_on_failure; checked_leaf).
Qed.

(** X23.  The constructor of vulkan-sampler looks at every result it
    passes through [VK_CHECK_ERROR] on the spot: when one of these calls
    returns anything other than [VK_SUCCESS], the run ends at that very
    call, with the call and the value as the diagnostic, and no renderer
    is made. *)
Theorem sampler_constructor_checks_results (t : Trace)
    (o : Outcome (Sampler.VkRenderer * SamplerLoop.Members))
    (c : request) (a : Answer) :
  performs constructor_ t o ->
  In (c, a) t -> checked c = true -> status a <> VK_SUCCESS ->
  o = Aborted (check_error (vulkan c) (status a)) /\ exists t0, t = t0 ++ [(c, a)].
Proof.
  intros H Hin Hc Hne. apply in_split in Hin. destruct Hin as (t1 & t2 & ->).
  destruct (obeys_performs _ _ sampler_constructor_aborts_on_failure _ _ H t1 c a t2
              eq_refl) as (rest & HR & Hrest).
  rewrite (HR Hc Hne) in Hrest. apply setup_abort_inv in Hrest.
  destruct Hrest as [-> ->]. split; [reflexivity|]. exists t1. reflexivity.
Qed.

End SamplerChecked.

(** Under the driver that cannot create the swapchain, the run of the
    constructor ends at [vkCreateSwapchainKHR], with that call and
    [VK_ERROR_INITIALIZATION_FAILED] as the diagnostic. *)
Lemma sampler_constructor_checks_results_witness :
  snd SamplerConstruction.refused_run =
    Setup.Aborted
      (Setup.check_error
         (Setup.vulkan (fst (Bringup.last_call (fst SamplerConstruction.refused_run))))
         Diagnostics.VK_ERROR_INITIALIZATION_FAILED) /\
  exists t0, fst SamplerConstruction.refused_run =
             t0 ++ [(fst (Bringup.last_call (fst SamplerConstruction.refused_run)),
                     snd (Bringup.last_call (fst SamplerConstruction.refused_run)))].
Proof.
  apply (sampler_constructor_checks_results 1 2 [zero; zero; zero; zero]
           "vertex"%string "fragment"%string (fun _ => 97) (fun _ => 97)
           Bringup.compiler (fst SamplerConstruction.refused_run)
           (snd SamplerConstruction.refused_run)
           (fst (Bringup.last_call (fst SamplerConstruction.refused_run)))
           (snd (Bringup.last_call (fst SamplerConstruction.refused_run)))).
  - apply setup_run_performs.
  - vm_compute. in_list.
  - vm_compute. reflexivity.
  - vm_compute. discriminate.
Defined.
